(* ===== verification/_CoqProject ===== *)
-Q . S2P
Prelude.v
GoStd.v
GoText.v
NetLib.v
Elect.v
VSwitch.v
FramePool.v
Dhcp.v
DhcpServer.v
Config.v
Yaml.v
Icmp.v
Main.v
Segment.v
Transport.v
Wg.v
UnixSeq.v
Link.v
Stats.v
Conns.v
Wire.v
Rejoin.v
Instance.v
PortFwd.v
Pipe.v
Nat.v
Tunnel.v
Tap.v
FakeGuest.v
Fabric.v
Vdews.v
VdewsMain.v
Fleet.v
Succession.v
Program.v
Machine.v
