(* ===== verification/Prelude.v ===== *)
(** * A verification of vdeplug-go, the UML network plug

    vdeplug-go (src/vdeplug-go) is the program User-Mode Linux starts as its
    vector transport: it bridges one guest, whose Ethernet frames arrive on a
    SOCK_SEQPACKET descriptor, to an uplink (a gVisor netstack doing NAT, a
    host tap, or nothing). In switch mode the first instance on a machine takes the
    hub seat, owns the uplink, the switch, DHCP and the heartbeats; the others are
    peers that carry their guest's frames to the hub and fight for the seat when
    it dies. This development models the Go code of that program and proves what
    makes each part, and the parts together, correct.

    ** The parts, and the code they model

    - Prelude.v (this file): [go], the outcome of Go code that may panic;
      [result], Go's (value, error); slices, indexing and big-endian fields with
      their bounds checks; [returns m Q], "m does not panic and its value
      satisfies Q", with its rules and the tactics [go_step], [go_simpl].
    - GoStd.v: the functions of Go's strings, strconv and net packages the
      program calls (Split, Cut, TrimSpace, Atoi, ParseUint, ParseIP, ParseCIDR,
      To4, IP text), written out, with the round trips of decimal numbers and
      IPv4 texts. They are the language's standard library, not mapped code.
    - GoText.v: the same for text formats - hardware addresses, base64, bufio's line
      scanner, ToLower and Trim, the texts of addresses and networks, path cleaning.
    - NetLib.v: gVisor's [header] accessors as a class ([NetHeader]) with the field
      layouts the code relies on as laws ([NetHeaderLaws]); [RefHeader] is an
      instance that satisfies them, so the hypotheses are satisfiable.
    - Elect.v: internal/elect - the hub seat ([TryLock], [release], over a model of
      open(2), flock(2) and close(2)) and the heartbeat codec ([EncodeBeacon],
      [IsBeacon], [ParseBeacon]).
    - VSwitch.v: internal/vswitch - the learning switch with its port objects,
      bounded queues, writer goroutines and frame-buffer pool; FramePool.v: the recycled
      buffers as a store that queues and writers point into.
    - Dhcp.v and DhcpServer.v: internal/dhcp - the lease pool, and the server that
      answers DHCP frames; the DHCPv4 library is the class [DhcpLib].
    - Config.v and Yaml.v: internal/config - defaults, loading, port rules, vnl
      parameters; the yaml tags of the struct as a table of typed fields, over a class
      for the YAML decoder, and what a file and a vnl string together decide.
    - Icmp.v: internal/nat/icmp.go - the echo relay: parser, flow table, reply
      construction, Internet checksum.
    - Link.v: internal/link - the Ethernet endpoint of the guest link - and the
      seqpacket loops of internal/unixseq's connections.
    - Transport.v and UnixSeq.v: internal/transport (address grammar, TCP framing)
      and internal/unixseq (joining or binding the switch socket, over a model of
      the socket calls with injected failures and interference). Conns.v: the interface
      [transport.Conn] as the class [FrameConn] with its laws, a queue of frames with
      an end, and its two implementations, seqpacket and TCP, as instances.
    - Main.v: the sequential functions of main.go (arguments, MTU, socket path, the
      uplink's frame filter, the lease snapshot and cache). Segment.v: the hub's uplink as
      a port of its switch, from a guest's DHCP request to the reply. Stats.v: the
      lines dumpStats prints.
    - Wire.v: the goroutines of main.go that move frames (guest wire, hub readers,
      accept loop, a peer's reader and heartbeat watch, heartbeats). Rejoin.v: a peer's
      connections one after the other, over its descriptor table.
    - Fabric.v: hub and peers as one network - guest wires, connections (any
      [FrameConn]), hub readers, switch, queues, writers and peers of Wire.v and VSwitch.v
      composed, one step of one goroutine at a time.
    - Instance.v: what runInstance sets up (uplink, lease pool, DHCP, fallback).
    - PortFwd.v and Pipe.v: internal/portfwd - all-or-nothing start, the UDP relay's
      paths; the TCP accept loop and the two copies of a connection, which nat.go has too.
    - Nat.v: internal/nat/nat.go - address tables, routes, resolvers, the dispatch of
      connections and flows; gVisor's tcpip types are the class [Tcpip].
    - Wg.v and Tunnel.v: internal/wgup - the wg-quick parser and path resolution; the
      tunnel set-up as the trace of its calls, the device's configuration text, the bridge
      between device and netstack, the handshake watch, and how runInstance starts it.
    - Tap.v: internal/tap - the host tap's ioctl request, descriptor and frame calls.
    - FakeGuest.v and Vdews.v: the helper programs - the stand-in guest (ARP, echo,
      pinger) and the WebSocket bridge (token, pump, connect loop over UnixSeq.v);
      VdewsMain.v: the latter from its command line.
    - Program.v: main and runInstance as a whole - from the command line to the exit,
      the trace of what an instance does, composed of the parts above - and the tap's
      reader.
    - Fleet.v: the DISCOVER / PEER / HUB state machine of main.go for any number of
      instances on one machine, over the kernels of Elect.v and UnixSeq.v. Succession.v:
      the same machine with the lease tables its processes hold, send and inherit.
      Machine.v: the same machine whose hubs carry out the acts of Program.v.

    A definition has the name of the Go function or type it translates; a Go loop
    or closure has a name of its own and a comment that says which. A component's
    state is a record passed from call to call; a goroutine is a function of the
    results of its blocking calls, with the effect of the other goroutines between
    two turns as a parameter; time is a parameter in nanoseconds.

    ** What the theorems show

    - One hub: in every state that any interleaving of instances, crashes, failed
      calls and older binaries can reach, at most one instance holds the seat and
      only that one is bound ([Fleet.fleet_no_split_brain]); the fleet recovers
      from every such state ([Fleet.fleet_recovers]); joining or binding leaks no
      descriptor, replaces stale sockets only, and closing removes only one's own
      socket file (UnixSeq).
    - One uplink: at most one NAT or tap of the fleet is up at any time, the seat-holding
      hub's, and it is down before the seat is free ([Machine.one_uplink]).
    - The switch: every reachable state is well formed and no operation panics
      ([VSwitch.switch_reachable_safe]); forwarding refines an abstract learning
      bridge ([VSwitch.Forward_refines_bridge]).
    - Frames: the goroutines that move frames neither lose nor duplicate nor
      reorder them, and cannot crash the switch, because the buffers they read into
      are no larger than the switch's (Wire, Link); a connection of either family is a
      queue of frames ([Conns.conn_fifo]); sends from recycled buffers read what was
      queued ([FramePool.pool_transparent]).
    - The network: in every interleaving of a hub and its peers, a guest hears a
      subsequence of what the learning bridge owes it and all of it when nothing overflowed
      ([Fabric.fabric_delivers]); what is owed can always be delivered
      ([Fabric.fabric_drains]), and a heartbeat brings the lease table to the peers
      ([Fabric.fabric_gossip]). A peer has one reader as long as its hubs die rather than
      hang ([Rejoin.one_reader]).
    - Leases: no two clients share an address, the addresses are the network's own,
      and a failover is invisible to the guests, from the dead hub's pool through
      its heartbeat and the peer's cache to the promoted hub's pool
      ([Instance.failover_transparent]); over any succession of hubs no client is told
      two addresses and no two clients one, as long as each new hub had heard of the last
      new lease ([Succession.leases_survive]); such an instance takes over in three turns
      and confirms every lease ([Succession.successor_serves]); the heartbeat watch fires on silent hubs
      and on no others ([Wire.heartbeat_watch]).
    - Packets: DHCP answers, relayed pings and checksums are right on the wire, and
      the parsers are total (DhcpServer, Icmp, Elect); an answered client, and only it unless
      it asked for a broadcast, gets the answer on its port of the switch
      ([Segment.dhcp_reaches_client]).
    - Traffic: where the NAT dials each connection and flow ([Nat.nat_dispatch]),
      what its route covers, that port forwarding starts completely or not at all
      and returns UDP replies to their senders (PortFwd).
    - The tunnel: an accepted wg-quick file is well typed ([Wg.Parse_wf]) and means what
      its settings say ([Wg.Parse_settings]); the NAT dials into the tunnel exactly what the
      device allows ([Tunnel.tunnel_agreement]); each mode touches only what it
      should ([Tunnel.Attach_modes]); packets cross the bridge unchanged.
    - The whole instance: how the command line, config.yaml and the vnl become its
      configuration ([Program.main_starts]); its order of work from the set-up to the
      exit ([Program.instance_lifecycle], [Program.instance_ends]).
    - Helpers: a ping between stand-in guests is answered ([FakeGuest.ping_answered]), the
      NIC never panics, its checksum loop terminates and is the relay's; the token crosses
      any URL ([Vdews.token_roundtrip]) and lets in who has it and nobody else
      ([VdewsMain.vdews_ends_meet]), the bridge loses no frame while it lives and comes
      back when its socket file is taken away ([Vdews.connect_rebinds]).
    - Configuration: what port rules, vnl parameters, uplink names and command
      lines mean; which of default, file and vnl string decides each field
      ([Yaml.settings_decided]), when [Load] fails ([Yaml.Load_errors]), and where the file and
      the string agree ([Yaml.file_vnl_agree]).
    - Defects: the theorems that exhibit one evaluate the run that shows it (stale
      port removal, oversized frames, malformed DHCP frames, broken UDP paths,
      failover with more than 32 leases, a tunnel that fails to attach, a lost tunnel
      address, a failed accept, a reader that outlives its connection, forged heartbeats,
      a lease granted in a hub's last second, and the lemmas next to them).

    ** Bounds and fuel

    Loops recurse on the data they walk. The exceptions: [VSwitch.lowestFree] has
    fuel [MaxPeers], the bound of the Go loop; [Icmp.foldLoop] has fuel 3, and
    [Icmp.foldLoop_fuel] shows that a 32-bit sum needs no more; decimal printing in
    GoStd.v has fuel 20, the digits of a 64-bit integer
    ([GoStd.ParseUint_Itoa]); [Transport.recvAll] takes a step per frame, and the
    round trip shows that one more than the number of frames is enough;
    [FakeGuest.sumLoop] has the length of the packet as fuel, and
    [FakeGuest.checksum_terminates] shows that the two turns of [FakeGuest.fold] are
    all its loop takes. Integers
    that wrap in Go wrap in the model ([u16], [u32], [Link.u64]);
    Go's 64-bit int is Z where the code cannot reach its bounds.

    ** What is not modelled

    The log lines other than dumpStats' and the printing and round-trip times of the
    helpers; gVisor's stack, wireguard-go, the YAML decoder, the WebSocket library,
    net/http's server with its routing and the DHCPv4 codec beyond the laws of their
    classes or the answers they give (they are third-party or library code); key
    generation for tests (crypto/rand); [dadOff], which only passes a setting to the stack;
    the accessors that return a nil file or an internal channel. The memory model: every
    method of a mutex-protected object is one step. Network-level behaviour of the stack (TCP, ARP resolution, IPv6) is gVisor's
    and is not described. The kernel's part of a connection is that of Conns.v: a send
    to an open connection is accepted (a full socket buffer blocks the sender, which is
    the sender's step not taken yet), data arrives in order, and a close is seen after
    what was sent before it; Rejoin.v adds that socket(2) takes the lowest free number
    and that close(2) does not wake a blocked reader. Left to a composition
    on paper: a run of the whole fleet in which every hub has its own network of
    Fabric.v. Succession.v sends heartbeats over a queue per peer instead, which is
    what Fabric.v shows the network to be. *)
From Stdlib Require Export ZArith Lia String Ascii.
From stdpp Require Export base gmap sets list strings.
#[global] Open Scope Z_scope.
#[global] Set Default Goal Selector "!".

(** ** Outcomes of Go code

    [go A] is the outcome of a piece of Go code that may panic (an index or a
    slice bound out of range); [result A] is Go's [(A, error)] return. *)

Inductive go (A : Type) : Type :=
| Done (a : A)
| Panic.
Arguments Done {_} _.
Arguments Panic {_}.

#[export] Instance go_ret : MRet go := @Done.
#[export] Instance go_bind : MBind go := fun A B f m =>
  match m with Done a => f a | Panic => Panic end.
#[export] Instance go_fmap : FMap go := fun A B f m =>
  match m with Done a => Done (f a) | Panic => Panic end.

Inductive result (A : Type) : Type :=
| Ok (a : A)
| Err (e : string).
Arguments Ok {_} _.
Arguments Err {_} _.

#[export] Instance result_ret : MRet result := @Ok.
#[export] Instance result_bind : MBind result := fun A B f m =>
  match m with Ok a => f a | Err e => Err e end.
#[export] Instance result_eq_dec `{EqDecision A} : EqDecision (result A).
Proof. solve_decision. Defined.
#[export] Instance go_eq_dec `{EqDecision A} : EqDecision (go A).
Proof. solve_decision. Defined.

Definition is_Ok {A} (r : result A) : Prop := exists a, r = Ok a.
Definition no_panic {A} (m : go A) : Prop := exists a, m = Done a.

(** ** Bytes, slices and big-endian integers *)

Abbreviation bytes := (list Z).

Definition is_byte (x : Z) : Prop := 0 <= x < 256.
Definition wf_bytes (b : bytes) : Prop := Forall is_byte b.

(** Go's [len]. *)
Definition len {A} (b : list A) : Z := Z.of_nat (length b).

(** [b[i]]. *)
Definition idx {A} (b : list A) (i : Z) : go A :=
  if 0 <=? i then
    match b !! Z.to_nat i with Some x => Done x | None => Panic end
  else Panic.

(** [b[lo:hi]], for a slice whose capacity is its length. *)
Definition slice {A} (b : list A) (lo hi : Z) : go (list A) :=
  if (0 <=? lo) && (lo <=? hi) && (hi <=? len b)
  then Done (take (Z.to_nat (hi - lo)) (drop (Z.to_nat lo) b))
  else Panic.

(** [b[lo:]]. *)
Definition slice_from {A} (b : list A) (lo : Z) : go (list A) := slice b lo (len b).

(** [copy(dst[off:], src)]: the bytes that fit are overwritten. *)
Definition copy_at {A} (off : nat) (src dst : list A) : list A :=
  take off dst ++ take (length dst - off) src ++ drop (off + length src) dst.

(** [binary.BigEndian.Uint16] and [Uint32] (they panic on a short slice). *)
Definition be16 (b : bytes) : go Z :=
  b1 ← idx b 1; b0 ← idx b 0; Done (Z.lor b1 (Z.shiftl b0 8)).

Definition be32 (b : bytes) : go Z :=
  b3 ← idx b 3; b2 ← idx b 2; b1 ← idx b 1; b0 ← idx b 0;
  Done (Z.lor (Z.lor (Z.lor b3 (Z.shiftl b2 8)) (Z.shiftl b1 16)) (Z.shiftl b0 24)).

(** The bytes [binary.BigEndian.PutUint16] and [PutUint32] store. *)
Definition put16 (v : Z) : bytes := [Z.land (Z.shiftr v 8) 255; Z.land v 255].
Definition put32 (v : Z) : bytes :=
  [Z.land (Z.shiftr v 24) 255; Z.land (Z.shiftr v 16) 255;
   Z.land (Z.shiftr v 8) 255; Z.land v 255].

Definition zeros (n : nat) : bytes := replicate n 0.

(** Fixed-width arithmetic. *)
Definition u16 (x : Z) : Z := x mod 2 ^ 16.
Definition u32 (x : Z) : Z := x mod 2 ^ 32.

(** The bytes of a Go string. *)
Definition bytes_of_string (s : string) : bytes :=
  (fun c => Z.of_N (N_of_ascii c)) <$> list_ascii_of_string s.

(** ** Lemmas on lengths *)

Create Rewrite HintDb golen.
Create HintDb gosem.

Lemma len_nonneg {A} (b : list A) : 0 <= len b.
Proof. unfold len. lia. Qed.
Lemma len_nil {A} : len (@nil A) = 0.
Proof. done. Qed.
Lemma len_cons {A} (x : A) b : len (x :: b) = len b + 1.
Proof. unfold len. cbn [length]. lia. Qed.
Lemma len_app {A} (a b : list A) : len (a ++ b) = len a + len b.
Proof. unfold len. rewrite length_app. lia. Qed.
Lemma len_of_length {A} (b : list A) (n : nat) : length b = n -> len b = Z.of_nat n.
Proof. by intros <-. Qed.
Lemma len_take {A} (b : list A) (n : nat) :
  Z.of_nat n <= len b -> len (take n b) = Z.of_nat n.
Proof. unfold len. rewrite length_take. lia. Qed.
Lemma len_drop {A} (b : list A) (n : nat) :
  Z.of_nat n <= len b -> len (drop n b) = len b - Z.of_nat n.
Proof. unfold len. rewrite length_drop. lia. Qed.
Lemma len_zeros n : len (zeros n) = Z.of_nat n.
Proof. unfold len, zeros. by rewrite length_replicate. Qed.

Lemma length_zeros n : length (zeros n) = n.
Proof. apply length_replicate. Qed.

#[export] Hint Rewrite length_zeros @len_nil @len_cons @len_app len_zeros @length_app
  @length_take @length_drop @length_replicate : golen.

(** Splitting a list at a known length. *)
Lemma take_app_eq {A} (n : nat) (a b : list A) : n = length a -> take n (a ++ b) = a.
Proof. intros ->. by rewrite take_app_length. Qed.
Lemma drop_app_eq {A} (n : nat) (a b : list A) : n = length a -> drop n (a ++ b) = b.
Proof. intros ->. by rewrite drop_app_length. Qed.

(** Cut a list after [n] elements. *)
Lemma split_at {A} n (l : list A) :
  (n <= length l)%nat -> exists a b, l = a ++ b /\ length a = n.
Proof.
  intros. exists (take n l), (drop n l). by rewrite take_drop, length_take_le.
Qed.

Lemma length_2_inv {A} (m : list A) : length m = 2%nat -> exists a b, m = [a; b].
Proof. intros H. do 3 (destruct m as [|? m]; try discriminate). by eauto. Qed.
Lemma length_6_inv {A} (m : list A) :
  length m = 6%nat -> exists a b c d e f, m = [a; b; c; d; e; f].
Proof. intros H. do 7 (destruct m as [|? m]; try discriminate). by eauto 10. Qed.
Lemma length_4_inv {A} (m : list A) :
  length m = 4%nat -> exists a b c d, m = [a; b; c; d].
Proof. intros H. do 5 (destruct m as [|? m]; try discriminate). by eauto 10. Qed.

(** ** A program logic for possibly panicking code

    [returns m Q]: [m] does not panic and its value satisfies [Q]. *)

Definition returns {A} (m : go A) (Q : A -> Prop) : Prop := exists a, m = Done a /\ Q a.

Lemma returns_done {A} (a : A) (Q : A -> Prop) : Q a -> returns (Done a) Q.
Proof. intros; by exists a. Qed.
Lemma returns_bind {A B} (m : go A) (f : A -> go B) Q :
  returns m (fun a => returns (f a) Q) -> returns (m ≫= f) Q.
Proof. intros (a & -> & HQ). done. Qed.
Lemma returns_fmap {A B} (m : go A) (f : A -> B) Q :
  returns m (fun a => Q (f a)) -> returns (f <$> m) Q.
Proof. intros (a & -> & HQ). by exists (f a). Qed.
Lemma returns_mono {A} (m : go A) (P Q : A -> Prop) :
  (forall a, P a -> Q a) -> returns m P -> returns m Q.
Proof. intros H (a & -> & HP). exists a; auto. Qed.
Lemma returns_no_panic {A} (m : go A) Q : returns m Q -> no_panic m.
Proof. intros (a & -> & _). by exists a. Qed.
Lemma returns_if {A} (c : bool) (m1 m2 : go A) Q :
  (c = true -> returns m1 Q) -> (c = false -> returns m2 Q) ->
  returns (if c then m1 else m2) Q.
Proof. destruct c; auto. Qed.
Lemma returns_inv {A} (m : go A) Q a : returns m Q -> m = Done a -> Q a.
Proof. intros (a' & -> & HQ) [= ->]. done. Qed.

Lemma idx_lookup {A} (b : list A) i x :
  0 <= i -> b !! Z.to_nat i = Some x -> idx b i = Done x.
Proof. intros Hi Hx. unfold idx. rewrite (proj2 (Z.leb_le 0 i)) by done. by rewrite Hx. Qed.

Lemma returns_idx {A} (b : list A) i (Q : A -> Prop) :
  0 <= i < len b ->
  (forall x, b !! Z.to_nat i = Some x -> Q x) ->
  returns (idx b i) Q.
Proof.
  intros Hi HQ. unfold len in Hi.
  destruct (lookup_lt_is_Some_2 b (Z.to_nat i)) as [x Hx]; [lia|].
  exists x. split; [apply idx_lookup; [lia|done] | auto].
Qed.

Lemma slice_eq {A} (b : list A) lo hi :
  0 <= lo <= hi -> hi <= len b ->
  slice b lo hi = Done (take (Z.to_nat (hi - lo)) (drop (Z.to_nat lo) b)).
Proof.
  intros Hlo Hhi. unfold slice.
  destruct (Z.leb_spec 0 lo); [|lia]. destruct (Z.leb_spec lo hi); [|lia].
  by destruct (Z.leb_spec hi (len b)); [|lia].
Qed.

Lemma returns_slice {A} (b : list A) lo hi (Q : list A -> Prop) :
  0 <= lo <= hi -> hi <= len b ->
  (forall s, s = take (Z.to_nat (hi - lo)) (drop (Z.to_nat lo) b) ->
     len s = hi - lo -> Q s) ->
  returns (slice b lo hi) Q.
Proof.
  intros Hlo Hhi HQ. rewrite slice_eq by done. apply returns_done, HQ; [done|].
  rewrite len_take; [lia|]. rewrite len_drop; lia.
Qed.

(** The middle of a concatenation. *)
Lemma slice_app {A} (a b c : list A) lo hi :
  lo = len a -> hi = len a + len b -> slice (a ++ b ++ c) lo hi = Done b.
Proof.
  intros -> ->. pose proof (len_nonneg a). pose proof (len_nonneg b).
  pose proof (len_nonneg c).
  rewrite slice_eq by (rewrite ?len_app; lia). f_equal.
  rewrite drop_app_eq by (unfold len; lia). by rewrite take_app_eq by (unfold len; lia).
Qed.

Lemma slice_app_start {A} (a b : list A) hi : hi = len a -> slice (a ++ b) 0 hi = Done a.
Proof. intros ->. by apply (slice_app [] a b). Qed.

Lemma slice_app_end {A} (a b : list A) lo hi :
  lo = len a -> hi = len a + len b -> slice (a ++ b) lo hi = Done b.
Proof.
  intros. replace (a ++ b) with (a ++ b ++ []) by by rewrite app_nil_r.
  by apply slice_app.
Qed.

(** A read inside a prefix does not see what follows it. *)
Lemma slice_prefix {A} (a b : list A) lo hi : hi <= len a -> slice (a ++ b) lo hi = slice a lo hi.
Proof.
  intros Hhi. unfold slice. rewrite len_app. pose proof (len_nonneg b).
  destruct (Z.leb_spec hi (len a + len b)), (Z.leb_spec hi (len a)); try lia.
  destruct (Z.leb_spec 0 lo), (Z.leb_spec lo hi); try done. cbn. f_equal.
  unfold len in *. rewrite drop_app_le by lia. rewrite take_app_le; [done|].
  rewrite length_drop. lia.
Qed.

Lemma idx_prefix {A} (a b : list A) i : i < len a -> idx (a ++ b) i = idx a i.
Proof.
  intros Hi. unfold idx. destruct (Z.leb_spec 0 i); [|done].
  by rewrite lookup_app_l by (unfold len in Hi; lia).
Qed.

Lemma slice_from_app {A} (a b : list A) lo : lo = len a -> slice_from (a ++ b) lo = Done b.
Proof. intros ->. apply slice_app_end; [done|]. by rewrite len_app. Qed.

Lemma slice_from_eq {A} (b : list A) lo :
  0 <= lo <= len b -> slice_from b lo = Done (drop (Z.to_nat lo) b).
Proof.
  intros Hlo. unfold slice_from. rewrite slice_eq by lia. f_equal.
  apply take_ge. rewrite length_drop. unfold len in *. lia.
Qed.

Lemma slice_panic {A} (b : list A) lo hi : len b < hi \/ hi < lo -> slice b lo hi = Panic.
Proof.
  intros H. unfold slice.
  destruct (Z.leb_spec 0 lo), (Z.leb_spec lo hi), (Z.leb_spec hi (len b)); try done; lia.
Qed.

Lemma land_15_range v : 0 <= Z.land v 15 <= 15.
Proof.
  change 15 with (Z.ones 4) at 1 2. rewrite Z.land_ones by lia.
  pose proof (Z.mod_pos_bound v (2 ^ 4)). lia.
Qed.

Lemma wf_bytes_lookup b i x : wf_bytes b -> b !! i = Some x -> is_byte x.
Proof. intros H Hx. by eapply Forall_lookup_1 in Hx. Qed.
Lemma wf_bytes_take n b : wf_bytes b -> wf_bytes (take n b).
Proof. apply Forall_take. Qed.
Lemma wf_bytes_drop n b : wf_bytes b -> wf_bytes (drop n b).
Proof. apply Forall_drop. Qed.
Lemma wf_bytes_app a b : wf_bytes a -> wf_bytes b -> wf_bytes (a ++ b).
Proof. intros. by apply Forall_app_2. Qed.
Lemma wf_zeros n : wf_bytes (zeros n).
Proof. apply Forall_replicate. unfold is_byte. lia. Qed.

#[export] Hint Resolve wf_bytes_take wf_bytes_drop wf_bytes_app wf_zeros : gosem.

(** ** Big-endian encodings *)

Lemma lor_shiftl_add x y n :
  0 <= n -> 0 <= x < 2 ^ n -> Z.lor x (Z.shiftl y n) = x + y * 2 ^ n.
Proof.
  intros Hn Hx.
  assert (Hland : Z.land x (Z.shiftl y n) = 0).
  { apply Z.bits_inj'. intros k Hk. rewrite Z.land_spec, Z.bits_0.
    destruct (Z.lt_ge_cases k n).
    - rewrite Z.shiftl_spec_low by done. apply andb_false_r.
    - rewrite <- (Z.mod_small x (2 ^ n)) by done.
      by rewrite Z.mod_pow2_bits_high by lia. }
  rewrite <- Z.shiftl_mul_pow2 by done.
  by rewrite <- Z.lxor_lor, <- Z.add_nocarry_lxor by done.
Qed.

Lemma land_255 x : Z.land x 255 = x mod 256.
Proof. change 255 with (Z.ones 8). by rewrite Z.land_ones. Qed.

(** The group bit of a MAC address. *)
Lemma land_1_odd x : Z.land x 1 = if Z.odd x then 1 else 0.
Proof. change 1 with (Z.ones 1) at 1. rewrite Z.land_ones by done. apply Zmod_odd. Qed.

Lemma be16_cons x y rest : is_byte y -> be16 (x :: y :: rest) = Done (x * 256 + y).
Proof.
  intros Hy. change (be16 (x :: y :: rest)) with (Done (Z.lor y (Z.shiftl x 8))).
  rewrite lor_shiftl_add by (unfold is_byte in Hy; lia). f_equal. lia.
Qed.

Lemma be32_cons a b c d rest :
  is_byte b -> is_byte c -> is_byte d ->
  be32 (a :: b :: c :: d :: rest) = Done (a * 2 ^ 24 + b * 2 ^ 16 + c * 2 ^ 8 + d).
Proof.
  unfold is_byte. intros.
  change (be32 (a :: b :: c :: d :: rest)) with
    (Done (Z.lor (Z.lor (Z.lor d (Z.shiftl c 8)) (Z.shiftl b 16)) (Z.shiftl a 24))).
  rewrite (lor_shiftl_add d c 8), (lor_shiftl_add _ b 16), (lor_shiftl_add _ a 24) by lia.
  f_equal. lia.
Qed.

Lemma is_byte_mod x : is_byte (x mod 256).
Proof. apply Z.mod_pos_bound. lia. Qed.

Lemma put16_be16 v rest : 0 <= v < 2 ^ 16 -> be16 (put16 v ++ rest) = Done v.
Proof.
  intros Hv. unfold put16. cbn [app]. rewrite !land_255, Z.shiftr_div_pow2 by lia.
  rewrite be16_cons by apply is_byte_mod. f_equal.
  rewrite (Z.mod_small (v / 2 ^ 8)) by (split; [apply Z.div_pos; lia|apply Z.div_lt_upper_bound; lia]).
  change (2 ^ 8) with 256. pose proof (Z.div_mod v 256). lia.
Qed.

Lemma put32_be32 v rest : 0 <= v < 2 ^ 32 -> be32 (put32 v ++ rest) = Done v.
Proof.
  intros Hv. unfold put32. cbn [app]. rewrite !land_255, !Z.shiftr_div_pow2 by lia.
  rewrite be32_cons by apply is_byte_mod. f_equal.
  change (2 ^ 24) with (256 * 256 * 256). change (2 ^ 16) with (256 * 256).
  change (2 ^ 8) with 256. rewrite <- !Z.div_div by lia.
  pose proof (Z.div_mod v 256). pose proof (Z.div_mod (v / 256) 256).
  pose proof (Z.div_mod (v / 256 / 256) 256).
  rewrite (Z.mod_small (v / 256 / 256 / 256)); [lia|].
  rewrite !Z.div_div by lia. split; [apply Z.div_pos; lia|apply Z.div_lt_upper_bound; lia].
Qed.

(** Four (two) bytes are the encoding of the integer they decode to. *)
Lemma be16_put16_inv c :
  length c = 2%nat -> wf_bytes c ->
  exists n, 0 <= n < 2 ^ 16 /\ c = put16 n /\ be16 c = Done n.
Proof.
  intros (x & y & ->)%length_2_inv. unfold wf_bytes. rewrite !Forall_cons. unfold is_byte.
  intros (Hx & Hy & _). exists (x * 256 + y). rewrite be16_cons by done.
  split; [lia|]. split; [|done]. unfold put16. rewrite !land_255, Z.shiftr_div_pow2 by lia.
  change (2 ^ 8) with 256.
  rewrite Z.div_add_l, (Z.div_small y), (Z.add_comm _ y), Z.mod_add, !Z.mod_small by lia.
  do 2 f_equal; lia.
Qed.

Lemma be32_put32_inv s :
  length s = 4%nat -> wf_bytes s ->
  exists n, 0 <= n < 2 ^ 32 /\ s = put32 n /\ be32 s = Done n.
Proof.
  intros (a & b & c & d & ->)%length_4_inv. unfold wf_bytes. rewrite !Forall_cons.
  unfold is_byte. intros (Ha & Hb & Hc & Hd & _).
  exists (a * 2 ^ 24 + b * 2 ^ 16 + c * 2 ^ 8 + d). rewrite be32_cons by done.
  split; [lia|]. split; [|done]. unfold put32. rewrite !land_255, !Z.shiftr_div_pow2 by lia.
  assert (E24 : (a * 2 ^ 24 + b * 2 ^ 16 + c * 2 ^ 8 + d) / 2 ^ 24 = a)
    by (symmetry; apply (Z.div_unique_pos _ _ _ (b * 2 ^ 16 + c * 2 ^ 8 + d)); lia).
  assert (E16 : (a * 2 ^ 24 + b * 2 ^ 16 + c * 2 ^ 8 + d) / 2 ^ 16 = b + a * 256)
    by (symmetry; apply (Z.div_unique_pos _ _ _ (c * 2 ^ 8 + d)); lia).
  assert (E8 : (a * 2 ^ 24 + b * 2 ^ 16 + c * 2 ^ 8 + d) / 2 ^ 8 = c + (a * 2 ^ 8 + b) * 256)
    by (symmetry; apply (Z.div_unique_pos _ _ _ d); lia).
  rewrite E24, E16, E8, !Z.mod_add by lia.
  replace (a * 2 ^ 24 + b * 2 ^ 16 + c * 2 ^ 8 + d)
    with (d + (a * 2 ^ 16 + b * 2 ^ 8 + c) * 256) by lia.
  by rewrite Z.mod_add, !Z.mod_small by lia.
Qed.

Lemma wf_put16 v : wf_bytes (put16 v).
Proof. unfold put16. rewrite !land_255. repeat constructor; apply is_byte_mod. Qed.
Lemma wf_put32 v : wf_bytes (put32 v).
Proof. unfold put32. rewrite !land_255. repeat constructor; apply is_byte_mod. Qed.
Lemma len_put16 v : len (put16 v) = 2.
Proof. done. Qed.
Lemma len_put32 v : len (put32 v) = 4.
Proof. done. Qed.

(** Every 16-bit read of well-formed bytes is in range. *)
Lemma returns_be16 b (Q : Z -> Prop) :
  wf_bytes b -> 2 <= len b ->
  (forall x y rest, b = x :: y :: rest -> 0 <= x * 256 + y < 2 ^ 16 -> Q (x * 256 + y)) ->
  returns (be16 b) Q.
Proof.
  intros Hwf Hlen HQ. destruct b as [|x [|y rest]]; [by cbn in Hlen..|].
  inversion Hwf as [|?? Hx Hwf']; subst. inversion Hwf' as [|?? Hy _]; subst.
  rewrite be16_cons by done. apply returns_done, (HQ x y rest); [done|].
  unfold is_byte in *. lia.
Qed.

Lemma returns_be32 b (Q : Z -> Prop) :
  wf_bytes b -> 4 <= len b ->
  (forall v, 0 <= v < 2 ^ 32 -> Q v) -> returns (be32 b) Q.
Proof.
  intros Hwf Hlen HQ. destruct b as [|x [|y [|z [|w rest]]]]; [by cbn in Hlen..|].
  unfold wf_bytes in Hwf. rewrite !Forall_cons in Hwf. destruct Hwf as (Hx & Hy & Hz & Hw & _).
  rewrite be32_cons by done. apply returns_done, HQ. unfold is_byte in *. lia.
Qed.

#[export] Hint Resolve wf_put16 wf_put32 : gosem.

(** ** Writing into buffers *)

Lemma copy_at_mid {A} (a b c src : list A) off :
  off = length a -> length b = length src -> copy_at off src (a ++ b ++ c) = a ++ src ++ c.
Proof.
  intros -> Hb. unfold copy_at. rewrite take_app_length.
  rewrite take_ge by (rewrite !length_app; lia).
  do 2 f_equal. rewrite (app_assoc a b c). apply drop_app_eq. rewrite length_app. lia.
Qed.

Lemma length_copy_at {A} off (src dst : list A) :
  (off <= length dst)%nat -> length (copy_at off src dst) = length dst.
Proof.
  intros. unfold copy_at. rewrite !length_app, !length_take, length_drop. lia.
Qed.

Lemma wf_copy_at off src dst : wf_bytes src -> wf_bytes dst -> wf_bytes (copy_at off src dst).
Proof. intros. unfold copy_at. auto 10 with gosem. Qed.
#[export] Hint Resolve wf_copy_at : gosem.

(** Reads of a field never panic inside the slice, whatever the bytes. *)
Lemma be16_field b lo hi :
  0 <= lo -> hi = lo + 2 -> hi <= len b -> exists v, (slice b lo hi ≫= be16) = Done v.
Proof.
  intros H0 -> H2. rewrite slice_eq by lia. replace (Z.to_nat (lo + 2 - lo)) with 2%nat by lia.
  assert (Hl : (2 <= length (drop (Z.to_nat lo) b))%nat)
    by (rewrite length_drop; unfold len in H2; lia).
  destruct (drop (Z.to_nat lo) b) as [|x [|y r]]; cbn [length] in Hl; try lia. by eexists.
Qed.
Lemma be32_field b lo hi :
  0 <= lo -> hi = lo + 4 -> hi <= len b -> exists v, (slice b lo hi ≫= be32) = Done v.
Proof.
  intros H0 -> H2. rewrite slice_eq by lia. replace (Z.to_nat (lo + 4 - lo)) with 4%nat by lia.
  assert (Hl : (4 <= length (drop (Z.to_nat lo) b))%nat)
    by (rewrite length_drop; unfold len in H2; lia).
  destruct (drop (Z.to_nat lo) b) as [|x [|y [|z [|w r]]]]; cbn [length] in Hl; try lia. by eexists.
Qed.

(** ** Tactics *)

(** Run the binds whose left-hand side is already a value. *)
Ltac go_simpl := cbn [mbind go_bind mret go_ret fmap go_fmap negb orb andb result_bind].

(** Right-nested appends, with conses outside. *)
Ltac app_norm := repeat first [progress cbn [app] | progress rewrite <- ?app_assoc].

(** One step of the [returns] logic. *)
Ltac go_step :=
  lazymatch goal with
  | |- returns (_ ≫= _) _ => apply returns_bind
  | |- returns (mret _) _ => apply returns_done
  | |- returns (Done _) _ => apply returns_done
  | |- returns (_ <$> _) _ => apply returns_fmap
  | |- returns (idx _ _) _ => apply returns_idx; [|intros ? ?]
  | |- returns (slice _ _ _) _ => apply returns_slice; [| |intros ? ? ?]
  | |- returns (slice_from _ _) _ => unfold slice_from; apply returns_slice; [| |intros ? ? ?]
  | |- returns (be16 _) _ => apply returns_be16; [| |intros ? ? ? ? ?]
  | |- returns (be32 _) _ => apply returns_be32; [| |intros ? ?]
  | |- returns (if _ then _ else _) _ => apply returns_if; intros ?
  end.

(** Turn boolean tests in the hypotheses into arithmetic facts. *)
Ltac bool_arith :=
  repeat match goal with
  | H : (_ <? _) = true |- _ => apply Z.ltb_lt in H
  | H : (_ <? _) = false |- _ => apply Z.ltb_ge in H
  | H : (_ <=? _) = true |- _ => apply Z.leb_le in H
  | H : (_ <=? _) = false |- _ => apply Z.leb_gt in H
  | H : (_ =? _) = true |- _ => apply Z.eqb_eq in H
  | H : (_ =? _) = false |- _ => apply Z.eqb_neq in H
  | H : negb _ = true |- _ => apply negb_true_iff in H
  | H : negb _ = false |- _ => apply negb_false_iff in H
  | H : _ && _ = true |- _ => apply andb_true_iff in H as [? ?]
  | H : _ || _ = false |- _ => apply orb_false_iff in H as [? ?]
  end.
