(* ===== verification/GoStd.v ===== *)
(** * GoStd: the parts of Go's standard library the program uses

    [strings] (Split, Cut, TrimSpace, ...), [strconv] (Atoi, ParseUint, Itoa)
    and [net] (ParseIP, ParseCIDR, IP.To4, IP.String, SplitHostPort), as Go
    defines them, on byte strings. An IP is Go's byte slice: 4 or 16 bytes, and
    the empty list for nil. *)
From S2P Require Import Prelude.

(** ** Characters and strings *)

Definition code (c : ascii) : Z := Z.of_N (N_of_ascii c).
Definition chr (z : Z) : ascii := ascii_of_N (Z.to_N z).

Definition isDigit (c : ascii) : bool := (48 <=? code c) && (code c <=? 57).
Definition digitVal (c : ascii) : Z := code c - 48.

(** [strings.HasPrefix], [strings.CutPrefix]. *)
Definition HasPrefix (s p : string) : bool := String.prefix p s.

Fixpoint CutPrefix (s p : string) : option string :=
  match p, s with
  | EmptyString, _ => Some s
  | String a p', String b s' => if Ascii.eqb a b then CutPrefix s' p' else None
  | String _ _, EmptyString => None
  end.

(** [strings.Cut] at a one-byte separator. *)
Fixpoint Cut (sep : ascii) (s : string) : option (string * string) :=
  match s with
  | EmptyString => None
  | String c s' =>
      if Ascii.eqb c sep then Some (EmptyString, s')
      else match Cut sep s' with
           | Some (before, after) => Some (String c before, after)
           | None => None
           end
  end.

Fixpoint containsByte (c : ascii) (s : string) : bool :=
  match s with
  | EmptyString => false
  | String a s' => Ascii.eqb a c || containsByte c s'
  end.

(** [strings.Split] at a one-byte separator; never empty. *)
Fixpoint Split (sep : ascii) (s : string) : list string :=
  match s with
  | EmptyString => [EmptyString]
  | String c s' =>
      if Ascii.eqb c sep then EmptyString :: Split sep s'
      else match Split sep s' with
           | w :: ws => String c w :: ws
           | [] => [String c EmptyString]
           end
  end.

Fixpoint rev_string (s acc : string) : string :=
  match s with
  | EmptyString => acc
  | String c s' => rev_string s' (String c acc)
  end.

(** The UTF-8 encodings of the runes of [unicode.IsSpace]. *)
Definition spaceRunes : list (list Z) :=
  [[9]; [10]; [11]; [12]; [13]; [32]; [0xC2; 0x85]; [0xC2; 0xA0]; [0xE1; 0x9A; 0x80]] ++
  ((fun x => [0xE2; 0x80; x]) <$>
     [0x80; 0x81; 0x82; 0x83; 0x84; 0x85; 0x86; 0x87; 0x88; 0x89; 0x8A; 0xA8; 0xA9; 0xAF]) ++
  [[0xE2; 0x81; 0x9F]; [0xE3; 0x80; 0x80]].

Definition string_of_bytes (b : bytes) : string := string_of_list_ascii (chr <$> b).

Fixpoint cutAnyPrefix (s : string) (ps : list string) : option string :=
  match ps with
  | [] => None
  | p :: ps => match CutPrefix s p with Some r => Some r | None => cutAnyPrefix s ps end
  end.

Fixpoint trimLeft (fuel : nat) (ps : list string) (s : string) : string :=
  match fuel with
  | O => s
  | S fuel => match cutAnyPrefix s ps with Some r => trimLeft fuel ps r | None => s end
  end.

Definition spaces : list string := string_of_bytes <$> spaceRunes.
Definition spacesRev : list string := (fun r => string_of_bytes (reverse r)) <$> spaceRunes.

(** [strings.TrimSpace]: every strip shortens the string, so its length is
    fuel enough. *)
Definition TrimSpace (s : string) : string :=
  let s := trimLeft (String.length s) spaces s in
  rev_string (trimLeft (String.length s) spacesRev (rev_string s "")) "".

(** [strings.Fields]: the maximal runs without white space. The fuel is the
    length of the string; [cur] is the run being read. *)
Fixpoint fieldsFrom (fuel : nat) (s cur : string) : list string :=
  let flush rest := if String.eqb cur "" then rest else cur :: rest in
  match fuel with
  | O => flush []
  | S fuel =>
      match cutAnyPrefix s spaces with
      | Some rest => flush (fieldsFrom fuel rest "")
      | None =>
          match s with
          | EmptyString => flush []
          | String c rest => fieldsFrom fuel rest (cur +:+ String c "")%string
          end
      end
  end.
Definition Fields (s : string) : list string := fieldsFrom (String.length s) s "".

(** ** strconv *)

Fixpoint parseDigits (acc : Z) (s : string) : option Z :=
  match s with
  | EmptyString => Some acc
  | String c s' => if isDigit c then parseDigits (acc * 10 + digitVal c) s' else None
  end.

(** [strconv.ParseUint(s, 10, bits)]; every error is [None]. *)
Definition ParseUint (s : string) (bits : Z) : option Z :=
  match s with
  | EmptyString => None
  | _ => v ← parseDigits 0 s; if v <? 2 ^ bits then Some v else None
  end.

(** [strconv.Atoi] on a 64-bit int. *)
Definition Atoi (s : string) : option Z :=
  let number s := match s with EmptyString => None | _ => parseDigits 0 s end in
  match s with
  | String c s' =>
      if Ascii.eqb c "-" then v ← number s'; if v <=? 2 ^ 63 then Some (- v) else None
      else
        v ← number (if Ascii.eqb c "+" then s' else s);
        if v <? 2 ^ 63 then Some v else None
  | EmptyString => None
  end.

Fixpoint itoaFuel (fuel : nat) (n : Z) (acc : string) : string :=
  match fuel with
  | O => acc
  | S fuel =>
      let acc := String (chr (48 + n mod 10)) acc in
      if n <? 10 then acc else itoaFuel fuel (n / 10) acc
  end.

(** [strconv.Itoa]; 20 digits hold every 64-bit int. *)
Definition Itoa (n : Z) : string :=
  if n <? 0 then String "-" (itoaFuel 20 (- n) "") else itoaFuel 20 n "".

(** ** net: addresses *)

Definition v4Prefix : bytes := zeros 10 ++ [255; 255].

(** [IP.To4] and [IP.To16]; nil is the empty list. *)
Definition To4 (ip : bytes) : bytes :=
  if (length ip =? 4)%nat then ip
  else if (length ip =? 16)%nat && bool_decide (take 12 ip = v4Prefix) then drop 12 ip
  else [].

Definition To16 (ip : bytes) : bytes :=
  if (length ip =? 4)%nat then v4Prefix ++ ip
  else if (length ip =? 16)%nat then ip else [].

(** netip's dotted-quad parser: [val], [digLen] and the octets so far. *)
Fixpoint v4Loop (s : string) (val digLen : Z) (fields : bytes) : option bytes :=
  match s with
  | EmptyString =>
      if digLen =? 0 then None
      else if (length fields =? 3)%nat then Some (fields ++ [val]) else None
  | String c s' =>
      if isDigit c then
        if (digLen =? 1) && (val =? 0) then None
        else
          let val := val * 10 + digitVal c in
          if 255 <? val then None else v4Loop s' val (digLen + 1) fields
      else if Ascii.eqb c "." then
        if digLen =? 0 then None
        else if (length fields =? 3)%nat then None
        else v4Loop s' 0 0 (fields ++ [val])
      else None
  end.

Definition parseIPv4 (s : string) : option bytes := v4Loop s 0 0 [].

Definition hexVal (c : ascii) : option Z :=
  let z := code c in
  if (48 <=? z) && (z <=? 57) then Some (z - 48)
  else if (97 <=? z) && (z <=? 102) then Some (z - 87)
  else if (65 <=? z) && (z <=? 70) then Some (z - 55)
  else None.

(** The digits of one group: how many, their value, the rest; [None] when
    there are more than four. *)
Fixpoint takeHex (s : string) (off acc : Z) : option (Z * Z * string) :=
  match s with
  | EmptyString => Some (off, acc, s)
  | String c s' =>
      match hexVal c with
      | Some d => if 3 <? off then None else takeHex s' (off + 1) (acc * 16 + d)
      | None => Some (off, acc, s)
      end
  end.

(** The end of netip's parseIPv6: expand the ellipsis. *)
Definition v6Finish (ip : bytes) (ellipsis : option nat) (s : string) : option bytes :=
  match s with
  | String _ _ => None
  | EmptyString =>
      if (length ip <? 16)%nat then
        match ellipsis with
        | None => None
        | Some e => Some (take e ip ++ zeros (16 - length ip) ++ drop e ip)
        end
      else match ellipsis with Some _ => None | None => Some ip end
  end.

(** Its loop; [ip] holds the bytes parsed so far, two per turn, so 8 turns. *)
Fixpoint v6Loop (fuel : nat) (ip : bytes) (ellipsis : option nat) (s : string) : option bytes :=
  match fuel with
  | O => v6Finish ip ellipsis s
  | S fuel =>
      '(off, acc, rest) ← takeHex s 0 0;
      if off =? 0 then None else
      match rest with
      | String "." _ =>
          if match ellipsis with None => negb (length ip =? 12)%nat | Some _ => false end then None
          else if (16 <? length ip + 4)%nat then None
          else v4 ← parseIPv4 s; v6Finish (ip ++ v4) ellipsis ""
      | _ =>
          let ip := ip ++ put16 acc in
          match rest with
          | EmptyString => v6Finish ip ellipsis ""
          | String ":" (String c2 rest2) =>
              if Ascii.eqb c2 ":" then
                match ellipsis with
                | Some _ => None
                | None =>
                    match rest2 with
                    | EmptyString => v6Finish ip (Some (length ip)) ""
                    | _ => v6Loop fuel ip (Some (length ip)) rest2
                    end
                end
              else v6Loop fuel ip ellipsis (String c2 rest2)
          | _ => None
          end
      end
  end.

(** Addresses with a zone are refused by every caller, so ['%'] is an error. *)
Definition parseIPv6 (s : string) : option bytes :=
  if containsByte "%" s then None else
  match s with
  | String ":" (String ":" EmptyString) => Some (zeros 16)
  | String ":" (String ":" s') => v6Loop 8 [] (Some 0%nat) s'
  | _ => v6Loop 8 [] None s
  end.

(** [netip.ParseAddr]: the first of ['.'], [':'], ['%'] decides; 4 or 16 bytes. *)
Fixpoint addrKind (s : string) : option ascii :=
  match s with
  | EmptyString => None
  | String c s' =>
      if Ascii.eqb c "." || Ascii.eqb c ":" || Ascii.eqb c "%" then Some c else addrKind s'
  end.

Definition ParseAddr (s : string) : option bytes :=
  match addrKind s with
  | Some "."%char => parseIPv4 s
  | Some ":"%char => parseIPv6 s
  | _ => None
  end.

(** [net.ParseIP]: the 16-byte form, nil when the text is not an address. *)
Definition ParseIP (s : string) : bytes :=
  match ParseAddr s with Some ip => To16 ip | None => [] end.

(** [net.CIDRMask(ones, bits)]. *)
Fixpoint CIDRMask (ones : Z) (n : nat) : bytes :=
  match n with
  | O => []
  | S n =>
      if 8 <=? ones then 255 :: CIDRMask (ones - 8) n
      else (255 - Z.shiftr 255 (Z.max ones 0)) :: CIDRMask 0 n
  end.

Record IPNet := mkIPNet { ipnet_IP : bytes; ipnet_Mask : bytes }.
#[export] Instance IPNet_eq_dec : EqDecision IPNet.
Proof. solve_decision. Defined.

Definition maskBytes (ip mask : bytes) : bytes := zip_with Z.land ip mask.

(** [net.ParseCIDR]: the network it denotes (the address part is masked; the
    callers of this program ignore the unmasked address). *)
Definition ParseCIDR (s : string) : option IPNet :=
  '(addr, mask) ← Cut "/" s;
  ip ← ParseAddr addr;
  match mask with
  | EmptyString => None
  | _ =>
      n ← parseDigits 0 mask;
      let bits := 8 * len ip in
      if (n <? 0xFFFFFF) && (n <=? bits)
      then let m := CIDRMask n (length ip) in Some (mkIPNet (maskBytes ip m) m)
      else None
  end.

(** [IP.String] of an IPv4 address. *)
Definition v4String (ip : bytes) : string :=
  match ip with
  | [a; b; c; d] =>
      (Itoa a +:+ "." +:+ Itoa b +:+ "." +:+ Itoa c +:+ "." +:+ Itoa d)%string
  | _ => "<nil>"
  end.

(** ** Decimal numbers *)

Lemma code_chr z : 0 <= z < 256 -> code (chr z) = z.
Proof.
  intros. unfold code, chr. rewrite N_ascii_embedding by lia. lia.
Qed.
Lemma chr_code c : chr (code c) = c.
Proof. unfold code, chr. rewrite N2Z.id. apply ascii_N_embedding. Qed.

Lemma isDigit_chr d : 0 <= d < 10 -> isDigit (chr (48 + d)) = true.
Proof. intros. unfold isDigit. rewrite code_chr by lia. lia. Qed.
Lemma digitVal_chr d : 0 <= d < 10 -> digitVal (chr (48 + d)) = d.
Proof. intros. unfold digitVal. rewrite code_chr by lia. lia. Qed.
Lemma isDigit_inv c : isDigit c = true -> 0 <= digitVal c < 10 /\ c = chr (48 + digitVal c).
Proof.
  unfold isDigit, digitVal. intros. split; [lia|].
  replace (48 + (code c - 48)) with (code c) by lia. by rewrite chr_code.
Qed.

Lemma parseDigits_itoaFuel fuel : forall n acc,
  0 <= n < 10 ^ Z.of_nat fuel -> parseDigits 0 (itoaFuel fuel n acc) = parseDigits n acc.
Proof.
  induction fuel as [|fuel IH]; intros n acc Hn.
  { replace n with 0 by (cbn in Hn; lia). done. }
  cbn [itoaFuel]. pose proof (Z.mod_pos_bound n 10 ltac:(lia)).
  assert (Hstep : forall a, parseDigits a (String (chr (48 + n mod 10)) acc) =
    parseDigits (a * 10 + n mod 10) acc).
  { intros a. cbn [parseDigits]. by rewrite isDigit_chr, digitVal_chr by lia. }
  destruct (Z.ltb_spec n 10).
  - rewrite Hstep, (Z.mod_small n 10) by lia. done.
  - rewrite IH.
    + rewrite Hstep. f_equal. pose proof (Z.div_mod n 10). lia.
    + rewrite Nat2Z.inj_succ, Z.pow_succ_r in Hn by lia.
      split; [apply Z.div_pos; lia|apply Z.div_lt_upper_bound; lia].
Qed.

Lemma itoaFuel_cons fuel n acc :
  0 <= n -> exists c s, itoaFuel (S fuel) n acc = String c s /\ isDigit c = true.
Proof.
  revert n acc. induction fuel as [|fuel IH]; intros n acc Hn; cbn [itoaFuel];
    pose proof (Z.mod_pos_bound n 10 ltac:(lia)).
  - destruct (n <? 10); (eexists _, _; split; [done|by apply isDigit_chr]).
  - destruct (n <? 10); [eexists _, _; split; [done|by apply isDigit_chr]|].
    apply IH. apply Z.div_pos; lia.
Qed.

Lemma ParseUint_Itoa n bits :
  0 <= n < 2 ^ bits -> bits <= 64 -> ParseUint (Itoa n) bits = Some n.
Proof.
  intros Hn Hb. unfold Itoa. destruct (Z.ltb_spec n 0); [lia|].
  assert (H64 : n < 10 ^ 20).
  { apply Z.lt_trans with (2 ^ 64); [|reflexivity].
    apply Z.lt_le_trans with (2 ^ bits); [lia|]. apply Z.pow_le_mono_r; lia. }
  destruct (itoaFuel_cons 19 n "") as (c & s & Hs & _); [lia|].
  unfold ParseUint. rewrite Hs. rewrite <- Hs, parseDigits_itoaFuel by (split; [lia|exact H64]).
  cbn [parseDigits mbind option_bind].
  destruct (Z.ltb_spec n (2 ^ bits)); [reflexivity|lia].
Qed.

Lemma Atoi_Itoa n : 0 <= n < 2 ^ 63 -> Atoi (Itoa n) = Some n.
Proof.
  intros Hn. unfold Itoa. destruct (Z.ltb_spec n 0); [lia|].
  destruct (itoaFuel_cons 19 n "") as (c & s & Hs & Hc); [lia|].
  unfold Atoi. rewrite Hs.
  destruct (Ascii.eqb_spec c "-") as [->|_]; [done|].
  destruct (Ascii.eqb_spec c "+") as [->|_]; [done|].
  rewrite <- Hs, parseDigits_itoaFuel
    by (split; [lia|]; apply Z.lt_trans with (2 ^ 63); [lia|reflexivity]).
  cbn [parseDigits mbind option_bind].
  destruct (Z.ltb_spec n (2 ^ 63)); [reflexivity|lia].
Qed.

Lemma string_app_nil s : (s +:+ "")%string = s.
Proof. induction s as [|c s IH]; [done|]. change (String c (s +:+ "")%string = String c s). by rewrite IH. Qed.

Lemma string_app_assoc (a b c : string) : ((a +:+ b) +:+ c)%string = (a +:+ b +:+ c)%string.
Proof. induction a as [|x a IH]; [done|]. change (String x ((a +:+ b) +:+ c)%string = String x (a +:+ b +:+ c)%string). by rewrite IH. Qed.

(** ** Dotted quads: printing and parsing are inverse *)

(** A statement about every octet, checked octet by octet. *)
Lemma octet_cases (P : Z -> Prop) :
  Forall P (seqZ 0 256) -> forall a, is_byte a -> P a.
Proof. intros H a Ha. rewrite Forall_forall in H. apply H, elem_of_seqZ. exact Ha. Qed.

Lemma v4Loop_octet a s fields :
  is_byte a -> exists k, 0 < k /\ v4Loop (Itoa a +:+ s)%string 0 0 fields = v4Loop s a k fields.
Proof.
  intros Ha. revert a Ha s fields.
  apply (octet_cases (fun a => forall s fields, exists k, 0 < k /\
    v4Loop (Itoa a +:+ s)%string 0 0 fields = v4Loop s a k fields)).
  repeat (apply Forall_cons; split; [intros s fields; eexists; split; [|reflexivity]; done|]).
  constructor.
Qed.

Lemma parseIPv4_v4String a b c d :
  wf_bytes [a; b; c; d] -> parseIPv4 (v4String [a; b; c; d]) = Some [a; b; c; d].
Proof.
  unfold wf_bytes. rewrite !Forall_cons. intros (Ha & Hb & Hc & Hd & _).
  unfold parseIPv4, v4String.
  destruct (v4Loop_octet a ("." +:+ Itoa b +:+ "." +:+ Itoa c +:+ "." +:+ Itoa d) [] Ha)
    as (k1 & Hk1 & ->).
  destruct (v4Loop_octet b ("." +:+ Itoa c +:+ "." +:+ Itoa d) [a] Hb) as (k2 & Hk2 & E2).
  destruct (v4Loop_octet c ("." +:+ Itoa d) [a; b] Hc) as (k3 & Hk3 & E3).
  destruct (v4Loop_octet d "" [a; b; c] Hd) as (k4 & Hk4 & E4).
  assert (Hdot : forall s v k fields, 0 < k -> length fields <> 3%nat ->
    v4Loop ("." +:+ s)%string v k fields = v4Loop s 0 0 (fields ++ [v])).
  { intros s v k fields Hk Hf. change ("." +:+ s)%string with (String "." s).
    cbn [v4Loop]. change (isDigit ".") with false. cbn iota.
    change (Ascii.eqb "." ".") with true. cbn iota.
    destruct (Z.eqb_spec k 0); [lia|].
    destruct (Nat.eqb_spec (length fields) 3); [lia|reflexivity]. }
  rewrite Hdot by done. cbn [app]. rewrite E2, Hdot by done. cbn [app].
  rewrite E3, Hdot by done. cbn [app].
  rewrite <- (string_app_nil (Itoa d)), E4. cbn [v4Loop length]. destruct (Z.eqb_spec k4 0); [lia|reflexivity].
Qed.

(** The text the parser has consumed of the current octet. *)
Definition octetText (val digLen : Z) : string := if digLen =? 0 then "" else Itoa val.

Fixpoint dotted (os : bytes) : string :=
  match os with
  | [] => ""
  | [o] => Itoa o
  | o :: os => (Itoa o +:+ "." +:+ dotted os)%string
  end.

Lemma Itoa_digit c : isDigit c = true -> Itoa (digitVal c) = String c "".
Proof.
  intros [Hd Hc]%isDigit_inv. rewrite Hc at 2. unfold Itoa.
  destruct (Z.ltb_spec (digitVal c) 0); [lia|]. cbn [itoaFuel].
  rewrite Z.mod_small by lia. by destruct (Z.ltb_spec (digitVal c) 10); [|lia].
Qed.

Lemma Itoa_snoc v c :
  0 < v <= 25 -> isDigit c = true ->
  Itoa (v * 10 + digitVal c) = (Itoa v +:+ String c "")%string.
Proof.
  intros Hv [Hd ->]%isDigit_inv. rewrite digitVal_chr by done.
  assert (Hall : Forall (fun v => Forall (fun d =>
    Itoa (v * 10 + d) = (Itoa v +:+ String (chr (48 + d)) "")%string) (seqZ 0 10)) (seqZ 1 25)).
  { refine (bool_decide_unpack _ _). vm_compute. exact I. }
  rewrite Forall_forall in Hall. specialize (Hall v ltac:(apply elem_of_seqZ; lia)).
  rewrite Forall_forall in Hall. apply Hall, elem_of_seqZ. lia.
Qed.

Lemma code_range c : 0 <= code c < 256.
Proof. unfold code. pose proof (N_ascii_bounded c). lia. Qed.

(** Every text the dotted-quad parser accepts is the canonical one. *)
Lemma v4Loop_canonical s : forall val digLen fields ip,
  0 <= digLen -> (digLen = 0 -> val = 0) -> (digLen <> 0 -> is_byte val) ->
  (2 <= digLen -> val <> 0) -> (length fields <= 3)%nat ->
  v4Loop s val digLen fields = Some ip ->
  exists o os, ip = fields ++ o :: os /\ wf_bytes (o :: os) /\
    (length ip = 4)%nat /\ (octetText val digLen +:+ s)%string = dotted (o :: os).
Proof.
  induction s as [|c s IH]; intros val digLen fields ip H0 Hz Hb H2 Hf; cbn [v4Loop].
  - destruct (Z.eqb_spec digLen 0); [done|]. destruct (Nat.eqb_spec (length fields) 3); [|done].
    intros [= <-]. exists val, []. rewrite length_app. cbn. split_and!; [done| |lia|].
    + constructor; [auto|constructor].
    + rewrite string_app_nil. unfold octetText. by destruct (Z.eqb_spec digLen 0).
  - destruct (isDigit c) eqn:Hc.
    + destruct (isDigit_inv c Hc) as [Hd Hchr].
      destruct (_ && _) eqn:Hlead; [done|]. destruct (Z.ltb_spec 255 (val * 10 + digitVal c)); [done|].
      intros Hloop.
      assert (Hv : digLen <> 0 -> 0 < val).
      { intros Hne. specialize (Hb Hne). unfold is_byte in Hb.
        destruct (Z.eqb_spec digLen 1), (Z.eqb_spec val 0); cbn in Hlead; try done; lia. }
      apply IH in Hloop; [|lia|lia|unfold is_byte; lia|lia|done].
      destruct Hloop as (o & os & -> & Hwf & Hlen & Htext). exists o, os.
      split_and!; try done. rewrite <- Htext.
      unfold octetText at 2. destruct (Z.eqb_spec (digLen + 1) 0); [lia|].
      unfold octetText. destruct (Z.eqb_spec digLen 0) as [->|Hne].
      * rewrite Hz by done. replace (0 * 10 + digitVal c) with (digitVal c) by lia.
        by rewrite Itoa_digit.
      * rewrite Itoa_snoc by (done || lia). by rewrite string_app_assoc.
    + destruct (Ascii.eqb_spec c ".") as [->|]; [|done].
      destruct (Z.eqb_spec digLen 0) as [|Hne]; [done|].
      destruct (Nat.eqb_spec (length fields) 3) as [|Hf3]; [done|].
      intros Hloop. apply IH in Hloop; [|lia|done|done|lia|rewrite length_app; cbn; lia].
      destruct Hloop as (o & os & -> & Hwf & Hlen & Htext). exists val, (o :: os).
      rewrite <- app_assoc in Hlen |- *. split_and!; try done; [by constructor; [auto|]|].
      unfold octetText. destruct (Z.eqb_spec digLen 0); [done|].
      change (dotted (val :: o :: os)) with (Itoa val +:+ "." +:+ dotted (o :: os))%string.
      rewrite <- Htext. done.
Qed.

Lemma parseIPv4_canonical s ip :
  parseIPv4 s = Some ip -> length ip = 4%nat /\ wf_bytes ip /\ s = v4String ip.
Proof.
  intros H. apply v4Loop_canonical in H; [|done..|cbn; lia].
  destruct H as (o & os & -> & Hwf & Hlen & Htext). cbn [app] in *. split_and!; try done.
  apply length_4_inv in Hlen as (a & b & c & d & [= -> ->]). exact Htext.
Qed.

(** What the rest of the development uses: addresses in 4-byte form. *)
Definition wf_ip4 (ip : bytes) : Prop := length ip = 4%nat /\ wf_bytes ip.

Lemma addrKind_v4String a b c d : wf_bytes [a; b; c; d] -> addrKind (v4String [a; b; c; d]) = Some "."%char.
Proof.
  unfold wf_bytes. rewrite Forall_cons. intros [Ha _]. unfold v4String.
  generalize (Itoa b +:+ "." +:+ Itoa c +:+ "." +:+ Itoa d)%string as rest. revert a Ha.
  apply (octet_cases (fun a => forall rest,
    addrKind (Itoa a +:+ "." +:+ rest)%string = Some "."%char)).
  repeat (apply Forall_cons; split; [intros rest; reflexivity|]). constructor.
Qed.

Lemma ParseAddr_v4String ip : wf_ip4 ip -> ParseAddr (v4String ip) = Some ip.
Proof.
  intros [(a & b & c & d & ->)%length_4_inv Hwf]. unfold ParseAddr.
  rewrite addrKind_v4String by done. by apply parseIPv4_v4String.
Qed.

Lemma To4_v4 ip : length ip = 4%nat -> To4 (v4Prefix ++ ip) = ip.
Proof. intros (a & b & c & d & ->)%length_4_inv. reflexivity. Qed.

Lemma To4_length ip : To4 ip <> [] -> length (To4 ip) = 4%nat.
Proof.
  unfold To4. destruct (Nat.eqb_spec (length ip) 4); [done|].
  destruct (Nat.eqb_spec (length ip) 16) as [H16|]; [|done]. cbn [andb].
  case_bool_decide; [|done]. intros _. rewrite length_drop. lia.
Qed.

Lemma ParseIP_v4String ip : wf_ip4 ip -> To4 (ParseIP (v4String ip)) = ip.
Proof.
  intros Hip. unfold ParseIP. rewrite ParseAddr_v4String by done. destruct Hip as [Hlen _].
  unfold To16. rewrite Hlen. cbn [Nat.eqb]. by apply To4_v4.
Qed.

(** [net.JoinHostPort]. *)
Definition JoinHostPort (host : string) (port : Z) : string :=
  if containsByte ":" host
  then ("[" +:+ host +:+ "]:" +:+ Itoa port)%string
  else (host +:+ ":" +:+ Itoa port)%string.

(** ** IPv4 addresses as integers *)

(** [binary.BigEndian.Uint32] of a [4]byte: it cannot panic. *)
Definition addr32 (b : bytes) : Z :=
  match b with [a; b; c; d] => a * 2 ^ 24 + b * 2 ^ 16 + c * 2 ^ 8 + d | _ => 0 end.

Lemma addr32_range b : wf_ip4 b -> 0 <= addr32 b < 2 ^ 32.
Proof.
  intros [(a & x & c & d & ->)%length_4_inv Hwf]. unfold wf_bytes in Hwf.
  rewrite !Forall_cons in Hwf. unfold is_byte in Hwf. cbn [addr32]. lia.
Qed.

Lemma be32_addr32 b : wf_ip4 b -> be32 b = Done (addr32 b).
Proof.
  intros [(a & x & c & d & ->)%length_4_inv Hwf]. unfold wf_bytes in Hwf.
  rewrite !Forall_cons in Hwf. destruct Hwf as (_ & Hx & Hc & Hd & _).
  by rewrite be32_cons.
Qed.

Lemma wf_ip4_put32 v : wf_ip4 (put32 v).
Proof. split; [done|apply wf_put32]. Qed.

Lemma addr32_put32 v : 0 <= v < 2 ^ 32 -> addr32 (put32 v) = v.
Proof.
  intros Hv. pose proof (be32_addr32 _ (wf_ip4_put32 v)) as H.
  rewrite <- (app_nil_r (put32 v)), put32_be32, app_nil_r in H by done. by injection H.
Qed.

Lemma put32_addr32 b : wf_ip4 b -> put32 (addr32 b) = b.
Proof.
  intros Hb. destruct (be32_put32_inv b) as (n & Hn & -> & _); [apply Hb..|].
  by rewrite addr32_put32.
Qed.

Lemma u32_range x : 0 <= u32 x < 2 ^ 32.
Proof. apply Z.mod_pos_bound. lia. Qed.
Lemma u32_small x : 0 <= x < 2 ^ 32 -> u32 x = x.
Proof. apply Z.mod_small. Qed.

(** ** CIDR blocks *)

Lemma land_mask k x :
  0 <= k <= 8 -> is_byte x -> Z.land x (256 - 2 ^ k) = x / 2 ^ k * 2 ^ k.
Proof.
  intros Hk Hx.
  assert (H : Forall (fun k => Forall (fun x => Z.land x (256 - 2 ^ k) = x / 2 ^ k * 2 ^ k)
    (seqZ 0 256)) (seqZ 0 9)) by (refine (bool_decide_unpack _ _); vm_compute; exact I).
  rewrite Forall_forall in H. specialize (H k ltac:(apply elem_of_seqZ; lia)).
  rewrite Forall_forall in H. apply H, elem_of_seqZ. exact Hx.
Qed.

(** The address and the mask of a block: its lowest address, its size. *)
Definition netOf (a n : Z) : Z := a / 2 ^ (32 - n) * 2 ^ (32 - n).
Definition bcastOf (a n : Z) : Z := netOf a n + 2 ^ (32 - n) - 1.

Lemma prefix_cases (P : Z -> Prop) : Forall P (seqZ 0 33) -> forall n, 0 <= n <= 32 -> P n.
Proof. intros H n Hn. rewrite Forall_forall in H. apply H, elem_of_seqZ. lia. Qed.

Lemma CIDRMask_val n :
  0 <= n <= 32 -> wf_ip4 (CIDRMask n 4) /\ addr32 (CIDRMask n 4) = 2 ^ 32 - 2 ^ (32 - n).
Proof.
  revert n. apply prefix_cases.
  repeat (apply Forall_cons; split;
    [split; [split; [done|repeat constructor; done]|reflexivity]|]).
  constructor.
Qed.

Lemma wf_land b m : wf_bytes b -> wf_bytes m -> wf_bytes (maskBytes b m).
Proof.
  intros Hb. revert m. induction Hb as [|x b Hx Hb IH]; intros m Hm; [constructor|].
  destruct Hm as [|y m Hy Hm]; [constructor|]. constructor; [|by apply IH].
  unfold is_byte in *. change 256 with (2 ^ 8) in *.
  assert (Z.land x y = Z.land x y mod 2 ^ 8) as ->.
  { apply Z.bits_inj'. intros k Hk. destruct (Z.lt_ge_cases k 8).
    - by rewrite Z.mod_pow2_bits_low.
    - rewrite Z.mod_pow2_bits_high, Z.land_spec by lia.
      rewrite <- (Z.mod_small x (2 ^ 8)) by done. by rewrite Z.mod_pow2_bits_high by lia. }
  apply Z.mod_pos_bound. lia.
Qed.

Lemma land_literal x :
  is_byte x ->
  Z.land x 255 = x /\ Z.land x 254 = x / 2 * 2 /\ Z.land x 252 = x / 4 * 4 /\
  Z.land x 248 = x / 8 * 8 /\ Z.land x 240 = x / 16 * 16 /\ Z.land x 224 = x / 32 * 32 /\
  Z.land x 192 = x / 64 * 64 /\ Z.land x 128 = x / 128 * 128 /\ Z.land x 0 = 0.
Proof.
  intros Hx. pose proof (fun k Hk => land_mask k x Hk Hx) as H.
  split_and!; [etrans; [exact (H 0 ltac:(lia))|by rewrite Z.div_1_r, Z.mul_1_r]|..].
  1-7: by first [apply (H 1)|apply (H 2)|apply (H 3)|apply (H 4)|apply (H 5)|apply (H 6)|apply (H 7)].
  apply Z.land_0_r.
Qed.

Lemma maskBytes_val ip n :
  wf_ip4 ip -> 0 <= n <= 32 ->
  wf_ip4 (maskBytes ip (CIDRMask n 4)) /\
  addr32 (maskBytes ip (CIDRMask n 4)) = netOf (addr32 ip) n.
Proof.
  intros Hip Hn. destruct (CIDRMask_val n Hn) as [[Hl Hw] _]. split.
  { destruct Hip as [Hlen Hwf]. split; [|by apply wf_land].
    unfold maskBytes. rewrite length_zip_with, Hlen, Hl. done. }
  destruct Hip as [(a & x & c & d & ->)%length_4_inv Hwf]. unfold wf_bytes in Hwf.
  rewrite !Forall_cons in Hwf. destruct Hwf as (Ha & Hx & Hc & Hd & _). clear Hl Hw.
  destruct (land_literal a Ha) as (A0 & A1 & A2 & A3 & A4 & A5 & A6 & A7 & A8).
  destruct (land_literal x Hx) as (X0 & X1 & X2 & X3 & X4 & X5 & X6 & X7 & X8).
  destruct (land_literal c Hc) as (C0 & C1 & C2 & C3 & C4 & C5 & C6 & C7 & C8).
  destruct (land_literal d Hd) as (D0 & D1 & D2 & D3 & D4 & D5 & D6 & D7 & D8).
  unfold is_byte in *. revert n Hn. apply prefix_cases.
  repeat (apply Forall_cons; split; [|]); [..|constructor].
  all: unfold maskBytes, netOf.
  all: match goal with |- context [CIDRMask ?n 4] =>
    let m := eval vm_compute in (CIDRMask n 4) in change (CIDRMask n 4) with m end.
  all: match goal with |- context [2 ^ (32 - ?n)] =>
    let m := eval vm_compute in (2 ^ (32 - n)) in change (2 ^ (32 - n)) with m end.
  all: cbn [zip_with addr32].
  all: rewrite ?A0, ?A1, ?A2, ?A3, ?A4, ?A5, ?A6, ?A7, ?A8, ?X0, ?X1, ?X2, ?X3, ?X4, ?X5, ?X6,
    ?X7, ?X8, ?C0, ?C1, ?C2, ?C3, ?C4, ?C5, ?C6, ?C7, ?C8, ?D0, ?D1, ?D2, ?D3, ?D4, ?D5, ?D6,
    ?D7, ?D8.
  all: clear -Ha Hx Hc Hd.
  all: change (2 ^ 24) with 16777216; change (2 ^ 16) with 65536; change (2 ^ 8) with 256.
  all: (Z.to_euclidean_division_equations; lia).
Qed.

Lemma containsByte_app c a b :
  containsByte c (a +:+ b)%string = containsByte c a || containsByte c b.
Proof.
  induction a as [|x a IH]; [done|].
  change (String x a +:+ b)%string with (String x (a +:+ b)%string). cbn [containsByte].
  by rewrite IH, orb_assoc.
Qed.

Lemma Cut_none sep s : containsByte sep s = false -> Cut sep s = None.
Proof.
  induction s as [|c s IH]; intros H; [done|]. cbn [containsByte] in H.
  apply orb_false_iff in H as [Hc Hs]. cbn [Cut]. by rewrite Hc, IH.
Qed.

(** [strings.Cut] stops at the first separator. *)
Lemma Cut_app sep w rest :
  containsByte sep w = false -> Cut sep (w +:+ String sep rest)%string = Some (w, rest).
Proof.
  induction w as [|c w IH]; intros Hw.
  - change ("" +:+ ?s)%string with s. cbn [Cut]. by rewrite Ascii.eqb_refl.
  - cbn [containsByte] in Hw. apply orb_false_iff in Hw as [Hc Hw].
    change (String c w +:+ ?s)%string with (String c (w +:+ s)%string). cbn [Cut].
    by rewrite Hc, IH.
Qed.

(** A decimal octet holds digits only. *)
Lemma Itoa_octet_free c a : isDigit c = false -> is_byte a -> containsByte c (Itoa a) = false.
Proof.
  intros Hc Ha.
  assert (H : forall w, Forall (fun c => isDigit c = true) (list_ascii_of_string w) ->
    containsByte c w = false).
  { induction w as [|x w IH]; intros Hw; [done|].
    cbn [list_ascii_of_string] in Hw. apply Forall_cons in Hw as [Hx Hw]. cbn [containsByte].
    destruct (Ascii.eqb_spec x c) as [->|_]; [congruence|]. by rewrite IH. }
  apply H. revert a Ha. apply octet_cases.
  refine (bool_decide_unpack _ _). vm_compute. exact I.
Qed.

Lemma v4String_free c ip :
  isDigit c = false -> c <> "."%char -> wf_ip4 ip -> containsByte c (v4String ip) = false.
Proof.
  intros Hc Hdot [(x & y & z & w & ->)%length_4_inv Hwf]. unfold wf_bytes in Hwf.
  rewrite !Forall_cons in Hwf. destruct Hwf as (Hx & Hy & Hz & Hw & _). unfold v4String.
  assert (containsByte c "." = false) as Hd.
  { cbn [containsByte]. destruct (Ascii.eqb_spec "." c); [congruence|done]. }
  by rewrite !containsByte_app, Hd, !(Itoa_octet_free c) by done.
Qed.

(** [net.ParseCIDR] of the text of a block. *)
Lemma ParseCIDR_v4 ip n :
  wf_ip4 ip -> 0 <= n <= 32 ->
  ParseCIDR (v4String ip +:+ String "/" (Itoa n))%string =
    Some (mkIPNet (maskBytes ip (CIDRMask n 4)) (CIDRMask n 4)).
Proof.
  intros Hip Hn. unfold ParseCIDR. rewrite Cut_app by by apply v4String_free.
  cbn [mbind option_bind]. rewrite ParseAddr_v4String by done. cbn [mbind option_bind].
  destruct Hip as [Hlen _]. unfold len. rewrite Hlen.
  assert (H : exists c s, Itoa n = String c s /\ parseDigits 0 (String c s) = Some n).
  { revert n Hn. apply prefix_cases.
    repeat (apply Forall_cons; split; [eexists _, _; split; reflexivity|]). constructor. }
  destruct H as (c & s & -> & ->). cbn [mbind option_bind].
  destruct (Z.ltb_spec n 16777215); [|lia].
  by destruct (Z.leb_spec n (8 * Z.of_nat 4)); [|lia].
Qed.

(** ** Splitting and trimming *)

Lemma Split_app sep w rest :
  containsByte sep w = false ->
  Split sep (w +:+ String sep rest)%string = w :: Split sep rest.
Proof.
  induction w as [|c w IH]; intros Hw.
  - change ("" +:+ ?s)%string with s. cbn [Split]. by rewrite Ascii.eqb_refl.
  - cbn [containsByte] in Hw. apply orb_false_iff in Hw as [Hc Hw].
    change (String c w +:+ ?s)%string with (String c (w +:+ s)%string). cbn [Split].
    by rewrite Hc, IH.
Qed.

Lemma Split_none sep w : containsByte sep w = false -> Split sep w = [w].
Proof.
  induction w as [|c w IH]; intros Hw; [done|].
  cbn [containsByte] in Hw. apply orb_false_iff in Hw as [Hc Hw]. cbn [Split].
  by rewrite Hc, IH.
Qed.

(** A character no space rune begins or ends with. *)
Definition startsNot (c : ascii) (p : string) : bool :=
  match p with String a _ => negb (Ascii.eqb a c) | EmptyString => false end.
Definition plain (c : ascii) : bool := forallb (startsNot c) (spaces ++ spacesRev).

Lemma cutAnyPrefix_plain c s ps :
  Forall (startsNot c) ps ->
  cutAnyPrefix (String c s) ps = None.
Proof.
  induction 1 as [|p ps Hp Hps IH]; [done|]. cbn [cutAnyPrefix].
  destruct p as [|a p]; [done|]. cbn in Hp. cbn [CutPrefix]. by destruct (Ascii.eqb a c).
Qed.

Lemma trimLeft_plain c s fuel :
  plain c = true ->
  trimLeft fuel spaces (String c s) = String c s /\
  trimLeft fuel spacesRev (String c s) = String c s.
Proof.
  intros Hc%Is_true_eq_left. apply forallb_True, Forall_app in Hc as [H1 H2].
  destruct fuel; [done|]. cbn [trimLeft].
  by rewrite !cutAnyPrefix_plain.
Qed.

Lemma rev_string_app a b acc :
  rev_string (a +:+ b)%string acc = rev_string b (rev_string a acc).
Proof. revert acc. induction a as [|c a IH]; intros acc; [done|]. apply IH. Qed.

Lemma rev_string_acc a : forall acc, rev_string a acc = (rev_string a "" +:+ acc)%string.
Proof.
  induction a as [|c a IH]; intros acc; [done|]. cbn [rev_string].
  rewrite (IH (String c acc)), (IH (String c "")), string_app_assoc. done.
Qed.

Lemma rev_string_involutive a : rev_string (rev_string a "") "" = a.
Proof.
  induction a as [|c a IH]; [done|]. cbn [rev_string].
  rewrite (rev_string_acc a (String c "")), rev_string_app, IH. done.
Qed.

(** Trimming a text whose first and last characters are not spaces. *)
Lemma TrimSpace_plain c d s t :
  plain c = true -> plain d = true -> String c s = (t +:+ String d "")%string ->
  TrimSpace (String c s) = String c s.
Proof.
  intros Hc Hd E. unfold TrimSpace. rewrite (proj1 (trimLeft_plain c s _ Hc)).
  rewrite E at 2. rewrite rev_string_app. change (rev_string (String d "") ?x) with (String d x).
  rewrite (proj2 (trimLeft_plain d _ _ Hd)).
  change (String d (rev_string t "")) with (rev_string (String d "") (rev_string t "")).
  by rewrite <- rev_string_app, <- E, rev_string_involutive.
Qed.

Definition digits (s : string) : Prop :=
  Forall (fun c => isDigit c = true) (list_ascii_of_string s).

Lemma digits_free c s : isDigit c = false -> digits s -> containsByte c s = false.
Proof.
  intros Hc. unfold digits. induction s as [|x s IH]; intros Hs; [done|].
  cbn [list_ascii_of_string] in Hs. apply Forall_cons in Hs as [Hx Hs]. cbn [containsByte].
  destruct (Ascii.eqb_spec x c) as [->|_]; [congruence|]. by rewrite IH.
Qed.

Lemma digits_itoaFuel fuel n acc : 0 <= n -> digits acc -> digits (itoaFuel fuel n acc).
Proof.
  revert n acc. induction fuel as [|fuel IH]; intros n acc Hn Ha; [done|]. cbn [itoaFuel].
  assert (digits (String (chr (48 + n mod 10)) acc)).
  { constructor; [|done]. apply isDigit_chr. apply Z.mod_pos_bound. lia. }
  destruct (n <? 10); [done|]. apply IH; [apply Z.div_pos; lia|done].
Qed.

Lemma digits_Itoa n : 0 <= n -> digits (Itoa n).
Proof.
  intros Hn. unfold Itoa. destruct (Z.ltb_spec n 0); [lia|]. apply digits_itoaFuel; [done|constructor].
Qed.

Lemma Itoa_cons n : 0 <= n -> exists c s, Itoa n = String c s /\ isDigit c = true.
Proof.
  intros Hn. unfold Itoa. destruct (Z.ltb_spec n 0); [lia|]. by apply itoaFuel_cons.
Qed.

Lemma plain_digit c : isDigit c = true -> plain c = true.
Proof.
  intros [Hd ->]%isDigit_inv.
  assert (H : Forall (fun d => plain (chr (48 + d)) = true) (seqZ 0 10))
    by (refine (bool_decide_unpack _ _); vm_compute; exact I).
  rewrite Forall_forall in H. apply H, elem_of_seqZ. lia.
Qed.

Lemma string_snoc s : s <> "" -> exists t d, s = (t +:+ String d "")%string /\
  (digits s -> isDigit d = true).
Proof.
  induction s as [|c s IH]; [done|]. intros _. destruct s as [|c' s'].
  - exists "", c. split; [done|]. intros H. unfold digits in H. by apply Forall_cons in H as [H _].
  - destruct IH as (t & d & E & Hd); [done|]. exists (String c t), d. rewrite E. split; [done|].
    intros H. unfold digits in H. cbn [list_ascii_of_string] in H. rewrite <- E in H.
    apply Forall_cons in H as [_ H]. by apply Hd.
Qed.

(** A text that starts plainly and ends in a number is its own trim. *)
Lemma TrimSpace_number c s n :
  plain c = true -> 0 <= n -> TrimSpace (String c s +:+ Itoa n)%string = (String c s +:+ Itoa n)%string.
Proof.
  intros Hc Hn. destruct (Itoa_cons n Hn) as (x & r & Ex & _).
  destruct (string_snoc (Itoa n)) as (t & d & E & Hd); [by rewrite Ex|].
  change (String c s +:+ Itoa n)%string with (String c (s +:+ Itoa n)%string).
  apply (TrimSpace_plain c d _ (String c (s +:+ t))); [done|by apply plain_digit, Hd, digits_Itoa|].
  rewrite E, <- string_app_assoc. done.
Qed.

Lemma TrimSpace_Itoa n : 0 <= n -> TrimSpace (Itoa n) = Itoa n.
Proof.
  intros Hn. destruct (Itoa_cons n Hn) as (c & s & Ec & Hc).
  destruct (string_snoc (Itoa n)) as (t & d & E & Hd); [by rewrite Ec|].
  rewrite Ec in E |- *. apply (TrimSpace_plain c d _ t); [by apply plain_digit| |done].
  apply plain_digit, Hd, digits_Itoa, Hn.
Qed.

(** Trimming never adds characters. *)
Lemma CutPrefix_app s p r : CutPrefix s p = Some r -> s = (p +:+ r)%string.
Proof.
  revert s. induction p as [|a p IH]; intros s; [by destruct s; intros [= <-]|].
  destruct s as [|b s]; [done|]. cbn [CutPrefix]. destruct (Ascii.eqb_spec a b) as [->|]; [|done].
  intros H. apply IH in H. by rewrite H.
Qed.

Lemma CutPrefix_same p r : CutPrefix (p +:+ r)%string p = Some r.
Proof.
  induction p as [|a p IH]; [by destruct r|].
  change (String a p +:+ r)%string with (String a (p +:+ r)%string). cbn [CutPrefix].
  by rewrite Ascii.eqb_refl.
Qed.

Lemma trimLeft_free c ps fuel : forall s,
  containsByte c s = false -> containsByte c (trimLeft fuel ps s) = false.
Proof.
  induction fuel as [|fuel IH]; intros s Hs; [done|]. cbn [trimLeft].
  destruct (cutAnyPrefix s ps) as [r|] eqn:E; [|done]. apply IH.
  clear IH fuel. induction ps as [|p ps IH]; cbn [cutAnyPrefix] in E; [done|].
  destruct (CutPrefix s p) eqn:Ep; [|auto]. injection E as ->. apply CutPrefix_app in Ep as ->.
  rewrite containsByte_app in Hs. by apply orb_false_iff in Hs as [_ ?].
Qed.

Lemma rev_string_free c s acc :
  containsByte c (rev_string s acc) = containsByte c s || containsByte c acc.
Proof.
  revert acc. induction s as [|x s IH]; intros acc; [done|]. cbn [rev_string]. rewrite IH.
  cbn [containsByte]. destruct (Ascii.eqb x c), (containsByte c s); done.
Qed.

Lemma TrimSpace_free c s : containsByte c s = false -> containsByte c (TrimSpace s) = false.
Proof.
  intros Hs. unfold TrimSpace. rewrite rev_string_free, orb_false_r. apply trimLeft_free.
  rewrite rev_string_free, orb_false_r. by apply trimLeft_free.
Qed.

Lemma Split_free sep s : Forall (fun w => containsByte sep w = false) (Split sep s).
Proof.
  induction s as [|c s IH]; cbn [Split]; [by repeat constructor|].
  destruct (Ascii.eqb c sep) eqn:Hc; [by constructor|].
  destruct (Split sep s) as [|w ws]; [repeat constructor; cbn; by rewrite Hc|].
  apply Forall_cons in IH as [Hw Hws]. constructor; [|done]. cbn [containsByte]. by rewrite Hc.
Qed.

(** An address without a colon is a dotted quad. *)
Lemma ParseIP_no_colon s :
  containsByte ":" s = false -> ParseIP s <> [] ->
  exists ip, wf_ip4 ip /\ s = v4String ip /\ ParseIP s = v4Prefix ++ ip.
Proof.
  intros Hc. unfold ParseIP, ParseAddr.
  assert (Hk : addrKind s <> Some ":"%char).
  { induction s as [|x s IH]; [done|]. cbn [containsByte] in Hc. apply orb_false_iff in Hc as [Hx Hc].
    cbn [addrKind]. destruct (_ || _); [|by apply IH]. intros [= ->]. done. }
  destruct (addrKind s) as [k|]; [|done].
  destruct (Ascii.eqb_spec k ".") as [->|Hd].
  - destruct (parseIPv4 s) as [ip|] eqn:E; [|done].
    apply parseIPv4_canonical in E as (Hl & Hwf & ->). intros _. exists ip. split_and!; [done..|].
    unfold To16. by rewrite Hl.
  - destruct k as [[] [] [] [] [] [] [] []]; done.
Qed.

Lemma v4String_shape ip :
  wf_ip4 ip ->
  exists c s, v4String ip = String c s /\ isDigit c = true /\ TrimSpace (String c s) = String c s.
Proof.
  intros [(x & y & z & w & ->)%length_4_inv Hwf]. unfold wf_bytes, is_byte in Hwf.
  rewrite !Forall_cons in Hwf. destruct Hwf as (Hx & _ & _ & Hw & _).
  destruct (Itoa_cons x) as (c & s & E & Hc); [lia|].
  exists c, ((s +:+ "." +:+ Itoa y +:+ "." +:+ Itoa z +:+ ".") +:+ Itoa w)%string.
  split_and!; [|done|].
  - unfold v4String. rewrite E, !string_app_assoc.
    change (String c s +:+ ?r)%string with (String c (s +:+ r)%string).
    by rewrite ?string_app_assoc.
  - change (String c (?a +:+ ?b)%string) with (String c a +:+ b)%string.
    apply TrimSpace_number; [by apply plain_digit|lia].
Qed.
