(* ===== verification/GoText.v ===== *)
(** * GoText: text formats of Go's standard library

    What the configuration parsers and the helper programs use besides GoStd.v:
    hardware addresses ([net.ParseMAC]), [encoding/base64], [bufio]'s line scanner,
    [strings.ToLower] and [Trim], and the text of addresses and networks
    ([IP.String], [IPNet.String], [IPMask.Size]), each with the lemmas the clients
    need. *)
From S2P Require Import Prelude.
From S2P Require Import GoStd.

(** ** Hexadecimal *)

Definition hexDigit (n : Z) : ascii := if n <? 10 then chr (48 + n) else chr (87 + n).
Definition hexOctet (b : Z) : string :=
  String (hexDigit (b / 16)) (String (hexDigit (b mod 16)) "").

Lemma hexVal_hexDigit n : 0 <= n < 16 -> hexVal (hexDigit n) = Some n.
Proof.
  intros Hn.
  assert (H : Forall (fun n => hexVal (hexDigit n) = Some n) (seqZ 0 16))
    by (refine (bool_decide_unpack _ _); vm_compute; exact I).
  rewrite Forall_forall in H. apply H, elem_of_seqZ. lia.
Qed.

(** [%x] of a byte slice. *)
Definition hexText (b : bytes) : string := String.concat "" (hexOctet <$> b).

(** ** Hardware addresses *)

(** [HardwareAddr.String]. *)
Fixpoint macString (mac : bytes) : string :=
  match mac with
  | [] => ""
  | [b] => hexOctet b
  | b :: mac => hexOctet b +:+ String ":" (macString mac)
  end.

(** [net.xtoi2]: two hex digits, followed by the separator or nothing. *)
Definition xtoi2 (s : string) (e : ascii) : option (Z * string) :=
  match s with
  | String a (String b rest) =>
      match hexVal a, hexVal b with
      | Some x, Some y =>
          match rest with
          | EmptyString => Some (x * 16 + y, "")
          | String c rest => if Ascii.eqb c e then Some (x * 16 + y, rest) else None
          end
      | _, _ => None
      end
  | _ => None
  end.

Fixpoint macOctets (n : nat) (sep : ascii) (s : string) : option bytes :=
  match n with
  | O => Some []
  | S n => '(b, rest) ← xtoi2 s sep; bs ← macOctets n sep rest; Some (b :: bs)
  end.

(** The loop of the dotted form, two octets per turn. *)
Fixpoint macPairs (n : nat) (s : string) : option bytes :=
  match n, s with
  | O, _ => Some []
  | S n, String a (String b rest) =>
      '(x, _) ← xtoi2 (String a (String b "")) "000";
      '(y, rest) ← xtoi2 rest ".";
      bs ← macPairs n rest; Some (x :: y :: bs)
  | S _, _ => None
  end.

(** [net.ParseMAC]: 6, 8 or 20 octets, one per colon or dash, or two per dot. *)
Definition ParseMAC (s : string) : option bytes :=
  let l := Z.of_nat (String.length s) in
  let okLen n := (n =? 6) || (n =? 8) || (n =? 20) in
  if l <? 14 then None else
  match s with
  | String _ (String _ (String s2 (String _ (String s4 _)))) =>
      if Ascii.eqb s2 ":" || Ascii.eqb s2 "-" then
        if negb ((l + 1) mod 3 =? 0) then None else
        let n := (l + 1) / 3 in
        if okLen n then macOctets (Z.to_nat n) s2 s else None
      else if Ascii.eqb s4 "." then
        if negb ((l + 1) mod 5 =? 0) then None else
        let n := 2 * (l + 1) / 5 in
        if okLen n then macPairs (Z.to_nat (n / 2)) s else None
      else None
  | _ => None
  end.

Lemma xtoi2_hexOctet b rest sep :
  is_byte b -> xtoi2 (hexOctet b +:+ String sep rest) sep = Some (b, rest) /\
  xtoi2 (hexOctet b) sep = Some (b, "").
Proof.
  unfold is_byte. intros Hb.
  assert (0 <= b / 16 < 16) by (split; [apply Z.div_pos; lia|apply Z.div_lt_upper_bound; lia]).
  pose proof (Z.mod_pos_bound b 16 ltac:(lia)). pose proof (Z.div_mod b 16).
  unfold hexOctet. change (String ?x (String ?y "") +:+ ?s) with (String x (String y s)).
  unfold xtoi2. rewrite !hexVal_hexDigit by lia. rewrite Ascii.eqb_refl.
  split; do 2 f_equal; lia.
Qed.

(** [net.ParseMAC] inverts [HardwareAddr.String]. *)
Lemma ParseMAC_macString m :
  length m = 6%nat -> wf_bytes m -> ParseMAC (macString m) = Some m.
Proof.
  intros (a & b & c & d & e & f & ->)%length_6_inv Hwf. unfold wf_bytes in Hwf.
  rewrite !Forall_cons in Hwf. destruct Hwf as (Ha & Hb & Hc & Hd & He & Hf & _).
  unfold ParseMAC. cbv zeta.
  change (Z.of_nat (String.length (macString [a; b; c; d; e; f]))) with 17.
  cbn [macString]. change (hexOctet a +:+ String ":" ?s) with
    (String (hexDigit (a / 16)) (String (hexDigit (a mod 16)) (String ":" s))).
  change (17 <? 14) with false. cbn iota. change (Ascii.eqb ":" ":" || Ascii.eqb ":" "-") with true.
  change (negb ((17 + 1) mod 3 =? 0)) with false. cbn iota.
  change (((17 + 1) / 3 =? 6) || ((17 + 1) / 3 =? 8) || ((17 + 1) / 3 =? 20)) with true. cbn iota.
  change (Z.to_nat ((17 + 1) / 3)) with 6%nat.
  change (String (hexDigit (a / 16)) (String (hexDigit (a mod 16)) (String ":" ?s))) with
    (hexOctet a +:+ String ":" s).
  cbn [macOctets]. rewrite !(fun x s H => proj1 (xtoi2_hexOctet x s ":" H)) by done.
  cbn [mbind option_bind].
  rewrite !(fun x s H => proj1 (xtoi2_hexOctet x s ":" H)) by done. cbn [mbind option_bind].
  rewrite !(fun x s H => proj1 (xtoi2_hexOctet x s ":" H)) by done. cbn [mbind option_bind].
  rewrite !(fun x s H => proj1 (xtoi2_hexOctet x s ":" H)) by done. cbn [mbind option_bind].
  rewrite !(fun x s H => proj1 (xtoi2_hexOctet x s ":" H)) by done. cbn [mbind option_bind].
  by rewrite (proj2 (xtoi2_hexOctet f "" ":" Hf)).
Qed.

(** ** encoding/base64 (StdEncoding) *)

Definition b64Val (c : ascii) : option Z :=
  let z := code c in
  if (65 <=? z) && (z <=? 90) then Some (z - 65)
  else if (97 <=? z) && (z <=? 122) then Some (z - 71)
  else if isDigit c then Some (z + 4)
  else if z =? 43 then Some 62
  else if z =? 47 then Some 63
  else None.

(** The 24 bits of a quantum and their bytes. *)
Definition quantum (v0 v1 v2 v3 : Z) : Z :=
  Z.lor (Z.lor (Z.lor (Z.shiftl v0 18) (Z.shiftl v1 12)) (Z.shiftl v2 6)) v3.
Definition quantumBytes (v : Z) : bytes :=
  [Z.land (Z.shiftr v 16) 255; Z.land (Z.shiftr v 8) 255; Z.land v 255].

(** The decoder on the characters that are no line breaks. *)
Fixpoint b64Quanta (s : list ascii) : option bytes :=
  match s with
  | [] => Some []
  | c0 :: c1 :: c2 :: c3 :: rest =>
      v0 ← b64Val c0; v1 ← b64Val c1;
      if Ascii.eqb c2 "=" then
        match rest with
        | [] => if Ascii.eqb c3 "=" then Some (take 1 (quantumBytes (quantum v0 v1 0 0))) else None
        | _ => None
        end
      else
        v2 ← b64Val c2;
        if Ascii.eqb c3 "=" then
          match rest with
          | [] => Some (take 2 (quantumBytes (quantum v0 v1 v2 0)))
          | _ => None
          end
        else
          v3 ← b64Val c3; out ← b64Quanta rest;
          Some (quantumBytes (quantum v0 v1 v2 v3) ++ out)
  | _ => None
  end.

(** [StdEncoding.DecodeString]: line breaks are skipped wherever they are. *)
Definition DecodeString (s : string) : option bytes :=
  b64Quanta (filter (fun c => c <> "010"%char /\ c <> "013"%char) (list_ascii_of_string s)).

(** [StdEncoding.EncodeToString]. *)
Definition b64Char (v : Z) : ascii :=
  chr (if v <? 26 then v + 65 else if v <? 52 then v + 71 else if v <? 62 then v - 4
       else if v =? 62 then 43 else 47).
Definition b64Chars (v : Z) : list ascii :=
  [b64Char (Z.land (Z.shiftr v 18) 63); b64Char (Z.land (Z.shiftr v 12) 63);
   b64Char (Z.land (Z.shiftr v 6) 63); b64Char (Z.land v 63)].
Definition quantumOf (b0 b1 b2 : Z) : Z :=
  Z.lor (Z.lor (Z.shiftl b0 16) (Z.shiftl b1 8)) b2.
Fixpoint b64Encode (b : bytes) : list ascii :=
  match b with
  | [] => []
  | [x] => take 2 (b64Chars (quantumOf x 0 0)) ++ ["="; "="]%char
  | [x; y] => take 3 (b64Chars (quantumOf x y 0)) ++ ["="]%char
  | x :: y :: z :: b => b64Chars (quantumOf x y z) ++ b64Encode b
  end.
Definition EncodeToString (b : bytes) : string := string_of_list_ascii (b64Encode b).

Lemma b64_char v :
  0 <= v < 64 -> b64Val (b64Char v) = Some v /\ Ascii.eqb (b64Char v) "=" = false /\
    (b64Char v <> "010"%char /\ b64Char v <> "013"%char) /\ plain (b64Char v) = true.
Proof.
  intros Hv.
  assert (H : Forall (fun v => b64Val (b64Char v) = Some v /\ Ascii.eqb (b64Char v) "=" = false /\
    (b64Char v <> "010"%char /\ b64Char v <> "013"%char) /\ plain (b64Char v) = true) (seqZ 0 64))
    by (refine (bool_decide_unpack _ _); vm_compute; exact I).
  rewrite Forall_forall in H. apply H, elem_of_seqZ. lia.
Qed.

Lemma lor_high x y n : 0 <= n -> 0 <= x < 2 ^ n -> Z.lor (Z.shiftl y n) x = y * 2 ^ n + x.
Proof. intros. rewrite Z.lor_comm, lor_shiftl_add by done. lia. Qed.

Lemma quantum_add v0 v1 v2 v3 :
  0 <= v1 < 64 -> 0 <= v2 < 64 -> 0 <= v3 < 64 ->
  quantum v0 v1 v2 v3 = v0 * 2 ^ 18 + (v1 * 2 ^ 12 + (v2 * 2 ^ 6 + v3)).
Proof. intros. unfold quantum. by rewrite <- !Z.lor_assoc, (lor_high v3 v2 6), (lor_high _ v1 12), (lor_high _ v0 18) by lia. Qed.

Lemma quantumOf_add x y z :
  is_byte y -> is_byte z -> quantumOf x y z = x * 2 ^ 16 + (y * 2 ^ 8 + z).
Proof.
  unfold is_byte. intros. unfold quantumOf. by rewrite <- !Z.lor_assoc, (lor_high z y 8), (lor_high _ x 16) by lia.
Qed.

Lemma land_63 x : Z.land x 63 = x mod 64.
Proof. change 63 with (Z.ones 6). by rewrite Z.land_ones. Qed.

(** The four digits of a 24-bit value give it back. *)
Lemma quantum_digits v :
  0 <= v < 2 ^ 24 ->
  quantum (Z.land (Z.shiftr v 18) 63) (Z.land (Z.shiftr v 12) 63) (Z.land (Z.shiftr v 6) 63)
    (Z.land v 63) = v.
Proof.
  intros Hv. rewrite !land_63, !Z.shiftr_div_pow2 by lia.
  rewrite quantum_add by (apply Z.mod_pos_bound; lia).
  Z.to_euclidean_division_equations; lia.
Qed.

Lemma quantumBytes_of x y z :
  is_byte x -> is_byte y -> is_byte z -> quantumBytes (quantumOf x y z) = [x; y; z].
Proof.
  unfold is_byte. intros. rewrite quantumOf_add by done. unfold quantumBytes.
  rewrite !land_255, !Z.shiftr_div_pow2 by lia.
  f_equal; [|f_equal; [|f_equal]]; Z.to_euclidean_division_equations; lia.
Qed.

Lemma digit_range v k : 0 <= Z.land (Z.shiftr v k) 63 < 64 /\ 0 <= Z.land v 63 < 64.
Proof. rewrite !land_63. split; apply Z.mod_pos_bound; lia. Qed.

Lemma quantumOf_range x y z :
  is_byte x -> is_byte y -> is_byte z -> 0 <= quantumOf x y z < 2 ^ 24.
Proof. unfold is_byte. intros. rewrite quantumOf_add by done. lia. Qed.

Lemma triple_ind (P : bytes -> Prop) :
  P [] -> (forall x, P [x]) -> (forall x y, P [x; y]) ->
  (forall x y z b, P b -> P (x :: y :: z :: b)) -> forall b, P b.
Proof.
  intros H0 H1 H2 H3. fix IH 1. intros [|x [|y [|z b]]]; [done|apply H1|apply H2|apply H3, IH].
Qed.

(** Four characters of one 24-bit value decode to its three bytes. *)
Lemma b64Quanta_chars x y z rest :
  is_byte x -> is_byte y -> is_byte z ->
  b64Quanta (b64Chars (quantumOf x y z) ++ rest) =
    (out ← b64Quanta rest; Some (x :: y :: z :: out)).
Proof.
  intros Hx Hy Hz. pose proof (quantumOf_range x y z Hx Hy Hz) as Hr. unfold b64Chars.
  set (v := quantumOf x y z) in *. cbn [app b64Quanta].
  destruct (digit_range v 18) as [D18 D0]. destruct (digit_range v 12) as [D12 _].
  destruct (digit_range v 6) as [D6 _].
  destruct (b64_char _ D18) as (-> & _). destruct (b64_char _ D12) as (-> & _).
  destruct (b64_char _ D6) as (-> & -> & _). destruct (b64_char _ D0) as (-> & -> & _).
  cbn [mbind option_bind]. rewrite quantum_digits by done. unfold v. by rewrite quantumBytes_of.
Qed.

(** The digits an incomplete group leaves out are zero. *)
Lemma zero_digits x y :
  is_byte x -> is_byte y ->
  Z.land (quantumOf x y 0) 63 = 0 /\ Z.land (Z.shiftr (quantumOf x 0 0) 6) 63 = 0.
Proof.
  unfold is_byte. intros. rewrite !quantumOf_add, !land_63, Z.shiftr_div_pow2 by (unfold is_byte; lia).
  split; Z.to_euclidean_division_equations; lia.
Qed.

Lemma b64Quanta_Encode b : wf_bytes b -> b64Quanta (b64Encode b) = Some b.
Proof.
  unfold wf_bytes. induction b as [|x|x y|x y z b IH] using triple_ind; rewrite ?Forall_cons.
  - done.
  - intros [Hx _]. assert (H0 : is_byte 0) by (unfold is_byte; lia).
    destruct (zero_digits x 0 Hx H0) as [Z1 Z2]. set (v := quantumOf x 0 0) in *.
    pose proof (quantumOf_range x 0 0 Hx H0 H0) as Hr. fold v in Hr.
    destruct (digit_range v 18) as [D18 _]. destruct (digit_range v 12) as [D12 _].
    cbn [b64Encode b64Chars take app b64Quanta]. fold v.
    destruct (b64_char _ D18) as (-> & _). destruct (b64_char _ D12) as (-> & _).
    change (Ascii.eqb "=" "=") with true. cbn [mbind option_bind].
    pose proof (quantum_digits v Hr) as E. rewrite Z1, Z2 in E. rewrite E. unfold v.
    by rewrite quantumBytes_of.
  - intros (Hx & Hy & _). assert (H0 : is_byte 0) by (unfold is_byte; lia).
    destruct (zero_digits x y Hx Hy) as [Z1 _]. set (v := quantumOf x y 0) in *.
    pose proof (quantumOf_range x y 0 Hx Hy H0) as Hr. fold v in Hr.
    destruct (digit_range v 18) as [D18 _]. destruct (digit_range v 12) as [D12 _].
    destruct (digit_range v 6) as [D6 _].
    cbn [b64Encode b64Chars take app b64Quanta]. fold v.
    destruct (b64_char _ D18) as (-> & _). destruct (b64_char _ D12) as (-> & _).
    destruct (b64_char _ D6) as (-> & -> & _).
    change (Ascii.eqb "=" "=") with true. cbn [mbind option_bind].
    pose proof (quantum_digits v Hr) as E. rewrite Z1 in E. rewrite E. unfold v.
    by rewrite quantumBytes_of.
  - intros (Hx & Hy & Hz & Hb). cbn [b64Encode]. rewrite b64Quanta_chars by done.
    by rewrite IH.
Qed.

(** Every character of an encoding is a digit of the alphabet or padding: none is a
    line break, none a space. *)
Lemma b64Encode_chars b :
  Forall (fun c => (c <> "010"%char /\ c <> "013"%char) /\ plain c = true) (b64Encode b).
Proof.
  assert (Hc : forall v, Forall (fun c => (c <> "010"%char /\ c <> "013"%char) /\ plain c = true)
    (b64Chars v)).
  { intros v. unfold b64Chars.
    repeat (constructor; [by apply b64_char, digit_range|]). constructor. }
  assert (He : ("="%char <> "010"%char /\ "="%char <> "013"%char) /\ plain "=" = true) by done.
  induction b as [|x|x y|x y z b IH] using triple_ind; cbn [b64Encode]; [constructor|..];
    apply Forall_app; split; auto using Forall_take.
Qed.

Lemma filter_all {A} (P : A -> Prop) `{forall x, Decision (P x)} (l : list A) :
  Forall P l -> filter P l = l.
Proof. induction 1 as [|x l Hx _ IH]; [done|]. by rewrite filter_cons_True, IH. Qed.

(** Decoding inverts encoding. *)
Lemma DecodeString_Encode b : wf_bytes b -> DecodeString (EncodeToString b) = Some b.
Proof.
  intros Hb. unfold DecodeString, EncodeToString.
  rewrite list_ascii_of_string_of_list_ascii, filter_all; [by apply b64Quanta_Encode|].
  eapply Forall_impl; [apply b64Encode_chars|]. by intros c [H _].
Qed.

(** Decoded keys are bytes. *)
Lemma wf_quantumBytes v : wf_bytes (quantumBytes v).
Proof. unfold quantumBytes. rewrite !land_255. repeat constructor; apply is_byte_mod. Qed.

Lemma b64Quanta_wf s : forall b, b64Quanta s = Some b -> wf_bytes b.
Proof.
  induction s as [s IH] using (induction_ltof1 _ length). unfold ltof in IH. intros b.
  destruct s as [|c0 [|c1 [|c2 [|c3 rest]]]]; cbn [b64Quanta]; try done; [intros [= <-]; constructor|].
  destruct (b64Val c0); [|done]. destruct (b64Val c1); [|done]. cbn [mbind option_bind].
  destruct (Ascii.eqb c2 "="); [destruct rest; [|done]; destruct (Ascii.eqb c3 "="); [|done];
    intros <-%(inj Some); apply Forall_take, wf_quantumBytes|].
  destruct (b64Val c2); [|done]. cbn [mbind option_bind].
  destruct (Ascii.eqb c3 "="); [destruct rest; [|done]; intros <-%(inj Some); apply Forall_take, wf_quantumBytes|].
  destruct (b64Val c3); [|done]. destruct (b64Quanta rest) as [out|] eqn:E; [|done].
  cbn [mbind option_bind]. intros <-%(inj Some). apply wf_bytes_app; [apply wf_quantumBytes|].
  apply (IH rest); [cbn; lia|done].
Qed.

(** ** bufio.Scanner over lines *)

Definition maxScanTokenSize : nat := 64 * 1024.

(** Drop a final carriage return. *)
Fixpoint dropCR (s : string) : string :=
  match s with
  | EmptyString => EmptyString
  | String c EmptyString => if Ascii.eqb c "013" then EmptyString else s
  | String c s' => String c (dropCR s')
  end.

(** The raw lines: what the last line break ends is no line of its own. *)
Fixpoint dropLastEmpty (ls : list string) : list string :=
  match ls with
  | [] => []
  | [l] => if String.eqb l "" then [] else [l]
  | l :: ls => l :: dropLastEmpty ls
  end.

(** The tokens, and whether a line that does not fit the buffer stopped the scan. *)
Fixpoint scanTokens (ls : list string) : list string * bool :=
  match ls with
  | [] => ([], false)
  | l :: ls =>
      if (maxScanTokenSize <=? String.length l)%nat then ([], true)
      else let '(toks, tooLong) := scanTokens ls in (dropCR l :: toks, tooLong)
  end.

Definition ScanLines (data : string) : list string * bool :=
  scanTokens (dropLastEmpty (Split "010" data)).

(** ** strings.ToLower, Trim, TrimRight *)

(** [ToLower] up to runes whose lower case is not ASCII (they are left as they are):
    the letters A to Z, and the two other runes with an ASCII lower case, U+0130 and
    the Kelvin sign U+212A. *)
Definition lowerByte (c : ascii) : ascii :=
  if (65 <=? code c) && (code c <=? 90) then chr (code c + 32) else c.
Fixpoint ToLower (s : string) : string :=
  match s with
  | EmptyString => EmptyString
  | String a s1 =>
      match s1 with
      | String b s2 =>
          if (code a =? 0xC4) && (code b =? 0xB0) then String "i" (ToLower s2)
          else
            match s2 with
            | String c s3 =>
                if (code a =? 0xE2) && (code b =? 0x84) && (code c =? 0xAA)
                then String "k" (ToLower s3) else String (lowerByte a) (ToLower s1)
            | EmptyString => String (lowerByte a) (ToLower s1)
            end
      | EmptyString => String (lowerByte a) EmptyString
      end
  end.

(** [strings.TrimLeft] and [Trim] for a set of ASCII characters. *)
Fixpoint TrimLeft (s : string) (cutset : string) : string :=
  match s with
  | EmptyString => EmptyString
  | String c s' => if containsByte c cutset then TrimLeft s' cutset else s
  end.
Definition TrimRight (s : string) (cutset : string) : string :=
  rev_string (TrimLeft (rev_string s "") cutset) "".
Definition Trim (s : string) (cutset : string) : string := TrimRight (TrimLeft s cutset) cutset.

Definition HasSuffix (s suffix : string) : bool := HasPrefix (rev_string s "") (rev_string suffix "").

(** ** Masks and the text of networks *)

(** [simpleMaskLength]: the ones of a canonical mask. *)
Fixpoint maskOnes (m : bytes) : option Z :=
  match m with
  | [] => Some 0
  | v :: m =>
      if v =? 255 then n ← maskOnes m; Some (8 + n)
      else
        n ← list_find (fun k => v = 256 - 2 ^ (8 - k)) (seqZ 0 8);
        if forallb (Z.eqb 0) m then Some n.2 else None
  end.

(** [IPMask.Size]. *)
Definition MaskSize (m : bytes) : Z * Z :=
  match maskOnes m with Some n => (n, len m * 8) | None => (0, 0) end.

(** The longest run of zero groups of an IPv6 address, from group [i] on; the
    earliest of the longest ones, if it has two groups at least. *)
Fixpoint zeroPrefix (gs : list Z) : nat :=
  match gs with g :: gs => if g =? 0 then S (zeroPrefix gs) else O | [] => O end.
Fixpoint zeroRun (i : nat) (gs : list Z) (best : nat * nat) : nat * nat :=
  match gs with
  | [] => best
  | g :: gs' =>
      let l := zeroPrefix gs in
      zeroRun (S i) gs' (if (2 <=? l)%nat && (snd best <? l)%nat then (i, l) else best)
  end.

Fixpoint hexFuel (fuel : nat) (n : Z) (acc : string) : string :=
  match fuel with
  | O => acc
  | S fuel =>
      let acc := String (hexDigit (n mod 16)) acc in
      if n <? 16 then acc else hexFuel fuel (n / 16) acc
  end.

Fixpoint groups (ip : bytes) : list Z :=
  match ip with a :: b :: ip => (a * 256 + b) :: groups ip | _ => [] end.

Definition groupText (g : Z) : string := hexFuel 4 g "".

(** [netip.Addr.String] of a 16-byte address that is not IPv4-mapped. *)
Definition v6String (ip : bytes) : string :=
  let gs := groups ip in
  let join l := String.concat ":" (groupText <$> l) in
  match zeroRun 0 gs (0, 0)%nat with
  | (_, 0%nat) => join gs
  | (i, l) => (join (take i gs) +:+ "::" +:+ join (drop (i + l) gs))%string
  end.

(** [IP.String]. *)
Definition IPString (ip : bytes) : string :=
  match ip with
  | [] => "<nil>"
  | _ =>
      match To4 ip with
      | [] => if (length ip =? 16)%nat then v6String ip else ("?" +:+ hexText ip)%string
      | ip4 => v4String ip4
      end
  end.

(** [IPNet.String]. *)
Definition IPNetString (n : IPNet) : string :=
  let ip := match To4 (ipnet_IP n) with [] => ipnet_IP n | ip4 => ip4 end in
  let m := if (length (ipnet_Mask n) =? 16)%nat && (length ip =? 4)%nat
           then drop 12 (ipnet_Mask n) else ipnet_Mask n in
  if ((length ip =? 4)%nat || (length ip =? 16)%nat) && (length m =? length ip)%nat then
    match maskOnes m with
    | Some l => (IPString ip +:+ "/" +:+ Itoa l)%string
    | None => (IPString ip +:+ "/" +:+ hexText m)%string
    end
  else "<nil>".

(** ** path/filepath *)

(** The components of a cleaned path, in reverse. *)
Fixpoint cleanParts (rooted : bool) (parts acc : list string) : list string :=
  match parts with
  | [] => acc
  | p :: parts =>
      if String.eqb p "" || String.eqb p "." then cleanParts rooted parts acc
      else if String.eqb p ".." then
        match acc with
        | [] => cleanParts rooted parts (if rooted then [] else [p])
        | q :: rest =>
            if String.eqb q ".." then cleanParts rooted parts (p :: acc)
            else cleanParts rooted parts rest
        end
      else cleanParts rooted parts (p :: acc)
  end.

(** [filepath.Clean] and [filepath.Join]. *)
Definition Clean (path : string) : string :=
  let rooted := HasPrefix path "/" in
  let body := String.concat "/" (reverse (cleanParts rooted (Split "/" path) [])) in
  if rooted then String "/" body else if String.eqb body "" then "." else body.

Definition FilepathJoin (elems : list string) : string :=
  match filter (fun e => e <> ""%string) elems with
  | [] => ""
  | elems => Clean (String.concat "/" elems)
  end.

(** ** Addresses parsed from text *)

Definition wf_addr (ip : bytes) : Prop := (length ip = 4%nat \/ length ip = 16%nat) /\ wf_bytes ip.

Lemma v6Finish_wf ip ellipsis s a :
  (length ip <= 16)%nat -> (forall e, ellipsis = Some e -> (e <= length ip)%nat) -> wf_bytes ip ->
  v6Finish ip ellipsis s = Some a -> length a = 16%nat /\ wf_bytes a.
Proof.
  intros Hl He Hw. unfold v6Finish. destruct s; [|done].
  destruct (Nat.ltb_spec (length ip) 16).
  - destruct ellipsis as [e|]; [|done]. specialize (He e eq_refl). intros <-%(inj Some). split.
    + rewrite !length_app, length_zeros, length_take, length_drop. lia.
    + auto 10 with gosem.
  - destruct ellipsis; [done|]. intros [= <-]. split; [lia|done].
Qed.

Lemma v6Loop_wf fuel : forall ip ellipsis s a,
  (length ip + 2 * fuel = 16)%nat -> (forall e, ellipsis = Some e -> (e <= length ip)%nat) ->
  wf_bytes ip -> v6Loop fuel ip ellipsis s = Some a -> length a = 16%nat /\ wf_bytes a.
Proof.
  induction fuel as [|fuel IH]; intros ip ellipsis s a Hl He Hw; cbn [v6Loop].
  { apply v6Finish_wf; [lia|done..]. }
  destruct (takeHex s 0 0) as [[[off acc] rest]|]; [|done]. cbn [mbind option_bind].
  destruct (off =? 0); [done|].
  assert (Hw2 : wf_bytes (ip ++ put16 acc)) by auto with gosem.
  assert (Hl2 : (length (ip ++ put16 acc) + 2 * fuel = 16)%nat) by (rewrite length_app; cbn; lia).
  assert (He2 : forall e, ellipsis = Some e -> (e <= length (ip ++ put16 acc))%nat).
  { intros e E. specialize (He e E). rewrite length_app. lia. }
  assert (He3 : forall e, Some (length (ip ++ put16 acc)) = Some e -> (e <= length (ip ++ put16 acc))%nat)
    by (intros e [= ->]; lia).
  assert (Hfin : forall el, (forall e, el = Some e -> (e <= length (ip ++ put16 acc))%nat) ->
    forall t, v6Finish (ip ++ put16 acc) el t = Some a -> length a = 16%nat /\ wf_bytes a).
  { intros el Hel t. apply v6Finish_wf; [lia|done..]. }
  destruct rest as [|c rest]; [by apply Hfin|].
  destruct (Ascii.eqb_spec c ".") as [->|Hd].
  { destruct (match ellipsis with None => _ | Some _ => _ end); [done|].
    destruct (Nat.ltb_spec 16 (length ip + 4)); [done|].
    destruct (parseIPv4 s) as [v4|] eqn:E4; [|done]. cbn [mbind option_bind].
    apply parseIPv4_canonical in E4 as (Hl4 & Hw4 & _).
    apply v6Finish_wf; [rewrite length_app; lia|..|auto with gosem].
    intros e E. specialize (He e E). rewrite length_app. lia. }
  destruct (Ascii.eqb_spec c ":") as [->|Hc].
  { destruct rest as [|c2 rest2]; [done|]. destruct (Ascii.eqb c2 ":"); [|by apply IH].
    destruct ellipsis; [done|]. destruct rest2; [by apply Hfin|by apply IH]. }
  destruct c as [[] [] [] [] [] [] [] []]; done.
Qed.

Lemma parseIPv6_wf s a : parseIPv6 s = Some a -> length a = 16%nat /\ wf_bytes a.
Proof.
  unfold parseIPv6. destruct (containsByte "%" s); [done|].
  assert (Hloop : forall t el, (el = None \/ el = Some 0%nat) ->
    v6Loop 8 [] el t = Some a -> length a = 16%nat /\ wf_bytes a).
  { intros t el Hel. apply v6Loop_wf; [done| |constructor]. destruct Hel as [-> | ->]; naive_solver. }
  assert (Hz : Some (zeros 16) = Some a -> length a = 16%nat /\ wf_bytes a).
  { intros <-%(inj Some). split; [done|apply wf_zeros]. }
  destruct s as [|c [|c2 s]]; [by apply Hloop; left| |].
  - destruct c as [[] [] [] [] [] [] [] []]; apply Hloop; by left.
  - destruct (Ascii.eqb_spec c ":") as [->|Hc].
    + destruct (Ascii.eqb_spec c2 ":") as [->|Hc2].
      * destruct s; [exact Hz|apply Hloop; by right].
      * destruct c2 as [[] [] [] [] [] [] [] []]; (congruence || (apply Hloop; by left)).
    + destruct c as [[] [] [] [] [] [] [] []]; (congruence || (apply Hloop; by left)).
Qed.

Lemma ParseAddr_wf s ip : ParseAddr s = Some ip -> wf_addr ip.
Proof.
  unfold ParseAddr. destruct (addrKind s) as [k|]; [|done].
  destruct (Ascii.eqb_spec k ".") as [->|Hd].
  { intros (Hl & Hw & _)%parseIPv4_canonical. split; auto. }
  destruct (Ascii.eqb_spec k ":") as [->|Hc].
  { intros (Hl & Hw)%parseIPv6_wf. split; auto. }
  destruct k as [[] [] [] [] [] [] [] []]; done.
Qed.

(** Networks: an address and a mask of the same family, or an IPv4 address in its
    16-byte form with an IPv4 mask. *)
Definition wf_net (n : IPNet) : Prop :=
  wf_addr (ipnet_IP n) /\ (exists ones, 0 <= ones <= 8 * len (ipnet_Mask n) /\
    ipnet_Mask n = CIDRMask ones (length (ipnet_Mask n))) /\
  (length (ipnet_Mask n) = length (ipnet_IP n) \/
   (length (ipnet_Mask n) = 4%nat /\ length (To4 (ipnet_IP n)) = 4%nat)).

Lemma length_CIDRMask ones n : length (CIDRMask ones n) = n.
Proof. revert ones. induction n as [|n IH]; intros ones; [done|]. cbn. case_match; cbn; by rewrite IH. Qed.

Lemma wf_CIDRMask ones n : wf_bytes (CIDRMask ones n).
Proof.
  revert ones. induction n as [|n IH]; intros ones; [constructor|]. cbn [CIDRMask].
  destruct (Z.leb_spec 8 ones); (constructor; [|apply IH]); [unfold is_byte; lia|].
  unfold is_byte. rewrite Z.shiftr_div_pow2 by lia.
  assert (0 < 2 ^ Z.max ones 0) by (apply Z.pow_pos_nonneg; lia).
  assert (0 <= 255 / 2 ^ Z.max ones 0 <= 255); [|lia].
  split; [apply Z.div_pos; lia|]. apply Z.div_le_upper_bound; nia.
Qed.

Lemma parseDigits_nonneg s : forall acc v, 0 <= acc -> parseDigits acc s = Some v -> 0 <= v.
Proof.
  induction s as [|c s IH]; intros acc v Ha; cbn [parseDigits]; [by intros [= <-]|].
  destruct (isDigit c) eqn:Hc; [|done]. apply isDigit_inv in Hc as [Hd _]. apply IH. lia.
Qed.

Lemma ParseCIDR_wf s n : ParseCIDR s = Some n -> wf_net n /\ length (ipnet_Mask n) = length (ipnet_IP n).
Proof.
  unfold ParseCIDR. destruct (Cut "/" s) as [[addr mask]|]; [|done]. cbn [mbind option_bind].
  destruct (ParseAddr addr) as [ip|] eqn:Ea; [|done]. cbn [mbind option_bind].
  destruct mask as [|c mask]; [done|].
  destruct (parseDigits 0 (String c mask)) as [v|] eqn:Ev; [|done]. cbn [mbind option_bind]. cbv zeta.
  destruct ((v <? 0xFFFFFF) && (v <=? 8 * len ip)) eqn:Hv; [|done]. bool_arith.
  apply parseDigits_nonneg in Ev; [|lia]. apply ParseAddr_wf in Ea as [Hl Hw].
  intros E. assert (n = mkIPNet (maskBytes ip (CIDRMask v (length ip))) (CIDRMask v (length ip))) as ->
    by congruence. unfold wf_net. cbn [ipnet_IP ipnet_Mask].
  assert (El : length (maskBytes ip (CIDRMask v (length ip))) = length ip).
  { unfold maskBytes. rewrite length_zip_with, length_CIDRMask. lia. }
  rewrite El, length_CIDRMask. split_and!; auto.
  - split; [by rewrite El|]. by apply wf_land; [|apply wf_CIDRMask].
  - exists v. unfold len in *. rewrite length_CIDRMask. split; [lia|done].
Qed.

Lemma ParseIP_wf s : ParseIP s <> [] -> length (ParseIP s) = 16%nat /\ wf_bytes (ParseIP s).
Proof.
  unfold ParseIP. destruct (ParseAddr s) as [ip|] eqn:E; [|done]. intros _.
  apply ParseAddr_wf in E as [[Hl|Hl] Hw]; unfold To16; rewrite Hl; cbn [Nat.eqb]; [|done].
  split; [by rewrite length_app, Hl|]. apply wf_bytes_app; [|done].
  repeat constructor; unfold is_byte; lia.
Qed.

(** ** Lines *)

Lemma dropCR_free c s : containsByte c s = false -> containsByte c (dropCR s) = false.
Proof.
  induction s as [|x s IH]; [done|]. intros H. cbn [containsByte] in H.
  apply orb_false_iff in H as [Hx Hs]. specialize (IH Hs). cbn [dropCR].
  destruct s as [|y s]; [destruct (Ascii.eqb x "013"); cbn; by rewrite ?Hx|].
  cbn [containsByte]. by rewrite Hx, IH.
Qed.

Lemma dropLastEmpty_sub ls l : l ∈ dropLastEmpty ls -> l ∈ ls.
Proof.
  induction ls as [|x ls IH]; [done|]. cbn [dropLastEmpty]. destruct ls as [|y ls].
  - destruct (String.eqb x ""); [by intros ?%elem_of_nil|done].
  - intros [->|H]%elem_of_cons; [by left|right; by apply IH].
Qed.

(** A scanned line holds no line break. *)
Lemma ScanLines_free data :
  Forall (fun l => containsByte "010" l = false) (ScanLines data).1.
Proof.
  unfold ScanLines.
  assert (H : Forall (fun l => containsByte "010" l = false) (dropLastEmpty (Split "010" data))).
  { apply Forall_forall. intros l Hl%dropLastEmpty_sub. pose proof (Split_free "010" data) as Hf.
    rewrite Forall_forall in Hf. by apply Hf. }
  induction H as [|l ls Hl _ IH]; [constructor|]. cbn [scanTokens].
  destruct (_ <=? _)%nat; [constructor|]. destruct (scanTokens ls) as [toks t].
  constructor; [by apply dropCR_free|exact IH].
Qed.



(** A text file: every line ends in a line break. *)
Fixpoint fileText (lines : list string) : string :=
  match lines with [] => "" | l :: lines => (l +:+ String "010" (fileText lines))%string end.

(** A text with no white space at its ends and on one line. *)
Record clean (t : string) : Prop := {
  clean_start : exists c s, t = String c s /\ plain c = true;
  clean_end : exists u d, t = (u +:+ String d "")%string /\ plain d = true;
  clean_line : containsByte "010" t = false;
}.

Lemma clean_trim t : clean t -> TrimSpace t = t.
Proof.
  intros [(c & s & -> & Hc) (u & d & E & Hd) _]. by apply (TrimSpace_plain c d s u).
Qed.

Lemma clean_app a x b :
  clean a -> clean b -> containsByte "010" x = false -> clean (a +:+ x +:+ b)%string.
Proof.
  intros [(c & s & -> & Hc) _ Ha] [_ (u & d & -> & Hd) Hb] Hx. split.
  - exists c, (s +:+ x +:+ u +:+ String d "")%string. done.
  - exists (String c s +:+ x +:+ u)%string, d. split; [|done]. by rewrite !string_app_assoc.
  - by rewrite (containsByte_app _ (String c s)), (containsByte_app _ x), Ha, Hx, Hb.
Qed.

(** A space in front is trimmed. *)
Lemma clean_trim_space t : clean t -> TrimSpace (String " " t) = t.
Proof.
  intros Ht. rewrite <- (clean_trim t Ht) at 2. destruct Ht as [(c & s & -> & Hc) _ _].
  unfold TrimSpace. change (String.length (String " " (String c s))) with (S (String.length (String c s))).
  cbn [trimLeft].
  assert (E : cutAnyPrefix (String " " (String c s)) spaces = Some (String c s)) by reflexivity.
  by rewrite E.
Qed.

(** ... and one behind, too. *)
Lemma TrimSpace_behind t : clean t -> TrimSpace (t +:+ " ")%string = t.
Proof.
  intros [(c & s & -> & Hc) (u & d & E & Hd) _]. unfold TrimSpace.
  change (String c s +:+ " ")%string with (String c (s +:+ " ")%string).
  rewrite (proj1 (trimLeft_plain c _ _ Hc)).
  change (String c (s +:+ " ")%string) with (String c s +:+ " ")%string.
  rewrite rev_string_app, E, rev_string_app.
  change (rev_string " " ?x) with (String " " x). change (rev_string (String d "") ?x) with (String d x).
  assert (Hl : exists n, String.length ((u +:+ String d "") +:+ " ")%string = S n).
  { destruct u as [|x u]; eexists; reflexivity. }
  destruct Hl as [n ->]. cbn [trimLeft].
  assert (Ec : cutAnyPrefix (String " " (String d (rev_string u ""))) spacesRev =
    Some (String d (rev_string u ""))) by reflexivity.
  rewrite Ec, (proj2 (trimLeft_plain d _ _ Hd)).
  change (String d (rev_string u "")) with (rev_string (String d "") (rev_string u "")).
  by rewrite <- rev_string_app, rev_string_involutive.
Qed.

Lemma dropCR_clean t : clean t -> dropCR t = t.
Proof.
  intros [_ (u & d & -> & Hd) _].
  assert (Hcr : Ascii.eqb d "013" = false) by (by destruct (Ascii.eqb_spec d "013") as [->|]).
  assert (Hstep : forall x s, s <> "" -> dropCR (String x s) = String x (dropCR s)) by (by intros x []).
  induction u as [|x u IH]; [change (dropCR (String d "") = String d ""); cbn [dropCR]; by rewrite Hcr|].
  change (String x u +:+ String d "")%string with (String x (u +:+ String d "")%string).
  rewrite Hstep, IH; [done|]. by destruct u.
Qed.

Lemma fileText_lines lines :
  Forall (fun l => containsByte "010" l = false) lines ->
  Split "010" (fileText lines) = lines ++ [""%string].
Proof.
  induction 1 as [|l lines Hl _ IH]; [done|]. cbn [fileText app]. by rewrite Split_app, IH.
Qed.

(** The scanner gives the lines of a text back. *)
Lemma ScanLines_fileText lines :
  Forall (fun l => containsByte "010" l = false /\ dropCR l = l /\
    (String.length l < maxScanTokenSize)%nat) lines ->
  ScanLines (fileText lines) = (lines, false).
Proof.
  intros Hl. unfold ScanLines.
  rewrite fileText_lines by (eapply Forall_impl; [exact Hl|]; by intros ? [? _]).
  assert (E2 : dropLastEmpty (lines ++ [""%string]) = lines).
  { clear. induction lines as [|l lines IH]; [done|]. cbn [app dropLastEmpty].
    destruct lines; [done|]. by rewrite IH. }
  rewrite E2. clear E2. induction Hl as [|l lines (Hf & Hcr & Hs) _ IH]; [done|].
  cbn [scanTokens]. destruct (Nat.leb_spec maxScanTokenSize (String.length l)); [lia|].
  by rewrite IH, Hcr.
Qed.
