(* ===== verification/NetLib.v ===== *)
(** * NetLib: the interface of gVisor's [header] package

    The frame-layer code (DHCP replies, the ICMP relay) builds and reads
    packets with gVisor's [header] accessors, which are not part of this
    repository. [NetHeader] lists the operations the code calls,
    [NetHeaderLaws] the documented behaviour it relies on (the RFC 791 / RFC 768
    / IEEE 802.3 field positions). [RefHeader] is one concrete instance, used to
    evaluate examples. *)
From S2P Require Import Prelude.
From S2P Require Import GoStd.

(** [header.EthernetMinimumSize] and friends: the sizes of the fixed headers. *)
Definition EthernetMinimumSize : Z := 14.
Definition IPv4MinimumSize : Z := 20.
Definition UDPMinimumSize : Z := 8.
Definition ICMPv4MinimumSize : Z := 8.
Definition UDPProtocolNumber : Z := 17.
Definition ICMPv4ProtocolNumber : Z := 1.
Definition ICMPv4Echo : Z := 8.
Definition ICMPv4EchoReply : Z := 0.
Definition EthernetBroadcastAddress : bytes := [255; 255; 255; 255; 255; 255].

Record EthernetFields := mkEth { eth_SrcAddr : bytes; eth_DstAddr : bytes; eth_Type : Z }.
Record IPv4Fields := mkIPv4 {
  ip_TotalLength : Z; ip_TTL : Z; ip_Protocol : Z; ip_SrcAddr : bytes; ip_DstAddr : bytes }.
Record UDPFields := mkUDP { udp_SrcPort : Z; udp_DstPort : Z; udp_Length : Z }.

Class NetHeader := {
  (** readers of header.IPv4 / header.UDP *)
  ip4_Protocol : bytes -> go Z;
  ip4_HeaderLength : bytes -> go Z;
  ip4_TotalLength : bytes -> go Z;
  ip4_DestinationAddress : bytes -> go bytes;
  (** [Payload()] re-slices the buffer up to its capacity, so it is given the
      bytes behind the packet in the same buffer too, and returns the payload
      with what is behind it. *)
  ip4_Payload : bytes -> bytes -> go (bytes * bytes);
  udp_DestinationPort : bytes -> go Z;
  udp_Payload : bytes -> go bytes;
  (** writers: they return the updated buffer *)
  eth_Encode : EthernetFields -> bytes -> bytes;
  ip4_Encode : IPv4Fields -> bytes -> bytes;
  ip4_SetChecksum : Z -> bytes -> bytes;
  udp_Encode : UDPFields -> bytes -> bytes;
  udp_SetChecksum : Z -> bytes -> bytes;
  (** checksums *)
  ip4_CalculateChecksum : bytes -> Z;
  udp_CalculateChecksum : bytes -> Z -> Z;
  PseudoHeaderChecksum : Z -> bytes -> bytes -> Z -> Z;
  Checksum : bytes -> Z -> Z;
  Combine : Z -> Z -> Z;
}.

(** The 16-bit words of a packet, added up; folding the carries back. *)
Fixpoint sum16 (b : bytes) : Z :=
  match b with
  | x :: y :: rest => x * 256 + y + sum16 rest
  | [x] => x * 256
  | [] => 0
  end.

Definition fold16 (x : Z) : Z := let y := x / 65536 + x mod 65536 in y / 65536 + y mod 65536.

(** The 16-bit complement [^x] of a [uint16]. *)
Definition not16 (x : Z) : Z := Z.lxor x 0xFFFF.

Class NetHeaderLaws (H : NetHeader) : Prop := {
  ip4_Protocol_spec b : 20 <= len b -> ip4_Protocol b = idx b 9;
  ip4_HeaderLength_spec b : 20 <= len b ->
    ip4_HeaderLength b = (v ← idx b 0; Done (Z.land v 15 * 4));
  ip4_TotalLength_spec b : 20 <= len b -> ip4_TotalLength b = (s ← slice b 2 4; be16 s);
  ip4_DestinationAddress_spec b : 20 <= len b -> ip4_DestinationAddress b = slice b 16 20;
  (** [b[b.HeaderLength():][:b.PayloadLength()]], where [PayloadLength] is the
      [uint16] difference of the total and the header length. *)
  ip4_Payload_spec b behind : 20 <= len b ->
    ip4_Payload b behind =
      (hl ← ip4_HeaderLength b; t ← ip4_TotalLength b;
       p ← slice_from b hl;
       let n := u16 (t - hl) in
       r ← slice (p ++ behind) 0 n; rest ← slice_from (p ++ behind) n;
       Done (r, rest));
  udp_DestinationPort_spec b : 8 <= len b -> udp_DestinationPort b = (s ← slice b 2 4; be16 s);
  udp_Payload_spec b : 8 <= len b -> udp_Payload b = slice_from b 8;
  eth_Encode_spec f b : 14 <= len b -> length (eth_SrcAddr f) = 6%nat ->
    length (eth_DstAddr f) = 6%nat ->
    eth_Encode f b = eth_DstAddr f ++ eth_SrcAddr f ++ put16 (eth_Type f) ++ drop 14 b;
  ip4_Encode_spec f b : 20 <= len b -> length (ip_SrcAddr f) = 4%nat ->
    length (ip_DstAddr f) = 4%nat ->
    exists b0 tos h2, length h2 = 4%nat /\ wf_bytes ([b0; tos] ++ h2) /\ Z.land b0 15 = 5 /\
      ip4_Encode f b = [b0; tos] ++ put16 (ip_TotalLength f) ++ h2 ++
        [ip_TTL f; ip_Protocol f] ++ [0; 0] ++ ip_SrcAddr f ++ ip_DstAddr f ++ drop 20 b;
  (** the ones'-complement sum of the header, here one without options *)
  ip4_CalculateChecksum_spec b b0 : 20 <= len b -> idx b 0 = Done b0 -> Z.land b0 15 = 5 ->
    ip4_CalculateChecksum b = fold16 (sum16 (take 20 b));
  ip4_SetChecksum_spec c b : 20 <= len b ->
    ip4_SetChecksum c b = take 10 b ++ put16 c ++ drop 12 b;
  udp_Encode_spec f b : 8 <= len b ->
    exists c, length c = 2%nat /\
      udp_Encode f b = put16 (udp_SrcPort f) ++ put16 (udp_DstPort f) ++
                       put16 (udp_Length f) ++ c ++ drop 8 b;
  udp_SetChecksum_spec c b : 8 <= len b ->
    udp_SetChecksum c b = take 6 b ++ put16 c ++ drop 8 b;
}.

(** An IPv4 header without options, up to the fields the library fills in by itself
    (TOS, ID, flags), whose checksum verifies: all its words add up to [0xFFFF], the
    receiver's test. *)
Definition ipHeader (total ttl proto : Z) (src dst h : bytes) : Prop :=
  (exists b0 tos id ck, Z.land b0 15 = 5 /\ length id = 4%nat /\ length ck = 2%nat /\
    h = [b0; tos] ++ put16 total ++ id ++ [ttl; proto] ++ ck ++ src ++ dst) /\
  fold16 (sum16 h) = 0xFFFF.

(** A UDP header, up to its checksum. *)
Definition udpHeader (src dst n : Z) (h : bytes) : Prop :=
  exists ck, length ck = 2%nat /\ h = put16 src ++ put16 dst ++ put16 n ++ ck.

Lemma drop_zeros n m : drop n (zeros m) = zeros (m - n).
Proof. apply drop_replicate. Qed.

(** ** A concrete instance *)

#[export] Instance RefHeader : NetHeader := {
  ip4_Protocol b := idx b 9;
  ip4_HeaderLength b := v ← idx b 0; Done (Z.land v 15 * 4);
  ip4_TotalLength b := s ← slice b 2 4; be16 s;
  ip4_DestinationAddress b := slice b 16 20;
  ip4_Payload b behind :=
    v ← idx b 0; t ← (s ← slice b 2 4; be16 s);
    p ← slice_from b (Z.land v 15 * 4);
    let n := u16 (t - Z.land v 15 * 4) in
    r ← slice (p ++ behind) 0 n; rest ← slice_from (p ++ behind) n;
    Done (r, rest);
  udp_DestinationPort b := s ← slice b 2 4; be16 s;
  udp_Payload b := slice_from b 8;
  eth_Encode f b := eth_DstAddr f ++ eth_SrcAddr f ++ put16 (eth_Type f) ++ drop 14 b;
  ip4_Encode f b :=
    [0x45; 0] ++ put16 (ip_TotalLength f) ++ [0; 0; 0; 0] ++ [ip_TTL f; ip_Protocol f] ++
    [0; 0] ++ ip_SrcAddr f ++ ip_DstAddr f ++ drop 20 b;
  ip4_SetChecksum c b := take 10 b ++ put16 c ++ drop 12 b;
  udp_Encode f b :=
    put16 (udp_SrcPort f) ++ put16 (udp_DstPort f) ++ put16 (udp_Length f) ++ [0; 0] ++ drop 8 b;
  udp_SetChecksum c b := take 6 b ++ put16 c ++ drop 8 b;
  ip4_CalculateChecksum b := fold16 (sum16 (take 20 b));
  udp_CalculateChecksum b partial := fold16 (partial + sum16 (take 8 b));
  PseudoHeaderChecksum proto src dst n := fold16 (sum16 src + sum16 dst + proto + n);
  Checksum b init := fold16 (init + sum16 b);
  Combine x y := fold16 (x + y);
}.

#[export] Instance RefHeaderLaws : NetHeaderLaws RefHeader.
Proof.
  split; try done.
  - intros b behind _. cbn [ip4_Payload ip4_HeaderLength ip4_TotalLength RefHeader].
    by destruct (idx b 0).
  - intros f b _ _ _. exists 0x45, 0, [0; 0; 0; 0]. split_and!; try done. by repeat constructor.
  - intros f b _. by exists [0; 0].
Qed.

(** ** The header's checksum *)

Lemma not16_sub x : 0 <= x <= 65535 -> not16 x = 65535 - x.
Proof.
  intros Hx. unfold not16. change 0xFFFF with (Z.ones 16).
  assert (Hb : forall n, 16 <= n -> Z.testbit x n = false).
  { intros n Hn. rewrite <- (Z.mod_small x (2 ^ 16)) by lia. apply Z.mod_pow2_bits_high. lia. }
  rewrite Z.sub_nocarry_ldiff.
  - apply Z.bits_inj'. intros n Hn. rewrite Z.lxor_spec, Z.ldiff_spec.
    destruct (Z.lt_ge_cases n 16).
    + rewrite Z.ones_spec_low by lia. by destruct (Z.testbit x n).
    + rewrite Z.ones_spec_high, Hb by lia. done.
  - apply Z.bits_inj'. intros n Hn. rewrite Z.ldiff_spec, Z.bits_0.
    destruct (Z.lt_ge_cases n 16).
    + rewrite Z.ones_spec_low by lia. apply andb_false_r.
    + by rewrite Hb by lia.
Qed.

(** Folding keeps the residue modulo 65535 and is zero only for zero. *)
Lemma fold16_spec s : 0 < s < 2 ^ 32 -> exists k, fold16 s = s - 65535 * k /\ 0 < fold16 s <= 65535.
Proof.
  intros Hs. unfold fold16. set (y := s / 65536 + s mod 65536).
  assert (Hy : 0 < y <= 131070 /\ y = s - 65535 * (s / 65536))
    by (subst y; Z.to_euclidean_division_equations; lia).
  exists (s / 65536 + y / 65536). clearbody y. Z.to_euclidean_division_equations; lia.
Qed.

Lemma fold16_complement s : 0 < s <= 10 * 65535 -> fold16 (s + not16 (fold16 s)) = 0xFFFF.
Proof.
  intros Hs. destruct (fold16_spec s ltac:(lia)) as (k & E & Hr). rewrite not16_sub by lia.
  destruct (fold16_spec (s + (65535 - fold16 s)) ltac:(lia)) as (k' & E' & Hr'). lia.
Qed.

Lemma put16_sum x : 0 <= x < 65536 -> exists a b, put16 x = [a; b] /\ a * 256 + b = x.
Proof.
  intros Hx. exists (x / 256), (x mod 256). unfold put16. rewrite !land_255, Z.shiftr_div_pow2 by lia.
  change (2 ^ 8) with 256. rewrite (Z.mod_small (x / 256)); [|Z.to_euclidean_division_equations; lia].
  split; [done|]. pose proof (Z.div_mod x 256). lia.
Qed.

(** Storing the complement of the sum of a header makes the header verify. *)
Lemma header_verifies b0 tos total id ttl proto src dst :
  wf_bytes ([b0; tos] ++ id) -> length id = 4%nat -> 0 < ttl < 256 -> is_byte proto ->
  wf_ip4 src -> wf_ip4 dst ->
  let h ck := [b0; tos] ++ put16 total ++ id ++ [ttl; proto] ++ ck ++ src ++ dst in
  fold16 (sum16 (h (put16 (not16 (fold16 (sum16 (h [0; 0]))))))) = 0xFFFF.
Proof.
  intros Hb (i0 & i1 & i2 & i3 & ->)%length_4_inv Ht Hp [(s0 & s1 & s2 & s3 & ->)%length_4_inv Hs]
    [(d0 & d1 & d2 & d3 & ->)%length_4_inv Hd] h.
  pose proof (wf_put16 total) as Htot. unfold wf_bytes, is_byte in *.
  cbn [app] in Hb.
  assert (Hlt : exists t0 t1, put16 total = [t0; t1]) by (unfold put16; by eexists _, _).
  destruct Hlt as (t0 & t1 & Et). rewrite Et in Htot.
  repeat match goal with H : Forall _ (_ :: _) |- _ => apply Forall_cons in H as [? H] end.
  assert (Hsum : 0 < sum16 (h [0; 0]) <= 10 * 65535) by (subst h; rewrite Et; cbn [app sum16]; lia).
  pose proof (fold16_complement _ Hsum) as Hc.
  destruct (fold16_spec (sum16 (h [0; 0])) ltac:(lia)) as (k & _ & Hr).
  rewrite not16_sub in * by lia.
  destruct (put16_sum (65535 - fold16 (sum16 (h [0; 0])))) as (c0 & c1 & Ec & Hck); [lia|].
  rewrite Ec. rewrite <- Hc. f_equal. rewrite <- Hck. subst h. cbn [app sum16]. rewrite Et. cbn [app sum16]. lia.
Qed.

(** The header [Encode] writes, with the checksum the code puts into it. *)
Lemma ip4_filled `{HL : NetHeaderLaws} b0 tos total id ttl proto src dst data :
  wf_bytes ([b0; tos] ++ id) -> length id = 4%nat -> Z.land b0 15 = 5 -> 0 < ttl < 256 -> is_byte proto ->
  wf_ip4 src -> wf_ip4 dst ->
  let b := [b0; tos] ++ put16 total ++ id ++ [ttl; proto] ++ [0; 0] ++ src ++ dst ++ data in
  exists ih, ipHeader total ttl proto src dst ih /\ length ih = 20%nat /\
    ip4_SetChecksum (not16 (ip4_CalculateChecksum b)) b = ih ++ data.
Proof.
  intros Hb Hid Hb0 Ht Hp Hs Hd b.
  set (h ck := [b0; tos] ++ put16 total ++ id ++ [ttl; proto] ++ ck ++ src ++ dst).
  pose proof (header_verifies b0 tos total id ttl proto src dst Hb Hid Ht Hp Hs Hd) as Hv.
  cbn zeta in Hv. fold h in Hv.
  assert (Hh : forall ck, length ck = 2%nat -> length (h ck) = 20%nat).
  { intros ck Hck. unfold h, put16. rewrite !length_app, Hid, Hck, (proj1 Hs), (proj1 Hd). done. }
  assert (Eb : b = h [0; 0] ++ data) by (subst b h; cbn beta; by rewrite <- !app_assoc).
  assert (Hl : 20 <= len b).
  { rewrite Eb, len_app. unfold len. rewrite (Hh [0; 0] eq_refl). lia. }
  rewrite (ip4_CalculateChecksum_spec b b0 Hl eq_refl Hb0), ip4_SetChecksum_spec by done.
  rewrite Eb. rewrite (take_app_eq 20 (h [0; 0])) by (symmetry; by apply Hh). set (c := not16 _) in *.
  exists (h (put16 c)). split; [split; [|exact Hv]; exists b0, tos, id, (put16 c); by repeat split|].
  split; [by apply Hh|]. clear -Hid.
  apply length_4_inv in Hid as (i0 & i1 & i2 & i3 & ->). subst h. cbn beta. rewrite <- !app_assoc. done.
Qed.
