(* ===== verification/Elect.v ===== *)
(** * Elect: internal/elect/elect.go

    The hub seat (an exclusive flock on [<socket>.lock]) and the heartbeat
    frames the hub floods: [EncodeBeacon], [IsBeacon], [ParseBeacon]. The
    kernel's flock table is modelled by [kernel]; frames are byte lists and
    every index or slice of the code is a possibly panicking read. *)
From S2P Require Import Prelude.

(** ** The beacon frame *)

Definition BeaconEthertype : Z := 0x88B5.
Definition beaconMagic : bytes := bytes_of_string "VDHB".
Definition MaxLeases : nat := 32.

Record Lease := mkLease { lease_MAC : bytes; lease_IP : bytes }.

#[export] Instance Lease_eq_dec : EqDecision Lease.
Proof. solve_decision. Defined.

(** The Go types [[6]byte] and [[4]byte] of the two fields. *)
Definition wf_lease (l : Lease) : Prop :=
  length (lease_MAC l) = 6%nat /\ wf_bytes (lease_MAC l) /\
  length (lease_IP l) = 4%nat /\ wf_bytes (lease_IP l).

Definition capLeases (leases : list Lease) : list Lease :=
  if (MaxLeases <? length leases)%nat then take MaxLeases leases else leases.

(** The loop body writes one 10-byte entry at [25+10*i]. *)
Fixpoint encodeEntries (i : nat) (leases : list Lease) (frame : bytes) : bytes :=
  match leases with
  | [] => frame
  | l :: rest =>
      let e := (25 + 10 * i)%nat in
      let frame := copy_at e (take 6 (lease_MAC l)) frame in
      let frame := copy_at (e + 6) (take 4 (lease_IP l)) frame in
      encodeEntries (S i) rest frame
  end.

Definition EncodeBeacon (srcMAC : bytes) (seq : Z) (leases0 : list Lease) : bytes :=
  let leases := capLeases leases0 in
  let frame := zeros (14 + 11 + 10 * length leases) in
  let frame := copy_at 0 [0xff; 0xff; 0xff; 0xff; 0xff; 0xff] frame in
  let frame := copy_at 6 (take 6 srcMAC) frame in
  let frame := copy_at 12 (put16 BeaconEthertype) frame in
  let frame := copy_at 14 beaconMagic frame in
  let frame := <[18%nat := 1]> frame in
  let frame := copy_at 19 (put32 seq) frame in
  let frame := copy_at 23 (put16 (u16 (len leases))) frame in
  encodeEntries 0 leases frame.

Definition IsBeacon (frame : bytes) : go bool :=
  if len frame <? 25 then Done false else
  b0 ← idx frame 0;
  if Z.land b0 1 =? 0 then Done false else
  et ← slice frame 12 14 ≫= be16;
  if et =? BeaconEthertype
  then m ← slice frame 14 18; Done (bool_decide (m = beaconMagic))
  else Done false.

Fixpoint parseEntries (n i : nat) (frame : bytes) : go (list Lease) :=
  match n with
  | O => Done []
  | S n' =>
      e ← slice_from frame (25 + 10 * Z.of_nat i);
      mac ← slice e 0 6;
      ip ← slice e 6 10;
      rest ← parseEntries n' (S i) frame;
      Done (mkLease mac ip :: rest)
  end.

Definition ParseBeacon (frame : bytes) : go (result (Z * list Lease)) :=
  isb ← IsBeacon frame;
  if negb isb then Done (Err "not a beacon") else
  v ← idx frame 18;
  if negb (v =? 1) then Done (Err "beacon version unsupported") else
  seq ← slice frame 19 23 ≫= be32;
  n ← slice frame 23 25 ≫= be16;
  if (Z.of_nat MaxLeases <? n) || (len frame <? 25 + 10 * n)
  then Done (Err "beacon truncated") else
  leases ← parseEntries (Z.to_nat n) 0 frame;
  Done (Ok (seq, leases)).

(** ** The hub seat *)

(** The kernel's view: which open file description holds the flock of each
    path, and which descriptions are open. *)
Record kernel := mkKernel {
  flocks : gmap string nat;
  open_ofds : gset nat;
}.

Definition lockPathOf (socketPath : string) : string := (socketPath +:+ ".lock")%string.

(** close(2): the description goes away and drops the flock it holds. *)
Definition closeOfd (fd : nat) (k : kernel) : kernel :=
  mkKernel (filter (fun e => e.2 <> fd) (flocks k)) (open_ofds k ∖ {[fd]}).

Definition fresh_ofd (k : kernel) : nat := fresh (open_ofds k).

(** [TryLock]: [open_err] is the error open(2) returned, if any. The [release]
    function is represented by the description it closes. *)
Definition TryLock (open_err : option string) (socketPath : string) (k : kernel)
  : result nat * kernel :=
  let lockPath := lockPathOf socketPath in
  match open_err with
  | Some e => (Err e, k)
  | None =>
      let fd := fresh_ofd k in
      let k := mkKernel (flocks k) ({[fd]} ∪ open_ofds k) in
      match flocks k !! lockPath with
      | Some _ => (Err "hub seat already held", closeOfd fd k)
      | None => (Ok fd, mkKernel (<[lockPath := fd]> (flocks k)) (open_ofds k))
      end
  end.

Definition release (fd : nat) (k : kernel) : kernel := closeOfd fd k.

(** Locks are only held by open descriptions. *)
Definition wf_kernel (k : kernel) : Prop :=
  forall p fd, flocks k !! p = Some fd -> fd ∈ open_ofds k.

(** ** Wire format of a beacon *)

Definition leaseBytes (l : Lease) : bytes := lease_MAC l ++ lease_IP l.

Definition beaconHeader (srcMAC : bytes) (seq n : Z) : bytes :=
  [0xff; 0xff; 0xff; 0xff; 0xff; 0xff] ++ srcMAC ++ put16 BeaconEthertype ++
  beaconMagic ++ [1] ++ put32 seq ++ put16 n.

Definition beaconWire (srcMAC : bytes) (seq : Z) (ls : list Lease) : bytes :=
  beaconHeader srcMAC seq (len ls) ++ concat (leaseBytes <$> ls).

Lemma capLeases_take ls : capLeases ls = take MaxLeases ls.
Proof.
  unfold capLeases. destruct (Nat.ltb_spec MaxLeases (length ls)); [done|].
  by rewrite take_ge.
Qed.

Lemma length_capLeases ls : (length (capLeases ls) <= 32)%nat.
Proof. rewrite capLeases_take, length_take. unfold MaxLeases. lia. Qed.

Lemma capLeases_wf ls : Forall wf_lease ls -> Forall wf_lease (capLeases ls).
Proof. rewrite capLeases_take. apply Forall_take. Qed.

Lemma length_leaseBytes l : wf_lease l -> length (leaseBytes l) = 10%nat.
Proof. intros (H1 & _ & H2 & _). unfold leaseBytes. rewrite length_app. lia. Qed.

Lemma length_entries ls :
  Forall wf_lease ls -> length (concat (leaseBytes <$> ls)) = (10 * length ls)%nat.
Proof.
  induction 1 as [|l ls Hl _ IH]; [done|]. csimpl.
  rewrite length_app, length_leaseBytes, IH by done. lia.
Qed.

Lemma zeros_add n m : zeros (n + m) = zeros n ++ zeros m.
Proof. apply replicate_add. Qed.

Lemma encodeEntries_spec ls : forall i pre,
  Forall wf_lease ls -> length pre = (25 + 10 * i)%nat ->
  encodeEntries i ls (pre ++ zeros (10 * length ls)) = pre ++ concat (leaseBytes <$> ls).
Proof.
  induction ls as [|l ls IH]; intros i pre Hwf Hpre; [done|].
  apply Forall_cons in Hwf as [(Hm & _ & Hip & _) Hwf].
  rewrite fmap_cons. cbn [encodeEntries concat length].
  replace (10 * S (length ls))%nat with (6 + (4 + 10 * length ls))%nat by lia.
  rewrite (zeros_add 6), (zeros_add 4), !take_ge by lia.
  rewrite copy_at_mid by (autorewrite with golen; lia).
  rewrite (app_assoc pre), copy_at_mid by (autorewrite with golen; lia).
  rewrite !(app_assoc (pre ++ lease_MAC l)).
  rewrite IH by (done || rewrite !length_app; lia).
  unfold leaseBytes. by rewrite <- !app_assoc.
Qed.

Lemma EncodeBeacon_wire srcMAC seq ls :
  length srcMAC = 6%nat -> Forall wf_lease ls ->
  EncodeBeacon srcMAC seq ls = beaconWire srcMAC seq (capLeases ls).
Proof.
  intros Hmac Hwf. apply capLeases_wf in Hwf.
  pose proof (length_capLeases ls) as Hcap.
  unfold EncodeBeacon, beaconWire. set (ls' := capLeases ls) in *.
  replace (u16 (len ls')) with (len ls')
    by (unfold u16, len; rewrite Z.mod_small; lia).
  rewrite <- (encodeEntries_spec ls' 0) by (done || unfold beaconHeader; rewrite !length_app, Hmac; done).
  do 6 (destruct srcMAC as [|? srcMAC]; [done|]). destruct srcMAC; [|done].
  f_equal. generalize (10 * length ls')%nat as m, (len ls') as k. intros k m.
  cbn -[Z.land Z.shiftr]. by rewrite take_nil.
Qed.

Lemma parseEntries_spec ls : forall i pre rest,
  Forall wf_lease ls -> length pre = (25 + 10 * i)%nat ->
  parseEntries (length ls) i (pre ++ concat (leaseBytes <$> ls) ++ rest) = Done ls.
Proof.
  induction ls as [|l ls IH]; intros i pre rest Hwf Hpre; [done|].
  apply Forall_cons in Hwf as [Hl Hwf].
  pose proof Hl as (Hm & _ & Hip & _). csimpl.
  rewrite slice_from_app by (unfold len; lia). csimpl. unfold leaseBytes.
  rewrite <- !app_assoc.
  rewrite slice_app_start by (unfold len; csimpl; lia). csimpl.
  rewrite (slice_app (lease_MAC l) (lease_IP l)) by (unfold len; csimpl; lia). csimpl.
  assert (Hpre' : length (pre ++ lease_MAC l ++ lease_IP l) = (25 + 10 * S i)%nat)
    by (rewrite !length_app; lia).
  specialize (IH (S i) _ rest Hwf Hpre'). unfold leaseBytes in IH.
  rewrite <- !app_assoc in IH.
  rewrite IH. by destruct l.
Qed.

(** Reading the 25-byte header back, whatever follows it. *)
Lemma header_reads srcMAC seq n t :
  length srcMAC = 6%nat ->
  let frame := beaconHeader srcMAC seq n ++ t in
  idx frame 0 = Done 0xff /\ slice frame 6 12 = Done srcMAC /\
  slice frame 12 14 = Done (put16 BeaconEthertype) /\
  slice frame 14 18 = Done beaconMagic /\ idx frame 18 = Done 1 /\
  slice frame 19 23 = Done (put32 seq) /\ slice frame 23 25 = Done (put16 n).
Proof.
  intros (a & b & c & d & e & f & ->)%length_6_inv frame. unfold frame.
  rewrite !slice_prefix, !idx_prefix by done. by repeat split.
Qed.

Lemma len_beaconHeader srcMAC seq n :
  length srcMAC = 6%nat -> len (beaconHeader srcMAC seq n) = 25.
Proof. by intros (a & b & c & d & e & f & ->)%length_6_inv. Qed.

Lemma IsBeacon_header srcMAC seq n t :
  length srcMAC = 6%nat -> IsBeacon (beaconHeader srcMAC seq n ++ t) = Done true.
Proof.
  intros Hmac. destruct (header_reads srcMAC seq n t Hmac) as (H0 & _ & Het & Hm & _).
  unfold IsBeacon. destruct (Z.ltb_spec (len (beaconHeader srcMAC seq n ++ t)) 25) as [Hlt|_].
  { rewrite len_app, len_beaconHeader in Hlt by done. pose proof (len_nonneg t). lia. }
  rewrite H0, Het, Hm. reflexivity.
Qed.

Lemma EncodeBeacon_parses srcMAC seq leases :
  length srcMAC = 6%nat -> 0 <= seq < 2 ^ 32 -> Forall wf_lease leases ->
  ParseBeacon (EncodeBeacon srcMAC seq leases) = Done (Ok (seq, take MaxLeases leases)).
Proof.
  intros Hmac Hseq Hwf. rewrite EncodeBeacon_wire, <- capLeases_take by done.
  pose proof (length_capLeases leases) as Hcap. pose proof (capLeases_wf _ Hwf) as Hwf'.
  set (ls := capLeases leases) in *. unfold ParseBeacon, beaconWire.
  assert (Hn : 0 <= len ls <= 32) by (unfold len; lia).
  set (t := concat (leaseBytes <$> ls)).
  assert (Ht : len t = 10 * len ls) by (unfold t, len; rewrite length_entries by done; lia).
  destruct (header_reads srcMAC seq (len ls) t Hmac) as (_ & _ & _ & _ & H18 & Hs & Hc).
  rewrite IsBeacon_header by done. go_simpl. rewrite H18, Hs, Hc. go_simpl.
  rewrite <- (app_nil_r (put32 seq)), put32_be32 by done. go_simpl.
  rewrite <- (app_nil_r (put16 (len ls))), put16_be16 by lia. go_simpl.
  rewrite len_app, len_beaconHeader by done.
  destruct (Z.ltb_spec (Z.of_nat MaxLeases) (len ls)); [unfold MaxLeases in *; lia|].
  destruct (Z.ltb_spec (25 + len t) (25 + 10 * len ls)); [lia|].
  cbn [orb]. replace (Z.to_nat (len ls)) with (length ls) by (unfold len; lia).
  rewrite <- (app_nil_r t). unfold t.
  rewrite parseEntries_spec; [done|done|].
  pose proof (len_beaconHeader srcMAC seq (len ls) Hmac). unfold len in *. lia.
Qed.

Lemma EncodeBeacon_is_beacon srcMAC seq leases :
  length srcMAC = 6%nat -> Forall wf_lease leases ->
  IsBeacon (EncodeBeacon srcMAC seq leases) = Done true.
Proof. intros Hmac Hwf. rewrite EncodeBeacon_wire by done. by apply IsBeacon_header. Qed.

Lemma EncodeBeacon_len srcMAC seq leases :
  length srcMAC = 6%nat -> Forall wf_lease leases -> len (EncodeBeacon srcMAC seq leases) <= 345.
Proof.
  intros Hmac Hwf. rewrite EncodeBeacon_wire by done. unfold beaconWire.
  rewrite len_app, len_beaconHeader by done. unfold len.
  rewrite length_entries by by apply capLeases_wf. pose proof (length_capLeases leases). lia.
Qed.

Lemma ParseBeacon_encoded srcMAC seq leases :
  length srcMAC = 6%nat -> 0 <= seq < 2 ^ 32 -> Forall wf_lease leases ->
  IsBeacon (EncodeBeacon srcMAC seq leases) = Done true /\
  len (EncodeBeacon srcMAC seq leases) <= 345 /\
  ParseBeacon (EncodeBeacon srcMAC seq leases) = Done (Ok (seq, take MaxLeases leases)).
Proof.
  intros Hmac Hseq Hwf. split; [by apply EncodeBeacon_is_beacon|].
  split; [by apply EncodeBeacon_len|by apply EncodeBeacon_parses].
Qed.

(** C29: round trip. The heartbeat a hub builds is recognised as one, fits a
    frame, and parses back into the sequence number and the first 32 leases,
    exactly, whatever the number of leases. *)
Theorem ParseBeacon_EncodeBeacon srcMAC seq leases :
  length srcMAC = 6%nat -> 0 <= seq < 2 ^ 32 -> Forall wf_lease leases ->
  IsBeacon (EncodeBeacon srcMAC seq leases) = Done true /\
  len (EncodeBeacon srcMAC seq leases) <= 345 /\
  ParseBeacon (EncodeBeacon srcMAC seq leases) = Done (Ok (seq, take MaxLeases leases)).
Proof. apply ParseBeacon_encoded. Qed.

Theorem ParseBeacon_EncodeBeacon_witness :
  ParseBeacon (EncodeBeacon [1; 2; 3; 4; 5; 6] 42 [mkLease [2; 1; 2; 3; 4; 5] [10; 0; 2; 15]]) =
    Done (Ok (42, [mkLease [2; 1; 2; 3; 4; 5] [10; 0; 2; 15]])).
Proof.
  refine (proj2 (proj2 (ParseBeacon_EncodeBeacon [1; 2; 3; 4; 5; 6] 42
    [mkLease [2; 1; 2; 3; 4; 5] [10; 0; 2; 15]] _ _ _))); [done|done|].
  constructor; [|constructor]. split_and!; try done; unfold wf_bytes; repeat constructor; done.
Defined.

(** Reads of a frame split into its header fields. *)
Lemma frame_reads d0 dst mac v s c rest :
  length dst = 5%nat -> length mac = 6%nat -> length s = 4%nat -> length c = 2%nat ->
  let frame := d0 :: dst ++ mac ++ put16 BeaconEthertype ++ beaconMagic ++ [v] ++ s ++ c ++ rest in
  idx frame 18 = Done v /\ slice frame 19 23 = Done s /\ slice frame 23 25 = Done c /\
  len frame = 25 + len rest.
Proof.
  intros Hd (a1 & a2 & a3 & a4 & a5 & a6 & ->)%length_6_inv
    (b1 & b2 & b3 & b4 & ->)%length_4_inv (c1 & c2 & ->)%length_2_inv.
  do 5 (destruct dst as [|? dst]; [done|]). destruct dst; [|done].
  intros frame. set (hd := [d0; z; z0; z1; z2; z3; a1; a2; a3; a4; a5; a6] ++
    put16 BeaconEthertype ++ beaconMagic ++ [v; b1; b2; b3; b4; c1; c2]).
  change frame with (hd ++ rest). rewrite !slice_prefix, idx_prefix by done.
  rewrite len_app. by repeat split.
Qed.

Lemma parseEntries_sound n : forall i pre body rest,
  wf_bytes body -> length pre = (25 + 10 * i)%nat -> length body = (10 * n)%nat ->
  returns (parseEntries n i (pre ++ body ++ rest))
    (fun ls => length ls = n /\ Forall wf_lease ls /\ concat (leaseBytes <$> ls) = body).
Proof.
  induction n as [|n IH]; intros i pre body rest Hwf Hpre Hbody.
  - apply returns_done. by destruct body.
  - destruct (split_at 6 body) as (mac & body1 & -> & Hmac); [lia|].
    rewrite length_app in Hbody.
    destruct (split_at 4 body1) as (ip & body2 & -> & Hip); [lia|].
    rewrite length_app in Hbody. unfold wf_bytes in Hwf.
    rewrite !Forall_app in Hwf. destruct Hwf as (Hwm & Hwi & Hwb).
    assert (Hpre' : length (pre ++ mac ++ ip) = (25 + 10 * S i)%nat)
      by (rewrite !length_app; lia).
    specialize (IH (S i) _ body2 rest Hwb Hpre' ltac:(lia)).
    rewrite <- !app_assoc in IH |- *. cbn [parseEntries].
    rewrite slice_from_app by (unfold len; lia). go_simpl.
    rewrite slice_app_start by (unfold len; lia). go_simpl.
    rewrite slice_app by (unfold len; lia). go_simpl.
    go_step. destruct IH as (ls & -> & Hn & Hls & Hc).
    apply returns_done, returns_done. cbn. rewrite Hn. split; [done|]. split; [by constructor|].
    rewrite Hc. unfold leaseBytes. cbn. by rewrite <- !app_assoc.
Qed.

(** What a frame accepted as a beacon looks like: any destination with the
    group bit set, then the bytes [EncodeBeacon] writes, then padding. *)
Definition beaconShape (frame : bytes) (seq : Z) (ls : list Lease) : Prop :=
  exists d0 dst mac tail,
    length dst = 5%nat /\ length mac = 6%nat /\ Z.odd d0 = true /\
    frame = d0 :: dst ++ drop 6 (beaconWire mac seq ls) ++ tail.

Lemma IsBeacon_inv frame :
  wf_bytes frame ->
  returns (IsBeacon frame) (fun b => b = true -> exists d0 dst mac v s c rest,
    length dst = 5%nat /\ length mac = 6%nat /\ length s = 4%nat /\ length c = 2%nat /\
    Z.odd d0 = true /\
    frame = d0 :: dst ++ mac ++ put16 BeaconEthertype ++ beaconMagic ++ [v] ++ s ++ c ++ rest).
Proof.
  intros Hwf. unfold IsBeacon. go_step; [by apply returns_done|bool_arith].
  assert (Hlen : (25 <= length frame)%nat) by (unfold len in *; lia).
  destruct frame as [|d0 frame]; [cbn in Hlen; lia|]. cbn [length] in Hlen.
  destruct (split_at 5 frame) as (dst & f1 & -> & Hdst); [lia|]. rewrite length_app in Hlen.
  destruct (split_at 6 f1) as (mac & f2 & -> & Hmac); [lia|]. rewrite length_app in Hlen.
  destruct (split_at 2 f2) as (et & f3 & -> & Het); [lia|]. rewrite length_app in Hlen.
  destruct (split_at 4 f3) as (mg & f4 & -> & Hmg); [lia|]. rewrite length_app in Hlen.
  destruct f4 as [|v f4]; [cbn in Hlen; lia|]. cbn [length] in Hlen.
  destruct (split_at 4 f4) as (s & f5 & -> & Hs); [lia|]. rewrite length_app in Hlen.
  destruct (split_at 2 f5) as (c & rest & -> & Hc); [lia|].
  change (idx (d0 :: _) 0) with (Done d0). go_simpl.
  go_step; [by apply returns_done|].
  rewrite (app_comm_cons dst), (app_assoc (d0 :: dst)).
  rewrite (slice_app _ et _ 12 14) by (unfold len; rewrite ?length_app; cbn [length]; lia). go_simpl.
  unfold wf_bytes in Hwf. rewrite Forall_cons, !Forall_app in Hwf.
  destruct Hwf as (_ & _ & _ & Hwet & _).
  apply length_2_inv in Het as (x & y & ->).
  rewrite !Forall_cons in Hwet. destruct Hwet as (Hx & Hy & _).
  rewrite be16_cons by done. go_simpl.
  go_step; [|by apply returns_done].
  rewrite (app_assoc (_ ++ _) [x; y]).
  rewrite (slice_app _ mg _ 14 18) by (unfold len; rewrite ?length_app; cbn [length]; lia). go_simpl.
  apply returns_done. intros ->%bool_decide_eq_true_1.
  bool_arith. unfold is_byte, BeaconEthertype in *.
  assert (x = 136 /\ y = 181) as [-> ->] by lia.
  exists d0, dst, mac, v, s, c, rest. rewrite <- !app_assoc.
  split_and!; try done.
  match goal with H : Z.land d0 1 <> 0 |- _ => rewrite land_1_odd in H end.
  by destruct (Z.odd d0).
Qed.

(** C33: the parser is total and strict. On every frame a peer can receive it
    neither panics nor reads out of bounds, and a frame it accepts is, past the
    destination address, exactly what [EncodeBeacon] emits for the sequence
    number and the (at most 32, well-formed) leases it returns, plus padding. *)
Theorem ParseBeacon_sound frame :
  wf_bytes frame ->
  returns (ParseBeacon frame) (fun r => forall seq ls, r = Ok (seq, ls) ->
    0 <= seq < 2 ^ 32 /\ (length ls <= MaxLeases)%nat /\ Forall wf_lease ls /\
    beaconShape frame seq ls).
Proof.
  intros Hwf. unfold ParseBeacon. go_step.
  eapply returns_mono; [|by apply IsBeacon_inv]. cbn beta. intros isb Hisb.
  go_step; [by apply returns_done|bool_arith; subst isb].
  destruct (Hisb eq_refl) as (d0 & dst & mac & v & s & c & rest & Hd & Hm & Hs & Hc & Hodd & ->).
  clear Hisb. set (frame := d0 :: _).
  destruct (frame_reads d0 dst mac v s c rest Hd Hm Hs Hc) as (H18 & H19 & H23 & Hlen).
  fold frame in H18, H19, H23, Hlen. rewrite H18, H19, H23. go_simpl.
  go_step; [by apply returns_done|bool_arith; subst v].
  unfold frame, wf_bytes in Hwf. rewrite Forall_cons, !Forall_app in Hwf.
  destruct Hwf as (_ & _ & _ & _ & _ & _ & Hws & Hwc & Hwr).
  destruct (be32_put32_inv s Hs Hws) as (seq & Hseq & -> & ->). go_simpl.
  destruct (be16_put16_inv c Hc Hwc) as (n & Hn & -> & ->). go_simpl.
  go_step; [by apply returns_done|bool_arith].
  destruct (split_at (10 * Z.to_nat n) rest) as (body & tail & -> & Hbody);
    [unfold len in *; lia|].
  apply Forall_app in Hwr as [Hwb _].
  set (pre := d0 :: dst ++ mac ++ put16 BeaconEthertype ++ beaconMagic ++ [1] ++
    put32 seq ++ put16 n).
  assert (Hf : frame = pre ++ body ++ tail)
    by (unfold frame, pre; cbn [app]; by rewrite <- !app_assoc).
  destruct (parseEntries_sound (Z.to_nat n) 0 pre body tail Hwb) as (ls & Hp & Hls & Hwls & Hcat);
    [unfold pre; cbn [length]; rewrite !length_app, Hd, Hm; done|done|].
  rewrite Hf, Hp.
  go_step. apply returns_done, returns_done. intros ? ? [= <- <-].
  split_and!; [lia..|unfold MaxLeases in *; lia|done|].
  exists d0, dst, mac, tail. split_and!; try done. unfold beaconWire, beaconHeader.
  rewrite Hcat. unfold len.
  rewrite Hls, Z2Nat.id by lia. unfold pre. cbn [app drop]. rewrite drop_0. by app_norm.
Qed.

Theorem ParseBeacon_sound_witness :
  wf_bytes (EncodeBeacon [1; 2; 3; 4; 5; 6] 42 [mkLease [2; 1; 2; 3; 4; 5] [10; 0; 2; 15]]) /\
  returns (ParseBeacon (EncodeBeacon [1; 2; 3; 4; 5; 6] 42
            [mkLease [2; 1; 2; 3; 4; 5] [10; 0; 2; 15]]))
    (fun r => forall seq ls, r = Ok (seq, ls) ->
      0 <= seq < 2 ^ 32 /\ (length ls <= MaxLeases)%nat /\ Forall wf_lease ls /\
      beaconShape (EncodeBeacon [1; 2; 3; 4; 5; 6] 42
            [mkLease [2; 1; 2; 3; 4; 5] [10; 0; 2; 15]]) seq ls).
Proof.
  assert (wf_bytes (EncodeBeacon [1; 2; 3; 4; 5; 6] 42 [mkLease [2; 1; 2; 3; 4; 5] [10; 0; 2; 15]])).
  { vm_compute. repeat constructor; discriminate. }
  split; [done|]. by apply ParseBeacon_sound.
Defined.

(** ** Without a hypothesis on the frame *)

Lemma IsBeacon_no_panic frame : no_panic (IsBeacon frame).
Proof.
  eapply returns_no_panic with (Q := fun _ => True). unfold IsBeacon.
  go_step; [by apply returns_done|bool_arith].
  apply returns_bind, returns_idx; [lia|]. intros x _. go_step; [by apply returns_done|].
  destruct (be16_field frame 12 14) as [et ->]; [lia..|]. go_simpl.
  go_step; [|by apply returns_done]. rewrite slice_eq by lia. by apply returns_done.
Qed.

Lemma parseEntries_no_panic n : forall i frame,
  25 + 10 * (Z.of_nat i + Z.of_nat n) <= len frame -> no_panic (parseEntries n i frame).
Proof.
  induction n as [|n IH]; intros i frame Hl; [by eexists|]. cbn [parseEntries].
  rewrite slice_from_eq by lia. go_simpl.
  rewrite !slice_eq by (rewrite ?len_drop; lia). go_simpl.
  destruct (IH (S i) frame) as [ls ->]; [lia|]. by eexists.
Qed.

Lemma ParseBeacon_no_panic frame : no_panic (ParseBeacon frame).
Proof.
  unfold ParseBeacon. destruct (IsBeacon_no_panic frame) as [b Hb]. rewrite Hb. go_simpl.
  destruct b; [|by eexists]. cbn [negb].
  assert (Hl : 25 <= len frame).
  { unfold IsBeacon in Hb. destruct (Z.ltb_spec (len frame) 25); [done|lia]. }
  eapply returns_no_panic with (Q := fun _ => True).
  apply returns_bind, returns_idx; [lia|]. intros v _. go_step; [by apply returns_done|].
  destruct (be32_field frame 19 23) as [sq ->]; [lia..|]. go_simpl.
  destruct (be16_field frame 23 25) as [n ->]; [lia..|]. go_simpl.
  go_step; [by apply returns_done|bool_arith].
  apply returns_bind. destruct (Z.le_gt_cases 0 n).
  - destruct (parseEntries_no_panic (Z.to_nat n) 0 frame) as [ls ->]; [lia|]. by repeat apply returns_done.
  - replace (Z.to_nat n) with 0%nat by lia. by repeat apply returns_done.
Qed.

(** ** The seat: lemmas *)

Lemma fresh_not_open k : fresh_ofd k ∉ open_ofds k.
Proof. unfold fresh_ofd. apply is_fresh. Qed.

Lemma closeOfd_unheld fd k :
  wf_kernel k -> fd ∉ open_ofds k -> closeOfd fd (mkKernel (flocks k) ({[fd]} ∪ open_ofds k)) = k.
Proof.
  intros Hwf Hfd. destruct k as [fl op]. unfold closeOfd. cbn in *. f_equal; [|set_solver].
  apply map_filter_id. intros p h Hp. cbn. intros ->. by apply Hwf in Hp.
Qed.

Lemma TryLock_held path h k :
  wf_kernel k -> flocks k !! lockPathOf path = Some h ->
  TryLock None path k = (Err "hub seat already held", k).
Proof.
  intros Hwf Hh. unfold TryLock. cbn [flocks open_ofds]. rewrite Hh.
  by rewrite closeOfd_unheld by (done || apply fresh_not_open).
Qed.

Lemma TryLock_free path k :
  flocks k !! lockPathOf path = None ->
  TryLock None path k =
    (Ok (fresh_ofd k), mkKernel (<[lockPathOf path := fresh_ofd k]> (flocks k))
                                ({[fresh_ofd k]} ∪ open_ofds k)).
Proof. intros Hn. unfold TryLock. cbn [flocks open_ofds]. by rewrite Hn. Qed.

Lemma TryLock_wf oe path k r k' : wf_kernel k -> TryLock oe path k = (r, k') -> wf_kernel k'.
Proof.
  intros Hwf. destruct oe as [e|]; [by intros [= <- <-]|].
  destruct (flocks k !! lockPathOf path) as [h|] eqn:Hh.
  - rewrite (TryLock_held _ h) by done. by intros [= <- <-].
  - rewrite TryLock_free by done. intros [= <- <-] p fd. cbn.
    rewrite lookup_insert. case_decide; [intros [= <-]; set_solver|].
    intros Hp%Hwf. set_solver.
Qed.

Lemma closeOfd_wf fd k : wf_kernel k -> wf_kernel (closeOfd fd k).
Proof.
  intros Hwf p h. cbn. rewrite map_lookup_filter_Some. cbn. intros [Hp%Hwf Hne]. set_solver.
Qed.

Lemma closeOfd_lookup fd k p :
  flocks (closeOfd fd k) !! p =
    (h ← flocks k !! p; if decide (h = fd) then None else Some h).
Proof.
  cbn. rewrite map_lookup_filter. destruct (flocks k !! p) as [h|]; [|done]. cbn.
  rewrite option_guard_decide. cbn. by repeat case_decide.
Qed.

#[export] Hint Resolve TryLock_wf closeOfd_wf : gosem.
