(* ===== verification/VSwitch.v ===== *)
(** * VSwitch: internal/vswitch/vswitch.go

    The L2 learning switch. A [Switch] value is the struct of the code plus the
    heap of its [port] objects: a port is a pointer in Go, the writer goroutine
    keeps the object after the port map forgot it, so objects have identities
    of their own. Every exported method is one function on that state; the
    writer goroutine of a port is [writerSend] / [writerDone]. Frames handed to
    a sink synchronously are returned as a list of [send] events, in order. *)
From S2P Require Import Prelude.

Abbreviation Port := Z.
Definition Uplink : Port := -1.
Definition Local : Port := -2.
Definition MaxPeers : Z := 32.

Definition outQueue : nat := 1024.
Definition linkFrameMax : Z := 9234.
Definition macTTL : Z := 300 * 10 ^ 9.   (* 300*time.Second, in nanoseconds *)

(** A port object: its sink, its bounded outbound channel, whether [done] is
    closed, and its writer goroutine (which captured the port number). *)
Record port := mkPort {
  sink : nat;
  out : list bytes;
  done_closed : bool;
  writer_key : Port;
  writer_running : bool;
}.

Record macEntry := mkEntry { entry_port : Port; seen : Z }.

Record Switch := mkSwitch {
  macs : gmap bytes macEntry;
  ports : gmap Port nat;
  heap : gmap nat port;
  drops : Z;
  peers : Z;
}.

(** A synchronous [SendFrame] on the sink of an object. *)
Record send := mkSend { send_obj : nat; send_frame : bytes }.

Definition New : Switch := mkSwitch ∅ ∅ ∅ 0 0.

(** ** Frame buffers

    The pool holds buffers of capacity [linkFrameMax]; [getFrame] reslices one
    to the frame's length, which panics beyond the capacity. *)
Definition getFrame (n : Z) : go unit :=
  if n <=? linkFrameMax then Done tt else Panic.

(** ** Ports *)

Definition newObj (sw : Switch) : nat := fresh (dom (heap sw)).

Definition AddPort (p : Port) (snk : nat) (sw : Switch) : Switch :=
  let id := newObj sw in
  mkSwitch (macs sw) (<[p := id]> (ports sw))
           (<[id := mkPort snk [] false p true]> (heap sw)) (drops sw) (peers sw).

(** [close(pt.done)]: closing a closed channel panics. *)
Definition closeDone (id : nat) (sw : Switch) : go Switch :=
  match heap sw !! id with
  | Some o =>
      if done_closed o then Panic
      else Done (mkSwitch (macs sw) (ports sw)
             (<[id := mkPort (sink o) (out o) true (writer_key o) (writer_running o)]> (heap sw))
             (drops sw) (peers sw))
  | None => Panic
  end.

Definition forgetMacs (p : Port) (sw : Switch) : Switch :=
  mkSwitch (filter (fun e => entry_port e.2 <> p) (macs sw))
           (ports sw) (heap sw) (drops sw) (peers sw).

Definition RemovePort (p : Port) (sw : Switch) : go Switch :=
  sw ← match ports sw !! p with
       | Some id =>
           sw ← closeDone id sw;
           Done (mkSwitch (macs sw) (delete p (ports sw)) (heap sw) (drops sw)
                          (if 0 <=? p then peers sw - 1 else peers sw))
       | None => Done sw
       end;
  Done (forgetMacs p sw).

(** The loop of [AddPeer]: the lowest unused number from [p] up. *)
Fixpoint lowestFree (fuel : nat) (p : Port) (used : gmap Port nat) : option Port :=
  match fuel with
  | O => None
  | S fuel =>
      match used !! p with
      | None => Some p
      | Some _ => lowestFree fuel (p + 1) used
      end
  end.

Definition AddPeer (snk : nat) (sw : Switch) : Switch * option Port :=
  match lowestFree (Z.to_nat MaxPeers) 0 (ports sw) with
  | Some p =>
      let id := newObj sw in
      (mkSwitch (macs sw) (<[p := id]> (ports sw))
         (<[id := mkPort snk [] false p true]> (heap sw)) (drops sw) (peers sw + 1), Some p)
  | None => (sw, None)
  end.

Definition Dropped (sw : Switch) : Z := drops sw.

(** ** Forwarding *)

(** The non-blocking channel send of [emit] and [flood]. *)
Definition enqueue (frame : bytes) (id : nat) (sw : Switch) : go Switch :=
  _ ← getFrame (len frame);
  match heap sw !! id with
  | Some o =>
      if (length (out o) <? outQueue)%nat
      then Done (mkSwitch (macs sw) (ports sw)
             (<[id := mkPort (sink o) (out o ++ [frame]) (done_closed o)
                             (writer_key o) (writer_running o)]> (heap sw))
             (drops sw) (peers sw))
      else Done (mkSwitch (macs sw) (ports sw) (heap sw) ((drops sw + 1) mod 2 ^ 64) (peers sw))
  | None => Panic
  end.

Definition emit (p : Port) (frame : bytes) (sw : Switch) : go (Switch * list send) :=
  match ports sw !! p with
  | None => Done (sw, [])
  | Some id =>
      if peers sw =? 0 then Done (sw, [mkSend id frame])
      else sw ← enqueue frame id sw; Done (sw, [])
  end.

Fixpoint enqueueAll (frame : bytes) (targets : list nat) (sw : Switch) : go Switch :=
  match targets with
  | [] => Done sw
  | id :: rest => sw ← enqueue frame id sw; enqueueAll frame rest sw
  end.

(** The targets of a flood: every port object but the source's. The map
    iteration order of the code is arbitrary; here it is [map_to_list]'s. *)
Definition floodTargets (from : Port) (sw : Switch) : list nat :=
  (map_to_list (filter (fun e => e.1 <> from) (ports sw))).*2.

Definition flood (from : Port) (frame : bytes) (sw : Switch) : go (Switch * list send) :=
  match floodTargets from sw with
  | [] => Done (sw, [])
  | [id] => Done (sw, [mkSend id frame])
  | targets => sw ← enqueueAll frame targets sw; Done (sw, [])
  end.

(** The group (multicast) bit of an address or frame: [b[0]&0x01 != 0]. *)
Definition groupBit (b : bytes) : go bool :=
  b0 ← idx b 0; Done (negb (Z.land b0 1 =? 0)).

Definition setMac (key : bytes) (e : macEntry) (sw : Switch) : Switch :=
  mkSwitch (<[key := e]> (macs sw)) (ports sw) (heap sw) (drops sw) (peers sw).

Definition learn (now : Z) (mac : bytes) (from : Port) (sw : Switch) : go Switch :=
  g ← groupBit mac;
  if (g : bool) then Done sw else
  match macs sw !! mac with
  | Some e =>
      if entry_port e =? from
      then Done (setMac mac (mkEntry (entry_port e) now) sw)
      else Done (setMac mac (mkEntry from now) sw)
  | None => Done (setMac mac (mkEntry from now) sw)
  end.

Definition lookupMac (now : Z) (mac : bytes) (sw : Switch) : Switch * option Port :=
  match macs sw !! mac with
  | None => (sw, None)
  | Some e =>
      if macTTL <? now - seen e
      then (mkSwitch (delete mac (macs sw)) (ports sw) (heap sw) (drops sw) (peers sw), None)
      else (sw, Some (entry_port e))
  end.

(** [now1] is the clock [learn] reads, [now2] the one [lookup] reads. *)
Definition Forward (now1 now2 : Z) (from : Port) (frame : bytes) (sw : Switch)
  : go (Switch * list send) :=
  if len frame <? 14 then Done (sw, []) else
  src ← slice frame 6 12;
  sw ← learn now1 src from sw;
  broadcast ← groupBit frame;
  if (broadcast : bool) then flood from frame sw else
  dstMAC ← slice frame 0 6;
  match lookupMac now2 dstMAC sw with
  | (sw, None) => flood from frame sw
  | (sw, Some dst) => if dst =? from then Done (sw, []) else emit dst frame sw
  end.

(** ** The writer goroutine of an object *)

Definition stopWriter (id : nat) (sw : Switch) : Switch :=
  mkSwitch (macs sw) (ports sw)
    (alter (fun o => mkPort (sink o) (out o) (done_closed o) (writer_key o) false) id (heap sw))
    (drops sw) (peers sw).

Definition popOut (id : nat) (sw : Switch) : Switch :=
  mkSwitch (macs sw) (ports sw)
    (alter (fun o => mkPort (sink o) (tail (out o)) (done_closed o) (writer_key o)
                            (writer_running o)) id (heap sw))
    (drops sw) (peers sw).

(** [case frame := <-pt.out]: send it; on an error remove the port by number
    and return. [None] when the select has no such branch to take. *)
Definition writerSend (id : nat) (send_fails : bool) (sw : Switch)
  : go (option (Switch * send)) :=
  match heap sw !! id with
  | Some o =>
      match writer_running o, out o with
      | true, frame :: _ =>
          let sw := popOut id sw in
          if send_fails
          then sw ← RemovePort (writer_key o) sw; Done (Some (stopWriter id sw, mkSend id frame))
          else Done (Some (sw, mkSend id frame))
      | _, _ => Done None
      end
  | None => Done None
  end.

(** [case <-pt.done]: return, abandoning the queue. *)
Definition writerDone (id : nat) (sw : Switch) : option Switch :=
  match heap sw !! id with
  | Some o => if writer_running o && done_closed o then Some (stopWriter id sw) else None
  | None => None
  end.

(** ** Well-formed switches *)

#[export] Instance port_eq_dec : EqDecision port.
Proof. solve_decision. Defined.
#[export] Instance send_eq_dec : EqDecision send.
Proof. solve_decision. Defined.

Definition unicastMac (k : bytes) : Prop := length k = 6%nat /\ groupBit k = Done false.

Definition peerPorts (sw : Switch) : gmap Port nat := filter (fun e => 0 <= e.1) (ports sw).

Record wf (sw : Switch) : Prop := {
  wf_port : forall p id, ports sw !! p = Some id ->
    exists o, heap sw !! id = Some o /\ writer_key o = p /\ done_closed o = false;
  wf_range : forall p id, ports sw !! p = Some id -> p < MaxPeers;
  wf_peers : peers sw = Z.of_nat (size (peerPorts sw));
  wf_macs : forall k e, macs sw !! k = Some e -> unicastMac k;
  wf_out : forall id o, heap sw !! id = Some o -> (length (out o) <= outQueue)%nat;
}.

Lemma wf_port_inj sw p q id :
  wf sw -> ports sw !! p = Some id -> ports sw !! q = Some id -> p = q.
Proof.
  intros Hwf Hp Hq.
  destruct (wf_port sw Hwf p id Hp) as (o & Ho & <- & _).
  destruct (wf_port sw Hwf q id Hq) as (o' & Ho' & <- & _). congruence.
Qed.

Lemma newObj_fresh sw : heap sw !! newObj sw = None.
Proof. apply not_elem_of_dom. unfold newObj. apply is_fresh. Qed.

Lemma port_not_new sw p id : wf sw -> ports sw !! p = Some id -> id <> newObj sw.
Proof.
  intros Hwf Hp ->. destruct (wf_port sw Hwf p _ Hp) as (o & Ho & _).
  by rewrite newObj_fresh in Ho.
Qed.

Lemma wf_New : wf New.
Proof. split; cbn; intros *; rewrite ?lookup_empty; done. Qed.

(** Registering a fresh object at [p] keeps everything but the peer count. *)
Lemma wf_register sw p snk n :
  wf sw -> p < MaxPeers ->
  n = Z.of_nat (size (filter (fun e => 0 <= e.1) (<[p := newObj sw]> (ports sw)))) ->
  wf (mkSwitch (macs sw) (<[p := newObj sw]> (ports sw))
        (<[newObj sw := mkPort snk [] false p true]> (heap sw)) (drops sw) n).
Proof.
  intros Hwf Hp ->. split; cbn; [| |done|apply Hwf|].
  - intros q id Hq. rewrite lookup_insert in Hq. case_decide.
    + simplify_eq. rewrite lookup_insert_eq. by eauto.
    + rewrite lookup_insert_ne by (apply not_eq_sym; by eapply port_not_new).
      by apply Hwf.
  - intros q id Hq. rewrite lookup_insert in Hq. case_decide; [by simplify_eq|].
    by eapply Hwf.
  - intros id o Ho. rewrite lookup_insert in Ho. case_decide; simplify_eq; cbn; [lia|].
    by eapply Hwf.
Qed.

Lemma wf_AddPort p snk sw : p < 0 -> wf sw -> wf (AddPort p snk sw).
Proof.
  intros Hp Hwf. apply wf_register; [done|unfold MaxPeers; lia|].
  rewrite map_filter_insert_False by (cbn; lia).
  rewrite (wf_peers sw Hwf). unfold peerPorts. f_equal.
  symmetry. rewrite map_filter_delete_not; [done|]. intros ? _. cbn. lia.
Qed.

(** ** Peer ports *)

Lemma lowestFree_Some fuel : forall p used q,
  lowestFree fuel p used = Some q ->
  p <= q < p + Z.of_nat fuel /\ used !! q = None /\
  forall r, p <= r < q -> is_Some (used !! r).
Proof.
  induction fuel as [|fuel IH]; intros p used q; [done|]. cbn [lowestFree].
  destruct (used !! p) as [id|] eqn:Hp; [|intros [= ->]; split_and!; [lia..|done|lia]].
  intros Hq%IH. destruct Hq as (Hq & Hn & Hlow). split_and!; [lia..|done|].
  intros r Hr. destruct (decide (r = p)) as [->|]; [by eauto|]. apply Hlow. lia.
Qed.

Lemma lowestFree_None fuel : forall p used,
  lowestFree fuel p used = None <->
  forall r, p <= r < p + Z.of_nat fuel -> is_Some (used !! r).
Proof.
  induction fuel as [|fuel IH]; intros p used; cbn [lowestFree].
  { split; [lia|done]. }
  destruct (used !! p) as [id|] eqn:Hp.
  - rewrite IH. split; intros H r Hr; [|apply H; lia].
    destruct (decide (r = p)) as [->|]; [by eauto|]. apply H. lia.
  - split; [done|]. intros H. destruct (H p) as [? ?]; [lia|]. congruence.
Qed.

Lemma wf_AddPeer snk sw : wf sw -> wf (AddPeer snk sw).1.
Proof.
  intros Hwf. unfold AddPeer. destruct (lowestFree _ _ _) as [p|] eqn:Hp; [|done].
  apply lowestFree_Some in Hp as (Hr & Hn & _). rewrite Z2Nat.id in Hr by done. cbn [fst].
  apply wf_register; [done|lia|].
  rewrite map_filter_insert_True by (cbn; lia).
  rewrite map_size_insert_None by (apply map_lookup_filter_None; auto).
  rewrite (wf_peers sw Hwf). unfold peerPorts. lia.
Qed.

(** ** Updating one object *)

(** A state that differs from [sw] only in the queues, closed flags of
    unregistered objects and writer flags stays well formed. *)
Lemma wf_alter sw id (f : port -> port) :
  (forall o, writer_key (f o) = writer_key o) ->
  (forall o, heap sw !! id = Some o -> done_closed (f o) = done_closed o) ->
  (forall o, heap sw !! id = Some o -> (length (out o) <= outQueue)%nat ->
     (length (out (f o)) <= outQueue)%nat) ->
  wf sw -> wf (mkSwitch (macs sw) (ports sw) (alter f id (heap sw)) (drops sw) (peers sw)).
Proof.
  intros Hkey Hdone Hout Hwf. split; cbn; [|apply Hwf..|].
  - intros p i Hp. destruct (wf_port sw Hwf p i Hp) as (o & Ho & Hk & Hd).
    rewrite lookup_alter. case_decide; subst.
    + rewrite Ho. cbn. exists (f o). by rewrite Hkey, Hdone.
    + by eauto.
  - intros i o. rewrite lookup_alter. case_decide; subst; [|by apply Hwf].
    rewrite fmap_Some. intros (o' & Ho & ->). eapply Hout; [done|]. by eapply Hwf.
Qed.

Lemma wf_stopWriter sw id : wf sw -> wf (stopWriter id sw).
Proof. by apply wf_alter. Qed.

Lemma wf_popOut sw id : wf sw -> wf (popOut id sw).
Proof.
  apply wf_alter; try done. intros o _. cbn. destruct (out o); cbn; lia.
Qed.

Lemma wf_forgetMacs sw p : wf sw -> wf (forgetMacs p sw).
Proof.
  intros Hwf. split; cbn; [apply Hwf..| |apply Hwf].
  intros k e. rewrite map_lookup_filter_Some. intros [Hk _]. by eapply Hwf.
Qed.

Lemma RemovePort_registered p id sw :
  wf sw -> ports sw !! p = Some id ->
  exists o, heap sw !! id = Some o /\
    RemovePort p sw = Done (forgetMacs p
      (mkSwitch (macs sw) (delete p (ports sw))
         (<[id := mkPort (sink o) (out o) true (writer_key o) (writer_running o)]> (heap sw))
         (drops sw) (if 0 <=? p then peers sw - 1 else peers sw))).
Proof.
  intros Hwf Hp. destruct (wf_port sw Hwf p id Hp) as (o & Ho & _ & Hd).
  exists o. split; [done|]. unfold RemovePort, closeDone. by rewrite Hp, Ho, Hd.
Qed.

Lemma RemovePort_absent p sw :
  ports sw !! p = None -> RemovePort p sw = Done (forgetMacs p sw).
Proof. intros Hp. unfold RemovePort. by rewrite Hp. Qed.

Lemma RemovePort_wf p sw : wf sw -> returns (RemovePort p sw) wf.
Proof.
  intros Hwf. destruct (ports sw !! p) as [id|] eqn:Hp.
  - destruct (RemovePort_registered p id sw Hwf Hp) as (o & Ho & ->).
    apply returns_done, wf_forgetMacs. split; cbn.
    + intros q i Hq. apply lookup_delete_Some in Hq as [Hne Hq].
      destruct (wf_port sw Hwf q i Hq) as (o' & Ho' & Hk & Hd).
      rewrite lookup_insert_ne; [by eauto|]. intros <-. apply Hne. by eapply wf_port_inj.
    + intros q i Hq. apply lookup_delete_Some in Hq as [_ Hq]. by eapply Hwf.
    + rewrite (wf_peers sw Hwf). unfold peerPorts. cbn [ports].
      assert (Hf : 0 <= p -> filter (fun e : Port * nat => 0 <= e.1) (ports sw) !! p = Some id)
        by (intros; by apply map_lookup_filter_Some).
      rewrite map_filter_delete. destruct (Z.leb_spec 0 p).
      * rewrite map_size_delete. rewrite Hf by done.
        assert (size (filter (fun e : Port * nat => 0 <= e.1) (ports sw)) <> 0%nat); [|lia].
        rewrite map_size_ne_0_lookup. eauto.
      * rewrite delete_id; [done|]. apply map_lookup_filter_None. right. cbn. lia.
    + apply Hwf.
    + intros i o'. rewrite lookup_insert. case_decide; [intros [= <-]; cbn|]; by eapply Hwf.
  - rewrite RemovePort_absent by done. by apply returns_done, wf_forgetMacs.
Qed.

(** ** Delivery

    [push frame o] is the effect of the non-blocking channel send on [o]. *)
Definition hasRoom (o : port) : bool := (length (out o) <? outQueue)%nat.

Definition push (frame : bytes) (o : port) : port :=
  if hasRoom o
  then mkPort (sink o) (out o ++ [frame]) (done_closed o) (writer_key o) (writer_running o)
  else o.

Lemma push_key frame o : writer_key (push frame o) = writer_key o.
Proof. unfold push. by destruct (hasRoom o). Qed.
Lemma push_done frame o : done_closed (push frame o) = done_closed o.
Proof. unfold push. by destruct (hasRoom o). Qed.
Lemma push_out frame o :
  (length (out o) <= outQueue)%nat -> (length (out (push frame o)) <= outQueue)%nat.
Proof.
  intros H. unfold push, hasRoom. destruct (Nat.ltb_spec (length (out o)) outQueue); [|done].
  cbn. rewrite length_app. cbn. lia.
Qed.

(** The frames sent synchronously to one object. *)
Definition sendsTo (id : nat) (evs : list send) : list bytes :=
  send_frame <$> filter (fun e => send_obj e = id) evs.

(** [sw'] and [evs] result from handing [frame] to exactly the objects in [T]:
    each got it by a synchronous send or by a push on its queue, the others
    (and the tables) are untouched. *)
Record delivers (sw : Switch) (frame : bytes) (T : nat -> Prop) (sw' : Switch)
    (evs : list send) : Prop := {
  dl_macs : macs sw' = macs sw;
  dl_ports : ports sw' = ports sw;
  dl_peers : peers sw' = peers sw;
  dl_drops : (forall id o, T id -> heap sw !! id = Some o -> hasRoom o = true) ->
    drops sw' = drops sw;
  dl_target : forall id, T id ->
    (heap sw' !! id = heap sw !! id /\ sendsTo id evs = [frame]) \/
    (heap sw' !! id = push frame <$> heap sw !! id /\ sendsTo id evs = []);
  dl_other : forall id, ~ T id -> heap sw' !! id = heap sw !! id /\ sendsTo id evs = [];
}.

Lemma delivers_wf sw frame T sw' evs :
  wf sw -> (forall id, Decision (T id)) -> delivers sw frame T sw' evs -> wf sw'.
Proof.
  intros Hwf HT Hd.
  assert (Hheap : forall id o, heap sw !! id = Some o ->
    exists o', heap sw' !! id = Some o' /\ (o' = o \/ o' = push frame o)).
  { intros id o Ho. destruct (decide (T id)) as [Ht|Ht].
    - destruct (dl_target _ _ _ _ _ Hd id Ht) as [[-> _]|[-> _]]; rewrite Ho; cbn; eauto.
    - destruct (dl_other _ _ _ _ _ Hd id Ht) as [-> _]. eauto. }
  assert (Hback : forall id o', heap sw' !! id = Some o' ->
    exists o, heap sw !! id = Some o /\ (o' = o \/ o' = push frame o)).
  { intros id o' Ho'. destruct (decide (T id)) as [Ht|Ht].
    - destruct (dl_target _ _ _ _ _ Hd id Ht) as [[E _]|[E _]]; rewrite E in Ho'; [eauto|].
      apply fmap_Some in Ho' as (o & -> & ->). eauto.
    - destruct (dl_other _ _ _ _ _ Hd id Ht) as [E _]. rewrite E in Ho'. eauto. }
  split.
  - rewrite (dl_ports _ _ _ _ _ Hd). intros p id Hp.
    destruct (wf_port sw Hwf p id Hp) as (o & Ho & Hk & Hc).
    destruct (Hheap id o Ho) as (o' & Ho' & [-> | ->]); eexists;
      (split; [exact Ho'|]); rewrite ?push_key, ?push_done; done.
  - rewrite (dl_ports _ _ _ _ _ Hd). apply Hwf.
  - unfold peerPorts. rewrite (dl_ports _ _ _ _ _ Hd), (dl_peers _ _ _ _ _ Hd). apply Hwf.
  - rewrite (dl_macs _ _ _ _ _ Hd). apply Hwf.
  - intros id o' Ho'. destruct (Hback id o' Ho') as (o & Ho & [-> | ->]).
    + by eapply Hwf.
    + eapply push_out. by eapply Hwf.
Qed.

Lemma delivers_nothing sw frame T : (forall id, ~ T id) -> delivers sw frame T sw [].
Proof. intros H. split; try done. intros id Ht. by destruct (H id). Qed.

Lemma delivers_inline sw frame T id :
  (forall i, T i <-> i = id) -> delivers sw frame T sw [mkSend id frame].
Proof.
  intros H. split; try done.
  - intros i ->%H. left. split; [done|]. unfold sendsTo. by rewrite filter_cons_True.
  - intros i Hi. split; [done|]. unfold sendsTo.
    rewrite filter_cons_False; [done|]. cbn. intros <-. apply Hi. by apply H.
Qed.

Lemma enqueue_spec frame id o sw :
  len frame <= linkFrameMax -> heap sw !! id = Some o ->
  exists d, enqueue frame id sw =
      Done (mkSwitch (macs sw) (ports sw) (<[id := push frame o]> (heap sw)) d (peers sw)) /\
    (hasRoom o = true -> d = drops sw).
Proof.
  intros Hlen Ho. unfold enqueue, getFrame, push, hasRoom.
  destruct (Z.leb_spec (len frame) linkFrameMax); [|lia]. go_simpl. rewrite Ho.
  destruct (length (out o) <? outQueue)%nat; eexists.
  - split; done.
  - rewrite insert_id by done. split; done.
Qed.

Lemma enqueue_oversize frame id sw : linkFrameMax < len frame -> enqueue frame id sw = Panic.
Proof.
  intros. unfold enqueue, getFrame. by destruct (Z.leb_spec (len frame) linkFrameMax); [lia|].
Qed.

Lemma enqueueAll_spec frame targets : forall sw,
  len frame <= linkFrameMax -> NoDup targets ->
  (forall id, id ∈ targets -> is_Some (heap sw !! id)) ->
  returns (enqueueAll frame targets sw) (fun sw' =>
    macs sw' = macs sw /\ ports sw' = ports sw /\ peers sw' = peers sw /\
    ((forall id o, id ∈ targets -> heap sw !! id = Some o -> hasRoom o = true) ->
       drops sw' = drops sw) /\
    forall id, heap sw' !! id =
      if decide (id ∈ targets) then push frame <$> heap sw !! id else heap sw !! id).
Proof.
  induction targets as [|id targets IH]; intros sw Hlen Hnd Hheap.
  { apply returns_done. split_and!; try done. }
  apply NoDup_cons in Hnd as [Hid Hnd]. cbn [enqueueAll].
  destruct (Hheap id) as [o Ho]; [set_solver|].
  destruct (enqueue_spec frame id o sw Hlen Ho) as (d & -> & Hd). go_simpl.
  eapply returns_mono; [|apply IH; [done..|]].
  - cbn. intros sw' (-> & -> & -> & Hdr & Hh). split_and!; try done.
    + intros Hroom. rewrite Hdr; [apply Hd; by eapply Hroom; [left|]|].
      intros i o' Hi. rewrite lookup_insert_ne by (intros <-; done).
      apply Hroom. by right.
    + intros i. rewrite Hh. destruct (decide (i = id)) as [->|Hne].
      * rewrite decide_False, lookup_insert_eq by done.
        rewrite decide_True by by left. by rewrite Ho.
      * rewrite lookup_insert_ne by done. repeat case_decide; set_solver.
  - cbn. intros i Hi. rewrite lookup_insert_ne by (intros <-; done). apply Hheap. by right.
Qed.

Lemma elem_of_floodTargets from sw id :
  id ∈ floodTargets from sw <-> exists p, ports sw !! p = Some id /\ p <> from.
Proof.
  unfold floodTargets. rewrite list_elem_of_fmap. split.
  - intros ([p i] & -> & Hp). apply elem_of_map_to_list, map_lookup_filter_Some in Hp.
    naive_solver.
  - intros (p & Hp & Hne). exists (p, id). split; [done|].
    by apply elem_of_map_to_list, map_lookup_filter_Some.
Qed.

Lemma NoDup_floodTargets from sw : wf sw -> NoDup (floodTargets from sw).
Proof.
  intros Hwf. unfold floodTargets. apply NoDup_fmap_2_strong; [|apply NoDup_map_to_list].
  intros [p i] [q j] Hp Hq. cbn. intros ->.
  apply elem_of_map_to_list, map_lookup_filter_Some in Hp as [Hp _].
  apply elem_of_map_to_list, map_lookup_filter_Some in Hq as [Hq _].
  f_equal. by eapply wf_port_inj.
Qed.

Definition registered (sw : Switch) (id : nat) : Prop := exists p, ports sw !! p = Some id.

(** The switch of the code once somebody has joined: with the uplink, the guest and a
    peer registered every send goes through a queue. *)
Definition joined (sw : Switch) : Prop :=
  is_Some (ports sw !! Uplink) /\ is_Some (ports sw !! Local) /\
  exists p, 0 <= p /\ is_Some (ports sw !! p).

(** With three ports a flood has two targets. *)
Lemma floodTargets_joined from sw id : wf sw -> joined sw -> floodTargets from sw <> [id].
Proof.
  intros Hwf ([u Hu] & [l Hl] & p & Hp & [q Hq]) E.
  assert (Hin : forall x i, ports sw !! x = Some i -> x <> from -> i = id).
  { intros x i Hx Hne. assert (Hf : i ∈ floodTargets from sw) by (apply elem_of_floodTargets; eauto).
    rewrite E in Hf. by apply list_elem_of_singleton in Hf. }
  assert (Htwo : forall x y i j, ports sw !! x = Some i -> ports sw !! y = Some j -> x <> y ->
    x <> from -> y <> from -> False).
  { intros x y i j Hx Hy Hxy Hxf Hyf. apply Hxy. eapply (wf_port_inj sw); [done|exact Hx|].
    rewrite Hy. f_equal. by rewrite (Hin x i), (Hin y j). }
  unfold Uplink, Local in *.
  destruct (decide (from = -1)); [|destruct (decide (from = -2))].
  - eapply (Htwo (-2) p); [done..|lia|lia|lia].
  - eapply (Htwo (-1) p); [done..|lia|lia|lia].
  - eapply (Htwo (-1) (-2)); [done..|lia|lia|lia].
Qed.

Lemma flood_joined from frame sw r :
  wf sw -> joined sw -> flood from frame sw = Done r -> r.2 = [].
Proof.
  intros Hwf Hj. unfold flood. pose proof (fun id => floodTargets_joined from sw id Hwf Hj) as Hn.
  destruct (floodTargets from sw) as [|id [|id' rest]]; [by intros [= <-]|by destruct (Hn id)|].
  destruct (enqueueAll _ _ _); [|done]. go_simpl. by intros [= <-].
Qed.

Lemma emit_joined p frame sw r : wf sw -> joined sw -> emit p frame sw = Done r -> r.2 = [].
Proof.
  intros Hwf (_ & _ & q & Hq & [id Hid]). unfold emit. destruct (ports sw !! p); [|by intros [= <-]].
  assert (peers sw <> 0).
  { rewrite (wf_peers sw Hwf). assert (E : peerPorts sw !! q = Some id) by by apply map_lookup_filter_Some.
    intros H0. assert (He : peerPorts sw = ∅) by (apply map_size_empty_inv; lia).
    by rewrite He, lookup_empty in E. }
  destruct (Z.eqb_spec (peers sw) 0); [done|]. destruct (enqueue _ _ _); [|done]. go_simpl.
  by intros [= <-].
Qed.

Lemma flood_delivers from frame sw :
  wf sw -> len frame <= linkFrameMax ->
  returns (flood from frame sw)
    (fun r => delivers sw frame (fun id => id ∈ floodTargets from sw) r.1 r.2 /\
              (joined sw -> r.2 = [])).
Proof.
  intros Hwf Hlen.
  cut (returns (flood from frame sw) (fun r =>
    delivers sw frame (fun id => id ∈ floodTargets from sw) r.1 r.2)).
  { intros (r & E & Hd). exists r. split_and!; [done..|]. intros Hj. by apply (flood_joined from frame sw). }
  unfold flood.
  pose proof (NoDup_floodTargets from sw Hwf) as Hnd.
  assert (Hheap : forall id, id ∈ floodTargets from sw -> is_Some (heap sw !! id)).
  { intros id (p & Hp & _)%elem_of_floodTargets.
    destruct (wf_port sw Hwf p id Hp) as (o & -> & _). eauto. }
  destruct (floodTargets from sw) as [|id [|id' rest]].
  - apply returns_done, delivers_nothing. set_solver.
  - apply returns_done, delivers_inline. set_solver.
  - go_step. eapply returns_mono; [|by apply enqueueAll_spec].
    intros sw' (Hm & Hp & Hpe & Hdr & Hh). apply returns_done. split; cbn; try done.
    + intros i Hi. right. split; [|done]. rewrite Hh. by rewrite decide_True.
    + intros i Hi. split; [|done]. rewrite Hh. by rewrite decide_False.
Qed.

Lemma emit_delivers p frame sw :
  wf sw -> len frame <= linkFrameMax ->
  returns (emit p frame sw)
    (fun r => delivers sw frame (fun id => ports sw !! p = Some id) r.1 r.2 /\
              (joined sw -> r.2 = [])).
Proof.
  intros Hwf Hlen.
  cut (returns (emit p frame sw) (fun r =>
    delivers sw frame (fun id => ports sw !! p = Some id) r.1 r.2)).
  { intros (r & E & Hd). exists r. split_and!; [done..|]. intros Hj. by apply (emit_joined p frame sw). }
  unfold emit. destruct (ports sw !! p) as [id|] eqn:Hp.
  2: { by apply returns_done, delivers_nothing. }
  destruct (peers sw =? 0).
  { apply returns_done, delivers_inline. naive_solver. }
  destruct (wf_port sw Hwf p id Hp) as (o & Ho & _).
  destruct (enqueue_spec frame id o sw Hlen Ho) as (d & -> & Hd). go_simpl.
  apply returns_done. split; cbn; try done.
  - intros Hroom. apply Hd. by eapply Hroom.
  - intros i [= <-]. right. by rewrite lookup_insert_eq, Ho.
  - intros i Hi. rewrite lookup_insert_ne by congruence. done.
Qed.

(** ** The abstract bridge

    What a learning bridge promises, without queues or goroutines: the table
    learns the source of every frame (group sources excepted), and a frame goes
    to the port its destination was last seen on within the TTL, to every other
    port when the destination is a group address or unknown, and never back. *)
Definition isGroup (b : bytes) : bool :=
  match b with x :: _ => Z.odd x | [] => false end.
Definition frameDst (frame : bytes) : bytes := take 6 frame.
Definition frameSrc (frame : bytes) : bytes := take 6 (drop 6 frame).

Definition tableLearn (now : Z) (from : Port) (frame : bytes) (m : gmap bytes macEntry)
  : gmap bytes macEntry :=
  if isGroup (frameSrc frame) then m else <[frameSrc frame := mkEntry from now]> m.

Definition tableLookup (now : Z) (dst : bytes) (m : gmap bytes macEntry) : option Port :=
  e ← m !! dst; if now - seen e <=? macTTL then Some (entry_port e) else None.

Definition tableExpire (now : Z) (frame : bytes) (m : gmap bytes macEntry) : gmap bytes macEntry :=
  if isGroup frame then m else
  match tableLookup now (frameDst frame) m with
  | None => delete (frameDst frame) m
  | Some _ => m
  end.

Definition bridgeTarget (now1 now2 : Z) (from : Port) (frame : bytes)
    (m : gmap bytes macEntry) (p : Port) : bool :=
  negb (p =? from) &&
  (isGroup frame ||
   match tableLookup now2 (frameDst frame) (tableLearn now1 from frame m) with
   | Some d => d =? p
   | None => true
   end).

(** What one object saw of a forwarded frame: [b] says whether it was due. *)
Definition received (id : nat) (sw : Switch) (r : Switch * list send) (frame : bytes) (b : bool)
  : Prop :=
  exists o, heap sw !! id = Some o /\
  if b
  then (heap r.1 !! id = Some o /\ sendsTo id r.2 = [frame]) \/
       (heap r.1 !! id = Some (push frame o) /\ sendsTo id r.2 = [])
  else heap r.1 !! id = Some o /\ sendsTo id r.2 = [].

Lemma groupBit_isGroup b : 1 <= len b -> groupBit b = Done (isGroup b).
Proof.
  destruct b as [|x b]; [done|]. intros _. unfold groupBit.
  change (idx (x :: b) 0) with (Done x). go_simpl. rewrite land_1_odd. cbn [isGroup].
  by destruct (Z.odd x).
Qed.

Definition withMacs (m : gmap bytes macEntry) (sw : Switch) : Switch :=
  mkSwitch m (ports sw) (heap sw) (drops sw) (peers sw).

Lemma withMacs_id sw : withMacs (macs sw) sw = sw.
Proof. by destruct sw. Qed.

Lemma wf_withMacs m sw :
  (forall k e, m !! k = Some e -> unicastMac k) -> wf sw -> wf (withMacs m sw).
Proof. intros Hm Hwf. split; cbn; [apply Hwf..|done|apply Hwf]. Qed.

Lemma length_frameSrc frame : 14 <= len frame -> length (frameSrc frame) = 6%nat.
Proof. unfold len, frameSrc. intros. rewrite length_take, length_drop. lia. Qed.

Lemma learn_spec now from frame sw :
  14 <= len frame ->
  learn now (frameSrc frame) from sw = Done (withMacs (tableLearn now from frame (macs sw)) sw).
Proof.
  intros Hlen. pose proof (length_frameSrc frame Hlen) as H6. unfold learn, tableLearn.
  rewrite groupBit_isGroup by (unfold len; lia). go_simpl.
  destruct (isGroup (frameSrc frame)); [by rewrite withMacs_id|].
  destruct (macs sw !! frameSrc frame) as [e|]; [|done].
  destruct (Z.eqb_spec (entry_port e) from) as [->|]; done.
Qed.

Lemma wf_tableLearn now from frame sw :
  14 <= len frame -> wf sw -> wf (withMacs (tableLearn now from frame (macs sw)) sw).
Proof.
  intros Hlen Hwf. apply wf_withMacs; [|done]. intros k e. unfold tableLearn.
  destruct (isGroup _) eqn:Hg; [by apply Hwf|]. rewrite lookup_insert.
  case_decide; [|by apply Hwf]. intros [= <-]. subst k.
  pose proof (length_frameSrc frame Hlen). split; [done|].
  rewrite groupBit_isGroup by (unfold len; lia). by rewrite Hg.
Qed.

Lemma lookupMac_spec now dst sw :
  lookupMac now dst sw =
    match tableLookup now dst (macs sw) with
    | Some p => (sw, Some p)
    | None => (withMacs (delete dst (macs sw)) sw, None)
    end.
Proof.
  unfold lookupMac, tableLookup. destruct (macs sw !! dst) as [e|] eqn:He; cbn.
  - rewrite Z.ltb_antisym. by destruct (_ <=? _).
  - rewrite delete_id by done. by rewrite withMacs_id.
Qed.

(** From [delivers] at the object level to [received] at the port level. *)
Lemma delivers_received sw sw1 frame T r (f : Port -> bool) :
  wf sw -> heap sw1 = heap sw -> ports sw1 = ports sw ->
  (forall p id, ports sw !! p = Some id -> T id <-> f p = true) ->
  delivers sw1 frame T r.1 r.2 ->
  forall p id, ports sw !! p = Some id -> received id sw r frame (f p).
Proof.
  intros Hwf Hh Hp HT Hd p id Hid.
  destruct (wf_port sw Hwf p id Hid) as (o & Ho & _).
  exists o. split; [done|]. specialize (HT p id Hid). destruct (f p).
  - destruct (dl_target _ _ _ _ _ Hd id) as [[E S]|[E S]]; [by apply HT| |];
      rewrite E, Hh, Ho; auto.
  - destruct (dl_other _ _ _ _ _ Hd id) as [E S]; [by intros ?%HT|]. by rewrite E, Hh, Ho.
Qed.

Lemma flood_targets_iff from sw p id (f : Port -> bool) :
  wf sw -> f p = negb (p =? from) -> ports sw !! p = Some id ->
  id ∈ floodTargets from sw <-> f p = true.
Proof.
  intros Hwf -> Hp. rewrite elem_of_floodTargets, negb_true_iff, Z.eqb_neq. split.
  - intros (q & Hq & Hne). by rewrite (wf_port_inj sw p q id).
  - by eauto.
Qed.

(** The shared core of the [Forward] theorems: the resulting state of every
    run, in terms of the abstract bridge. *)
(** [r] is well formed, the objects that are not registered are as they were, inline
    sends go to registered objects, and there are none if somebody has joined. *)
Definition settled (sw : Switch) (r : Switch * list send) : Prop :=
  wf r.1 /\ (forall id, ~ registered sw id -> heap r.1 !! id = heap sw !! id) /\
  (forall e, e ∈ r.2 -> registered sw (send_obj e)) /\ (joined sw -> r.2 = []).

Definition forwardOutcome (now1 now2 : Z) (from : Port) (frame : bytes) (sw : Switch)
    (r : Switch * list send) : Prop :=
  settled sw r /\ ports r.1 = ports sw /\ peers r.1 = peers sw /\
  macs r.1 = tableExpire now2 frame (tableLearn now1 from frame (macs sw)) /\
  ((forall id o, heap sw !! id = Some o -> hasRoom o = true) -> drops r.1 = drops sw) /\
  forall p id, ports sw !! p = Some id ->
    received id sw r frame (bridgeTarget now1 now2 from frame (macs sw) p).

Lemma forwardOutcome_intro now1 now2 from frame sw sw1 T r :
  delivers sw1 frame T r.1 r.2 ->
  wf sw -> wf sw1 -> (forall id, Decision (T id)) ->
  heap sw1 = heap sw -> ports sw1 = ports sw -> peers sw1 = peers sw -> drops sw1 = drops sw ->
  macs sw1 = tableExpire now2 frame (tableLearn now1 from frame (macs sw)) ->
  (forall p id, ports sw !! p = Some id ->
     T id <-> bridgeTarget now1 now2 from frame (macs sw) p = true) ->
  (forall id, T id -> registered sw id) -> (joined sw -> r.2 = []) ->
  forwardOutcome now1 now2 from frame sw r.
Proof.
  intros Hd Hwf Hwf1 HT Hh Hp Hpe Hdr Hm Ht Hreg Hj. split_and!.
  - split_and!; [by eapply delivers_wf| | |done].
    + intros id Hid. rewrite <- Hh.
      by destruct (dl_other _ _ _ _ _ Hd id) as [-> _]; [intros ?%Hreg|].
    + intros e He. apply Hreg. destruct (decide (T (send_obj e))) as [|Hn]; [done|].
      destruct (dl_other _ _ _ _ _ Hd _ Hn) as [_ Hs]. exfalso. unfold sendsTo in Hs.
      apply fmap_nil_inv in Hs. eapply not_elem_of_nil. rewrite <- Hs.
      by apply list_elem_of_filter.
  - by rewrite (dl_ports _ _ _ _ _ Hd).
  - by rewrite (dl_peers _ _ _ _ _ Hd).
  - by rewrite (dl_macs _ _ _ _ _ Hd).
  - intros Hroom. rewrite (dl_drops _ _ _ _ _ Hd); [done|]. intros id o _. rewrite Hh. apply Hroom.
  - intros p id Hid. by eapply (delivers_received sw sw1 frame T r _ Hwf Hh Hp Ht Hd).
Qed.

Lemma Forward_outcome now1 now2 from frame sw :
  wf sw -> 14 <= len frame <= linkFrameMax ->
  returns (Forward now1 now2 from frame sw) (forwardOutcome now1 now2 from frame sw).
Proof.
  intros Hwf Hlen. unfold Forward. destruct (Z.ltb_spec (len frame) 14); [lia|].
  rewrite (slice_eq frame 6 12), (slice_eq frame 0 6) by lia.
  change (take (Z.to_nat (12 - 6)) (drop (Z.to_nat 6) frame)) with (frameSrc frame).
  change (take (Z.to_nat (6 - 0)) (drop (Z.to_nat 0) frame)) with (frameDst frame).
  go_simpl. rewrite learn_spec by lia. go_simpl.
  rewrite groupBit_isGroup by lia. go_simpl. rewrite lookupMac_spec. cbn [macs withMacs].
  pose proof (wf_tableLearn now1 from frame sw ltac:(lia) Hwf) as Hwf1.
  set (m1 := tableLearn now1 from frame (macs sw)) in *.
  destruct (isGroup frame) eqn:Hg; [|destruct (tableLookup now2 (frameDst frame) m1) as [d|] eqn:Hl].
  - eapply returns_mono; [|apply flood_delivers; [done|lia]]. intros r [Hr Hj].
    apply (forwardOutcome_intro _ _ _ _ _ _ _ _ Hr); try done.
    + apply _.
    + cbn. unfold tableExpire. by rewrite Hg.
    + intros p id Hp. apply (flood_targets_iff from (withMacs m1 sw)); [done| |done].
      unfold bridgeTarget. rewrite Hg. cbn. by rewrite andb_true_r.
    + by intros id (p & Hp & _)%elem_of_floodTargets; exists p.
  - destruct (Z.eqb_spec d from) as [->|Hne].
    + apply returns_done.
      apply (forwardOutcome_intro _ _ _ _ _ (withMacs m1 sw) (fun _ => False)); try done.
      * apply _.
      * cbn. unfold tableExpire. fold m1. by rewrite Hg, Hl.
      * intros p id Hp. split; [done|]. unfold bridgeTarget. fold m1. rewrite Hg, Hl. cbn.
        destruct (Z.eqb_spec p from), (Z.eqb_spec from p); naive_solver.
    + eapply returns_mono; [|apply emit_delivers; [done|lia]]. intros r [Hr Hj].
      apply (forwardOutcome_intro _ _ _ _ _ _ _ _ Hr); try done.
      * apply _.
      * cbn. unfold tableExpire. fold m1. by rewrite Hg, Hl.
      * intros p id Hp. unfold bridgeTarget. fold m1. rewrite Hg, Hl. cbn.
        assert (Hinj : ports sw !! d = Some id <-> d = p)
          by (split; [intros; by eapply wf_port_inj|by intros ->]).
        rewrite Hinj. destruct (Z.eqb_spec p from), (Z.eqb_spec d p); naive_solver.
      * by intros id Hp; exists d.
  - assert (Hwf2 : wf (withMacs (delete (frameDst frame) m1) (withMacs m1 sw))).
    { apply wf_withMacs; [|done]. intros k e [_ Hk]%lookup_delete_Some.
      by eapply (wf_macs _ Hwf1). }
    eapply returns_mono; [|apply flood_delivers; [done|lia]]. intros r [Hr Hj].
    apply (forwardOutcome_intro _ _ _ _ _ _ _ _ Hr); try done.
    + apply _.
    + cbn. unfold tableExpire. fold m1. by rewrite Hg, Hl.
    + intros p id Hp. apply (flood_targets_iff from (withMacs _ (withMacs m1 sw))); [done| |done].
      unfold bridgeTarget. fold m1. rewrite Hg, Hl. cbn. by rewrite andb_true_r.
    + by intros id (p & Hp & _)%elem_of_floodTargets; exists p.
Qed.

(** ** Reachable switches *)

Inductive step (sw : Switch) : Switch -> Prop :=
| step_AddPort p snk : p < 0 -> step sw (AddPort p snk sw)
| step_AddPeer snk : step sw (AddPeer snk sw).1
| step_RemovePort p sw' : RemovePort p sw = Done sw' -> step sw sw'
| step_Forward now1 now2 from frame sw' evs :
    len frame <= linkFrameMax ->
    Forward now1 now2 from frame sw = Done (sw', evs) -> step sw sw'
| step_writerSend id fails sw' ev :
    writerSend id fails sw = Done (Some (sw', ev)) -> step sw sw'
| step_writerDone id sw' : writerDone id sw = Some sw' -> step sw sw'.

Lemma writerSend_wf id fails sw :
  wf sw -> returns (writerSend id fails sw)
    (fun r => forall sw' ev, r = Some (sw', ev) -> wf sw').
Proof.
  intros Hwf. unfold writerSend.
  destruct (heap sw !! id) as [o|]; [|by apply returns_done].
  destruct (writer_running o); [|by apply returns_done].
  destruct (out o) as [|f rest]; [by apply returns_done|].
  pose proof (wf_popOut sw id Hwf) as Hpop. destruct fails.
  - go_step. eapply returns_mono; [|by apply RemovePort_wf]. intros sw' Hsw'.
    apply returns_done. intros ? ? [= <- <-]. by apply wf_stopWriter.
  - apply returns_done. by intros ? ? [= <- <-].
Qed.

Lemma writerDone_wf id sw sw' : wf sw -> writerDone id sw = Some sw' -> wf sw'.
Proof.
  intros Hwf. unfold writerDone. destruct (heap sw !! id) as [o|]; [|done].
  destruct (_ && _); [|done]. intros [= <-]. by apply wf_stopWriter.
Qed.

Lemma Forward_short now1 now2 from frame sw :
  len frame < 14 -> Forward now1 now2 from frame sw = Done (sw, []).
Proof. intros. unfold Forward. by destruct (Z.ltb_spec (len frame) 14); [|lia]. Qed.

Lemma Forward_wf now1 now2 from frame sw :
  wf sw -> len frame <= linkFrameMax ->
  returns (Forward now1 now2 from frame sw) (fun r => wf r.1).
Proof.
  intros Hwf Hlen. destruct (Z.lt_ge_cases (len frame) 14).
  - rewrite Forward_short by done. by apply returns_done.
  - eapply returns_mono; [|by apply Forward_outcome]. by intros r ((Hw & _) & _).
Qed.

Lemma step_wf sw sw' : wf sw -> step sw sw' -> wf sw'.
Proof.
  intros Hwf. destruct 1.
  - by apply wf_AddPort.
  - by apply wf_AddPeer.
  - by eapply (returns_inv _ _ _ (RemovePort_wf p sw Hwf)).
  - match goal with HF : Forward _ _ _ _ _ = _ |- _ =>
      by apply (returns_inv _ _ _ (Forward_wf _ _ _ _ _ Hwf ltac:(done)) HF) end.
  - by eapply (returns_inv _ _ _ (writerSend_wf id fails sw Hwf)).
  - by eapply writerDone_wf.
Qed.

Lemma reachable_wf sw sw' : rtc step sw sw' -> wf sw -> wf sw'.
Proof. induction 1; eauto using step_wf. Qed.

Lemma peers_bound sw : wf sw -> 0 <= peers sw <= MaxPeers.
Proof.
  intros Hwf. rewrite (wf_peers sw Hwf). split; [lia|].
  rewrite <- size_dom.
  assert (Hsub : dom (peerPorts sw) ⊆ (list_to_set (seqZ 0 MaxPeers) : gset Z)).
  { intros p (id & Hp)%elem_of_dom. apply map_lookup_filter_Some in Hp as [Hp Hge].
    apply elem_of_list_to_set, elem_of_seqZ. pose proof (wf_range sw Hwf p id Hp). cbn in *. lia. }
  apply subseteq_size in Hsub. rewrite size_list_to_set in Hsub by apply NoDup_seqZ.
  rewrite length_seqZ in Hsub. unfold MaxPeers in *. lia.
Qed.

(** C8: safety of the hub's switch. In every state reachable from [New] by any
    interleaving of port registrations, peers joining, removals, forwarded
    frames of up to [linkFrameMax] bytes and writer-goroutine steps, the state
    is well formed, the peer counter counts the peer ports and stays within 32,
    and no operation panics (no double close, no slice out of range). *)
Theorem switch_reachable_safe sw :
  rtc step New sw ->
  wf sw /\ 0 <= peers sw <= MaxPeers /\
  (forall p, no_panic (RemovePort p sw)) /\
  (forall now1 now2 from frame, len frame <= linkFrameMax ->
     no_panic (Forward now1 now2 from frame sw)) /\
  (forall id fails, no_panic (writerSend id fails sw)).
Proof.
  intros Hr. pose proof (reachable_wf _ _ Hr wf_New) as Hwf. split_and!; try done.
  - by apply peers_bound.
  - by apply peers_bound.
  - intros p. by eapply returns_no_panic, RemovePort_wf.
  - intros. by eapply returns_no_panic, Forward_wf.
  - intros. by eapply returns_no_panic, writerSend_wf.
Qed.

(** A hub with its uplink, its guest and two peers. *)
Definition demo : Switch :=
  (AddPeer 103 (AddPeer 102 (AddPort Local 101 (AddPort Uplink 100 New))).1).1.

Lemma demo_reachable : rtc step New demo.
Proof.
  eapply rtc_l; [by apply (step_AddPort _ Uplink 100)|].
  eapply rtc_l; [by apply (step_AddPort _ Local 101)|].
  eapply rtc_l; [apply (step_AddPeer _ 102)|].
  eapply rtc_l; [apply (step_AddPeer _ 103)|]. apply rtc_refl.
Qed.

Lemma demo_wf : wf demo.
Proof. exact (reachable_wf _ _ demo_reachable wf_New). Qed.

Theorem switch_reachable_safe_witness :
  rtc step New demo /\ 0 <= peers demo <= MaxPeers.
Proof.
  split; [exact demo_reachable|].
  exact (proj1 (proj2 (switch_reachable_safe demo demo_reachable))).
Defined.

(** C7: refinement of the abstract learning bridge. From a well-formed state, a
    frame of 14 to 9234 bytes leaves the port map and peer count alone, makes
    the MAC table the abstract bridge's table, and reaches exactly the ports the
    abstract bridge names: each of them once, by a synchronous send or by a push
    on its bounded queue, and no other port. *)
Theorem Forward_refines_bridge now1 now2 from frame sw :
  wf sw -> 14 <= len frame <= linkFrameMax ->
  returns (Forward now1 now2 from frame sw) (fun r =>
    ports r.1 = ports sw /\ peers r.1 = peers sw /\
    macs r.1 = tableExpire now2 frame (tableLearn now1 from frame (macs sw)) /\
    ((forall id o, heap sw !! id = Some o -> hasRoom o = true) -> drops r.1 = drops sw) /\
    forall p id, ports sw !! p = Some id ->
      received id sw r frame (bridgeTarget now1 now2 from frame (macs sw) p)).
Proof.
  intros Hwf Hlen. eapply returns_mono; [|by apply Forward_outcome].
  by intros r (_ & Hr).
Qed.

(** Example frames: group-addressed and unicast, padded to 60 bytes. *)
Definition macA : bytes := [2; 0; 0; 0; 0; 1].
Definition macB : bytes := [2; 0; 0; 0; 0; 2].
Definition bcast : bytes := [255; 255; 255; 255; 255; 255].
Definition ethFrame (dst src : bytes) : bytes := dst ++ src ++ [8; 0] ++ zeros 46.

Theorem Forward_refines_bridge_witness :
  exists r, Forward 0 0 Local (ethFrame bcast macA) demo = Done r /\
    macs r.1 = tableExpire 0 (ethFrame bcast macA)
                 (tableLearn 0 Local (ethFrame bcast macA) (macs demo)).
Proof.
  destruct (Forward_refines_bridge 0 0 Local (ethFrame bcast macA) demo) as (r & Hr & H).
  - exact demo_wf.
  - by vm_compute.
  - exists r. split; [exact Hr|exact (proj1 (proj2 (proj2 H)))].
Defined.

(** no hairpin. Whatever the table and the queues hold, a forwarded frame is
    never sent or queued back to the port it came from. *)
Theorem Forward_never_back now1 now2 from frame sw id :
  wf sw -> len frame <= linkFrameMax -> ports sw !! from = Some id ->
  returns (Forward now1 now2 from frame sw) (fun r =>
    heap r.1 !! id = heap sw !! id /\ sendsTo id r.2 = []).
Proof.
  intros Hwf Hlen Hid. destruct (Z.lt_ge_cases (len frame) 14).
  - rewrite Forward_short by done. by apply returns_done.
  - eapply returns_mono; [|by apply Forward_outcome].
    intros r (_ & _ & _ & _ & _ & Hrec). destruct (Hrec from id Hid) as (o & Ho & Hb).
    unfold bridgeTarget in Hb. rewrite Z.eqb_refl in Hb. cbn in Hb. by rewrite Ho.
Qed.

Lemma demo_Local : ports demo !! Local = Some 1%nat.
Proof. by vm_compute. Qed.

Theorem Forward_never_back_witness :
  returns (Forward 0 0 Local (ethFrame macB macA) demo) (fun r =>
    heap r.1 !! 1%nat = heap demo !! 1%nat /\ sendsTo 1 r.2 = []).
Proof.
  apply (Forward_never_back 0 0 Local (ethFrame macB macA) demo 1 demo_wf);
    [by vm_compute|exact demo_Local].
Defined.

(** What a forwarded frame leaves in the table: its source, at the port it came from. *)
Lemma Forward_remembers t1 t1' a f1 m :
  isGroup (frameSrc f1) = false -> t1' - t1 <= macTTL ->
  tableExpire t1' f1 (tableLearn t1 a f1 m) !! frameSrc f1 = Some (mkEntry a t1).
Proof.
  intros Hg Ht1. unfold tableExpire, tableLearn, tableLookup. rewrite Hg.
  destruct (isGroup f1); [apply lookup_insert_eq|].
  destruct (decide (frameDst f1 = frameSrc f1)) as [E|E].
  - rewrite E, lookup_insert_eq. cbn. destruct (Z.leb_spec (t1' - t1) macTTL); [|lia].
    apply lookup_insert_eq.
  - destruct (_ ≫= _); [apply lookup_insert_eq|].
    rewrite lookup_delete_ne by done. apply lookup_insert_eq.
Qed.

(** A unicast frame for a station the table knows at [a] goes to [a] only. *)
Lemma Forward_known t1 t2 t2' a b f2 sw :
  wf sw -> 14 <= len f2 <= linkFrameMax -> isGroup f2 = false ->
  macs sw !! frameDst f2 = Some (mkEntry a t1) -> frameSrc f2 <> frameDst f2 -> a <> b ->
  t2' - t1 <= macTTL ->
  returns (Forward t2 t2' b f2 sw) (fun r2 =>
    forall p id, ports sw !! p = Some id -> received id sw r2 f2 (p =? a)).
Proof.
  intros Hwf Hl2 Hg2 Hknown Hsrc Hab Ht2. eapply returns_mono; [|by apply Forward_outcome].
  intros r2 (_ & _ & _ & _ & _ & Hrec) p id Hid. specialize (Hrec p id Hid).
  assert (Hlook : tableLookup t2' (frameDst f2) (tableLearn t2 b f2 (macs sw)) = Some a).
  { unfold tableLookup, tableLearn.
    replace ((if isGroup (frameSrc f2) then macs sw
              else <[frameSrc f2:=mkEntry b t2]> (macs sw)) !! frameDst f2)
      with (Some (mkEntry a t1)).
    - cbn. by destruct (Z.leb_spec (t2' - t1) macTTL); [|lia].
    - destruct (isGroup (frameSrc f2)); [done|]. by rewrite lookup_insert_ne. }
  replace (p =? a) with (bridgeTarget t2 t2' b f2 (macs sw) p); [done|].
  unfold bridgeTarget. rewrite Hg2, Hlook, (Z.eqb_sym a p). cbn.
  destruct (Z.eqb_spec p b), (Z.eqb_spec p a); try done. congruence.
Qed.

(** learning. After a frame with unicast source S arrives on port a, and
    within the 300 s TTL of that moment, a unicast frame for S from any other
    station (whose own source is not S) is handed to port a only. *)
Theorem Forward_learns t1 t1' t2 t2' a b f1 f2 sw :
  wf sw -> 14 <= len f1 <= linkFrameMax -> 14 <= len f2 <= linkFrameMax ->
  isGroup (frameSrc f1) = false -> frameDst f2 = frameSrc f1 -> isGroup f2 = false ->
  frameSrc f2 <> frameSrc f1 -> a <> b -> t1' - t1 <= macTTL -> t2' - t1 <= macTTL ->
  returns (Forward t1 t1' a f1 sw) (fun r1 =>
    returns (Forward t2 t2' b f2 r1.1) (fun r2 =>
      forall p id, ports sw !! p = Some id -> received id r1.1 r2 f2 (p =? a))).
Proof.
  intros Hwf Hl1 Hl2 Hg Hdst Hg2 Hsrc Hab Ht1 Ht2.
  eapply returns_mono; [|by apply Forward_outcome].
  intros r1 ((Hwf1 & _) & Hp1 & _ & Hm1 & _). rewrite <- Hp1.
  apply (Forward_known t1); try done; [|by rewrite Hdst].
  by rewrite Hm1, Hdst, Forward_remembers.
Qed.

Theorem Forward_learns_witness :
  returns (Forward 0 0 Local (ethFrame bcast macA) demo) (fun r1 =>
    returns (Forward 5 5 Uplink (ethFrame macA macB) r1.1) (fun r2 =>
      forall p id, ports demo !! p = Some id ->
        received id r1.1 r2 (ethFrame macA macB) (p =? Local))).
Proof.
  apply (Forward_learns 0 0 5 5 Local Uplink (ethFrame bcast macA) (ethFrame macA macB) demo
           demo_wf); by vm_compute.
Defined.

(** [AddPeer] hands out the lowest free peer number, refuses a peer exactly
    when all 32 numbers are taken, and disturbs no existing port. *)
Theorem AddPeer_spec snk sw :
  wf sw ->
  match AddPeer snk sw with
  | (sw', Some p) =>
      0 <= p < MaxPeers /\ ports sw !! p = None /\
      (forall q, 0 <= q < p -> is_Some (ports sw !! q)) /\
      peers sw' = peers sw + 1 /\
      (exists id, ports sw' !! p = Some id /\ heap sw !! id = None /\
         heap sw' !! id = Some (mkPort snk [] false p true)) /\
      (forall q, q <> p -> ports sw' !! q = ports sw !! q) /\
      (forall id, is_Some (heap sw !! id) -> heap sw' !! id = heap sw !! id)
  | (sw', None) => sw' = sw /\ forall q, 0 <= q < MaxPeers -> is_Some (ports sw !! q)
  end.
Proof.
  intros Hwf. unfold AddPeer. destruct (lowestFree _ _ _) as [p|] eqn:Hp.
  - apply lowestFree_Some in Hp as (Hr & Hn & Hlow). rewrite Z2Nat.id in Hr by done.
    cbn. split_and!; try done; try lia.
    + exists (newObj sw). by rewrite !lookup_insert_eq, newObj_fresh.
    + intros q Hq. by rewrite lookup_insert_ne.
    + intros id [o Ho]. rewrite lookup_insert_ne; [done|]. intros <-.
      by rewrite newObj_fresh in Ho.
  - split; [done|]. rewrite lowestFree_None in Hp. intros q Hq. apply Hp.
    rewrite Z2Nat.id by done. lia.
Qed.

Theorem AddPeer_spec_witness :
  match AddPeer 104 demo with
  | (sw', Some p) =>
      0 <= p < MaxPeers /\ ports demo !! p = None /\
      (forall q, 0 <= q < p -> is_Some (ports demo !! q)) /\
      peers sw' = peers demo + 1 /\
      (exists id, ports sw' !! p = Some id /\ heap demo !! id = None /\
         heap sw' !! id = Some (mkPort 104 [] false p true)) /\
      (forall q, q <> p -> ports sw' !! q = ports demo !! q) /\
      (forall id, is_Some (heap demo !! id) -> heap sw' !! id = heap demo !! id)
  | (sw', None) => sw' = demo /\ forall q, 0 <= q < MaxPeers -> is_Some (ports demo !! q)
  end.
Proof. exact (AddPeer_spec 104 demo demo_wf). Defined.

(** [RemovePort] forgets the port and everything learned on it, and nothing
    else: its number is free, no MAC maps to it any more, its object's [done]
    is closed, and the other ports, objects and table entries are unchanged. *)
Theorem RemovePort_forgets p sw :
  wf sw ->
  returns (RemovePort p sw) (fun sw' =>
    ports sw' = delete p (ports sw) /\
    (forall k e, macs sw' !! k = Some e <-> macs sw !! k = Some e /\ entry_port e <> p) /\
    (forall id, ports sw !! p = Some id ->
       done_closed <$> heap sw' !! id = Some true) /\
    (forall id, ports sw !! p <> Some id -> heap sw' !! id = heap sw !! id) /\
    peers sw' = peers sw - (if bool_decide (is_Some (ports sw !! p)) && (0 <=? p) then 1 else 0)).
Proof.
  intros Hwf.
  assert (Hfilter : forall k e,
    macs (forgetMacs p sw) !! k = Some e <-> macs sw !! k = Some e /\ entry_port e <> p)
    by (intros; cbn; by rewrite map_lookup_filter_Some).
  destruct (ports sw !! p) as [id|] eqn:Hp.
  - destruct (RemovePort_registered p id sw Hwf Hp) as (o & Ho & ->).
    apply returns_done. split_and!; try done; cbn [ports heap forgetMacs peers].
    + intros i [= <-]. by rewrite lookup_insert_eq.
    + intros i Hi. rewrite lookup_insert_ne; [done|congruence].
    + rewrite bool_decide_true by by eauto. cbn [andb]. destruct (0 <=? p); lia.
  - rewrite RemovePort_absent by done. apply returns_done. split_and!; try done.
    + cbn. by rewrite delete_id.
    + cbn. lia.
Qed.

Theorem RemovePort_forgets_witness :
  returns (RemovePort 0 demo) (fun sw' =>
    ports sw' = delete 0 (ports demo) /\
    (forall k e, macs sw' !! k = Some e <-> macs demo !! k = Some e /\ entry_port e <> 0) /\
    (forall id, ports demo !! 0 = Some id -> done_closed <$> heap sw' !! id = Some true) /\
    (forall id, ports demo !! 0 <> Some id -> heap sw' !! id = heap demo !! id) /\
    peers sw' = peers demo - (if bool_decide (is_Some (ports demo !! 0)) && (0 <=? 0) then 1 else 0)).
Proof. exact (RemovePort_forgets 0 demo demo_wf). Defined.

(** ** Where the switch falls short of its documentation *)

Definition run {A} (m : go A) (d : A) : A := match m with Done a => a | Panic => d end.

(** One uplink, one guest, one peer; the guest's MAC is already learned. *)
Definition order0 : Switch := (AddPeer 102 (AddPort Local 101 (AddPort Uplink 100 New))).1.
Definition frame1 : bytes := ethFrame macA macB.
Definition frame2 : bytes := ethFrame macA macB ++ [42].
Definition order1 : Switch := (run (Forward 0 0 Local (ethFrame bcast macA) order0) (order0, [])).1.
Definition order2 : Switch := (run (Forward 0 0 Uplink frame1 order1) (order1, [])).1.
Definition order3 : Switch := run (RemovePort 0 order2) order2.

(** ordering across a role change. The package promises that frames to a
    port leave in order. They do not once the last peer leaves: a frame for the
    guest that was queued while a peer existed is overtaken by the next one,
    which [emit] sends synchronously. The run below is made of the code's own
    steps from [New]: [frame1] is forwarded before [frame2], yet [frame2] reaches
    the guest's sink while [frame1] is still in the queue, and [frame1] follows. *)
Theorem Forward_reorders :
  rtc step New order1 /\
  Forward 0 0 Uplink frame1 order1 = Done (order2, []) /\
  RemovePort 0 order2 = Done order3 /\
  exists guest order4 order5, ports order3 !! Local = Some guest /\
    Forward 0 0 Uplink frame2 order3 = Done (order4, [mkSend guest frame2]) /\
    writerSend guest false order4 = Done (Some (order5, mkSend guest frame1)).
Proof.
  split; [|split; [by vm_compute|split; [by vm_compute|]]].
  - eapply rtc_l; [by apply (step_AddPort _ Uplink 100)|].
    eapply rtc_l; [by apply (step_AddPort _ Local 101)|].
    eapply rtc_l; [apply (step_AddPeer _ 102)|].
    eapply rtc_l; [|apply rtc_refl].
    apply (step_Forward _ 0 0 Local (ethFrame bcast macA) _
             (run (Forward 0 0 Local (ethFrame bcast macA) order0) (order0, [])).2); by vm_compute.
  - exists 1%nat, (run (Forward 0 0 Uplink frame2 order3) (order3, [])).1.
    eexists. by vm_compute.
Qed.

(** Peer 102 joins as port 0 and its wire breaks: the writer's send fails and it
    removes port 0. Peer 103 joins and is given the free number 0. Then the
    reader goroutine of peer 102 ends and runs its deferred [RemovePort]. *)
Definition stale0 : Switch := (AddPeer 102 (AddPort Local 101 (AddPort Uplink 100 New))).1.
Definition stale1 : Switch := (run (Forward 0 0 Local (ethFrame bcast macA) stale0) (stale0, [])).1.
Definition stale2 : Switch :=
  match run (writerSend 2 true stale1) None with Some (sw, _) => sw | None => stale1 end.
Definition stale3 : Switch := (AddPeer 103 stale2).1.
Definition stale4 : Switch := run (RemovePort 0 stale3) stale3.

(** removal by number is not removal of one's own port. In the run above the
    new, healthy peer 103 is registered as port 0, and the late [RemovePort 0] of
    the dead peer 102 unregisters it and closes its [done]: the connection stays
    open and the switch no longer delivers anything to it. *)
Theorem stale_RemovePort_kills_new_peer :
  rtc step New stale4 /\
  RemovePort 0 stale3 = Done stale4 /\
  exists id, ports stale3 !! 0 = Some id /\ sink <$> heap stale3 !! id = Some 103%nat /\
    done_closed <$> heap stale3 !! id = Some false /\
    ports stale4 !! 0 = None /\ done_closed <$> heap stale4 !! id = Some true.
Proof.
  assert (Hlast : RemovePort 0 stale3 = Done stale4) by by vm_compute.
  split; [|split; [exact Hlast|exists 3%nat; repeat split; vm_compute; reflexivity]].
  eapply rtc_l; [by apply (step_AddPort _ Uplink 100)|].
  eapply rtc_l; [by apply (step_AddPort _ Local 101)|].
  eapply rtc_l; [apply (step_AddPeer _ 102)|].
  eapply (rtc_l _ _ stale1).
  { apply (step_Forward _ 0 0 Local (ethFrame bcast macA) _
             (run (Forward 0 0 Local (ethFrame bcast macA) stale0) (stale0, [])).2); by vm_compute. }
  eapply (rtc_l _ _ stale2).
  { apply (step_writerSend _ 2 true _ (mkSend 2 (ethFrame bcast macA))). by vm_compute. }
  eapply rtc_l; [apply (step_AddPeer _ 103)|].
  eapply rtc_l; [exact (step_RemovePort _ 0 _ Hlast)|]. apply rtc_refl.
Qed.

(** oversized frames. A group-addressed frame longer than the pool's 9234-byte
    buffers that a flood must queue (two or more targets, as on any hub with a
    peer) panics the process instead of being dropped. *)
Theorem Forward_oversize_panics now1 now2 from frame sw :
  linkFrameMax < len frame -> isGroup frame = true ->
  (2 <= length (floodTargets from sw))%nat ->
  Forward now1 now2 from frame sw = Panic.
Proof.
  intros Hlen Hg Ht. unfold Forward, linkFrameMax in *.
  destruct (Z.ltb_spec (len frame) 14); [lia|].
  rewrite (slice_eq frame 6 12) by lia.
  change (take (Z.to_nat (12 - 6)) (drop (Z.to_nat 6) frame)) with (frameSrc frame).
  go_simpl. rewrite learn_spec by lia. go_simpl.
  rewrite groupBit_isGroup by lia. go_simpl. rewrite Hg. unfold flood.
  change (floodTargets from (withMacs ?m ?s)) with (floodTargets from s).
  destruct (floodTargets from sw) as [|id [|id' rest]]; [cbn in Ht; lia..|].
  cbn [enqueueAll]. by rewrite enqueue_oversize.
Qed.

Theorem Forward_oversize_panics_witness :
  Forward 0 0 Uplink (bcast ++ zeros (Z.to_nat 9300)) demo = Panic.
Proof.
  apply Forward_oversize_panics; [by vm_compute..|vm_compute; lia].
Defined.
