(* ===== verification/FramePool.v ===== *)
(** * FramePool: the switch's recycled buffers

    internal/vswitch keeps its frame copies in a [sync.Pool]: a queued frame is a slice
    of a buffer that other frames used before and will use again, and a frame is right
    only if nobody writes its buffer while a queue or a writer holds it. VSwitch.v
    has frames as values. Here the buffers are a store, with the slices of the queues
    and of the sends under way pointing into it, and the two are shown to be
    indistinguishable.

    [sync.Pool] promises little: [Get] returns any buffer that was put and not taken
    since, or a new one, and the collector may drop what is in the pool. *)
From stdpp Require Import functions.
From S2P Require Import Prelude.
From S2P Require VSwitch.

(** ** Buffers *)

(** A slice [b[:n]] of buffer [b]. *)
Record frame := mkFrame { buffer : nat; flen : Z }.

Record buffers := mkBuffers {
  mem : gmap nat bytes;              (* every buffer ever made, with its bytes *)
  framePool : list nat;
  queues : gmap nat (list frame);    (* the out channels *)
  sending : gmap nat frame;          (* the frame a writer holds during SendFrame *)
}.

Definition setPool (l : list nat) (p : buffers) : buffers := mkBuffers (mem p) l (queues p) (sending p).

(** [framePool.Get]: the [k]-th buffer of the pool, or a new one. *)
Definition Get (pick : option nat) (p : buffers) : nat * buffers :=
  match pick ≫= (fun k => framePool p !! k) with
  | Some b => (b, setPool (delete (default 0%nat pick) (framePool p)) p)
  | None =>
      let b := fresh (dom (mem p)) in
      (b, mkBuffers (<[b := zeros (Z.to_nat VSwitch.linkFrameMax)]> (mem p)) (framePool p)
            (queues p) (sending p))
  end.

Definition cap (b : nat) (p : buffers) : Z := len (default [] (mem p !! b)).

Definition getFrame (pick : option nat) (n : Z) (p : buffers) : go (frame * buffers) :=
  let '(b, p) := Get pick p in
  if n <=? cap b p then Done (mkFrame b n, p) else Panic.

Definition putFrame (f : frame) (p : buffers) : buffers :=
  if VSwitch.linkFrameMax <=? cap (buffer f) p then setPool (buffer f :: framePool p) p else p.

(** [copy(buf, data)], and the bytes of a slice. *)
Definition copyInto (f : frame) (data : bytes) (p : buffers) : buffers :=
  mkBuffers (alter (copy_at 0 data) (buffer f) (mem p)) (framePool p) (queues p) (sending p).
Definition contents (m : gmap nat bytes) (f : frame) : bytes :=
  take (Z.to_nat (flen f)) (default [] (m !! buffer f)).

(** ** Operations *)

(** A copy for one port, queued or shed: the body of [emit] and of [flood]'s loop. *)
Definition emitFrame (pick : option nat) (id : nat) (data : bytes) (p : buffers) : go buffers :=
  '(f, p) ← getFrame pick (len data) p;
  let p := copyInto f data p in
  let q := default [] (queues p !! id) in
  Done (if (length q <? VSwitch.outQueue)%nat
        then mkBuffers (mem p) (framePool p) (<[id := q ++ [f]]> (queues p)) (sending p)
        else putFrame f p).

(** The writer: [frame := <-pt.out], what [SendFrame] reads, [putFrame(frame)]. *)
Definition takeFrame (id : nat) (p : buffers) : buffers :=
  match queues p !! id, sending p !! id with
  | Some (f :: q), None =>
      mkBuffers (mem p) (framePool p) (<[id := q]> (queues p)) (<[id := f]> (sending p))
  | _, _ => p
  end.
Definition sentBytes (id : nat) (p : buffers) : option bytes := contents (mem p) <$> (sending p !! id).
Definition sentFrame (id : nat) (p : buffers) : buffers :=
  match sending p !! id with
  | Some f => putFrame f (mkBuffers (mem p) (framePool p) (queues p) (delete id (sending p)))
  | None => p
  end.

Inductive op :=
| Emit (pick : option nat) (id : nat) (data : bytes)
| Take (id : nat) | Sent (id : nat) | Done_ (id : nat)
| Collect (k : nat).    (* the collector drops a pooled buffer *)

(** The observations are the bytes the sends read. *)
Definition exec (o : op) (p : buffers) : go (buffers * option bytes) :=
  match o with
  | Emit pick id data => p ← emitFrame pick id data p; Done (p, None)
  | Take id => Done (takeFrame id p, None)
  | Sent id => Done (p, sentBytes id p)
  | Done_ id => Done (sentFrame id p, None)
  | Collect k => Done (setPool (delete k (framePool p)) p, None)
  end.

Fixpoint execAll (ops : list op) (p : buffers) : go (buffers * list (option bytes)) :=
  match ops with
  | [] => Done (p, [])
  | o :: ops => '(p, x) ← exec o p; '(p, xs) ← execAll ops p; Done (p, x :: xs)
  end.

Definition noBuffers : buffers := mkBuffers ∅ [] ∅ ∅.

(** ** The specification: frames as values *)

Record values := mkValues { v_queues : gmap nat (list bytes); v_sending : gmap nat bytes }.

Definition emitValue (id : nat) (data : bytes) (s : values) : go values :=
  _ ← VSwitch.getFrame (len data);
  let q := default [] (v_queues s !! id) in
  Done (if (length q <? VSwitch.outQueue)%nat
        then mkValues (<[id := q ++ [data]]> (v_queues s)) (v_sending s) else s).

Definition specStep (o : op) (s : values) : go (values * option bytes) :=
  match o with
  | Emit _ id data => s ← emitValue id data s; Done (s, None)
  | Take id =>
      Done (match v_queues s !! id, v_sending s !! id with
            | Some (f :: q), None => mkValues (<[id := q]> (v_queues s)) (<[id := f]> (v_sending s))
            | _, _ => s
            end, None)
  | Sent id => Done (s, v_sending s !! id)
  | Done_ id => Done (mkValues (v_queues s) (delete id (v_sending s)), None)
  | Collect _ => Done (s, None)
  end.

Fixpoint specAll (ops : list op) (s : values) : go (values * list (option bytes)) :=
  match ops with
  | [] => Done (s, [])
  | o :: ops => '(s, x) ← specStep o s; '(s, xs) ← specAll ops s; Done (s, x :: xs)
  end.

(** It is the queue of VSwitch.v. *)
Lemma emitValue_enqueue id o data sw sending :
  VSwitch.heap sw !! id = Some o ->
  (fun sw' => VSwitch.out <$> VSwitch.heap sw') <$> VSwitch.enqueue data id sw =
  v_queues <$> emitValue id data (mkValues (VSwitch.out <$> VSwitch.heap sw) sending).
Proof.
  intros Ho. unfold VSwitch.enqueue, emitValue. destruct (VSwitch.getFrame (len data)); [|done].
  go_simpl. cbn [v_queues]. rewrite Ho, lookup_fmap, Ho. cbn [fmap option_fmap option_map from_option Datatypes.id].
  destruct (length (VSwitch.out o) <? VSwitch.outQueue)%nat; [|done].
  apply (f_equal Done), (fmap_insert VSwitch.out).
Qed.

(** ** Ownership

    Every buffer has one owner; nobody else points into it. *)
Inductive owner := Pooled | Held | Queued (id : nat) | Sending (id : nat).

Definition reads (m : gmap nat bytes) (q : list frame) : list bytes := contents m <$> q.

Record backs (own : nat -> owner) (p : buffers) (s : values) : Prop := {
  bk_cap : forall b m, mem p !! b = Some m -> len m = VSwitch.linkFrameMax;
  bk_pool : forall b, b ∈ framePool p -> own b = Pooled /\ is_Some (mem p !! b);
  bk_nodup : NoDup (framePool p);
  bk_queue : forall id q, queues p !! id = Some q ->
    NoDup (buffer <$> q) /\ forall f, f ∈ q -> own (buffer f) = Queued id /\ is_Some (mem p !! buffer f);
  bk_send : forall id f, sending p !! id = Some f ->
    own (buffer f) = Sending id /\ is_Some (mem p !! buffer f);
  bk_vq : v_queues s = reads (mem p) <$> queues p;
  bk_vs : v_sending s = contents (mem p) <$> sending p;
}.

Lemma backs_none : backs (fun _ => Pooled) noBuffers (mkValues ∅ ∅).
Proof.
  split; cbn; try done.
  - by intros b Hb%elem_of_nil.
  - apply NoDup_nil_2.
Qed.

(** The slices of queues and sends are untouched by a change of other buffers. *)
Lemma contents_same m m' (qs : gmap nat (list frame)) :
  (forall id q f, qs !! id = Some q -> f ∈ q -> m' !! buffer f = m !! buffer f) ->
  reads m' <$> qs = reads m <$> qs.
Proof.
  intros H. apply map_eq. intros id. rewrite !lookup_fmap. destruct (qs !! id) as [q|] eqn:Hq; [|done].
  cbn. f_equal. apply list_fmap_ext. intros i f Hf. unfold contents. by rewrite (H id q f Hq (list_elem_of_lookup_2 _ _ _ Hf)).
Qed.

Lemma contents_same1 m m' (fs : gmap nat frame) :
  (forall id f, fs !! id = Some f -> m' !! buffer f = m !! buffer f) ->
  contents m' <$> fs = contents m <$> fs.
Proof.
  intros H. apply map_eq. intros id. rewrite !lookup_fmap. destruct (fs !! id) as [f|] eqn:Hf; [|done].
  cbn. unfold contents. by rewrite (H id f Hf).
Qed.

(** Changing a buffer that nobody points into, or making one. *)
Lemma backs_mem own p s b m :
  backs own p s -> own b = Held \/ mem p !! b = None -> len m = VSwitch.linkFrameMax ->
  backs own (mkBuffers (<[b := m]> (mem p)) (framePool p) (queues p) (sending p)) s.
Proof.
  intros [Hc Hp Hn Hq Hs Evq Evs] Hb Hm.
  assert (Hne : forall b' o, own b' = o -> o <> Held -> is_Some (mem p !! b') -> b <> b').
  { intros b' o Ho Hh [x Hx] <-. destruct Hb; congruence. }
  assert (Hsome : forall b', is_Some (mem p !! b') -> is_Some (<[b := m]> (mem p) !! b')).
  { intros b' Hb'. rewrite lookup_insert. case_decide; [by eexists|done]. }
  split; cbn; try done.
  - intros b' m'. rewrite lookup_insert. case_decide; [by intros [= <-]|by apply Hc].
  - intros b' Hb'. destruct (Hp b' Hb'). auto.
  - intros id q Hid. destruct (Hq id q Hid) as [? Hf]. split; [done|]. intros f Hin.
    destruct (Hf f Hin). auto.
  - intros id f Hf. destruct (Hs id f Hf). auto.
  - rewrite Evq. symmetry. apply contents_same. intros id q f Hid Hin.
    destruct (Hq id q Hid) as [_ Hf]. destruct (Hf f Hin) as [Ho Hi]. apply lookup_insert_ne. by eapply Hne.
  - rewrite Evs. symmetry. apply contents_same1. intros id f Hf. destruct (Hs id f Hf) as [Ho Hi].
    apply lookup_insert_ne. by eapply Hne.
Qed.

(** A new owner for a buffer nobody points into. *)
Lemma backs_own own p s b o :
  backs own p s -> own b = Held \/ mem p !! b = None -> backs (<[b := o]> own) p s.
Proof.
  intros [Hc Hp Hn Hq Hs Evq Evs] Hb.
  assert (Hne : forall b' o', own b' = o' -> o' <> Held -> is_Some (mem p !! b') -> <[b := o]> own b' = o').
  { intros b' o' Ho Hh [x Hx]. rewrite fn_lookup_insert_ne; [done|]. intros <-. destruct Hb; congruence. }
  split; try done.
  - intros b' Hb'. destruct (Hp b' Hb'). split; [by eapply Hne|done].
  - intros id q Hid. destruct (Hq id q Hid) as [? Hf]. split; [done|]. intros f Hin.
    destruct (Hf f Hin). split; [by eapply Hne|done].
  - intros id f Hf. destruct (Hs id f Hf). split; [by eapply Hne|done].
Qed.

(** Taking a buffer out of the pool. *)
Lemma backs_unpool own p s k b :
  backs own p s -> framePool p !! k = Some b ->
  backs (<[b := Held]> own) (setPool (delete k (framePool p)) p) s.
Proof.
  intros [Hc Hp Hn Hq Hs Evq Evs] Hk.
  destruct (Hp b) as [Hb _]; [by eapply list_elem_of_lookup_2|].
  assert (Hne : forall b' o', own b' = o' -> o' <> Pooled -> <[b := Held]> own b' = o').
  { intros b' o' Ho Hh. rewrite fn_lookup_insert_ne; [done|]. intros <-. congruence. }
  assert (Hperm : framePool p ≡ₚ b :: delete k (framePool p)) by by apply delete_Permutation.
  rewrite Hperm in Hn. apply NoDup_cons in Hn as [Hnb Hn].
  split; cbn; try done.
  - intros b' Hb'. destruct (Hp b') as [Ho Hi]; [rewrite Hperm; by right|]. split; [|done].
    rewrite fn_lookup_insert_ne; [done|]. by intros <-.
  - intros id q Hid. destruct (Hq id q Hid) as [? Hf]. split; [done|]. intros f Hin.
    destruct (Hf f Hin). split; [by eapply Hne|done].
  - intros id f Hf. destruct (Hs id f Hf). split; [by eapply Hne|done].
Qed.

(** ** Every operation, with the value it stands for *)

Lemma Get_backs own pick p s :
  backs own p s ->
  let '(b, p') := Get pick p in
  backs (<[b := Held]> own) p' s /\ is_Some (mem p' !! b).
Proof.
  intros Hb. unfold Get. destruct (pick ≫= (fun k => framePool p !! k)) as [b|] eqn:E.
  - apply bind_Some in E as (k & -> & Hk). split; [by apply backs_unpool|].
    cbn. apply (bk_pool _ _ _ Hb). by eapply list_elem_of_lookup_2.
  - set (b := fresh (dom (mem p))).
    assert (Hn : mem p !! b = None) by apply not_elem_of_dom, is_fresh.
    split; [|cbn; rewrite lookup_insert_eq; by eexists].
    apply backs_mem; [apply backs_own; [done|by right]|by right|by rewrite len_zeros].
Qed.

Lemma cap_backs own p s b : backs own p s -> is_Some (mem p !! b) -> cap b p = VSwitch.linkFrameMax.
Proof. intros Hb [m Hm]. unfold cap. rewrite Hm. by apply (bk_cap _ _ _ Hb b). Qed.

Lemma copy_all_take (data old : bytes) :
  len data <= len old -> take (Z.to_nat (len data)) (copy_at 0 data old) = data.
Proof.
  intros Hl. unfold copy_at. change (take 0 old) with (@nil Z). rewrite app_nil_l.
  rewrite (take_ge data) by (unfold len in *; lia).
  apply take_app_eq. unfold len. lia.
Qed.

(** The buffer in hand after the copy: it holds the data, whoever gets it. *)
Lemma copyInto_backs own p s b data :
  backs own p s -> own b = Held -> is_Some (mem p !! b) -> len data <= VSwitch.linkFrameMax ->
  let f := mkFrame b (len data) in
  backs own (copyInto f data p) s /\ contents (mem (copyInto f data p)) f = data /\
  is_Some (mem (copyInto f data p) !! b).
Proof.
  intros Hb Ho [m Hm] Hd f. pose proof (bk_cap _ _ _ Hb b m Hm) as Hc.
  assert (E : copyInto f data p =
    mkBuffers (<[b := copy_at 0 data m]> (mem p)) (framePool p) (queues p) (sending p)).
  { unfold copyInto. f_equal. apply map_eq. intros i. cbn.
    destruct (decide (b = i)) as [<-|Hne]; [by rewrite lookup_alter_eq, Hm, lookup_insert_eq|].
    by rewrite lookup_alter_ne, lookup_insert_ne. }
  rewrite E. cbn [mem]. split_and!.
  - apply backs_mem; [done|by left|]. rewrite <- Hc. unfold len. rewrite length_copy_at; [done|apply Nat.le_0_l].
  - unfold contents. cbn. rewrite lookup_insert_eq. apply copy_all_take. lia.
  - rewrite lookup_insert_eq. by eexists.
Qed.

Lemma putFrame_backs own p s f :
  backs own p s -> own (buffer f) = Held -> is_Some (mem p !! buffer f) ->
  backs (<[buffer f := Pooled]> own) (putFrame f p) s.
Proof.
  intros Hb Ho Hm. unfold putFrame. rewrite (cap_backs own p s) by done. rewrite Z.leb_refl.
  pose proof (backs_own own p s (buffer f) Pooled Hb (or_introl Ho)) as [Hc Hp Hn Hq Hs Evq Evs].
  split; try done; cbn.
  - intros b' [->|Hb']%elem_of_cons; [by rewrite fn_lookup_insert|by apply Hp].
  - apply NoDup_cons. split; [|done]. intros Hin. destruct (bk_pool _ _ _ Hb _ Hin). congruence.
Qed.

(** A held frame joins the end of a queue. *)
Lemma backs_enqueue own p s id f :
  backs own p s -> own (buffer f) = Held -> is_Some (mem p !! buffer f) ->
  backs (<[buffer f := Queued id]> own)
    (mkBuffers (mem p) (framePool p) (<[id := default [] (queues p !! id) ++ [f]]> (queues p)) (sending p))
    (mkValues (<[id := default [] (v_queues s !! id) ++ [contents (mem p) f]]> (v_queues s)) (v_sending s)).
Proof.
  intros Hb Ho Hm.
  pose proof (backs_own own p s (buffer f) (Queued id) Hb (or_introl Ho)) as [Hc Hp Hn Hq Hs Evq Evs].
  split; try done; cbn.
  - intros id' q. rewrite lookup_insert. case_decide as E; [|by apply Hq]. intros [= <-]. subst id'.
    destruct (queues p !! id) as [q|] eqn:Hid; cbn; unfold Datatypes.id.
    + destruct (Hq id q Hid) as [Hnd Hf]. destruct (bk_queue _ _ _ Hb id q Hid) as [_ Hf0]. split.
      * rewrite fmap_app. apply NoDup_app. split_and!; [done| |apply NoDup_singleton].
        intros b (g & -> & Hg)%list_elem_of_fmap E%list_elem_of_singleton.
        destruct (Hf0 g Hg) as [Hog _]. rewrite E in Hog. congruence.
      * intros g [Hg|Hg]%elem_of_app; [by apply Hf|]. apply list_elem_of_singleton in Hg as ->. by rewrite fn_lookup_insert.
    + split; [apply NoDup_singleton|]. intros g ->%list_elem_of_singleton. by rewrite fn_lookup_insert.
  - rewrite fmap_insert, Evq, lookup_fmap. unfold reads. f_equal.
    destruct (queues p !! id); cbn; unfold Datatypes.id; by rewrite ?fmap_app.
Qed.

Lemma emit_backs own pick id data p s :
  backs own p s ->
  match emitFrame pick id data p, emitValue id data s with
  | Done p', Done s' => exists own', backs own' p' s'
  | Panic, Panic => True
  | _, _ => False
  end.
Proof.
  intros Hb. unfold emitFrame, getFrame, emitValue, VSwitch.getFrame.
  pose proof (Get_backs own pick p s Hb) as Hg. destruct (Get pick p) as [b p1].
  destruct Hg as [Hb1 Hm1]. rewrite (cap_backs _ _ _ _ Hb1 Hm1).
  destruct (Z.leb_spec (len data) VSwitch.linkFrameMax) as [Hd|Hd]; [|done]. go_simpl.
  destruct (copyInto_backs _ p1 s b data Hb1 (fn_lookup_insert _ _ _) Hm1 Hd) as (Hb2 & Hcont & Hm2).
  set (p2 := copyInto (mkFrame b (len data)) data p1) in *.
  assert (Hlen : length (default [] (v_queues s !! id)) = length (default [] (queues p2 !! id))).
  { rewrite (bk_vq _ _ _ Hb2), lookup_fmap. destruct (queues p2 !! id); [|done]. cbn. apply length_fmap. }
  rewrite Hlen. destruct (_ <? _)%nat.
  - pose proof (backs_enqueue _ p2 s id (mkFrame b (len data)) Hb2 (fn_lookup_insert _ _ _) Hm2) as He.
    rewrite Hcont in He. by eexists.
  - eexists. by apply (putFrame_backs _ p2 s (mkFrame b (len data)) Hb2); [apply fn_lookup_insert|].
Qed.

Lemma take_backs own id p s :
  backs own p s ->
  exists own', backs own' (takeFrame id p)
    match v_queues s !! id, v_sending s !! id with
    | Some (f :: q), None => mkValues (<[id := q]> (v_queues s)) (<[id := f]> (v_sending s))
    | _, _ => s
    end.
Proof.
  intros Hb. pose proof Hb as [Hc Hp Hn Hq Hs Evq Evs]. unfold takeFrame. rewrite Evq, Evs, !lookup_fmap.
  destruct (queues p !! id) as [[|f q]|] eqn:Hid; cbn; [by exists own| |by exists own].
  destruct (sending p !! id) as [g|] eqn:Hg; cbn; [by exists own|].
  destruct (Hq id _ Hid) as [Hnd Hf]. apply NoDup_cons in Hnd as [Hnf Hnd].
  destruct (Hf f) as [Hof Hmf]; [by left|].
  assert (Hne : forall b o, own b = o -> o <> Queued id -> <[buffer f := Sending id]> own b = o).
  { intros b o Ho Hoq. rewrite fn_lookup_insert_ne; [done|]. intros <-. congruence. }
  exists (<[buffer f := Sending id]> own). split; cbn; try done.
  - intros b Hin. destruct (Hp b Hin). split; [by apply Hne|done].
  - intros id' q'. rewrite lookup_insert. case_decide as E.
    + intros [= <-]. subst id'. split; [done|]. intros g Hin. destruct (Hf g) as [Ho Hi]; [by right|].
      split; [|done]. rewrite fn_lookup_insert_ne; [done|]. intros E. apply Hnf. rewrite E.
      by apply list_elem_of_fmap_2.
    + intros Hq'. destruct (Hq id' q' Hq') as [? Hf']. split; [done|]. intros g Hin.
      destruct (Hf' g Hin). split; [apply Hne; [done|congruence]|done].
  - intros id' g. rewrite lookup_insert. case_decide as E.
    + intros [= <-]. subst id'. by rewrite fn_lookup_insert.
    + intros Hsg. destruct (Hs id' g Hsg). split; [by apply Hne|done].
  - by rewrite fmap_insert.
  - by rewrite fmap_insert.
Qed.

Lemma sent_backs own id p s :
  backs own p s ->
  exists own', backs own' (sentFrame id p) (mkValues (v_queues s) (delete id (v_sending s))).
Proof.
  intros Hb. pose proof Hb as [Hc Hp Hn Hq Hs Evq Evs]. unfold sentFrame.
  destruct (sending p !! id) as [f|] eqn:Hf.
  2:{ exists own. rewrite Evs, <- fmap_delete, delete_id by done. rewrite <- Evs. by destruct s. }
  destruct (Hs id f Hf) as [Ho Hm].
  assert (Hheld : backs (<[buffer f := Held]> own)
    (mkBuffers (mem p) (framePool p) (queues p) (delete id (sending p)))
    (mkValues (v_queues s) (delete id (v_sending s)))).
  { assert (Hne : forall b o, own b = o -> o <> Sending id -> <[buffer f := Held]> own b = o).
    { intros b o Hob Hos. rewrite fn_lookup_insert_ne; [done|]. intros <-. congruence. }
    split; cbn; try done.
    - intros b Hin. destruct (Hp b Hin). split; [by apply Hne|done].
    - intros id' q Hid. destruct (Hq id' q Hid) as [? Hf']. split; [done|]. intros g Hin.
      destruct (Hf' g Hin). split; [by apply Hne|done].
    - intros id' g [Hne' Hsg]%lookup_delete_Some. destruct (Hs id' g Hsg). split; [|done].
      apply Hne; [done|congruence].
    - by rewrite fmap_delete, Evs. }
  eexists. apply (putFrame_backs _ _ _ f Hheld); [apply fn_lookup_insert|done].
Qed.

Lemma exec_backs own o p s :
  backs own p s ->
  match exec o p, specStep o s with
  | Done (p', x), Done (s', y) => x = y /\ exists own', backs own' p' s'
  | Panic, Panic => True
  | _, _ => False
  end.
Proof.
  intros Hb. destruct o as [pick id data|id|id|id|k]; cbn [exec specStep].
  - pose proof (emit_backs own pick id data p s Hb) as H.
    destruct (emitFrame pick id data p), (emitValue id data s); try done.
  - split; [done|by eapply take_backs].
  - split; [|by exists own]. unfold sentBytes. by rewrite (bk_vs _ _ _ Hb), lookup_fmap.
  - split; [done|by eapply sent_backs].
  - split; [done|]. exists own. destruct Hb as [Hc Hp Hn Hq Hs Evq Evs]. split; try done; cbn.
    + intros b Hin. apply Hp. by eapply elem_of_submseteq, sublist_submseteq, sublist_delete.
    + eapply sublist_NoDup; [exact Hn|apply sublist_delete].
Qed.

(** C10: recycled buffers are as good as copies. Whatever buffers the pool hands out,
    whenever the collector empties it and however ports, queues and writers interleave,
    every send reads exactly the bytes of the frame that was queued, in the queue's
    order, and the switch panics exactly when it would with frames as values (on a
    frame longer than a buffer). No buffer is written while a queue or a send
    holds it. *)
Theorem pool_transparent ops :
  snd <$> execAll ops noBuffers = snd <$> specAll ops (mkValues ∅ ∅).
Proof.
  assert (H : forall own p s, backs own p s -> snd <$> execAll ops p = snd <$> specAll ops s);
    [|by eapply H, backs_none].
  induction ops as [|o ops IH]; intros own p s Hb; [done|]. cbn [execAll specAll].
  pose proof (exec_backs own o p s Hb) as He.
  destruct (exec o p) as [[p' x]|], (specStep o s) as [[s' y]|]; try done.
  destruct He as [-> [own' Hb']]. go_simpl. specialize (IH own' p' s' Hb').
  destruct (execAll ops p') as [[p2 xs]|], (specAll ops s') as [[s2 ys]|]; try done.
  go_simpl. by injection IH as ->.
Qed.
