(* ===== verification/Dhcp.v ===== *)
(** * Dhcp: internal/dhcp/dhcp.go

    [Pool] (stable leases per MAC, [GetOrAssign], [Restore], [UsableLeases]) and
    the frame-layer DHCP server ([HandleFrame], [HandlePacket], [replyFrame]).
    The dhcpv4 message library is the parameter [DhcpLib], gVisor's header
    package the parameter [NetHeader]. MACs and addresses are byte lists; the
    iteration order of a Go map is an explicit argument of [Restore]. *)
From S2P Require Import Prelude.
From S2P Require Import GoStd.
From S2P Require Import NetLib.

(** ** The lease pool *)

Record Pool := mkPool {
  pool_base : bytes;                   (* [4]byte *)
  pool_size : Z;
  pool_next : Z;
  assigned : gmap bytes bytes;    (* map[[6]byte][4]byte *)
  order : list bytes;
}.

(** [copy] into a fixed array: what fits, the rest stays zero. *)
Definition array (n : nat) (b : bytes) : bytes := take n (b ++ zeros n).

Definition NewPool (start : bytes) (sz : Z) : Pool :=
  mkPool (array 4 (To4 start)) sz 0 ∅ [].

Definition leaseAddr (p : Pool) (off : Z) : bytes := put32 (u32 (addr32 (pool_base p) + u32 off)).

Definition UsableLeases (network : string) (start : bytes) (max : Z) : go Z :=
  let start4 := To4 start in
  match start4 with [] => Done 0 | _ =>
  match ParseCIDR network with
  | None => Done 0
  | Some subnet =>
      netAddr ← be32 (To4 (ipnet_IP subnet));
      mask ← be32 (ipnet_Mask subnet);
      let broadcast := Z.lor netAddr (Z.lxor mask (2 ^ 32 - 1)) in
      first ← be32 start4;
      if (first <? netAddr) || (broadcast <=? first) then Done 0 else
      let n := broadcast - first in
      Done (if max <? n then max else n)
  end end.

Definition GetOrAssign (mac : bytes) (p : Pool) : result bytes * Pool :=
  let key := array 6 mac in
  match assigned p !! key with
  | Some ip => (Ok ip, p)
  | None =>
      if pool_size p <=? pool_next p then (Err "dhcp pool exhausted", p) else
      let ip := leaseAddr p (pool_next p) in
      (Ok ip, mkPool (pool_base p) (pool_size p) (pool_next p + 1) (<[key := ip]> (assigned p))
                     (order p ++ [key]))
  end.

(** One turn of [Restore]'s outer loop: the first entry, in the map's iteration
    order, whose address is the one at this offset. *)
Definition restoreOne (entries : list (bytes * bytes)) (ip : bytes) (p : Pool) : Pool :=
  match find (fun e => bool_decide (e.2 = ip)) entries with
  | Some (mac, a) =>
      match assigned p !! mac with
      | None => mkPool (pool_base p) (pool_size p) (pool_next p) (<[mac := a]> (assigned p)) (order p ++ [mac])
      | Some _ => p
      end
  | None => p
  end.

(** The outer loop from offset [off]; [ord off] is the order in which the map
    is walked in that turn (Go picks a new one every time). *)
Fixpoint restoreLoop (n : nat) (off : Z) (ord : Z -> list (bytes * bytes)) (p : Pool) : Pool :=
  match n with
  | O => p
  | S n => restoreLoop n (off + 1) ord (restoreOne (ord off) (leaseAddr p off) p)
  end.

Definition Restore (ord : Z -> list (bytes * bytes)) (p : Pool) : Pool :=
  let p := restoreLoop (Z.to_nat (pool_size p)) 0 ord p in
  mkPool (pool_base p) (pool_size p) (Z.of_nat (size (assigned p))) (assigned p) (order p).

Definition First (p : Pool) : bytes :=
  match order p with
  | [] => []
  | key :: _ => default (zeros 4) (assigned p !! key)
  end.

(** ** Lease addresses *)

Lemma wf_leaseAddr p off : wf_ip4 (leaseAddr p off).
Proof. apply wf_ip4_put32. Qed.

Lemma addr32_leaseAddr p off :
  addr32 (leaseAddr p off) = u32 (addr32 (pool_base p) + u32 off).
Proof. apply addr32_put32, u32_range. Qed.

Lemma leaseAddr_inj p i j :
  0 <= i < 2 ^ 32 -> 0 <= j < 2 ^ 32 -> leaseAddr p i = leaseAddr p j -> i = j.
Proof.
  intros Hi Hj H. apply (f_equal addr32) in H. rewrite !addr32_leaseAddr in H.
  rewrite (u32_small i), (u32_small j) in H by done. unfold u32 in H.
  set (b := addr32 (pool_base p)) in H.
  pose proof (Z.div_mod (b + i) (2 ^ 32)). pose proof (Z.div_mod (b + j) (2 ^ 32)). lia.
Qed.

(** ** The pool invariant

    The [i]-th MAC in assignment order owns the [i]-th address of the range. *)
Record pool_ok (p : Pool) : Prop := {
  ok_size : pool_size p <= 2 ^ 32;
  ok_next : pool_next p = len (order p) /\ (pool_next p <= pool_size p \/ order p = []);
  ok_nodup : NoDup (order p);
  ok_keys : Forall (fun k => length k = 6%nat) (order p);
  ok_assigned : forall key ip, assigned p !! key = Some ip <->
    exists i, order p !! i = Some key /\ ip = leaseAddr p (Z.of_nat i);
}.

Lemma length_array n b : length (array n b) = n.
Proof. unfold array, zeros. rewrite length_take, length_app, length_replicate. lia. Qed.

Lemma pool_ok_NewPool start sz : sz <= 2 ^ 32 -> pool_ok (NewPool start sz).
Proof.
  intros Hs. split; cbn; [done|by auto|constructor|constructor|].
  intros key ip. rewrite lookup_empty. split; [done|]. intros (i & Hi & _).
  by rewrite lookup_nil in Hi.
Qed.

Lemma order_index_lt p i key : pool_ok p -> order p !! i = Some key ->
  Z.of_nat i < pool_next p /\ Z.of_nat i < pool_size p.
Proof.
  intros Hok Hi. destruct (ok_next p Hok) as [Hn Hs].
  pose proof (lookup_lt_Some _ _ _ Hi) as Hlt. unfold len in Hn.
  destruct Hs as [Hs|Hs]; [lia|]. rewrite Hs in Hi. by rewrite lookup_nil in Hi.
Qed.

Lemma assigned_inj p k1 k2 ip :
  pool_ok p -> assigned p !! k1 = Some ip -> assigned p !! k2 = Some ip -> k1 = k2.
Proof.
  intros Hok (i & Hi & Ei)%(ok_assigned p Hok) (j & Hj & Ej)%(ok_assigned p Hok).
  destruct (order_index_lt p i k1 Hok Hi), (order_index_lt p j k2 Hok Hj).
  pose proof (ok_size p Hok).
  assert (Z.of_nat i = Z.of_nat j) by (apply (leaseAddr_inj p); [lia..|congruence]).
  replace j with i in * by lia. congruence.
Qed.

Lemma unassigned_not_in_order p key :
  pool_ok p -> assigned p !! key = None -> key ∉ order p.
Proof.
  intros Hok Hn (i & Hi)%list_elem_of_lookup.
  assert (H : assigned p !! key = Some (leaseAddr p (Z.of_nat i)))
    by (apply ok_assigned; eauto). congruence.
Qed.

Lemma GetOrAssign_ok mac p : pool_ok p -> pool_ok (GetOrAssign mac p).2.
Proof.
  intros Hok. unfold GetOrAssign.
  destruct (assigned p !! array 6 mac) as [ip|] eqn:Ha; [done|].
  destruct (Z.leb_spec (pool_size p) (pool_next p)); [done|].
  pose proof (unassigned_not_in_order p _ Hok Ha) as Hnin.
  destruct (ok_next p Hok) as [Hn _].
  split; cbn; [apply Hok|rewrite len_app, len_cons, len_nil; lia| | |].
  - apply NoDup_app. split; [apply Hok|]. split; [|apply NoDup_singleton].
    intros x Hx ->%list_elem_of_singleton. done.
  - apply Forall_app. split; [apply Hok|]. constructor; [apply length_array|constructor].
  - intros key ip. rewrite lookup_insert. case_decide; subst.
    + split.
      * intros [= <-]. exists (length (order p)).
        split; [by rewrite list_lookup_middle|]. unfold len in Hn. by rewrite <- Hn.
      * intros (i & Hi & ->). apply lookup_app_Some in Hi as [Hi|[Hge Hi]].
        { contradict Hnin. by eapply list_elem_of_lookup_2. }
        apply lookup_lt_Some in Hi as Hlt. cbn in Hlt.
        replace i with (length (order p)) by lia. unfold len in Hn. by rewrite <- Hn.
    + rewrite (ok_assigned p Hok). split; intros (i & Hi & ->).
      * exists i. split; [|done]. apply lookup_app_l_Some. done.
      * apply lookup_app_Some in Hi as [Hi|[Hge Hi]]; [by eauto|].
        apply lookup_lt_Some in Hi as Hlt. cbn in Hlt.
        destruct (i - length (order p))%nat; cbn in *; [congruence|lia].
Qed.

(** ** Serving a sequence of requests *)

Fixpoint serve (macs : list bytes) (p : Pool) : list (result bytes) * Pool :=
  match macs with
  | [] => ([], p)
  | mac :: macs =>
      let '(r, p) := GetOrAssign mac p in
      let '(rs, p) := serve macs p in
      (r :: rs, p)
  end.

Lemma GetOrAssign_facts mac p :
  pool_ok p ->
  let '(r, q) := GetOrAssign mac p in
  pool_base q = pool_base p /\ pool_size q = pool_size p /\ assigned p ⊆ assigned q /\
  (exists ext, order q = order p ++ ext /\ ext ⊆ [array 6 mac]) /\
  match r with
  | Ok ip => assigned q !! array 6 mac = Some ip
  | Err _ => (array 6 mac ∉ order p) /\ pool_size p <= len (order p)
  end.
Proof.
  intros Hok. unfold GetOrAssign. destruct (assigned p !! array 6 mac) as [ip|] eqn:Ha.
  { split_and!; try done. exists []. split; [by rewrite app_nil_r|set_solver]. }
  destruct (Z.leb_spec (pool_size p) (pool_next p)) as [Hle|].
  - split_and!; try done; [exists []; split; [by rewrite app_nil_r|set_solver]| |].
    + by apply unassigned_not_in_order.
    + destruct (ok_next p Hok) as [<- _]. done.
  - cbn. split_and!; try done; [by apply insert_subseteq|by eexists|by rewrite lookup_insert_eq].
Qed.

Lemma serve_facts macs : forall p,
  pool_ok p ->
  let '(rs, q) := serve macs p in
  pool_ok q /\ assigned p ⊆ assigned q /\ pool_base q = pool_base p /\
  pool_size q = pool_size p /\
  forall i mac r, macs !! i = Some mac -> rs !! i = Some r ->
    match r with
    | Ok ip => assigned q !! array 6 mac = Some ip
    | Err _ => exists ks, NoDup ks /\ pool_size p <= len ks /\ (array 6 mac ∉ ks) /\
        forall k, k ∈ ks -> k ∈ order p \/ k ∈ (array 6 <$> take i macs)
    end.
Proof.
  induction macs as [|mac macs IH]; intros p Hok; cbn [serve]; [done|].
  pose proof (GetOrAssign_facts mac p Hok) as Hg. pose proof (GetOrAssign_ok mac p Hok) as Hok'.
  destruct (GetOrAssign mac p) as [r q]. cbn in Hok'.
  destruct Hg as (Hb & Hs & Hsub & (ext & Hord & Hext) & Hr).
  specialize (IH q Hok'). destruct (serve macs q) as [rs q'].
  destruct IH as (Hq' & Hsub' & Hb' & Hs' & IH). split_and!; try done; [by etrans|congruence..|].
  intros [|i] m r' Hm Hr'; cbn in Hm, Hr'; simplify_eq.
  - destruct r' as [ip|e]; [by eapply lookup_weaken|]. exists (order p).
    destruct Hr as [Hn Hle]. split_and!; [apply Hok|done|done|by auto].
  - specialize (IH i m r' Hm Hr'). destruct r' as [ip|e]; [done|].
    destruct IH as (ks & Hnd & Hle & Hnin & Hks). exists ks.
    split_and!; [done|lia|done|]. intros k Hk. destruct (Hks k Hk) as [Hin|Hin]; [|by right; right].
    rewrite Hord in Hin. apply elem_of_app in Hin as [?|Hin]; [by left|].
    right. apply Hext, list_elem_of_singleton in Hin as ->. cbn. by left.
Qed.

Lemma serve_ok macs p : pool_ok p -> pool_ok (serve macs p).2.
Proof. intros Hok. pose proof (serve_facts macs p Hok). by destruct (serve macs p) as [? ?]; destruct H. Qed.

Lemma serve_length macs : forall p, length (serve macs p).1 = length macs.
Proof.
  induction macs as [|m ms IH]; intros q; [done|]. cbn [serve].
  destruct (GetOrAssign m q) as [r q1]. specialize (IH q1). destruct (serve ms q1). cbn in *. lia.
Qed.

(** Every answer is an address of the range. *)
Lemma serve_in_range macs p i a :
  pool_ok p -> (serve macs p).1 !! i = Some (Ok a) ->
  exists off, 0 <= off < pool_size p /\ a = leaseAddr p off.
Proof.
  intros Hok Ha. pose proof (serve_facts macs p Hok) as H. pose proof (serve_length macs p) as Hlen.
  destruct (serve macs p) as [rs q]. cbn [fst] in *. destruct H as (Hq & _ & Hb & Hs & H).
  assert (is_Some (macs !! i)) as [mi Hi].
  { apply lookup_lt_is_Some_2. rewrite <- Hlen. by eapply lookup_lt_Some. }
  specialize (H i mi (Ok a) Hi Ha). cbn in H.
  apply (ok_assigned q Hq) in H as (k & Hk & ->). exists (Z.of_nat k).
  destruct (order_index_lt q k _ Hq Hk) as [_ Hlt]. rewrite Hs in Hlt.
  split; [lia|]. unfold leaseAddr. by rewrite Hb.
Qed.

(** *** Any pool, also one restored from any table: its addresses are in its range. *)
Definition inRange (b : bytes) (sz : Z) (a : bytes) : Prop :=
  exists off, 0 <= off < sz /\ a = put32 (u32 (addr32 b + u32 off)).

Record ranged (p : Pool) : Prop := {
  rg_next : 0 <= pool_next p;
  rg_assigned : forall k a, assigned p !! k = Some a -> inRange (pool_base p) (pool_size p) a;
}.

Lemma ranged_insert p k a next o :
  ranged p -> 0 <= next -> inRange (pool_base p) (pool_size p) a ->
  ranged (mkPool (pool_base p) (pool_size p) next (<[k := a]> (assigned p)) o).
Proof.
  intros [_ H] Hn Ha. split; cbn; [done|]. intros k' a'. rewrite lookup_insert.
  case_decide; [by intros [= <-]|apply H].
Qed.

Lemma ranged_restoreLoop n ord : forall off p,
  ranged p -> 0 <= off -> off + Z.of_nat n <= pool_size p ->
  ranged (restoreLoop n off ord p) /\ pool_base (restoreLoop n off ord p) = pool_base p /\
  pool_size (restoreLoop n off ord p) = pool_size p.
Proof.
  induction n as [|n IH]; intros off p Hp H0 Hn; cbn [restoreLoop]; [done|].
  assert (Hone : ranged (restoreOne (ord off) (leaseAddr p off) p) /\
    pool_base (restoreOne (ord off) (leaseAddr p off) p) = pool_base p /\
    pool_size (restoreOne (ord off) (leaseAddr p off) p) = pool_size p).
  { unfold restoreOne. destruct (find _ (ord off)) as [[mac a]|] eqn:E; [|done].
    apply find_some in E as [_ Ea%bool_decide_eq_true]. cbn in Ea. destruct (assigned p !! mac); [done|].
    split; [|done]. apply ranged_insert; [done|apply Hp|]. exists off. split; [lia|]. by rewrite Ea. }
  destruct Hone as (H1 & <- & H3). rewrite <- H3 in *. apply IH; [done|lia|lia].
Qed.

Lemma ranged_Restore ord p :
  ranged p -> 0 <= pool_size p ->
  ranged (Restore ord p) /\ pool_base (Restore ord p) = pool_base p /\ pool_size (Restore ord p) = pool_size p.
Proof.
  intros Hp Hs. destruct (ranged_restoreLoop (Z.to_nat (pool_size p)) ord 0 p Hp) as ([_ H1] & H2 & H3); [lia|lia|].
  unfold Restore. cbn. split; [|done]. split; cbn; [lia|done].
Qed.

Lemma ranged_serve macs : forall p i a,
  ranged p -> (serve macs p).1 !! i = Some (Ok a) -> inRange (pool_base p) (pool_size p) a.
Proof.
  induction macs as [|m macs IH]; intros p i a Hp; cbn [serve]; [done|].
  assert (Hg : ranged (GetOrAssign m p).2 /\ pool_base (GetOrAssign m p).2 = pool_base p /\
    pool_size (GetOrAssign m p).2 = pool_size p /\
    forall x, (GetOrAssign m p).1 = Ok x -> inRange (pool_base p) (pool_size p) x).
  { pose proof Hp as [Hn Ha]. unfold GetOrAssign. destruct (assigned p !! array 6 m) as [x|] eqn:E.
    - split_and!; [done..|]. intros x' [= <-]. by eapply Ha.
    - destruct (Z.leb_spec (pool_size p) (pool_next p)); [by split_and!|]. cbn.
      assert (Hin : inRange (pool_base p) (pool_size p) (leaseAddr p (pool_next p))) by by exists (pool_next p).
      split_and!; [apply ranged_insert; [done|lia|done]|done|done|by intros x' [= <-]]. }
  destruct (GetOrAssign m p) as [r q]. destruct Hg as (Hq & Hb & Hs & Hr). cbn in *.
  specialize (IH q). destruct (serve macs q) as [rs q']. cbn in *.
  destruct i as [|i]; cbn; [intros [= ->]; by apply Hr|]. rewrite <- Hb, <- Hs. by apply IH.
Qed.

(** The pool of the clients served holds their addresses only. *)
Lemma serve_order macs : forall p, pool_ok p ->
  order (serve macs p).2 ⊆ order p ++ (array 6 <$> macs).
Proof.
  induction macs as [|m ms IH]; intros p Hok; cbn [serve]; [by rewrite app_nil_r|].
  pose proof (GetOrAssign_facts m p Hok) as Hg. pose proof (GetOrAssign_ok m p Hok) as Hok'.
  destruct (GetOrAssign m p) as [r q]. destruct Hg as (_ & _ & _ & (ext & Hord & Hext) & _).
  specialize (IH q Hok'). destruct (serve ms q) as [rs q']. cbn [snd fmap list_fmap] in *.
  intros k Hk%IH. rewrite Hord, <- app_assoc in Hk.
  rewrite !elem_of_app in *. destruct Hk as [Hk|[Hk|Hk]]; [by left| |right; by right].
  apply Hext, list_elem_of_singleton in Hk as ->. right. by left.
Qed.

(** C25: stable and unique leases. Whatever sequence of clients asks a fresh pool
    (of at most 2^32 addresses), two answers carry the same address exactly when
    the clients have the same MAC, every address is one of the pool's [size]
    addresses from [start] on, and a client is refused only when [size] other
    clients already hold leases. *)
Theorem GetOrAssign_unique start sz macs :
  sz <= 2 ^ 32 ->
  let p := NewPool start sz in
  let rs := (serve macs p).1 in
  (forall i j mi mj a b, macs !! i = Some mi -> macs !! j = Some mj ->
     rs !! i = Some (Ok a) -> rs !! j = Some (Ok b) -> (a = b <-> array 6 mi = array 6 mj)) /\
  (forall i a, rs !! i = Some (Ok a) -> exists off, 0 <= off < sz /\ a = leaseAddr p off) /\
  (forall i mi e, macs !! i = Some mi -> rs !! i = Some (Err e) ->
     exists ks, NoDup ks /\ sz <= len ks /\ (array 6 mi ∉ ks) /\ ks ⊆ (array 6 <$> take i macs)).
Proof.
  intros Hsz p. pose proof (pool_ok_NewPool start sz Hsz) as Hp.
  pose proof (serve_facts macs p Hp) as H.
  pose proof (fun i a => serve_in_range macs p i a Hp) as Hr.
  destruct (serve macs p) as [rs q]. cbn [fst] in *.
  destruct H as (Hq & _ & Hb & Hs & H). split_and!; [|exact Hr|].
  - intros i j mi mj a b Hi Hj Ha Hbb.
    specialize (H i mi (Ok a) Hi Ha) as H1. specialize (H j mj (Ok b) Hj Hbb) as H2. cbn in H1, H2.
    split; [intros ->; by eapply assigned_inj|intros E; rewrite E in H1; congruence].
  - intros i mi e Hi He. destruct (H i mi (Err e) Hi He) as (ks & Hnd & Hle & Hnin & Hks).
    exists ks. split_and!; try done. intros k Hk.
    destruct (Hks k Hk) as [Hin|]; [by apply not_elem_of_nil in Hin|done].
Qed.

Theorem GetOrAssign_unique_witness :
  20 <= 2 ^ 32 /\
  (serve [[2;0;0;0;0;1]; [2;0;0;0;0;2]; [2;0;0;0;0;1]] (NewPool [10;0;2;15] 20)).1 =
    [Ok [10;0;2;15]; Ok [10;0;2;16]; Ok [10;0;2;15]] /\
  exists off, 0 <= off < 20 /\ [10;0;2;16] = leaseAddr (NewPool [10;0;2;15] 20) off.
Proof.
  split; [done|]. split; [by vm_compute|].
  refine (proj1 (proj2 (GetOrAssign_unique [10;0;2;15] 20
    [[2;0;0;0;0;1]; [2;0;0;0;0;2]; [2;0;0;0;0;1]] _)) 1%nat _ _); [done|by vm_compute].
Defined.

(** ** The pool stays inside the subnet *)

Lemma bcast_lor a n :
  0 <= a < 2 ^ 32 -> 0 <= n <= 32 ->
  Z.lor (netOf a n) (Z.lxor (2 ^ 32 - 2 ^ (32 - n)) (2 ^ 32 - 1)) = bcastOf a n.
Proof.
  intros Ha Hn.
  assert (Z.lxor (2 ^ 32 - 2 ^ (32 - n)) (2 ^ 32 - 1) = 2 ^ (32 - n) - 1) as ->.
  { revert n Hn. apply prefix_cases. refine (bool_decide_unpack _ _). vm_compute. exact I. }
  unfold bcastOf, netOf. rewrite <- Z.shiftl_mul_pow2 by lia. rewrite Z.lor_comm.
  pose proof (Z.pow_pos_nonneg 2 (32 - n)).
  rewrite lor_shiftl_add by lia. rewrite Z.shiftl_mul_pow2 by lia. lia.
Qed.

Lemma UsableLeases_eq ip n start max :
  wf_ip4 ip -> 0 <= n <= 32 -> wf_ip4 start ->
  UsableLeases (v4String ip +:+ String "/" (Itoa n))%string (v4Prefix ++ start) max =
    Done (if (addr32 start <? netOf (addr32 ip) n) || (bcastOf (addr32 ip) n <=? addr32 start)
          then 0 else Z.min max (bcastOf (addr32 ip) n - addr32 start)).
Proof.
  intros Hip Hn Hst. unfold UsableLeases. rewrite ParseCIDR_v4 by done.
  rewrite To4_v4 by apply Hst.
  destruct (CIDRMask_val n Hn) as [Hm Em]. destruct (maskBytes_val ip n Hip Hn) as [Hb Eb].
  cbn [ipnet_IP ipnet_Mask].
  assert (To4 (maskBytes ip (CIDRMask n 4)) = maskBytes ip (CIDRMask n 4)) as ->.
  { unfold To4. by rewrite (proj1 Hb). }
  rewrite (be32_addr32 _ Hb), (be32_addr32 _ Hm), (be32_addr32 _ Hst), Em, Eb. go_simpl.
  rewrite bcast_lor by (done || by apply addr32_range).
  destruct start as [|x start]; [by destruct Hst|].
  destruct (_ || _); [done|]. f_equal.
  destruct (Z.ltb_spec max (bcastOf (addr32 ip) n - addr32 (x :: start))); lia.
Qed.

Lemma netOf_unique a b n :
  0 <= n <= 32 -> netOf a n <= b <= bcastOf a n -> netOf b n = netOf a n.
Proof.
  unfold bcastOf, netOf. intros Hn Hb. pose proof (Z.pow_pos_nonneg 2 (32 - n)).
  rewrite (Z.div_unique_pos b (2 ^ (32 - n)) (a / 2 ^ (32 - n)) (b - a / 2 ^ (32 - n) * 2 ^ (32 - n)));
    [done|lia..].
Qed.

Lemma bcastOf_lt a n : 0 <= a < 2 ^ 32 -> 0 <= n <= 32 -> bcastOf a n < 2 ^ 32.
Proof.
  intros Ha Hn. unfold bcastOf, netOf.
  assert (E : 2 ^ 32 = 2 ^ n * 2 ^ (32 - n)) by (rewrite <- Z.pow_add_r by lia; f_equal; lia).
  pose proof (Z.pow_pos_nonneg 2 (32 - n)). pose proof (Z.pow_pos_nonneg 2 n).
  assert (a / 2 ^ (32 - n) < 2 ^ n) by (apply Z.div_lt_upper_bound; lia). nia.
Qed.

(** the pool capped by [UsableLeases] leases subnet addresses only. For a
    well-formed network text and an IPv4 start, [UsableLeases] returns (it does not
    panic) 0 when the start lies outside the network or at its broadcast address
    and [min max (broadcast - start)] otherwise, and every address such a pool
    hands out is [start + off] without wrap-around, lies in the network and is not
    the broadcast address. *)
Theorem UsableLeases_spec ip n start max :
  wf_ip4 ip -> 0 <= n <= 32 -> wf_ip4 start ->
  let s := addr32 start in
  let net := netOf (addr32 ip) n in
  let bc := bcastOf (addr32 ip) n in
  exists r,
    UsableLeases (v4String ip +:+ String "/" (Itoa n))%string (v4Prefix ++ start) max = Done r /\
    (s < net \/ bc <= s -> r = 0) /\
    (net <= s < bc -> r = Z.min max (bc - s)) /\
    forall off, 0 <= off < r ->
      let a := addr32 (leaseAddr (NewPool (v4Prefix ++ start) r) off) in
      a = s + off /\ netOf a n = net /\ a <> bc.
Proof.
  intros Hip Hn Hst s net bc. eexists. split; [by apply UsableLeases_eq|].
  fold s net bc. pose proof (addr32_range _ Hip). pose proof (addr32_range _ Hst).
  destruct (Z.ltb_spec s net), (Z.leb_spec bc s); cbn [orb]; (split; [lia|split; [lia|]]);
    intros off Hoff; cbn zeta; try lia.
  pose proof (bcastOf_lt (addr32 ip) n). rewrite addr32_leaseAddr.
  assert (addr32 (pool_base (NewPool (v4Prefix ++ start) (Z.min max (bc - s)))) = s) as ->.
  { cbn [pool_base NewPool]. rewrite To4_v4 by apply Hst. unfold array.
    by rewrite take_app_eq by by rewrite (proj1 Hst). }
  fold s in H0. fold bc in H1. rewrite (u32_small off), u32_small by lia.
  split_and!; [done| |lia]. apply netOf_unique; [done|]. fold net bc. lia.
Qed.

Theorem UsableLeases_spec_witness :
  UsableLeases "10.0.2.0/24" (v4Prefix ++ [10;0;2;250]) 20 = Done 5 /\
  exists r, UsableLeases "10.0.2.0/24" (v4Prefix ++ [10;0;2;250]) 20 = Done r /\
    (r = Z.min 20 (bcastOf (addr32 [10;0;2;0]) 24 - addr32 [10;0;2;250])).
Proof.
  split; [by vm_compute|].
  destruct (UsableLeases_spec [10;0;2;0] 24 [10;0;2;250] 20) as (r & Hr & _ & H & _).
  - split; [done|]. repeat constructor; done.
  - done.
  - split; [done|]. repeat constructor; done.
  - exists r. split; [exact Hr|]. apply H. vm_compute. split; [intros ?; discriminate|done].
Defined.

(** An IPv6 network text makes [UsableLeases] panic (the 4-byte [To4] is nil). *)
Lemma UsableLeases_v6_panics : UsableLeases "fd00::/64" (v4Prefix ++ [10;0;2;15]) 20 = Panic.
Proof. by vm_compute. Qed.

(** ** Failover: restoring a gossiped pool *)

(** [p] holds the first [i] leases of [q]. *)
Record restored (q : Pool) (i : nat) (p : Pool) : Prop := {
  re_base : pool_base p = pool_base q;
  re_size : pool_size p = pool_size q;
  re_next : pool_next p = 0;
  re_order : order p = take i (order q);
  re_assigned : forall key ip, assigned p !! key = Some ip <->
    exists j, take i (order q) !! j = Some key /\ ip = leaseAddr q (Z.of_nat j);
}.

Lemma leaseAddr_base p q off : pool_base p = pool_base q -> leaseAddr p off = leaseAddr q off.
Proof. unfold leaseAddr. by intros ->. Qed.

(** What the inner loop finds at offset [i]. *)
Lemma find_lease q i entries :
  pool_ok q -> Z.of_nat i < pool_size q -> entries ≡ₚ map_to_list (assigned q) ->
  find (fun e => bool_decide (e.2 = leaseAddr q (Z.of_nat i))) entries =
  match order q !! i with Some k => Some (k, leaseAddr q (Z.of_nat i)) | None => None end.
Proof.
  intros Hok Hi Hperm. pose proof (ok_size q Hok) as Hsz.
  assert (Hin : forall k a, (k, a) ∈ entries <-> assigned q !! k = Some a).
  { intros k a. by rewrite Hperm, elem_of_map_to_list. }
  destruct (find _ entries) as [[k a]|] eqn:Hf.
  - apply find_some in Hf as [Hmem Ha]. apply bool_decide_eq_true in Ha. cbn in Ha. subst a.
    apply list_elem_of_In, Hin, (ok_assigned q Hok) in Hmem as (j & Hj & E).
    destruct (order_index_lt q j k Hok Hj). apply leaseAddr_inj in E; [|lia..].
    replace i with j by lia. by rewrite Hj.
  - destruct (order q !! i) as [k|] eqn:Hk; [|done]. exfalso.
    assert (Hmem : (k, leaseAddr q (Z.of_nat i)) ∈ entries).
    { apply Hin, (ok_assigned q Hok). by exists i. }
    apply list_elem_of_In in Hmem.
    pose proof (find_none _ _ Hf _ Hmem) as Hd. cbn in Hd. by apply bool_decide_eq_false in Hd.
Qed.

Lemma restoreOne_restored q i p entries :
  pool_ok q -> Z.of_nat i < pool_size q -> entries ≡ₚ map_to_list (assigned q) ->
  restored q i p -> restored q (S i) (restoreOne entries (leaseAddr p (Z.of_nat i)) p).
Proof.
  intros Hok Hi Hperm [Hb Hs Hn Ho Ha]. unfold restoreOne.
  rewrite (leaseAddr_base p q) by done. rewrite find_lease by done.
  destruct (order q !! i) as [k|] eqn:Hk.
  2:{ assert (take (S i) (order q) = take i (order q)) as E.
      { apply lookup_ge_None in Hk. by rewrite !take_ge by lia. }
      split; rewrite ?E; done. }
  assert (Hnone : assigned p !! k = None).
  { destruct (assigned p !! k) as [a|] eqn:E; [|done]. exfalso.
    apply Ha in E as (j & Hj & _). apply lookup_take_Some in Hj as [Hj Hlt].
    pose proof (NoDup_lookup _ _ _ _ (ok_nodup q Hok) Hj Hk). lia. }
  rewrite Hnone. rewrite <- Ho in Ha.
  split; cbn; [done..|by rewrite Ho, (take_S_r _ _ k)|].
  intros key ip. rewrite (take_S_r _ _ k), <- Ho by done. rewrite lookup_insert.
  assert (Hlen : length (order p) = i).
  { rewrite Ho, length_take. apply lookup_lt_Some in Hk. lia. }
  case_decide; subst.
  - split.
    + intros [= <-]. exists (length (order p)). by rewrite list_lookup_middle.
    + intros (j & Hj & ->). apply lookup_app_Some in Hj as [Hj|[Hge Hj]].
      * exfalso. assert (assigned p !! key = Some (leaseAddr q (Z.of_nat j))) by (apply Ha; eauto).
        congruence.
      * apply lookup_lt_Some in Hj as Hlt. cbn in Hlt. by replace (length (order p)) with j by lia.
  - rewrite Ha. split; intros (j & Hj & ->); exists j; (split; [|done]).
    + by apply lookup_app_l_Some.
    + apply lookup_app_Some in Hj as [Hj|[Hge Hj]]; [done|].
      apply list_lookup_singleton_Some in Hj as [_ Hj]. congruence.
Qed.

Lemma restoreLoop_restored q ord n : forall i p,
  pool_ok q -> (forall off, ord off ≡ₚ map_to_list (assigned q)) ->
  Z.of_nat (i + n) <= pool_size q -> restored q i p ->
  restored q (i + n) (restoreLoop n (Z.of_nat i) ord p).
Proof.
  induction n as [|n IH]; intros i p Hok Hord Hle Hr; cbn [restoreLoop].
  { by rewrite Nat.add_0_r. }
  replace (i + S n)%nat with (S i + n)%nat by lia.
  replace (Z.of_nat i + 1) with (Z.of_nat (S i)) by lia.
  apply IH; [done|done|lia|]. apply restoreOne_restored; [done|lia|done|done].
Qed.

Lemma size_assigned p : pool_ok p -> size (assigned p) = length (order p).
Proof.
  intros Hok. rewrite <- size_dom.
  assert (dom (assigned p) = list_to_set (order p)) as ->.
  { apply set_eq. intros k. rewrite elem_of_dom, elem_of_list_to_set. split.
    - intros [a (i & Hi & _)%(ok_assigned p Hok)]. by eapply list_elem_of_lookup_2.
    - intros (i & Hi)%list_elem_of_lookup. eexists. apply (ok_assigned p Hok). eauto. }
  apply size_list_to_set, Hok.
Qed.

Lemma pool_order_le p : pool_ok p -> Z.of_nat (length (order p)) <= Z.of_nat (Z.to_nat (pool_size p)).
Proof.
  intros Hok. destruct (ok_next p Hok) as [Hn [Hs|Hs]]; unfold len in Hn; [lia|].
  rewrite Hs. cbn. lia.
Qed.

(** A fresh pool over the same range. *)
Definition freshPool (q : Pool) : Pool := mkPool (pool_base q) (pool_size q) 0 ∅ [].

Lemma Restore_eq q ord :
  pool_ok q -> (forall off, ord off ≡ₚ map_to_list (assigned q)) -> Restore ord (freshPool q) = q.
Proof.
  intros Hok Hord.
  pose proof (pool_order_le q Hok) as Hle.
  assert (H0 : restored q 0 (freshPool q)).
  { split; try done. intros key ip. cbn. rewrite lookup_empty. split; [done|].
    intros (j & Hj & _). done. }
  destruct (Z.lt_ge_cases (pool_size q) 0) as [Hneg|Hpos].
  - assert (order q = []) as Ho.
    { destruct (order q); [done|]. cbn in Hle. lia. }
    assert (assigned q = ∅) as Ha.
    { apply map_eq. intros k. rewrite lookup_empty. destruct (assigned q !! k) eqn:E; [|done].
      apply (ok_assigned q Hok) in E as (j & Hj & _). by rewrite Ho in Hj. }
    destruct (ok_next q Hok) as [Hn _]. rewrite Ho in Hn. unfold Restore.
    cbn [pool_size freshPool]. replace (Z.to_nat (pool_size q)) with 0%nat by lia.
    destruct q; cbn in *. rewrite map_size_empty. by subst.
  - apply (restoreLoop_restored q ord (Z.to_nat (pool_size q)) 0) in H0; [|done|done|lia].
    cbn [Nat.add] in H0. unfold Restore. cbn [pool_size freshPool] in *.
    change (Z.of_nat 0) with 0 in H0. set (p := restoreLoop _ _ _ _) in *.
    destruct H0 as [Hb Hs Hn Ho Ha]. rewrite take_ge in Ho, Ha by lia.
    assert (assigned p = assigned q) as Hmap.
    { apply map_eq. intros k. apply option_eq. intros ip. by rewrite Ha, (ok_assigned q Hok). }
    destruct (ok_next q Hok) as [Hnext _].
    rewrite Hb, Hs, Ho, Hmap, (size_assigned q Hok). unfold len in Hnext. rewrite <- Hnext.
    by destruct q.
Qed.

(** a promoted peer inherits the hub's pool. Restoring the lease table of any
    pool that grew by [GetOrAssign] into a fresh pool over the same range gives back
    that very pool (same leases, same [First], same next address), whatever order
    Go's map iteration takes at each offset; so every later client gets the answer
    the old hub would have given. *)
Theorem Restore_inherits q ord macs :
  pool_ok q -> (forall off, ord off ≡ₚ map_to_list (assigned q)) ->
  Restore ord (freshPool q) = q /\
  serve macs (Restore ord (freshPool q)) = serve macs q.
Proof. intros Hok Hord. by rewrite Restore_eq. Qed.

Definition demoQ : Pool :=
  (serve [[2;0;0;0;0;1]; [2;0;0;0;0;2]; [2;0;0;0;0;3]] (NewPool [10;0;2;15] 20)).2.

Theorem Restore_inherits_witness :
  pool_ok demoQ /\
  pool_next (Restore (fun _ => map_to_list (assigned demoQ)) (freshPool demoQ)) = 3 /\
  (serve [[2;0;0;0;0;2]; [2;0;0;0;0;9]]
     (Restore (fun _ => map_to_list (assigned demoQ)) (freshPool demoQ))).1 =
    [Ok [10;0;2;16]; Ok [10;0;2;18]].
Proof.
  assert (Hok : pool_ok demoQ).
  { by apply serve_ok, pool_ok_NewPool. }
  split; [exact Hok|].
  destruct (Restore_inherits demoQ (fun _ => map_to_list (assigned demoQ))
    [[2;0;0;0;0;2]; [2;0;0;0;0;9]] Hok ltac:(done)) as [E1 E2].
  split; [rewrite E1; by vm_compute|]. rewrite E2. by vm_compute.
Defined.

(** [Restore] of a table that does not start at the pool's first address hands
    the same address to two clients: it sets the next offset to the number of
    leases, not past the highest one. Restoring the one lease 10.0.2.16 into the
    pool starting at 10.0.2.15, the second new client gets 10.0.2.16 again. *)
Theorem Restore_gap_duplicates :
  let old := [2;0;0;0;0;1] in
  let new := [2;0;0;0;0;2] in
  let p := Restore (fun _ => [(old, [10;0;2;16])]) (NewPool [10;0;2;15] 20) in
  (GetOrAssign old p).1 = Ok [10;0;2;16] /\ (GetOrAssign new p).1 = Ok [10;0;2;16].
Proof. split; by vm_compute. Qed.
