(* ===== verification/DhcpServer.v ===== *)
(** * DhcpServer: the frame-layer DHCP server of internal/dhcp/dhcp.go

    [HandleFrame] finds a DHCP request in a raw guest frame, [HandlePacket]
    answers it from the pool of Dhcp.v, [replyFrame] wraps the answer in
    Ethernet/IPv4/UDP. The dhcpv4 message library (insomniacslk/dhcp) is the
    parameter [DhcpLib], gVisor's header package the parameter [NetHeader].
    A frame is a slice of a larger buffer: [behind] holds the bytes between its
    length and its capacity, which Go lets a re-slice reach. *)
From S2P Require Import Prelude.
From S2P Require Import GoStd.
From S2P Require Import GoText.
From S2P Require Import NetLib.
From S2P Require Import Dhcp.

(** The options [HandlePacket] sets on a reply. *)
Inductive DhcpOption :=
| OptServerIdentifier (ip : bytes)
| OptIPAddressLeaseTime (t : Z)
| OptionSubnetMask (mask : bytes)
| OptionRouter (ip : bytes)
| OptionDomainNameServer (ips : list bytes)
| OptionInterfaceMTU (mtu : Z)
| OptionDNSDomainSearchList (domains : list string)
| OptMessageType (t : Z).

Class DhcpLib := {
  Msg : Type;
  FromBytes : bytes -> option Msg;
  MessageType : Msg -> Z;
  ClientHWAddr : Msg -> bytes;
  IsBroadcast : Msg -> bool;
  NewReplyFromRequest : Msg -> option Msg;
  setYourIPAddr : bytes -> Msg -> Msg;
  UpdateOption : DhcpOption -> Msg -> Msg;
  ToBytes : Msg -> bytes;
  (** readers, to say what a message holds *)
  YourIPAddr : Msg -> bytes;
  GetOption : Z -> Msg -> option DhcpOption;
}.

(** The option codes of RFC 2132, 3397. *)
Definition optionCode (o : DhcpOption) : Z :=
  match o with
  | OptionSubnetMask _ => 1
  | OptionRouter _ => 3
  | OptionDomainNameServer _ => 6
  | OptionInterfaceMTU _ => 26
  | OptIPAddressLeaseTime _ => 51
  | OptMessageType _ => 53
  | OptServerIdentifier _ => 54
  | OptionDNSDomainSearchList _ => 119
  end.

(** A message holds what was last written to it: the address, and each option under
    its own code. *)
Class DhcpLibLaws (D : DhcpLib) : Prop := {
  YourIPAddr_set ip m : YourIPAddr (setYourIPAddr ip m) = ip;
  YourIPAddr_update o m : YourIPAddr (UpdateOption o m) = YourIPAddr m;
  GetOption_update c o m :
    GetOption c (UpdateOption o m) = if c =? optionCode o then Some o else GetOption c m;
  GetOption_set c ip m : GetOption c (setYourIPAddr ip m) = GetOption c m;
}.

Definition MessageTypeDiscover : Z := 1.
Definition MessageTypeOffer : Z := 2.
Definition MessageTypeRequest : Z := 3.
Definition MessageTypeAck : Z := 5.

Record Options := mkOptions {
  opt_Network : string;
  opt_GatewayIP : string;
  opt_Nameserver : string;
  opt_MTU : Z;
  opt_LeaseTime : Z;
  opt_SearchDomains : list string;
}.

Record Server := mkServer { srv_opts : Options; srv_pool : Pool; srv_mac : bytes }.

(** [time.Hour] in nanoseconds. *)
Definition Hour : Z := 3600 * 10 ^ 9.

Definition New (opts : Options) (pool : Pool) (serverMAC : bytes) : Server :=
  let opts :=
    if opt_LeaseTime opts =? 0
    then mkOptions (opt_Network opts) (opt_GatewayIP opts) (opt_Nameserver opts) (opt_MTU opts)
                   Hour (opt_SearchDomains opts)
    else opts in
  mkServer opts pool serverMAC.

Definition serverPort : Z := 67.

(** [To4] is nil or four bytes. *)
Definition gatewayBytes (s : Server) : bytes :=
  match To4 (ParseIP (opt_GatewayIP (srv_opts s))) with
  | [a; b; c; d] => [a; b; c; d]
  | _ => [10; 0; 2; 2]
  end.

Section Server.
Context `{H : NetHeader} `{D : DhcpLib}.

(** The second half of [replyFrame], once the addresses are chosen. *)
Definition wrapReply (s : Server) (payload dstIP dstMAC : bytes) : bytes :=
  let ip4 := gatewayBytes s in
  let udpLen := UDPMinimumSize + len payload in
  let udp := udp_Encode (mkUDP 67 68 (u16 udpLen)) (zeros (Z.to_nat udpLen)) in
  let udp := copy_at (Z.to_nat UDPMinimumSize) payload udp in
  let pseudo := PseudoHeaderChecksum UDPProtocolNumber ip4 dstIP (u16 udpLen) in
  let withPayload := Combine pseudo (Checksum payload 0) in
  let udp := udp_SetChecksum (not16 (udp_CalculateChecksum udp withPayload)) udp in
  let ipLen := IPv4MinimumSize + udpLen in
  let ip := ip4_Encode (mkIPv4 (u16 ipLen) 64 UDPProtocolNumber ip4 dstIP) (zeros (Z.to_nat ipLen)) in
  let ip := copy_at (Z.to_nat IPv4MinimumSize) udp ip in
  let ip := ip4_SetChecksum (not16 (ip4_CalculateChecksum ip)) ip in
  let frame := eth_Encode (mkEth (srv_mac s) dstMAC 0x0800)
                          (zeros (Z.to_nat (EthernetMinimumSize + ipLen))) in
  copy_at (Z.to_nat EthernetMinimumSize) ip frame.

Definition replyFrame (s : Server) (payload clientMAC yiaddr : bytes)
    (clientAskedForBroadcast : bool) : bytes :=
  let dstIP := [255; 255; 255; 255] in
  let dstMAC := EthernetBroadcastAddress in
  if negb clientAskedForBroadcast then
    match To4 yiaddr with
    | [] => wrapReply s payload dstIP dstMAC
    | y => wrapReply s payload (copy_at 0 y dstIP) clientMAC
    end
  else wrapReply s payload dstIP dstMAC.

(** The answer's DHCP message: the options [HandlePacket] sets, in its order. *)
Definition replyMsg (o : Options) (reply : Msg) (ip mask : bytes) (msgType : Z) : Msg :=
  let reply := setYourIPAddr ip reply in
  let reply := UpdateOption (OptServerIdentifier (ParseIP (opt_GatewayIP o))) reply in
  let reply := UpdateOption (OptIPAddressLeaseTime (opt_LeaseTime o)) reply in
  let reply := UpdateOption (OptionSubnetMask mask) reply in
  let reply := UpdateOption (OptionRouter (ParseIP (opt_GatewayIP o))) reply in
  let reply := UpdateOption (OptionDomainNameServer [ParseIP (opt_Nameserver o)]) reply in
  let reply :=
    if (0 <? opt_MTU o) && (opt_MTU o <=? 65535)
    then UpdateOption (OptionInterfaceMTU (u16 (opt_MTU o))) reply else reply in
  let reply :=
    if 0 <? len (opt_SearchDomains o)
    then UpdateOption (OptionDNSDomainSearchList (opt_SearchDomains o)) reply else reply in
  UpdateOption (OptMessageType msgType) reply.

Definition setPool (p : Pool) (s : Server) : Server := mkServer (srv_opts s) p (srv_mac s).

(** [behind]: what the payload's buffer holds after it (the debug line slices
    up to byte 246 of a payload of 245). *)
Definition HandlePacket (payload behind guestMAC : bytes) (s : Server) :
    go (option bytes * Server) :=
  match FromBytes payload with
  | None =>
      if 244 <? len payload then
        _ ← slice (payload ++ behind) 0 16;
        _ ← slice (payload ++ behind) 230 246;
        Done (None, s)
      else Done (None, s)
  | Some m =>
      let answer msgType :=
        match NewReplyFromRequest m with
        | None => Done (None, s)
        | Some reply =>
            let '(r, p) := GetOrAssign (ClientHWAddr m) (srv_pool s) in
            let s := setPool p s in
            match r with
            | Err _ => Done (None, s)
            | Ok ip =>
                match ParseCIDR (opt_Network (srv_opts s)) with
                | None => Done (None, s)
                | Some ipnet =>
                    let reply := replyMsg (srv_opts s) reply ip (ipnet_Mask ipnet) msgType in
                    Done (Some (replyFrame s (ToBytes reply) guestMAC ip (IsBroadcast m)), s)
                end
            end
        end in
      if MessageType m =? MessageTypeDiscover then answer MessageTypeOffer
      else if MessageType m =? MessageTypeRequest then answer MessageTypeAck
      else Done (None, s)
  end.

Definition HandleFrame (frame behind : bytes) (s : Server) : go (option bytes * Server) :=
  if len frame <? EthernetMinimumSize + IPv4MinimumSize + UDPMinimumSize then Done (None, s) else
  ethType ← (b ← slice frame 12 14; be16 b);
  if negb (ethType =? 0x0800) then Done (None, s) else
  ip ← slice_from frame EthernetMinimumSize;
  proto ← ip4_Protocol ip;
  if negb (proto =? UDPProtocolNumber) then Done (None, s) else
  '(udp, behind) ← ip4_Payload ip behind;
  if len udp <? UDPMinimumSize then Done (None, s) else
  port ← udp_DestinationPort udp;
  if negb (port =? serverPort) then Done (None, s) else
  mac ← slice frame 6 12;
  payload ← udp_Payload udp;
  HandlePacket payload behind (copy_at 0 mac (zeros 6)) s.

(** ** The reply on the wire *)

Context `{HL : !NetHeaderLaws H}.

Lemma udp_datagram f payload ck :
  exists uh, udpHeader (udp_SrcPort f) (udp_DstPort f) (udp_Length f) uh /\
    udp_SetChecksum ck
      (copy_at 8 payload (udp_Encode f (zeros (Z.to_nat (UDPMinimumSize + len payload))))) =
    uh ++ payload.
Proof.
  unfold UDPMinimumSize, len.
  destruct (udp_Encode_spec f (zeros (Z.to_nat (8 + Z.of_nat (length payload))))) as (c & Hc & ->).
  { rewrite len_zeros. lia. }
  apply length_2_inv in Hc as (c0 & c1 & ->). rewrite drop_zeros.
  rewrite udp_SetChecksum_spec.
  2:{ unfold len. rewrite length_copy_at; rewrite !length_app, !length_zeros; cbn; lia. }
  exists (put16 (udp_SrcPort f) ++ put16 (udp_DstPort f) ++ put16 (udp_Length f) ++ put16 ck).
  split; [by exists (put16 ck)|].
  unfold put16. cbn [app]. unfold copy_at. cbn [take drop length app Nat.sub].
  rewrite (take_ge payload) by (rewrite ?length_zeros; lia).
  rewrite (drop_ge (_ :: _)) by (cbn [length]; rewrite length_zeros; lia).
  cbn [app]. by rewrite app_nil_r.
Qed.

Lemma ip_datagram f data :
  0 < ip_TTL f < 256 -> is_byte (ip_Protocol f) -> wf_ip4 (ip_SrcAddr f) -> wf_ip4 (ip_DstAddr f) ->
  let b := copy_at 20 data (ip4_Encode f (zeros (Z.to_nat (IPv4MinimumSize + len data)))) in
  exists ih, ipHeader (ip_TotalLength f) (ip_TTL f) (ip_Protocol f) (ip_SrcAddr f) (ip_DstAddr f) ih /\
    length ih = 20%nat /\ ip4_SetChecksum (not16 (ip4_CalculateChecksum b)) b = ih ++ data.
Proof.
  intros Ht Hp Hs Hd b.
  destruct (ip4_Encode_spec f (zeros (Z.to_nat (IPv4MinimumSize + len data)))) as (b0 & tos & h2 & H2 & Hw & Hb0 & E);
    [rewrite len_zeros; unfold IPv4MinimumSize, len; lia|apply Hs|apply Hd|].
  assert (Eb : b = [b0; tos] ++ put16 (ip_TotalLength f) ++ h2 ++ [ip_TTL f; ip_Protocol f] ++ [0; 0] ++
    ip_SrcAddr f ++ ip_DstAddr f ++ data).
  { subst b. rewrite E, drop_zeros. unfold IPv4MinimumSize, len. clear -H2 Hs Hd.
    destruct Hs as [(s0 & s1 & s2 & s3 & ->)%length_4_inv _], Hd as [(d0 & d1 & d2 & d3 & ->)%length_4_inv _].
    apply length_4_inv in H2 as (i0 & i1 & i2 & i3 & ->).
    unfold put16. cbn [app]. unfold copy_at. cbn [take drop length app Nat.sub].
    rewrite (take_ge data) by (rewrite ?length_zeros; lia).
    rewrite (drop_ge (_ :: _)) by (cbn [length]; rewrite length_zeros; lia).
    cbn [app]. by rewrite app_nil_r. }
  rewrite Eb. by apply ip4_filled.
Qed.

Lemma eth_frame f data :
  length (eth_SrcAddr f) = 6%nat -> length (eth_DstAddr f) = 6%nat ->
  copy_at 14 data (eth_Encode f (zeros (Z.to_nat (EthernetMinimumSize + len data)))) =
  eth_DstAddr f ++ eth_SrcAddr f ++ put16 (eth_Type f) ++ data.
Proof.
  intros Hs Hd. unfold EthernetMinimumSize, len.
  rewrite eth_Encode_spec by (done || rewrite len_zeros; lia).
  apply length_6_inv in Hs as (s0 & s1 & s2 & s3 & s4 & s5 & ->).
  apply length_6_inv in Hd as (d0 & d1 & d2 & d3 & d4 & d5 & ->). rewrite drop_zeros.
  unfold put16. cbn [app]. unfold copy_at. cbn [take drop length app Nat.sub].
  rewrite (take_ge data) by (rewrite ?length_zeros; lia).
  rewrite (drop_ge (_ :: _)) by (cbn [length]; rewrite length_zeros; lia).
  cbn [app]. by rewrite app_nil_r.
Qed.

Lemma wf_To4 ip : wf_bytes ip -> wf_bytes (To4 ip).
Proof.
  intros H'. unfold To4. destruct (_ =? _)%nat; [done|]. destruct (_ && _); [by apply Forall_drop|constructor].
Qed.

Lemma wf_ParseIP s : wf_bytes (ParseIP s).
Proof.
  unfold ParseIP. destruct (ParseAddr s) as [ip|] eqn:E; [|constructor].
  apply ParseAddr_wf in E as [_ Hw]. unfold To16. destruct (_ =? _)%nat.
  - apply wf_bytes_app; [repeat constructor; done|done].
  - destruct (_ =? _)%nat; [done|constructor].
Qed.

Lemma wf_gatewayBytes s : wf_ip4 (gatewayBytes s).
Proof.
  unfold gatewayBytes. pose proof (wf_To4 _ (wf_ParseIP (opt_GatewayIP (srv_opts s)))) as Hw.
  repeat case_match; try (by split; [done|repeat constructor; done]). by split.
Qed.

(** A frame carrying [payload] from the gateway's port 67 to port 68. *)
Definition replyOnWire (s : Server) (dstMAC dstIP payload frame : bytes) : Prop :=
  exists ih uh,
    ipHeader (u16 (28 + len payload)) 64 17 (gatewayBytes s) dstIP ih /\
    udpHeader 67 68 (u16 (8 + len payload)) uh /\
    frame = dstMAC ++ srv_mac s ++ [8; 0] ++ ih ++ uh ++ payload.

Lemma wrapReply_wire s payload dstIP dstMAC :
  length (srv_mac s) = 6%nat -> length dstMAC = 6%nat -> wf_ip4 dstIP ->
  replyOnWire s dstMAC dstIP payload (wrapReply s payload dstIP dstMAC).
Proof.
  intros Hs Hm Hi. unfold wrapReply. cbn zeta.
  change (Z.to_nat UDPMinimumSize) with 8%nat.
  lazymatch goal with |- context [udp_SetChecksum ?ck (copy_at 8 payload (udp_Encode ?f _))] =>
    destruct (udp_datagram f payload ck) as (uh & Huh & ->) end.
  assert (Hl : UDPMinimumSize + len payload = len (uh ++ payload)).
  { destruct Huh as (c & Hc & ->). unfold len, UDPMinimumSize. rewrite !length_app, Hc. cbn. lia. }
  rewrite Hl. change (Z.to_nat IPv4MinimumSize) with 20%nat.
  lazymatch goal with |- context [ip4_SetChecksum _ (copy_at 20 _ (ip4_Encode ?g _))] =>
    destruct (ip_datagram g (uh ++ payload)) as (ih & Hih & Hlih & E);
      [done|done|apply wf_gatewayBytes|done|]; rewrite E; clear E end.
  assert (Hl2 : IPv4MinimumSize + len (uh ++ payload) = len (ih ++ uh ++ payload)).
  { rewrite (len_app ih). unfold len at 2. rewrite Hlih. done. }
  rewrite Hl2. change (Z.to_nat EthernetMinimumSize) with 14%nat.
  rewrite eth_frame by done. cbn [eth_DstAddr eth_SrcAddr eth_Type].
  exists ih, uh. split_and!; [|done|done].
  replace (28 + len payload) with (IPv4MinimumSize + len (uh ++ payload)); [done|].
  rewrite <- Hl. unfold IPv4MinimumSize, UDPMinimumSize. lia.
Qed.

Lemma replyFrame_wire s payload mac ip (bcast : bool) :
  length (srv_mac s) = 6%nat -> length mac = 6%nat -> wf_ip4 ip ->
  replyOnWire s (if bcast then EthernetBroadcastAddress else mac)
    (if bcast then [255; 255; 255; 255] else ip) payload
    (replyFrame s payload mac ip bcast).
Proof.
  intros Hs Hm Hi. unfold replyFrame. destruct bcast; cbn [negb].
  { apply wrapReply_wire; [done..|]. split; [done|repeat constructor; done]. }
  assert (To4 ip = ip) as -> by (unfold To4; by rewrite (proj1 Hi)).
  pose proof Hi as [(a & b & c & d & ->)%length_4_inv _]. by apply wrapReply_wire.
Qed.

(** What the server answers: the offer or the acknowledgement of a request. *)
Definition replyType (t : Z) : option Z :=
  if t =? MessageTypeDiscover then Some MessageTypeOffer
  else if t =? MessageTypeRequest then Some MessageTypeAck else None.

Lemma GetOrAssign_wf mac p ip q :
  pool_ok p -> GetOrAssign mac p = (Ok ip, q) -> wf_ip4 ip.
Proof.
  intros Hok. unfold GetOrAssign. destruct (assigned p !! _) eqn:E.
  - intros [= <- _]. apply (ok_assigned p Hok) in E as (i & _ & ->). apply wf_leaseAddr.
  - destruct (_ <=? _); [done|]. intros [= <- _]. apply wf_leaseAddr.
Qed.

(** What an answer says of the request, the pool and the frame. *)
Definition answered (payload mac : bytes) (s : Server) (f : bytes) (s' : Server) : Prop :=
  exists m t reply ip p net,
    FromBytes payload = Some m /\ replyType (MessageType m) = Some t /\
    NewReplyFromRequest m = Some reply /\
    GetOrAssign (ClientHWAddr m) (srv_pool s) = (Ok ip, p) /\
    ParseCIDR (opt_Network (srv_opts s)) = Some net /\
    s' = setPool p s /\
    f = replyFrame s' (ToBytes (replyMsg (srv_opts s) reply ip (ipnet_Mask net) t)) mac ip
          (IsBroadcast m) /\
    replyOnWire s (if IsBroadcast m then EthernetBroadcastAddress else mac)
      (if IsBroadcast m then [255; 255; 255; 255] else ip)
      (ToBytes (replyMsg (srv_opts s) reply ip (ipnet_Mask net) t)) f.

Lemma HandlePacket_answered payload behind mac s f s' :
  length (srv_mac s) = 6%nat -> length mac = 6%nat -> pool_ok (srv_pool s) ->
  HandlePacket payload behind mac s = Done (Some f, s') -> answered payload mac s f s'.
Proof.
  intros Hs Hm Hok. unfold HandlePacket, answered.
  destruct (FromBytes payload) as [m|].
  2:{ destruct (_ <? _); [|done]. by destruct (slice _ 0 16), (slice _ 230 246). }
  intros Hrun.
  assert (Ht : exists t, replyType (MessageType m) = Some t /\
    match NewReplyFromRequest m with
    | None => Done (None, s)
    | Some reply =>
        let '(r, p) := GetOrAssign (ClientHWAddr m) (srv_pool s) in
        match r with
        | Err _ => Done (None, setPool p s)
        | Ok ip =>
            match ParseCIDR (opt_Network (srv_opts (setPool p s))) with
            | None => Done (None, setPool p s)
            | Some ipnet => Done (Some (replyFrame (setPool p s)
                (ToBytes (replyMsg (srv_opts (setPool p s)) reply ip (ipnet_Mask ipnet) t))
                mac ip (IsBroadcast m)), setPool p s)
            end
        end
    end = Done (Some f, s')).
  { unfold replyType. destruct (_ =? _); [by eexists|]. destruct (_ =? _); [by eexists|done]. }
  destruct Ht as (t & Ht & Hrun'). destruct (NewReplyFromRequest m) as [reply|] eqn:Er; [|done].
  destruct (GetOrAssign _ _) as [[ip|e] p] eqn:Eg; [|done]. cbn [setPool srv_opts] in Hrun'.
  destruct (ParseCIDR _) as [net|] eqn:Ep; [|done]. injection Hrun' as <- <-.
  exists m, t, reply, ip, p, net. split_and!; try done.
  apply (replyFrame_wire (setPool p s)); [done..|by eapply GetOrAssign_wf].
Qed.

(** What a message tells its client: its address and the server's options. Options the
    server does not set are those of [reply], the message the library made of the request. *)
Record offers (o : Options) (reply : Msg) (ip mask : bytes) (t : Z) (m : Msg) : Prop := {
  of_address : YourIPAddr m = ip;
  of_type : GetOption 53 m = Some (OptMessageType t);
  of_server : GetOption 54 m = Some (OptServerIdentifier (ParseIP (opt_GatewayIP o)));
  of_lease : GetOption 51 m = Some (OptIPAddressLeaseTime (opt_LeaseTime o));
  of_mask : GetOption 1 m = Some (OptionSubnetMask mask);
  of_router : GetOption 3 m = Some (OptionRouter (ParseIP (opt_GatewayIP o)));
  of_dns : GetOption 6 m = Some (OptionDomainNameServer [ParseIP (opt_Nameserver o)]);
  of_mtu : 0 < opt_MTU o <= 65535 -> GetOption 26 m = Some (OptionInterfaceMTU (opt_MTU o));
  of_no_mtu : ~ 0 < opt_MTU o <= 65535 -> GetOption 26 m = GetOption 26 reply;
  of_search : opt_SearchDomains o <> [] ->
    GetOption 119 m = Some (OptionDNSDomainSearchList (opt_SearchDomains o));
  of_no_search : opt_SearchDomains o = [] -> GetOption 119 m = GetOption 119 reply;
  of_others : forall c, c ∉ [1; 3; 6; 26; 51; 53; 54; 119] -> GetOption c m = GetOption c reply;
}.

Context `{DL : !DhcpLibLaws D}.

Lemma replyMsg_offers o reply ip mask t : offers o reply ip mask t (replyMsg o reply ip mask t).
Proof.
  assert (Hm : (0 <? opt_MTU o) && (opt_MTU o <=? 65535) = true <-> 0 < opt_MTU o <= 65535) by lia.
  assert (Hs : (0 <? len (opt_SearchDomains o)) = true <-> opt_SearchDomains o <> []).
  { destruct (opt_SearchDomains o) as [|d ds]; [done|]. rewrite len_cons. pose proof (len_nonneg ds).
    split; [done|lia]. }
  unfold replyMsg. set (hasSearch := 0 <? len _) in *. set (hasMTU := _ && _) in *. clearbody hasMTU hasSearch.
  destruct hasMTU, hasSearch; split; intros; rewrite ?YourIPAddr_update, ?GetOption_update, ?YourIPAddr_set, ?GetOption_set;
    cbn [optionCode Z.eqb Pos.eqb]; try done; try (unfold u16; by rewrite Z.mod_small by lia).
  all: try (exfalso; match goal with
    | H : ~ ?P, E : true = true <-> ?P |- _ => by apply H, E
    | H : ?P, E : false = true <-> ?P |- _ => by apply E in H
    | H : ?l = [], E : true = true <-> ?l <> [] |- _ => by apply E
    end).
  all: match goal with H : ?c ∉ _ |- _ => rewrite !not_elem_of_cons in H; destruct_and?;
    repeat match goal with |- context [c =? ?k] => destruct (Z.eqb_spec c k); [by subst|] end; done end.
Qed.

(** C31: the DHCP server answers exactly the requests it should, the way RFC 2131
    4.1 addresses them. [HandlePacket] returns a frame iff the payload is a DISCOVER
    or a REQUEST for which a reply can be built and the pool has a lease; the frame
    then goes from the gateway's port 67 to port 68, to the broadcast addresses when
    the client asked for broadcast and to the client's MAC at the leased address
    otherwise, with an IP header whose checksum verifies; it carries a message with the
    lease as your-IP, the OFFER or ACK type, the gateway as server identifier and router,
    the lease time, the network's mask, the name server, and the MTU and the search
    domains exactly if they are configured; and the pool is the one after [GetOrAssign]. *)
Theorem HandlePacket_answers payload behind mac s f s' :
  length (srv_mac s) = 6%nat -> length mac = 6%nat -> pool_ok (srv_pool s) ->
  HandlePacket payload behind mac s = Done (Some f, s') <->
  exists m t reply ip p net,
    FromBytes payload = Some m /\ replyType (MessageType m) = Some t /\
    NewReplyFromRequest m = Some reply /\
    GetOrAssign (ClientHWAddr m) (srv_pool s) = (Ok ip, p) /\
    ParseCIDR (opt_Network (srv_opts s)) = Some net /\
    s' = setPool p s /\
    f = replyFrame s' (ToBytes (replyMsg (srv_opts s) reply ip (ipnet_Mask net) t)) mac ip
          (IsBroadcast m) /\
    replyOnWire s (if IsBroadcast m then EthernetBroadcastAddress else mac)
      (if IsBroadcast m then [255; 255; 255; 255] else ip)
      (ToBytes (replyMsg (srv_opts s) reply ip (ipnet_Mask net) t)) f /\
    offers (srv_opts s) reply ip (ipnet_Mask net) t (replyMsg (srv_opts s) reply ip (ipnet_Mask net) t).
Proof.
  intros Hs Hm Hok. split.
  { intros (m & t & reply & ip & p & net & H1 & H2 & H3 & H4 & H5 & H6 & H7 & H8)%HandlePacket_answered; [|done..].
    exists m, t, reply, ip, p, net. split_and!; try done. apply replyMsg_offers. }
  unfold HandlePacket.
  intros (m & t & reply & ip & p & net & -> & Ht & -> & -> & Hp & -> & -> & _).
  unfold replyType in Ht. destruct (_ =? _); [|destruct (_ =? _); [|done]];
    injection Ht as <-; cbn [setPool srv_opts] in *; by rewrite Hp.
Qed.

(** ** Malformed frames *)

Lemma HandlePacket_no_panic payload behind mac s :
  246 <= len payload + len behind \/ len payload <= 244 ->
  no_panic (HandlePacket payload behind mac s).
Proof.
  intros Hcap. unfold HandlePacket. destruct (FromBytes payload) as [m|].
  - destruct (_ =? _); [|destruct (_ =? _); [|by eexists]];
      (destruct (NewReplyFromRequest m); [|by eexists]);
      (destruct (GetOrAssign _ _) as [[ip|e] p]; [|by eexists]);
      (destruct (ParseCIDR _); by eexists).
  - destruct (Z.ltb_spec 244 (len payload)); [|by eexists].
    pose proof (len_nonneg behind).
    rewrite !slice_eq by (rewrite ?len_app; lia). by eexists.
Qed.

(** The IPv4 packet of a frame: its first byte and its total length. *)
Record ipv4Frame (frame ip : bytes) (v t : Z) : Prop := {
  if_len : 42 <= len frame;
  if_type : (b ← slice frame 12 14; be16 b) = Done 0x0800;
  if_ip : slice_from frame 14 = Done ip;
  if_vihl : idx ip 0 = Done v;
  if_total : (b ← slice ip 2 4; be16 b) = Done t;
}.

Lemma ipv4Frame_len frame ip v t : ipv4Frame frame ip v t -> len ip = len frame - 14.
Proof.
  intros [Hl _ Hip _ _]. rewrite slice_from_eq in Hip by lia. injection Hip as <-.
  rewrite len_drop; lia.
Qed.

(** [HandleFrame] of an IPv4 frame with the UDP protocol number, up to the
    call of [Payload]. *)
Lemma HandleFrame_unfold frame behind s ip v t :
  ipv4Frame frame ip v t -> idx ip 9 = Done UDPProtocolNumber ->
  HandleFrame frame behind s =
    ('(udp, rest) ← ip4_Payload ip behind;
     if len udp <? UDPMinimumSize then Done (None, s) else
     port ← udp_DestinationPort udp;
     if negb (port =? serverPort) then Done (None, s) else
     mac ← slice frame 6 12;
     payload ← udp_Payload udp;
     HandlePacket payload rest (copy_at 0 mac (zeros 6)) s).
Proof.
  intros Hf Hp. pose proof (ipv4Frame_len _ _ _ _ Hf) as Hlen. destruct Hf as [Hl Ht Hip Hv Htot].
  unfold HandleFrame. change (EthernetMinimumSize + IPv4MinimumSize + UDPMinimumSize) with 42.
  destruct (Z.ltb_spec (len frame) 42); [lia|]. rewrite Ht. go_simpl.
  change (negb (2048 =? 2048)) with false. cbn iota. change EthernetMinimumSize with 14.
  rewrite Hip. go_simpl. rewrite ip4_Protocol_spec by lia. rewrite Hp. go_simpl. done.
Qed.

Lemma ip4_Payload_unfold frame behind ip v t :
  ipv4Frame frame ip v t ->
  ip4_Payload ip behind =
    (p ← slice_from ip (Z.land v 15 * 4);
     r ← slice (p ++ behind) 0 (u16 (t - Z.land v 15 * 4));
     rest ← slice_from (p ++ behind) (u16 (t - Z.land v 15 * 4));
     Done (r, rest)).
Proof.
  intros Hf. pose proof (ipv4Frame_len _ _ _ _ Hf) as Hlen. destruct Hf as [Hl Ht Hip Hv Htot].
  rewrite ip4_Payload_spec, ip4_HeaderLength_spec, ip4_TotalLength_spec by lia.
  by rewrite Hv, Htot.
Qed.

(** a well-formed IPv4 frame never crashes the DHCP server: when the header
    length does not exceed the total length and the packet lies inside the frame,
    [HandleFrame] returns, in a buffer of at least 328 bytes (every buffer of the
    switch has 9234). *)
Theorem HandleFrame_no_panic frame behind s ip v t :
  wf_bytes frame -> ipv4Frame frame ip v t -> idx ip 9 = Done UDPProtocolNumber ->
  Z.land v 15 * 4 <= t -> 14 + t <= len frame -> 328 <= len frame + len behind ->
  no_panic (HandleFrame frame behind s).
Proof.
  intros Hwf Hf Hp Hhl Hin Hcap. rewrite (HandleFrame_unfold _ _ _ _ _ _ Hf Hp).
  rewrite (ip4_Payload_unfold _ _ _ _ _ Hf). pose proof (ipv4Frame_len _ _ _ _ Hf) as Hlen.
  destruct Hf as [Hl Ht Hip Hv Htot].
  pose proof (land_15_range v) as Hv15.
  assert (Hip' : wf_bytes ip).
  { rewrite slice_from_eq in Hip by lia. injection Hip as <-. auto with gosem. }
  assert (Ht16 : t < 2 ^ 16).
  { eapply (returns_inv (b ← slice ip 2 4; be16 b) (fun t => t < 2 ^ 16)); [|exact Htot].
    repeat go_step; [lia|lia|subst; auto with gosem|lia|lia]. }
  set (hl := Z.land v 15 * 4) in *. pose proof (len_nonneg behind) as Hb.
  assert (u16 (t - hl) = t - hl) as -> by (apply Z.mod_small; lia).
  rewrite (slice_from_eq ip) by lia. go_simpl. set (p := drop (Z.to_nat hl) ip).
  assert (Hp' : len p = len ip - hl) by (subst p; rewrite len_drop; lia).
  rewrite (slice_eq (p ++ behind)) by (rewrite ?len_app; lia). rewrite Z.sub_0_r, drop_0. go_simpl.
  rewrite slice_from_eq by (rewrite ?len_app; lia). go_simpl.
  set (udp := take _ _). set (rest := drop _ (p ++ behind)).
  assert (Hu : len udp = t - hl) by (subst udp; rewrite len_take; rewrite ?len_app; lia).
  assert (Hr : len rest = len p + len behind - (t - hl))
    by (subst rest; rewrite len_drop; rewrite ?len_app; lia).
  assert (Huwf : wf_bytes udp).
  { subst udp p. rewrite take_app_le; [auto with gosem|]. unfold len in *. lia. }
  change UDPMinimumSize with 8. destruct (Z.ltb_spec (len udp) 8); [by eexists|].
  rewrite udp_DestinationPort_spec, udp_Payload_spec by done.
  rewrite (slice_eq udp) by lia. go_simpl.
  edestruct (returns_be16 (take (Z.to_nat (4 - 2)) (drop (Z.to_nat 2) udp)) (fun _ => True))
    as (port & -> & _); [auto with gosem|rewrite len_take; rewrite ?len_drop; lia|done|].
  go_simpl. destruct (port =? serverPort); [|by eexists]. go_simpl.
  rewrite slice_eq, slice_from_eq by lia. go_simpl.
  apply HandlePacket_no_panic. left. rewrite len_drop; lia.
Qed.

(** a malformed frame crashes the process. [HandleFrame] takes the payload of
    an IPv4 packet it has not validated; when the total length is smaller than the
    header length, the 16-bit payload length wraps around and the re-slice runs
    past the capacity of any frame buffer of the switch: one frame of any guest on
    the segment panics the hub. *)
Theorem HandleFrame_short_total_panics frame behind s ip v t :
  ipv4Frame frame ip v t -> idx ip 9 = Done UDPProtocolNumber ->
  0 <= t < Z.land v 15 * 4 -> len frame + len behind <= 9234 ->
  HandleFrame frame behind s = Panic.
Proof.
  intros Hf Hp Ht Hcap. rewrite (HandleFrame_unfold _ _ _ _ _ _ Hf Hp).
  rewrite (ip4_Payload_unfold _ _ _ _ _ Hf). pose proof (ipv4Frame_len _ _ _ _ Hf) as Hlen.
  pose proof (land_15_range v) as Hv15.
  set (hl := Z.land v 15 * 4) in *.
  assert (u16 (t - hl) = t - hl + 65536) as ->.
  { unfold u16. rewrite <- (Z.mod_add _ 1) by lia. rewrite Z.mod_small by lia. lia. }
  destruct (Z.le_gt_cases hl (len ip)).
  - rewrite (slice_from_eq ip) by lia. go_simpl. set (p := drop _ _).
    assert (len p <= len ip) by (subst p; rewrite len_drop; lia).
    rewrite (slice_panic (p ++ behind)); [done|]. rewrite len_app. lia.
  - assert (slice_from ip hl = Panic) as -> by (apply slice_panic; lia). done.
Qed.

End Server.

(** ** A small message library, to evaluate the server

    A message is the client's type, its broadcast flag and its hardware address
    on the wire; a reply prints its type and the leased address. *)
Record refMsg := mkRef { rm_type : Z; rm_bcast : Z; rm_mac : bytes; rm_yi : bytes; rm_opts : list DhcpOption }.

#[export] Instance RefDhcp : DhcpLib := {
  Msg := refMsg;
  FromBytes b := match b with t :: f :: mac => Some (mkRef t f mac [] []) | _ => None end;
  MessageType := rm_type;
  ClientHWAddr := rm_mac;
  IsBroadcast m := rm_bcast m =? 1;
  NewReplyFromRequest m := Some m;
  setYourIPAddr ip m := mkRef (rm_type m) (rm_bcast m) (rm_mac m) ip (rm_opts m);
  UpdateOption o m :=
    mkRef (match o with OptMessageType t => t | _ => rm_type m end) (rm_bcast m) (rm_mac m) (rm_yi m)
      (o :: rm_opts m);
  ToBytes m := rm_type m :: rm_yi m;
  YourIPAddr := rm_yi;
  GetOption c m := find (fun o => c =? optionCode o) (rm_opts m);
}.

#[export] Instance RefDhcpLaws : DhcpLibLaws RefDhcp.
Proof. by split. Qed.

Definition demoServer : Server :=
  New (mkOptions "10.0.2.0/24" "10.0.2.2" "10.0.2.3" 0 0 [])
      (NewPool [10;0;2;15] 20) [122;114;109;60;215;35].

Theorem HandlePacket_answers_witness :
  pool_ok (srv_pool demoServer) /\
  exists f s',
    HandlePacket [1; 0; 2; 0; 0; 0; 0; 9] [] [2;0;0;0;0;9] demoServer = Done (Some f, s') /\
    exists m t reply ip p net,
      FromBytes [1; 0; 2; 0; 0; 0; 0; 9] = Some m /\ replyType (MessageType m) = Some t /\
      NewReplyFromRequest m = Some reply /\
      GetOrAssign (ClientHWAddr m) (srv_pool demoServer) = (Ok ip, p) /\
      ParseCIDR (opt_Network (srv_opts demoServer)) = Some net /\ t = MessageTypeOffer /\
      ip = [10;0;2;15].
Proof.
  split; [by apply pool_ok_NewPool|].
  destruct (HandlePacket [1; 0; 2; 0; 0; 0; 0; 9] [] [2;0;0;0;0;9] demoServer)
    as [[[f|] s']|] eqn:E; [|by vm_compute in E..].
  exists f, s'. split; [done|].
  apply HandlePacket_answers in E; [|done|done|by apply pool_ok_NewPool].
  destruct E as (m & t & reply & ip & p & net & H1 & H2 & H3 & H4 & H5 & _).
  exists m, t, reply, ip, p, net. split_and!; try done.
  - injection H1 as <-. vm_compute in H2. by injection H2 as <-.
  - injection H1 as <-. vm_compute in H4. by injection H4 as <- _.
Defined.

(** A DISCOVER in a frame, and the same frame with total length 10. *)
Definition udpFrame (total : Z) : bytes :=
  [255;255;255;255;255;255; 2;0;0;0;0;9; 8;0] ++
  [69;0] ++ put16 total ++ [0;0;0;0; 64;17;0;0; 0;0;0;0; 255;255;255;255] ++
  put16 68 ++ put16 67 ++ put16 16 ++ [0;0] ++ [1; 0; 2; 0; 0; 0; 0; 9].

Lemma udpFrame_ok total :
  0 <= total < 2 ^ 16 -> ipv4Frame (udpFrame total) (drop 14 (udpFrame total)) 69 total.
Proof.
  intros Ht. split; [by vm_compute|by vm_compute|by vm_compute|by vm_compute|].
  change ((b ← slice (drop 14 (udpFrame total)) 2 4; be16 b)) with (be16 (put16 total ++ [])).
  by apply put16_be16.
Qed.

Theorem HandleFrame_no_panic_witness :
  no_panic (HandleFrame (udpFrame 36) (zeros (Z.to_nat 9184)) demoServer) /\
  match HandleFrame (udpFrame 36) (zeros (Z.to_nat 9184)) demoServer with
  | Done (Some f, _) => slice f 42 47 = Done [2; 10; 0; 2; 15]
  | _ => False
  end.
Proof.
  split.
  - apply (HandleFrame_no_panic (udpFrame 36) (zeros (Z.to_nat 9184)) demoServer
      (drop 14 (udpFrame 36)) 69 36).
    + unfold wf_bytes. vm_compute. repeat constructor; done.
    + by apply udpFrame_ok.
    + done.
    + done.
    + done.
    + rewrite len_zeros, Z2Nat.id by lia. done.
  - by vm_compute.
Defined.

Theorem HandleFrame_short_total_panics_witness :
  HandleFrame (udpFrame 10) (zeros (Z.to_nat 9184)) demoServer = Panic.
Proof.
  apply (HandleFrame_short_total_panics (udpFrame 10) (zeros (Z.to_nat 9184)) demoServer
    (drop 14 (udpFrame 10)) 69 10).
  - by apply udpFrame_ok.
  - done.
  - done.
  - rewrite len_zeros, Z2Nat.id by lia. done.
Defined.
