(* ===== verification/Config.v ===== *)
(** * Config: internal/config/config.go

    The configuration record, its defaults, [Load] (YAML decoding is a
    parameter: it is gopkg.in/yaml.v3's), the port-forwarding rules
    ([ParsePorts]) and the VNL overrides ([ApplyVNL]). *)
From S2P Require Import Prelude.
From S2P Require Import GoStd.
#[local] Open Scope string_scope.
#[local] Open Scope Z_scope.

Record Forward := mkForward {
  UDP : bool;
  HostIP : string;
  HostPort : Z;
  GuestIP : string;
  GuestPort : Z;
  LastOctet : Z;
}.
#[export] Instance Forward_eq_dec : EqDecision Forward.
Proof. solve_decision. Defined.

Record Config := mkConfig {
  IPv4 : bool;
  IPv6 : bool;
  Switch : option bool;
  Socket : string;
  SocketFileLocation : string;
  SocketMode : Z;
  Uplink : string;
  Network : string;
  Gateway : string;
  Nameserver : string;
  DHCPStart : string;
  Hostname : string;
  MTU : Z;
  PortFwd : bool;
  Ports : list string;
  WireguardConfPath : string;
  Batch : Z;
}.
#[export] Instance Config_eq_dec : EqDecision Config.
Proof. solve_decision. Defined.

Definition Defaults : Config :=
  mkConfig true false None "" "" 0 "slirp" "10.0.2.0/24" "10.0.2.2" "10.0.2.3" "10.0.2.15" "" 0
           false [] "" 16.

(** Field updates. *)
Definition setIPv6 (v : bool) (c : Config) : Config :=
  mkConfig (IPv4 c) v (Switch c) (Socket c) (SocketFileLocation c) (SocketMode c) (Uplink c) (Network c) (Gateway c) (Nameserver c) (DHCPStart c) (Hostname c) (MTU c) (PortFwd c) (Ports c) (WireguardConfPath c) (Batch c).
Definition setSwitch (v : bool) (c : Config) : Config :=
  mkConfig (IPv4 c) (IPv6 c) (Some v) (Socket c) (SocketFileLocation c) (SocketMode c) (Uplink c) (Network c) (Gateway c) (Nameserver c) (DHCPStart c) (Hostname c) (MTU c) (PortFwd c) (Ports c) (WireguardConfPath c) (Batch c).
Definition setSocket (v : string) (c : Config) : Config :=
  mkConfig (IPv4 c) (IPv6 c) (Switch c) v (SocketFileLocation c) (SocketMode c) (Uplink c) (Network c) (Gateway c) (Nameserver c) (DHCPStart c) (Hostname c) (MTU c) (PortFwd c) (Ports c) (WireguardConfPath c) (Batch c).
Definition setUplink (v : string) (c : Config) : Config :=
  mkConfig (IPv4 c) (IPv6 c) (Switch c) (Socket c) (SocketFileLocation c) (SocketMode c) v (Network c) (Gateway c) (Nameserver c) (DHCPStart c) (Hostname c) (MTU c) (PortFwd c) (Ports c) (WireguardConfPath c) (Batch c).
Definition setNetwork (v : string) (c : Config) : Config :=
  mkConfig (IPv4 c) (IPv6 c) (Switch c) (Socket c) (SocketFileLocation c) (SocketMode c) (Uplink c) v (Gateway c) (Nameserver c) (DHCPStart c) (Hostname c) (MTU c) (PortFwd c) (Ports c) (WireguardConfPath c) (Batch c).
Definition setGateway (v : string) (c : Config) : Config :=
  mkConfig (IPv4 c) (IPv6 c) (Switch c) (Socket c) (SocketFileLocation c) (SocketMode c) (Uplink c) (Network c) v (Nameserver c) (DHCPStart c) (Hostname c) (MTU c) (PortFwd c) (Ports c) (WireguardConfPath c) (Batch c).
Definition setDHCPStart (v : string) (c : Config) : Config :=
  mkConfig (IPv4 c) (IPv6 c) (Switch c) (Socket c) (SocketFileLocation c) (SocketMode c) (Uplink c) (Network c) (Gateway c) (Nameserver c) v (Hostname c) (MTU c) (PortFwd c) (Ports c) (WireguardConfPath c) (Batch c).
Definition setMTU (v : Z) (c : Config) : Config :=
  mkConfig (IPv4 c) (IPv6 c) (Switch c) (Socket c) (SocketFileLocation c) (SocketMode c) (Uplink c) (Network c) (Gateway c) (Nameserver c) (DHCPStart c) (Hostname c) v (PortFwd c) (Ports c) (WireguardConfPath c) (Batch c).
Definition setBatch (v : Z) (c : Config) : Config :=
  mkConfig (IPv4 c) (IPv6 c) (Switch c) (Socket c) (SocketFileLocation c) (SocketMode c) (Uplink c) (Network c) (Gateway c) (Nameserver c) (DHCPStart c) (Hostname c) (MTU c) (PortFwd c) (Ports c) (WireguardConfPath c) v.

(** What [os.ReadFile] finds. *)
Inductive readResult := NotExist | ReadErr (e : string) | Data (b : bytes).

(** [Load]; [unmarshal] decodes YAML over the defaults. *)
Definition Load (unmarshal : bytes -> Config -> result Config) (file : readResult) : result Config :=
  let cfg := Defaults in
  match file with
  | NotExist => Ok cfg
  | ReadErr e => Err e
  | Data data =>
      cfg ← unmarshal data cfg;
      Ok (if String.eqb (SocketFileLocation cfg) "" then cfg
          else setSocket (SocketFileLocation cfg) cfg)
  end.

Definition SwitchEnabled (c : Config) : bool :=
  match Switch c with None => true | Some b => b end.

(** ** Port rules *)

Definition twoPorts (host guest : string) : result (Z * Z) :=
  match ParseUint (TrimSpace host) 16, ParseUint (TrimSpace guest) 16 with
  | Some hp, Some gp =>
      if (hp =? 0) || (65535 <? hp) || (gp =? 0) || (65535 <? gp) then Err "bad ports"
      else Ok (u16 hp, u16 gp)
  | _, _ => Err "bad ports"
  end.

(** The address part of a pinned rule: the guest address or the last octet. *)
Definition parseAddr (addr : string) : result (string * Z) :=
  match addr with
  | String "." rest =>
      match Atoi rest with
      | None => Err "Atoi"
      | Some n => if (n <? 1) || (254 <? n) then Err "last octet out of range" else Ok ("", n)
      end
  | _ => match ParseIP addr with [] => Err "bad address" | _ => Ok (addr, 0) end
  end.

(** The switch on the colon-separated parts of a rule. *)
Definition parseSpec (udp : bool) (spec : string) : result Forward :=
  match Split ":" spec with
  | [host; guest] =>
      '(hp, gp) ← twoPorts host guest;
      Ok (mkForward udp "" hp "" gp 0)
  | [a; host; guest] =>
      '(ip, n) ← parseAddr (TrimSpace a);
      '(hp, gp) ← twoPorts host guest;
      Ok (mkForward udp "" hp ip gp n)
  | _ => Err "malformed port entry"
  end.

(** One turn of [ParsePorts]' loop. *)
Definition parsePort (raw : string) : result Forward :=
  let spec := TrimSpace raw in
  match CutPrefix spec "udp " with
  | Some rest => parseSpec true (TrimSpace rest)
  | None =>
      match CutPrefix spec "tcp " with
      | Some rest => parseSpec false (TrimSpace rest)
      | None => parseSpec false spec
      end
  end.

Fixpoint parsePorts (ports : list string) : result (list Forward) :=
  match ports with
  | [] => Ok []
  | raw :: ports => f ← parsePort raw; out ← parsePorts ports; Ok (f :: out)
  end.

Definition ParsePorts (c : Config) : result (list Forward) := parsePorts (Ports c).

(** ** VNL parameters *)

Definition truthy (v : string) : bool := String.eqb v "1" || String.eqb v "true".

Definition applyKey (k v : string) (c : Config) : Config :=
  if String.eqb k "v6" then setIPv6 (truthy v) c
  else if String.eqb k "mtu" then match Atoi v with Some n => setMTU n c | None => c end
  else if String.eqb k "switch" then setSwitch (truthy v || String.eqb v "yes") c
  else if String.eqb k "socket" then setSocket v c
  else if String.eqb k "uplink" then setUplink v c
  else if String.eqb k "dhcp_start" then setDHCPStart v c
  else if String.eqb k "network" then setNetwork v c
  else if String.eqb k "gateway" || String.eqb k "host" || String.eqb k "addr" then
    setGateway (match Cut "/" v with Some (b, _) => b | None => v end) c
  else if String.eqb k "batch" then match Atoi v with Some n => setBatch n c | None => c end
  else c.

Definition applyTok (c : Config) (tok : string) : Config :=
  if String.eqb tok "" then c else
  match Cut "=" tok with
  | None =>
      if String.eqb tok "switch" then setSwitch true c
      else if String.eqb tok "noswitch" then setSwitch false c else c
  | Some (k, v) => applyKey k v c
  end.

Definition ApplyVNL (params : string) (c : Config) : Config :=
  if String.eqb params "" then c else foldl applyTok c (Split "/" params).

(** ** What a rule can be *)

Definition is_port (p : Z) : Prop := 1 <= p <= 65535.

Record wf_forward (f : Forward) : Prop := {
  wf_hostip : HostIP f = "";
  wf_hostport : is_port (HostPort f);
  wf_guestport : is_port (GuestPort f);
  wf_target :
    GuestIP f = "" /\ LastOctet f = 0 \/
    GuestIP f = "" /\ 1 <= LastOctet f <= 254 \/
    (exists ip, wf_ip4 ip /\ GuestIP f = v4String ip) /\ LastOctet f = 0;
}.

Lemma twoPorts_sound host guest hp gp :
  twoPorts host guest = Ok (hp, gp) -> is_port hp /\ is_port gp.
Proof.
  unfold twoPorts. destruct (ParseUint (TrimSpace host) 16) as [h|] eqn:Eh; [|done].
  destruct (ParseUint (TrimSpace guest) 16) as [g|] eqn:Eg; [|done].
  assert (Hpos : forall s v, parseDigits 0 s = Some v -> 0 <= v).
  { intros s v. assert (H : forall acc, 0 <= acc -> parseDigits acc s = Some v -> 0 <= v);
      [|by apply H]. induction s as [|c s IH]; intros acc Ha; cbn [parseDigits]; [by intros [= <-]|].
    destruct (isDigit c) eqn:Hc; [|done]. apply isDigit_inv in Hc as [Hc _]. apply IH. lia. }
  assert (Hu : forall s v, ParseUint s 16 = Some v -> 0 <= v).
  { intros [|c s] v; [done|]. unfold ParseUint.
    destruct (parseDigits 0 _) as [w|] eqn:E; [|done]. cbn [mbind option_bind].
    destruct (_ <? _); [|done]. intros [= <-]. by eapply Hpos. }
  apply Hu in Eh, Eg. destruct (_ || _) eqn:Hb; [done|]. intros [= <- <-]. bool_arith.
  unfold is_port, u16. rewrite !Z.mod_small by lia. lia.
Qed.

Lemma parseAddr_sound addr ip n :
  containsByte ":" addr = false -> parseAddr addr = Ok (ip, n) ->
  ip = "" /\ 1 <= n <= 254 \/ (exists b, wf_ip4 b /\ ip = v4String b) /\ n = 0.
Proof.
  intros Hc. unfold parseAddr.
  assert (Hgen : match ParseIP addr with [] => Err "bad address" | _ => Ok (addr, 0) end = Ok (ip, n) ->
    (exists b, wf_ip4 b /\ ip = v4String b) /\ n = 0).
  { destruct (ParseIP addr) eqn:E; [done|]. intros [= <- <-].
    destruct (ParseIP_no_colon addr Hc) as (b & Hb & E' & _); [by rewrite E|eauto]. }
  destruct addr as [|c rest]; [auto|].
  destruct (Ascii.eqb_spec c ".") as [->|Hd].
  - destruct (Atoi rest) as [m|]; [|done]. destruct (_ || _) eqn:Hb; [done|].
    intros [= <- <-]. bool_arith. left. split; [done|lia].
  - intros H. right. apply Hgen. by destruct c as [[] [] [] [] [] [] [] []].
Qed.

Lemma parseSpec_sound udp spec f : parseSpec udp spec = Ok f -> wf_forward f.
Proof.
  unfold parseSpec. pose proof (Split_free ":" spec) as Hfree.
  destruct (Split ":" spec) as [|a [|host [|guest [|]]]]; try done.
  - destruct (twoPorts a host) as [[hp gp]|] eqn:E; [|done]. intros [= <-].
    apply twoPorts_sound in E as [? ?]. by split; [..|left].
  - apply Forall_cons in Hfree as [Ha _].
    destruct (parseAddr (TrimSpace a)) as [[ip n]|] eqn:Ea; [|done]. cbn [mbind result_bind].
    destruct (twoPorts host guest) as [[hp gp]|] eqn:E; [|done]. intros [= <-].
    apply twoPorts_sound in E as [? ?]. apply parseAddr_sound in Ea; [|by apply TrimSpace_free].
    split; [done..|]. cbn. tauto.
Qed.

Lemma parsePort_sound raw f : parsePort raw = Ok f -> wf_forward f.
Proof. unfold parsePort. repeat case_match; apply parseSpec_sound. Qed.

Lemma parsePorts_sound ports : forall fs,
  parsePorts ports = Ok fs -> length fs = length ports /\ Forall wf_forward fs.
Proof.
  induction ports as [|raw ports IH]; intros fs; cbn [parsePorts]; [by intros [= <-]|].
  destruct (parsePort raw) as [f|] eqn:Ef; [|done]. cbn [mbind result_bind].
  destruct (parsePorts ports) as [out|]; [|done]. intros [= <-].
  destruct (IH out eq_refl) as [Hl Hf]. split; [cbn; by rewrite Hl|].
  constructor; [by eapply parsePort_sound|done].
Qed.

(** every rule [ParsePorts] accepts is a usable one: one rule per entry, in
    order, both ports between 1 and 65535, and the guest address absent, an octet
    between 1 and 254, or the canonical text of an IPv4 address, never two of them. *)
Theorem ParsePorts_sound c fs :
  ParsePorts c = Ok fs -> length fs = length (Ports c) /\ Forall wf_forward fs.
Proof. apply parsePorts_sound. Qed.

(** ** Printing rules *)

Definition printPorts (f : Forward) : string :=
  (Itoa (HostPort f) +:+ ":") +:+ Itoa (GuestPort f).

Definition printTarget (f : Forward) : string :=
  if LastOctet f =? 0 then
    match GuestIP f with "" => "" | ip => ip +:+ ":" end
  else ("." +:+ Itoa (LastOctet f)) +:+ ":".

Definition printForward (f : Forward) : string :=
  (if UDP f then "udp " else "tcp ") +:+ printTarget f +:+ printPorts f.

Lemma twoPorts_print hp gp :
  is_port hp -> is_port gp -> twoPorts (Itoa hp) (Itoa gp) = Ok (hp, gp).
Proof.
  unfold is_port. intros Hh Hg. unfold twoPorts.
  rewrite !TrimSpace_Itoa, !ParseUint_Itoa by lia.
  destruct (Z.eqb_spec hp 0), (Z.eqb_spec gp 0), (Z.ltb_spec 65535 hp), (Z.ltb_spec 65535 gp); try lia.
  cbn [orb]. unfold u16. by rewrite !Z.mod_small by lia.
Qed.

(** The fields of a printed rule. *)
Lemma split_ports hp gp :
  is_port hp -> is_port gp -> Split ":" ((Itoa hp +:+ ":") +:+ Itoa gp) = [Itoa hp; Itoa gp].
Proof.
  unfold is_port. intros Hh Hg. rewrite string_app_assoc. change (":" +:+ ?s) with (String ":" s).
  assert (forall n, 0 <= n -> containsByte ":" (Itoa n) = false) as Hn.
  { intros m Hm. by apply digits_free, digits_Itoa. }
  by rewrite Split_app, Split_none by (apply Hn; lia).
Qed.

Lemma split_spec w hp gp :
  containsByte ":" w = false -> is_port hp -> is_port gp ->
  Split ":" ((w +:+ ":") +:+ ((Itoa hp +:+ ":") +:+ Itoa gp)) = [w; Itoa hp; Itoa gp].
Proof.
  intros Hw Hh Hg. rewrite string_app_assoc. change (":" +:+ ?s) with (String ":" s).
  by rewrite Split_app, split_ports.
Qed.

(** A text that starts plainly and ends in a port is its own trim. *)
Lemma trim_spec c s f :
  plain c = true -> 0 <= GuestPort f ->
  TrimSpace ((String c s +:+ ":") +:+ printPorts f) = (String c s +:+ ":") +:+ printPorts f.
Proof.
  intros Hc Hg. unfold printPorts. rewrite <- string_app_assoc.
  change ((String c s +:+ ":") +:+ (Itoa (HostPort f) +:+ ":"))
    with (String c ((s +:+ ":") +:+ (Itoa (HostPort f) +:+ ":"))). by apply TrimSpace_number.
Qed.

(** The target of a printed rule: an address, or a last octet behind a dot. *)
Lemma parseAddr_ip ip : wf_ip4 ip -> parseAddr (v4String ip) = Ok (v4String ip, 0).
Proof.
  intros Hip. destruct (v4String_shape ip Hip) as (c & s & E & Hc & Htr).
  pose proof (ParseIP_v4String ip Hip) as H4. rewrite E in H4 |- *. unfold parseAddr.
  destruct (ParseIP (String c s)) as [|b0 b] eqn:Ep.
  { destruct Hip as [Hl _]. by rewrite <- H4 in Hl. }
  assert (c <> "."%char) by by intros ->. by destruct c as [[] [] [] [] [] [] [] []].
Qed.

Lemma parseAddr_octet n : 1 <= n <= 254 -> parseAddr ("." +:+ Itoa n) = Ok ("", n)%string.
Proof.
  intros Hn. change ("." +:+ Itoa n) with (String "." (Itoa n)). unfold parseAddr. rewrite Atoi_Itoa by lia.
  by destruct (Z.ltb_spec n 1), (Z.ltb_spec 254 n); try lia.
Qed.

(** The part of a printed rule behind the protocol: it is its own trim, and it
    splits into the printed fields. *)
Lemma printed_spec f :
  wf_forward f ->
  let spec := printTarget f +:+ printPorts f in
  TrimSpace spec = spec /\ parseSpec (UDP f) spec = Ok f.
Proof.
  intros [Hh Hhp Hgp Ht]. destruct f as [udp hip hp gip gp n]. cbn in *. subst hip.
  assert (Hg : 0 <= gp) by (unfold is_port in Hgp; lia).
  destruct Ht as [[-> ->]|[[-> Hn]|[(ip & Hip & ->) ->]]]; unfold printTarget; cbn [LastOctet GuestIP].
  - change (0 =? 0) with true. cbn iota. change ("" +:+ ?s) with s. split.
    + destruct (Itoa_cons hp) as (c & s & E & Hc); [unfold is_port in Hhp; lia|].
      unfold printPorts. cbn [HostPort GuestPort]. rewrite E.
      change (String c s +:+ ":") with (String c (s +:+ ":")). apply TrimSpace_number; [by apply plain_digit|lia].
    + unfold parseSpec, printPorts. cbn [HostPort GuestPort]. by rewrite split_ports, twoPorts_print.
  - destruct (Z.eqb_spec n 0); [lia|]. split; [by apply (trim_spec "."%char (Itoa n)); [vm_compute|]|].
    unfold parseSpec, printPorts. cbn [HostPort GuestPort]. rewrite split_spec; [|  |done|done].
    2:{ change ("." +:+ Itoa n) with (String "." (Itoa n)). cbn [containsByte].
        apply digits_free; [done|apply digits_Itoa; lia]. }
    assert (TrimSpace ("." +:+ Itoa n) = "." +:+ Itoa n) as -> by (apply TrimSpace_number; [by vm_compute|lia]).
    rewrite parseAddr_octet by lia. cbn [mbind result_bind]. by rewrite twoPorts_print.
  - change (0 =? 0) with true. cbn iota. destruct (v4String_shape ip Hip) as (c & s & E & Hc & Htr).
    assert (match v4String ip with "" => "" | r => r +:+ ":" end = v4String ip +:+ ":") as -> by by rewrite E.
    split; [rewrite E; by apply trim_spec; [apply plain_digit|]|].
    unfold parseSpec, printPorts. cbn [HostPort GuestPort].
    rewrite split_spec by (done || by apply v4String_free).
    rewrite E, Htr, <- E, parseAddr_ip by done. cbn [mbind result_bind]. by rewrite twoPorts_print.
Qed.

(** printing a rule and parsing it back is the identity: for any list of valid
    rules, [ParsePorts] of their texts returns them in order. *)
Theorem ParsePorts_print c fs :
  Forall wf_forward fs -> Ports c = (printForward <$> fs) -> ParsePorts c = Ok fs.
Proof.
  unfold ParsePorts. intros Hfs ->. induction Hfs as [|f fs Hf Hfs IH]; [done|].
  cbn [fmap list_fmap parsePorts]. destruct (printed_spec f Hf) as [Htrim Hspec].
  assert (parsePort (printForward f) = Ok f) as ->; [|cbn [mbind result_bind]; by rewrite IH].
  unfold parsePort, printForward.
  assert (Hout : TrimSpace ((if UDP f then "udp " else "tcp ") +:+ printTarget f +:+ printPorts f) =
                 (if UDP f then "udp " else "tcp ") +:+ printTarget f +:+ printPorts f).
  { unfold printPorts. rewrite <- !string_app_assoc. destruct Hf as [_ _ Hg _]. unfold is_port in Hg.
    destruct (UDP f); (apply TrimSpace_number; [by vm_compute|lia]). }
  rewrite Hout. destruct (UDP f).
  - rewrite CutPrefix_same, Htrim. done.
  - change (CutPrefix ("tcp " +:+ ?r) "udp ") with (@None string). cbn iota.
    rewrite CutPrefix_same, Htrim. done.
Qed.

Definition demoForwards : list Forward :=
  [mkForward true "" 8053 "10.0.2.20" 53 0; mkForward false "" 2222 "" 22 0;
   mkForward false "" 80 "" 8080 7].

Definition demoPorts (ports : list string) : Config :=
  mkConfig true false None "" "" 0 "slirp" "10.0.2.0/24" "10.0.2.2" "10.0.2.3" "10.0.2.15" "" 0
           true ports "" 16.

Lemma demoForwards_wf : Forall wf_forward demoForwards.
Proof.
  unfold demoForwards. rewrite !Forall_cons. split_and!; [split..|constructor]; try done; cbn.
  - right; right. split; [|done]. exists [10; 0; 2; 20]. split; [split; [done|]|done].
    repeat constructor; done.
  - by left.
  - by right; left.
Qed.

Theorem ParsePorts_print_witness :
  printForward <$> demoForwards = ["udp 10.0.2.20:8053:53"; "tcp 2222:22"; "tcp .7:80:8080"] /\
  ParsePorts (demoPorts ["udp 10.0.2.20:8053:53"; "tcp 2222:22"; "tcp .7:80:8080"]) = Ok demoForwards.
Proof.
  split; [by vm_compute|].
  apply (ParsePorts_print (demoPorts ["udp 10.0.2.20:8053:53"; "tcp 2222:22"; "tcp .7:80:8080"])
    demoForwards demoForwards_wf). by vm_compute.
Defined.

Theorem ParsePorts_sound_witness :
  ParsePorts (demoPorts [" 2222 : 22"; "tcp .7:80:8080"]) =
    Ok [mkForward false "" 2222 "" 22 0; mkForward false "" 80 "" 8080 7] /\
  Forall wf_forward [mkForward false "" 2222 "" 22 0; mkForward false "" 80 "" 8080 7].
Proof.
  split; [by vm_compute|].
  apply (ParsePorts_sound (demoPorts [" 2222 : 22"; "tcp .7:80:8080"])). by vm_compute.
Defined.

(** ** VNL parameters *)

(** The text of a list of settings, as the VNL string carries them. *)
Fixpoint printVNL (kvs : list (string * string)) : string :=
  match kvs with
  | [] => ""
  | [(k, v)] => k +:+ String "=" v
  | (k, v) :: kvs => (k +:+ String "=" v) +:+ String "/" (printVNL kvs)
  end.

Definition wf_setting (kv : string * string) : Prop :=
  containsByte "=" kv.1 = false /\ containsByte "/" kv.1 = false /\ containsByte "/" kv.2 = false.

Definition applyKV (c : Config) (kv : string * string) : Config := applyKey kv.1 kv.2 c.

Lemma app_String_ne a (x : ascii) s : String.eqb (a +:+ String x s) "" = false.
Proof. by destruct a. Qed.

Lemma applyTok_setting c kv :
  wf_setting kv -> applyTok c (kv.1 +:+ String "=" kv.2) = applyKV c kv.
Proof.
  intros (H1 & _ & _). unfold applyTok. rewrite app_String_ne. by rewrite Cut_app.
Qed.

Lemma setting_free kv : wf_setting kv -> containsByte "/" (kv.1 +:+ String "=" kv.2) = false.
Proof.
  intros (_ & H2 & H3). rewrite containsByte_app, H2. cbn [orb containsByte]. by rewrite H3.
Qed.

Lemma Split_printVNL kvs :
  Forall wf_setting kvs -> kvs <> [] ->
  Split "/" (printVNL kvs) = (fun kv => kv.1 +:+ String "=" kv.2) <$> kvs.
Proof.
  induction 1 as [|[k v] kvs Hkv Hkvs IH]; [done|]. intros _.
  apply setting_free in Hkv. cbn [fst snd] in Hkv. destruct kvs as [|kv' kvs].
  - cbn. by rewrite Split_none.
  - change (printVNL ((k, v) :: kv' :: kvs))
      with ((k +:+ String "=" v) +:+ String "/" (printVNL (kv' :: kvs))).
    rewrite Split_app by done. rewrite IH by done. done.
Qed.

Lemma ApplyVNL_settings kvs c :
  Forall wf_setting kvs -> ApplyVNL (printVNL kvs) c = foldl applyKV c kvs.
Proof.
  intros Hkvs. unfold ApplyVNL. destruct kvs as [|kv kvs]; [done|].
  assert (String.eqb (printVNL (kv :: kvs)) "" = false) as ->.
  { destruct kv as [k v], kvs; cbn [printVNL]; apply app_String_ne. }
  rewrite Split_printVNL by done. clear -Hkvs. revert c.
  induction Hkvs as [|kv' kvs' Hkv Hkvs IH]; intros c; [done|].
  cbn [fmap list_fmap foldl]. rewrite applyTok_setting by done. apply IH.
Qed.

(** The value the last setting of a key gives. *)
Definition lastOf {A} (key : string) (parse : string -> option A) (dflt : A)
    (kvs : list (string * string)) : A :=
  foldl (fun a kv => if String.eqb kv.1 key then default a (parse kv.2) else a) dflt kvs.

Lemma foldl_project {A} (proj : Config -> A) (f : A -> string * string -> A) kvs :
  (forall c kv, proj (applyKV c kv) = f (proj c) kv) ->
  forall c, proj (foldl applyKV c kvs) = foldl f (proj c) kvs.
Proof.
  intros Hstep. induction kvs as [|kv kvs IH]; intros c; [done|]. cbn [foldl].
  by rewrite IH, Hstep.
Qed.

(** The value of the last setting whose key is one of [keys]. *)
Definition lastAmong (keys : list string) (dflt : string) (kvs : list (string * string)) : string :=
  default dflt (last (filter (fun kv => kv.1 ∈ keys) kvs).*2).

Definition gatewayKeys : list string := ["gateway"; "host"; "addr"].

Lemma isGateway k :
  String.eqb k "gateway" || String.eqb k "host" || String.eqb k "addr" = bool_decide (k ∈ gatewayKeys).
Proof.
  apply eq_true_iff_eq. rewrite !orb_true_iff, !String.eqb_eq, bool_decide_eq_true. unfold gatewayKeys.
  rewrite !elem_of_cons, elem_of_nil. tauto.
Qed.

(** A setting is the gateway's exactly when its key is one of the three. *)
Lemma Gateway_applyKV c kv :
  wf_setting kv -> Gateway (applyKV c kv) = if bool_decide (kv.1 ∈ gatewayKeys) then kv.2 else Gateway c.
Proof.
  destruct kv as [k v]. intros (_ & _ & Hv). cbn [fst snd] in *. rewrite <- isGateway. unfold applyKV, applyKey.
  cbn [fst snd]. rewrite (Cut_none _ _ Hv).
  repeat match goal with
  | |- context [String.eqb k ?x] => destruct (String.eqb_spec k x); [subst k|]
  end; cbn; repeat case_match; done.
Qed.

Lemma Gateway_settings kvs : forall c,
  Forall wf_setting kvs -> Gateway (foldl applyKV c kvs) = lastAmong gatewayKeys (Gateway c) kvs.
Proof.
  unfold lastAmong. induction kvs as [|kv kvs IH]; intros c; [done|]. intros [Hkv Hkvs]%Forall_cons.
  cbn [foldl]. rewrite IH, Gateway_applyKV by done. destruct (decide (kv.1 ∈ gatewayKeys)) as [Hk|Hk].
  - rewrite bool_decide_true, filter_cons_True by done. cbn [fmap list_fmap]. rewrite last_cons.
    by destruct (last _).
  - by rewrite bool_decide_false, filter_cons_False by done.
Qed.

Ltac by_key :=
  let c0 := fresh in intros c0 [k v]; unfold applyKV, applyKey; cbn [fst snd];
  repeat match goal with
  | |- context [String.eqb k ?x] => destruct (String.eqb_spec k x); [subst k|]
  end; cbn; repeat case_match; try done.

(** what VNL parameters do. For settings whose keys and values hold no slash
    (nor an equals sign in the key), [ApplyVNL] of the joined text makes every
    field the last value its key gives (the last one that parses, for the numbers; the
    gateway has three keys, [gateway], [host] and [addr], and takes the last of them),
    keeps a field no key names, and never touches the fields VNL has no key for. *)
Theorem ApplyVNL_last_wins kvs c :
  Forall wf_setting kvs ->
  let c' := ApplyVNL (printVNL kvs) c in
  Socket c' = lastOf "socket" Some (Socket c) kvs /\
  Uplink c' = lastOf "uplink" Some (Uplink c) kvs /\
  Network c' = lastOf "network" Some (Network c) kvs /\
  Gateway c' = lastAmong gatewayKeys (Gateway c) kvs /\
  DHCPStart c' = lastOf "dhcp_start" Some (DHCPStart c) kvs /\
  MTU c' = lastOf "mtu" Atoi (MTU c) kvs /\
  Batch c' = lastOf "batch" Atoi (Batch c) kvs /\
  IPv6 c' = lastOf "v6" (fun v => Some (truthy v)) (IPv6 c) kvs /\
  Switch c' = lastOf "switch" (fun v => Some (Some (truthy v || String.eqb v "yes"))) (Switch c) kvs /\
  (IPv4 c', SocketFileLocation c', SocketMode c', Nameserver c', Hostname c', PortFwd c', Ports c',
   WireguardConfPath c') =
  (IPv4 c, SocketFileLocation c, SocketMode c, Nameserver c, Hostname c, PortFwd c, Ports c,
   WireguardConfPath c).
Proof.
  intros Hkvs c'. subst c'. rewrite ApplyVNL_settings by done. rewrite (Gateway_settings kvs c Hkvs). clear Hkvs.
  split_and!; try reflexivity; try match goal with |- ?proj (foldl applyKV c kvs) = _ =>
    unfold lastOf; apply (foldl_project proj); by_key end.
  set (proj := fun c => (IPv4 c, SocketFileLocation c, SocketMode c, Nameserver c, Hostname c,
    PortFwd c, Ports c, WireguardConfPath c)).
  change (proj (foldl applyKV c kvs) = proj c).
  rewrite (foldl_project proj (fun a _ => a)) by by_key.
  generalize (proj c). by induction kvs.
Qed.

Theorem ApplyVNL_last_wins_witness :
  ApplyVNL "uplink=none/mtu=900/mtu=x/uplink=tap:t0" Defaults =
    setUplink "tap:t0" (setMTU 900 Defaults) /\
  Uplink (ApplyVNL (printVNL [("uplink", "none"); ("mtu", "900"); ("mtu", "x"); ("uplink", "tap:t0")])
            Defaults) = "tap:t0".
Proof.
  split; [by vm_compute|].
  refine (eq_trans (proj1 (proj2 (ApplyVNL_last_wins
    [("uplink", "none"); ("mtu", "900"); ("mtu", "x"); ("uplink", "tap:t0")] Defaults _))) _).
  - repeat constructor.
  - by vm_compute.
Defined.

(** a slash in a value is lost. The parameters are split at slashes before the
    keys are, so a value holding a path or a prefix length keeps only the part in
    front of the first slash: for any key and any [a], [b] without further slashes
    or equals signs, [key=a/b] sets the key to [a] (and [b] is ignored unless it
    spells [switch] or [noswitch]). The socket path [/tmp/vde.socket] sets the empty
    socket, [10.9.0.0/24] a network that no longer parses. *)
Theorem ApplyVNL_slash_lost :
  (forall k a b c,
     wf_setting (k, a) -> containsByte "/" b = false -> containsByte "=" b = false ->
     b <> "switch" -> b <> "noswitch" ->
     ApplyVNL (k +:+ String "=" (a +:+ String "/" b)) c = applyKey k a c) /\
  Socket (ApplyVNL "socket=/tmp/vde.socket" (setSocket "/run/old" Defaults)) = "" /\
  Network (ApplyVNL "network=10.9.0.0/24" Defaults) = "10.9.0.0" /\
  ParseCIDR (Network (ApplyVNL "network=10.9.0.0/24" Defaults)) = None.
Proof.
  split; [|by vm_compute].
  intros k a b c Hw Hb Heq Hs Hn. unfold ApplyVNL. rewrite app_String_ne.
  change (String "=" (a +:+ String "/" b)) with (String "=" a +:+ String "/" b).
  rewrite <- string_app_assoc, Split_app by by apply (setting_free (k, a)).
  rewrite Split_none by done. cbn [foldl]. pose proof (applyTok_setting c (k, a) Hw) as E. cbn [fst snd] in E. rewrite E. clear E.
  unfold applyTok at 1, applyKV. cbn [fst snd]. destruct (String.eqb_spec b ""); [done|].
  rewrite Cut_none by done.
  destruct (String.eqb_spec b "switch"); [done|]. by destruct (String.eqb_spec b "noswitch").
Qed.
