(* ===== verification/Yaml.v ===== *)
(** * Yaml: what config.yaml sets

    The yaml tags of the Config struct (internal/config/config.go) as a table of typed
    fields, the decoder of gopkg.in/yaml.v3 as a class with the laws its documentation
    states, and what [Load] and [ApplyVNL] (Config.v) make of a file and a VNL string
    together: which source decides each field. *)
From S2P Require Import Prelude.
From S2P Require Import GoStd.
From S2P Require Import Config.
#[local] Open Scope string_scope.
#[local] Open Scope Z_scope.

(** ** The tagged fields *)

(** The Go types of the fields, and their values. *)
Inductive goType := TBool | TBoolPtr | TString | TUint32 | TInt | TStrings.

Definition goValue (t : goType) : Type :=
  match t with
  | TBool => bool | TBoolPtr => option bool | TString => string
  | TUint32 | TInt => Z | TStrings => list string
  end.

(** A field: its tag, its type, and how it is read and written. *)
Record field := mkField {
  tag : string;
  type : goType;
  get : Config -> goValue type;
  put : goValue type -> Config -> Config;
}.

Definition setIPv4 (v : bool) (c : Config) : Config :=
  mkConfig v (IPv6 c) (Switch c) (Socket c) (SocketFileLocation c) (SocketMode c) (Uplink c) (Network c) (Gateway c) (Nameserver c) (DHCPStart c) (Hostname c) (MTU c) (PortFwd c) (Ports c) (WireguardConfPath c) (Batch c).
Definition setSwitchPtr (v : option bool) (c : Config) : Config :=
  mkConfig (IPv4 c) (IPv6 c) v (Socket c) (SocketFileLocation c) (SocketMode c) (Uplink c) (Network c) (Gateway c) (Nameserver c) (DHCPStart c) (Hostname c) (MTU c) (PortFwd c) (Ports c) (WireguardConfPath c) (Batch c).
Definition setSocketFileLocation (v : string) (c : Config) : Config :=
  mkConfig (IPv4 c) (IPv6 c) (Switch c) (Socket c) v (SocketMode c) (Uplink c) (Network c) (Gateway c) (Nameserver c) (DHCPStart c) (Hostname c) (MTU c) (PortFwd c) (Ports c) (WireguardConfPath c) (Batch c).
Definition setSocketMode (v : Z) (c : Config) : Config :=
  mkConfig (IPv4 c) (IPv6 c) (Switch c) (Socket c) (SocketFileLocation c) v (Uplink c) (Network c) (Gateway c) (Nameserver c) (DHCPStart c) (Hostname c) (MTU c) (PortFwd c) (Ports c) (WireguardConfPath c) (Batch c).
Definition setNameserver (v : string) (c : Config) : Config :=
  mkConfig (IPv4 c) (IPv6 c) (Switch c) (Socket c) (SocketFileLocation c) (SocketMode c) (Uplink c) (Network c) (Gateway c) v (DHCPStart c) (Hostname c) (MTU c) (PortFwd c) (Ports c) (WireguardConfPath c) (Batch c).
Definition setHostname (v : string) (c : Config) : Config :=
  mkConfig (IPv4 c) (IPv6 c) (Switch c) (Socket c) (SocketFileLocation c) (SocketMode c) (Uplink c) (Network c) (Gateway c) (Nameserver c) (DHCPStart c) v (MTU c) (PortFwd c) (Ports c) (WireguardConfPath c) (Batch c).
Definition setPortFwd (v : bool) (c : Config) : Config :=
  mkConfig (IPv4 c) (IPv6 c) (Switch c) (Socket c) (SocketFileLocation c) (SocketMode c) (Uplink c) (Network c) (Gateway c) (Nameserver c) (DHCPStart c) (Hostname c) (MTU c) v (Ports c) (WireguardConfPath c) (Batch c).
Definition setPorts (v : list string) (c : Config) : Config :=
  mkConfig (IPv4 c) (IPv6 c) (Switch c) (Socket c) (SocketFileLocation c) (SocketMode c) (Uplink c) (Network c) (Gateway c) (Nameserver c) (DHCPStart c) (Hostname c) (MTU c) (PortFwd c) v (WireguardConfPath c) (Batch c).
Definition setWireguardConfPath (v : string) (c : Config) : Config :=
  mkConfig (IPv4 c) (IPv6 c) (Switch c) (Socket c) (SocketFileLocation c) (SocketMode c) (Uplink c) (Network c) (Gateway c) (Nameserver c) (DHCPStart c) (Hostname c) (MTU c) (PortFwd c) (Ports c) v (Batch c).

Definition f_ipv4 := mkField "ipv4" TBool IPv4 setIPv4.
Definition f_ipv6 := mkField "ipv6" TBool IPv6 setIPv6.
Definition f_switch := mkField "switch" TBoolPtr Switch setSwitchPtr.
Definition f_socket := mkField "socket" TString Socket setSocket.
Definition f_socket_file_location :=
  mkField "socket_file_location" TString SocketFileLocation setSocketFileLocation.
Definition f_socket_mode := mkField "socket_mode" TUint32 SocketMode setSocketMode.
Definition f_uplink := mkField "uplink" TString Uplink setUplink.
Definition f_network := mkField "network" TString Network setNetwork.
Definition f_gateway := mkField "gateway" TString Gateway setGateway.
Definition f_nameserver := mkField "nameserver" TString Nameserver setNameserver.
Definition f_dhcp_start := mkField "dhcp_start" TString DHCPStart setDHCPStart.
Definition f_hostname := mkField "hostname" TString Hostname setHostname.
Definition f_mtu := mkField "mtu" TInt MTU setMTU.
Definition f_portfwd := mkField "portfwd" TBool PortFwd setPortFwd.
Definition f_ports := mkField "ports" TStrings Ports setPorts.
Definition f_wireguard_conf_path :=
  mkField "wireguard_conf_path" TString WireguardConfPath setWireguardConfPath.
Definition f_batch := mkField "batch" TInt Batch setBatch.

(** The struct, field by field. *)
Definition configFields : list field :=
  [f_ipv4; f_ipv6; f_switch; f_socket; f_socket_file_location; f_socket_mode; f_uplink; f_network; f_gateway;
   f_nameserver; f_dhcp_start; f_hostname; f_mtu; f_portfwd; f_ports; f_wireguard_conf_path; f_batch].

(** ** The decoder *)

(** What the library reads: the mapping some bytes spell ([None]: no YAML, or no mapping),
    and one value decoded into a field that holds another. *)
Class Yaml := {
  node : Type;
  document : bytes -> option (list (string * node));
  decode : forall t, node -> goValue t -> result (goValue t);
}.

Section Decoder.
Context `{Y : Yaml}.

(** One key of the mapping: the field with that tag is decoded, an unknown key is ignored. *)
Definition decodeKey (fs : list field) (k : string) (n : node) (c : Config) : result Config :=
  match find (fun f => String.eqb (tag f) k) fs with
  | None => Ok c
  | Some f => v ← decode (type f) n (get f c); Ok (put f v c)
  end.

Fixpoint decodeDoc (fs : list field) (doc : list (string * node)) (c : Config) : result Config :=
  match doc with
  | [] => Ok c
  | (k, n) :: doc => c ← decodeKey fs k n c; decodeDoc fs doc c
  end.

End Decoder.

(** What the documentation promises of [yaml.Unmarshal], into a struct described by its
    fields: keys are decoded into the fields with their tags, other keys are ignored, a
    value that does not fit is an error of the whole call, and a mapping has a key once. *)
Class YamlLaws `{Y : Yaml} (Unmarshal : list field -> bytes -> Config -> result Config) : Prop := {
  document_keys b doc : document b = Some doc -> NoDup doc.*1;
  Unmarshal_document fs b doc c c' :
    document b = Some doc -> (Unmarshal fs b c = Ok c' <-> decodeDoc fs doc c = Ok c');
  Unmarshal_malformed fs b c c' : document b = None -> Unmarshal fs b c <> Ok c';
}.

(** ** The fields are independent *)

Lemma tags_distinct : NoDup (tag <$> configFields).
Proof. apply (bool_decide_unpack _). by vm_compute. Qed.

Lemma put_get f v c : f ∈ configFields -> get f (put f v c) = v.
Proof.
  assert (H : Forall (fun f => forall v c, get f (put f v c) = v) configFields).
  { unfold configFields. repeat (apply Forall_cons; split; [done|]). by apply Forall_nil. }
  rewrite Forall_forall in H. intros Hf. by apply H.
Qed.

Lemma put_other f g v c :
  f ∈ configFields -> g ∈ configFields -> tag f <> tag g -> get g (put f v c) = get g c.
Proof.
  assert (H : Forall (fun f => Forall (fun g =>
    forall v c, tag f <> tag g -> get g (put f v c) = get g c) configFields) configFields).
  { unfold configFields at 2. repeat (apply Forall_cons; split; [unfold configFields;
      repeat (apply Forall_cons; split; [done|]); apply Forall_nil; done|]). by apply Forall_nil. }
  intros Hf Hg. rewrite Forall_forall in H. specialize (H f Hf). rewrite Forall_forall in H. by apply H.
Qed.

Lemma find_field f : f ∈ configFields -> find (fun g => String.eqb (tag g) (tag f)) configFields = Some f.
Proof.
  assert (H : Forall (fun f => find (fun g => String.eqb (tag g) (tag f)) configFields = Some f) configFields).
  { unfold configFields at 2. repeat (apply Forall_cons; split; [done|]). by apply Forall_nil. }
  rewrite Forall_forall in H. apply H.
Qed.

Lemma find_tag k g :
  find (fun f => String.eqb (tag f) k) configFields = Some g -> g ∈ configFields /\ tag g = k.
Proof.
  intros [Hin Ht]%find_some. split; [by apply list_elem_of_In|by apply String.eqb_eq].
Qed.

Section File.
Context `{Y : Yaml} {Unmarshal : list field -> bytes -> Config -> result Config} `{L : !YamlLaws Unmarshal}.

(** The value a document gives a field: its key's, decoded over the default. *)
Definition fileValue (doc : list (string * node)) (f : field) (old v : goValue (type f)) : Prop :=
  match (list_to_map doc : gmap string node) !! tag f with
  | None => v = old
  | Some n => decode (type f) n old = Ok v
  end.

Lemma decodeKey_field k n c c' f :
  decodeKey configFields k n c = Ok c' -> f ∈ configFields ->
  if decide (k = tag f) then decode (type f) n (get f c) = Ok (get f c') else get f c' = get f c.
Proof.
  unfold decodeKey. intros H Hf. destruct (decide (k = tag f)) as [->|Hne].
  - rewrite find_field in H by done. destruct (decode _ n _) as [v|] eqn:E; [|done]. injection H as <-.
    by rewrite put_get.
  - destruct (find _ _) as [g|] eqn:Eg; [|by injection H as <-]. apply find_tag in Eg as [Hg <-].
    destruct (decode _ n _) as [v|]; [|done]. injection H as <-. by apply put_other.
Qed.

Lemma decodeDoc_field f : f ∈ configFields -> forall doc c c',
  NoDup doc.*1 -> decodeDoc configFields doc c = Ok c' -> fileValue doc f (get f c) (get f c').
Proof.
  intros Hf doc. induction doc as [|[k n] doc IH]; intros c c' Hnd H; cbn [decodeDoc] in H.
  { by injection H as <-. }
  destruct (decodeKey configFields k n c) as [c1|] eqn:E; [|done]. cbn [mbind result_bind] in H.
  cbn [fmap list_fmap fst] in Hnd. apply NoDup_cons in Hnd as [Hk Hnd].
  specialize (IH c1 c' Hnd H). pose proof (decodeKey_field k n c c1 f E Hf) as Hkey.
  unfold fileValue in *. cbn [list_to_map foldr fst snd]. destruct (decide (k = tag f)) as [->|Hne].
  - rewrite lookup_insert_eq. rewrite not_elem_of_list_to_map_1 in IH by done. by rewrite IH.
  - rewrite lookup_insert_ne by done. by rewrite <- Hkey.
Qed.

(** C22: who decides a setting. A file [Load] accepts is a mapping; every field is
    decoded from the key of its tag over the default, and keeps the default if
    the file has no such key, whatever other keys there are. A non-empty
    [socket_file_location] replaces the socket. For a VNL string of settings, with no slash inside
    a key or a value, each of the fields it has keys for is then
    the last value the string gives it (the gateway under any of its keys [gateway], [host]
    and [addr]), or the file's; it changes no other field. *)
Theorem settings_decided b kvs c :
  Load (Unmarshal configFields) (Data b) = Ok c -> Forall wf_setting kvs ->
  exists doc file, document b = Some doc /\
    (forall f, f ∈ configFields -> fileValue doc f (get f Defaults) (get f file)) /\
    let c' := ApplyVNL (printVNL kvs) c in
    Socket c' = lastOf "socket" Some
      (if String.eqb (SocketFileLocation file) "" then Socket file else SocketFileLocation file) kvs /\
    Uplink c' = lastOf "uplink" Some (Uplink file) kvs /\
    Network c' = lastOf "network" Some (Network file) kvs /\
    Gateway c' = lastAmong gatewayKeys (Gateway file) kvs /\
    DHCPStart c' = lastOf "dhcp_start" Some (DHCPStart file) kvs /\
    MTU c' = lastOf "mtu" Atoi (MTU file) kvs /\
    Batch c' = lastOf "batch" Atoi (Batch file) kvs /\
    IPv6 c' = lastOf "v6" (fun v => Some (truthy v)) (IPv6 file) kvs /\
    Switch c' = lastOf "switch" (fun v => Some (Some (truthy v || String.eqb v "yes"))) (Switch file) kvs /\
    (IPv4 c', SocketFileLocation c', SocketMode c', Nameserver c', Hostname c', PortFwd c', Ports c',
     WireguardConfPath c') =
    (IPv4 file, SocketFileLocation file, SocketMode file, Nameserver file, Hostname file, PortFwd file,
     Ports file, WireguardConfPath file).
Proof.
  intros H Hk. unfold Load in H.
  destruct (Unmarshal configFields b Defaults) as [file|e] eqn:EU; [|done]. cbn [mbind result_bind] in H.
  destruct (document b) as [doc|] eqn:ED; [|by apply (Unmarshal_malformed configFields b Defaults file) in ED].
  exists doc, file. split; [done|]. split.
  { intros f Hf. apply decodeDoc_field; [done|by eapply document_keys|]. by apply (Unmarshal_document _ b). }
  injection H as <-. pose proof (ApplyVNL_last_wins kvs
    (if String.eqb (SocketFileLocation file) "" then file else setSocket (SocketFileLocation file) file) Hk) as HV.
  cbv zeta in HV |- *. by destruct (String.eqb (SocketFileLocation file) "").
Qed.

(** Every key of the mapping that has a field spells a value of it. *)
Definition fits (c : Config) (kn : string * node) : Prop :=
  forall f, f ∈ configFields -> tag f = kn.1 -> exists v, decode (type f) kn.2 (get f c) = Ok v.

Lemma decodeDoc_fits doc : forall c,
  NoDup doc.*1 -> (exists c', decodeDoc configFields doc c = Ok c') <-> Forall (fits c) doc.
Proof.
  induction doc as [|[k n] doc IH]; intros c Hnd; cbn [decodeDoc].
  { split; [constructor|by exists c]. }
  cbn [fmap list_fmap fst] in Hnd. apply NoDup_cons in Hnd as [Hk Hnd]. rewrite Forall_cons.
  destruct (decodeKey configFields k n c) as [c1|e] eqn:E; cbn [mbind result_bind].
  - assert (Hrest : Forall (fits c1) doc <-> Forall (fits c) doc).
    { assert (Hiff : forall kn, kn ∈ doc -> fits c1 kn <-> fits c kn);
        [|rewrite !Forall_forall; split; intros H kn Hin; by apply Hiff, H].
      intros [k' n'] Hin. unfold fits. cbn [fst snd].
      assert (k <> k') by (intros ->; apply Hk, list_elem_of_fmap; by exists (k', n')).
      assert (Hsame : forall f, f ∈ configFields -> tag f = k' -> get f c1 = get f c).
      { intros f Hf Ht. pose proof (decodeKey_field k n c c1 f E Hf) as H'.
        rewrite decide_False in H' by congruence. done. }
      split; intros H' f Hf Ht; specialize (H' f Hf Ht); [by rewrite <- Hsame|by rewrite Hsame]. }
    rewrite (IH c1 Hnd), Hrest. split; [|tauto]. intros H. split; [|done].
    intros f Hf Ht. cbn [fst snd] in Ht |- *. pose proof (decodeKey_field k n c c1 f E Hf) as H'.
    rewrite decide_True in H' by done. by eexists.
  - split; [by intros [? ?]|]. intros [H _]. exfalso. unfold decodeKey in E.
    destruct (find _ _) as [g|] eqn:Eg; [|done]. apply find_tag in Eg as [Hg Ht].
    destruct (H g Hg Ht) as [v Hv]. cbn [snd] in Hv. by rewrite Hv in E.
Qed.

(** errors. [Load] refuses a file that is no mapping, and one in which the value of a key the
    struct has a tag for does not fit the field; no other key can make it fail. *)
Theorem Load_errors b :
  (exists c, Load (Unmarshal configFields) (Data b) = Ok c) <->
  exists doc, document b = Some doc /\ Forall (fits Defaults) doc.
Proof.
  unfold Load. split.
  - intros [c H]. destruct (Unmarshal configFields b Defaults) as [file|e] eqn:EU; [|done].
    destruct (document b) as [doc|] eqn:ED; [|by apply (Unmarshal_malformed configFields b Defaults file) in ED].
    exists doc. split; [done|]. apply decodeDoc_fits; [by eapply document_keys|].
    exists file. by apply (Unmarshal_document _ b).
  - intros (doc & ED & Hfit). apply decodeDoc_fits in Hfit as [file H]; [|by eapply document_keys].
    apply (Unmarshal_document _ b) in H; [|done]. rewrite H. by eexists.
Qed.

(** The values for which the file and the VNL string mean the same by a key they share. *)
Inductive sameSetting : string -> string -> node -> Prop :=
| same_string k v n :
    k ∈ ["socket"; "uplink"; "network"; "dhcp_start"] -> (forall old, decode TString n old = Ok v) ->
    sameSetting k v n
| same_gateway v n :
    containsByte "/" v = false -> (forall old, decode TString n old = Ok v) -> sameSetting "gateway" v n
| same_number k v m n :
    k ∈ ["mtu"; "batch"] -> Atoi v = Some m -> (forall old, decode TInt n old = Ok m) -> sameSetting k v n
| same_switch v n :
    (forall old, decode TBoolPtr n old = Ok (Some (truthy v || String.eqb v "yes"))) ->
    sameSetting "switch" v n.

(** the two sources agree. A key both know, with a value both spell, has the same
    effect in the file as in the VNL string; the gateway's address must come without a
    prefix length, which only the VNL string cuts off. *)
Theorem file_vnl_agree k v n c :
  sameSetting k v n -> decodeKey configFields k n c = Ok (applyKey k v c).
Proof.
  intros [k' v' n' Hk H|v' n' Hs H|k' v' m n' Hk Hm H|v' n' H]; unfold decodeKey.
  - rewrite !elem_of_cons in Hk. destruct Hk as [->|[->|[->|[->|[]%elem_of_nil]]]]; cbn; by rewrite H.
  - cbn. rewrite H. cbn. unfold applyKey. cbn. destruct (Cut "/" v') as [[x y]|] eqn:E; [|done].
    by rewrite Cut_none in E.
  - rewrite !elem_of_cons in Hk. destruct Hk as [->|[->|[]%elem_of_nil]]; cbn; rewrite H;
      unfold applyKey; cbn; by rewrite Hm.
  - cbn. by rewrite H.
Qed.

End File.

(** ** A reader of one file, to evaluate the decoder *)

Definition demoFile : bytes := [1].

#[export] Instance RefYaml : Yaml := {
  node := string;
  document b :=
    if bool_decide (b = demoFile)
    then Some [("engine", "podman"); ("socket", "/run/a"); ("uplink", "tap:t0"); ("mtu", "1400");
               ("socket_file_location", "/run/b"); ("switch", "true"); ("ports", "2222:22,8080:80")]
    else None;
  decode t n old :=
    match t with
    | TBool => if String.eqb n "true" then Ok true else Err "bool"
    | TBoolPtr => if String.eqb n "true" then Ok (Some true) else Err "bool"
    | TString => Ok n
    | TUint32 | TInt => match Atoi n with Some m => Ok m | None => Err "int" end
    | TStrings => Ok (Split "," n)
    end;
}.

Definition refUnmarshal (fs : list field) (b : bytes) (c : Config) : result Config :=
  match document b with Some doc => decodeDoc fs doc c | None => Err "yaml" end.

#[export] Instance RefYamlLaws : YamlLaws refUnmarshal.
Proof.
  split; unfold refUnmarshal.
  - intros b doc. cbn. destruct (bool_decide _); [|done]. intros [= <-].
    apply (bool_decide_unpack _). by vm_compute.
  - by intros fs b doc c c' ->.
  - by intros fs b c c' ->.
Qed.

Definition demoSettings : list (string * string) := [("addr", "10.9.0.1"); ("uplink", "none"); ("batch", "64"); ("host", "10.9.0.2")].

Theorem settings_decided_witness :
  exists c, Load (refUnmarshal configFields) (Data demoFile) = Ok c /\
    let c' := ApplyVNL (printVNL demoSettings) c in
    exists file, Socket c' = (if String.eqb (SocketFileLocation file) "" then Socket file
                              else SocketFileLocation file) /\
    Gateway c' = "10.9.0.2" /\ Socket c' = "/run/b" /\ Uplink c' = "none" /\ MTU c' = 1400 /\ Batch c' = 64.
Proof.
  eexists. split; [by vm_compute|].
  destruct (settings_decided demoFile demoSettings _ ltac:(by vm_compute) ltac:(repeat constructor))
    as (doc & file & _ & _ & H). exists file. split; [exact (proj1 H)|by vm_compute].
Defined.

Theorem file_vnl_agree_witness :
  sameSetting "mtu" "1400" "1400" /\
  decodeKey configFields "mtu" "1400" Defaults = Ok (applyKey "mtu" "1400" Defaults).
Proof.
  assert (H : sameSetting "mtu" "1400" "1400")
    by (apply (same_number "mtu" "1400" 1400); [by left|by vm_compute|by vm_compute]).
  split; [exact H|]. exact (file_vnl_agree "mtu" "1400" "1400" Defaults H).
Defined.
