(* ===== verification/Icmp.v ===== *)
(** * Icmp: internal/nat/icmp.go

    The ICMP echo relay: [parseEchoRequest] reads a guest frame, [HandleFrame]
    records a flow and emits a host echo request, [handleReply] puts the host's
    reply back into a guest frame ([buildEchoReply]); [icmpChecksum] is the
    Internet checksum. The flow table is a map from our sequence number; time is an
    argument (nanoseconds); the host socket's answer to a send is an argument, what
    is sent is returned. gVisor's header package is the parameter [NetHeader]. *)
From S2P Require Import Prelude.
From S2P Require Import GoStd.
From S2P Require Import NetLib.

(** ** The Internet checksum *)

(** The summing loop, two bytes a turn, in [uint32]. *)
Fixpoint csumLoop (b : bytes) (sum : Z) : Z :=
  match b with
  | x :: y :: rest => csumLoop rest (u32 (sum + Z.lor y (Z.shiftl x 8)))
  | [x] => u32 (sum + u32 (Z.shiftl x 8))
  | [] => sum
  end.

(** The folding loop [for sum>>16 != 0]. *)
Fixpoint foldLoop (fuel : nat) (sum : Z) : Z :=
  match fuel with
  | O => sum
  | S fuel =>
      if Z.shiftr sum 16 =? 0 then sum
      else foldLoop fuel (u32 (Z.shiftr sum 16 + Z.land sum 0xffff))
  end.

Definition icmpChecksum (b : bytes) : Z := not16 (u16 (foldLoop 3 (csumLoop b 0))).

(** ** The relay *)

Record icmpFlow := mkFlow {
  fl_guestMAC : bytes;
  fl_guestIP : bytes;
  fl_dst : bytes;
  fl_id : Z;
  fl_seq : Z;
  fl_deadline : Z;
  fl_srcMAC : bytes;
}.

Record ICMPRelay := mkRelay {
  r_srcMAC : bytes;
  r_hostID : Z;
  r_fd : Z;
  r_flows : gmap Z icmpFlow;
  r_seq : Z;
}.

(** [icmpFlowTTL]: 30 seconds. *)
Definition icmpFlowTTL : Z := 30 * 10 ^ 9.

(** [NewICMPRelay]: the socket is there or it is not. *)
Definition NewICMPRelay (srcMAC : bytes) (socket : option (Z * Z)) : ICMPRelay :=
  match socket with
  | None => mkRelay srcMAC 0 (-1) ∅ 0
  | Some (fd, id) => mkRelay srcMAC id fd ∅ 0
  end.

Definition setFlows (fs : gmap Z icmpFlow) (r : ICMPRelay) : ICMPRelay :=
  mkRelay (r_srcMAC r) (r_hostID r) (r_fd r) fs (r_seq r).

Definition sweepLocked (now : Z) (r : ICMPRelay) : ICMPRelay :=
  setFlows (filter (fun kv => ~ fl_deadline kv.2 < now) (r_flows r)) r.

(** The packet [sendEchoRequest] hands to the socket. *)
Definition sendEchoRequest (hostID seq : Z) (payload : bytes) : bytes :=
  let pkt := zeros (Z.to_nat (ICMPv4MinimumSize + len payload)) in
  let pkt := copy_at 0 [ICMPv4Echo] pkt in
  let pkt := copy_at 4 (put16 hostID) pkt in
  let pkt := copy_at 6 (put16 seq) pkt in
  let pkt := copy_at 8 payload pkt in
  copy_at 2 (put16 (icmpChecksum pkt)) pkt.

Section Relay.
Context `{H : NetHeader}.

Definition parseEchoRequest (frame : bytes) : go (option (bytes * Z * Z * bytes)) :=
  if len frame <? EthernetMinimumSize + IPv4MinimumSize + ICMPv4MinimumSize then Done None else
  ethType ← (b ← slice frame 12 14; be16 b);
  if negb (ethType =? 0x0800) then Done None else
  ip ← slice_from frame EthernetMinimumSize;
  proto ← ip4_Protocol ip;
  if negb (proto =? ICMPv4ProtocolNumber) then Done None else
  ihl ← ip4_HeaderLength ip;
  if len frame <? EthernetMinimumSize + ihl + ICMPv4MinimumSize then Done None else
  icmp ← slice_from frame (EthernetMinimumSize + ihl);
  type ← idx icmp 0;
  if negb (type =? ICMPv4Echo) then Done None else
  total ← ip4_TotalLength ip;
  let total :=
    if (total <? ihl + ICMPv4MinimumSize) || (len frame <? EthernetMinimumSize + total)
    then len frame - EthernetMinimumSize else total in
  dstIP ← ip4_DestinationAddress ip;
  let dst := copy_at 0 dstIP (zeros 4) in
  id ← (b ← slice icmp 4 6; be16 b);
  seq ← (b ← slice icmp 6 8; be16 b);
  payload ← slice icmp ICMPv4MinimumSize (total - ihl);
  Done (Some (dst, id, seq, payload)).

(** [HandleFrame]: whether the frame was consumed, the echo request sent (with
    its destination) if any, the new state. [relay] is [None] for a nil receiver;
    [sendOk] says whether the socket takes the packet. *)
Definition HandleFrame (now : Z) (sendOk : bool) (own : gset bytes) (frame : bytes)
    (relay : option ICMPRelay) : go (bool * option (bytes * bytes) * option ICMPRelay) :=
  match relay with
  | None => Done (false, None, relay)
  | Some r =>
      if r_fd r <? 0 then Done (false, None, relay) else
      e ← parseEchoRequest frame;
      match e with
      | None => Done (false, None, relay)
      | Some (dst4, id, seq, payload) =>
          if bool_decide (dst4 ∈ own) then Done (false, None, relay) else
          b26 ← idx frame 26; b27 ← idx frame 27; b28 ← idx frame 28; b29 ← idx frame 29;
          mac ← slice frame 6 12;
          let flow := mkFlow (copy_at 0 mac (zeros 6)) [b26; b27; b28; b29] dst4 id seq
                             (now + icmpFlowTTL) (r_srcMAC r) in
          let ourSeq := u16 (r_seq r + 1) in
          let r := mkRelay (r_srcMAC r) (r_hostID r) (r_fd r) (r_flows r) ourSeq in
          let r := sweepLocked now r in
          let r := setFlows (<[ourSeq := flow]> (r_flows r)) r in
          let sent := Some (sendEchoRequest (r_hostID r) ourSeq payload, dst4) in
          if sendOk then Done (true, sent, Some r)
          else Done (false, sent, Some (setFlows (delete ourSeq (r_flows r)) r))
      end
  end.

Definition buildEchoReply (flow : icmpFlow) (replySrc payload : bytes) : bytes :=
  let icmpLen := ICMPv4MinimumSize + len payload in
  let ipLen := IPv4MinimumSize + icmpLen in
  let icmp := zeros (Z.to_nat icmpLen) in
  let icmp := copy_at 0 [ICMPv4EchoReply] icmp in
  let icmp := copy_at 4 (put16 (fl_id flow)) icmp in
  let icmp := copy_at 6 (put16 (fl_seq flow)) icmp in
  let icmp := copy_at 8 payload icmp in
  let icmp := copy_at 2 (put16 (icmpChecksum icmp)) icmp in
  let ip := ip4_Encode (mkIPv4 (u16 ipLen) 64 ICMPv4ProtocolNumber replySrc (fl_guestIP flow))
                       (zeros (Z.to_nat IPv4MinimumSize) ++ icmp) in
  let ip := ip4_SetChecksum (not16 (ip4_CalculateChecksum ip)) ip in
  eth_Encode (mkEth (fl_srcMAC flow) (fl_guestMAC flow) 0x0800)
             (zeros (Z.to_nat EthernetMinimumSize) ++ ip).

(** [handleReply]: the frame delivered to the guest, if any. *)
Definition handleReply (pkt replySrc : bytes) (r : ICMPRelay) : go (option bytes * ICMPRelay) :=
  if len pkt <? ICMPv4MinimumSize then Done (None, r) else
  t ← idx pkt 0;
  if negb (t =? ICMPv4EchoReply) then Done (None, r) else
  seq ← (b ← slice pkt 6 8; be16 b);
  match r_flows r !! seq with
  | None => Done (None, r)
  | Some flow =>
      payload ← slice_from pkt ICMPv4MinimumSize;
      Done (Some (buildEchoReply flow replySrc payload), setFlows (delete seq (r_flows r)) r)
  end.

(** What [Recvfrom] returns: an error, a packet with its IPv4 source, or one from another kind
    of address. *)
Inductive echoRecv := RecvErr | RecvV4 (pkt src : bytes) | RecvOther.
#[export] Instance echoRecv_eq_dec : EqDecision echoRecv.
Proof. solve_decision. Defined.

(** [readLoop]; in front of each read the other goroutines have changed the relay
    ([env]). The frames delivered, and whether the loop has ended. *)
Fixpoint readLoop (turns : list ((ICMPRelay -> ICMPRelay) * echoRecv)) (r : ICMPRelay)
  : go (list bytes * ICMPRelay * bool) :=
  match turns with
  | [] => Done ([], r, false)
  | (env, recv) :: turns =>
      let r := env r in
      match recv with
      | RecvErr => Done ([], r, true)
      | RecvOther => readLoop turns r
      | RecvV4 pkt src =>
          '(f, r) ← handleReply pkt src r;
          '(fs, r, ended) ← readLoop turns r;
          Done (option_list f ++ fs, r, ended)
      end
  end.

End Relay.

(** ** The host socket *)

(** [openEchoSocket] on the set of open descriptors: whether the socket opens and binds, and
    the port of its IPv4 name, if it has one. *)
Definition openEchoSocket (opens binds : bool) (name : option (option Z)) (fds : gset nat)
  : result (nat * Z) * gset nat :=
  if negb opens then (Err "socket icmp", fds) else
  let fd := fresh fds in
  let fds := {[fd]} ∪ fds in
  if negb binds then (Err "bind icmp", fds ∖ {[fd]}) else
  match name with
  | None => (Err "getsockname icmp", fds ∖ {[fd]})
  | Some None => (Err "icmp socket without an echo id", fds ∖ {[fd]})
  | Some (Some port) =>
      if port =? 0 then (Err "icmp socket without an echo id", fds ∖ {[fd]})
      else (Ok (fd, u16 port), fds)
  end.

(** ** Checksum arithmetic *)

Lemma pair_ind (P : bytes -> Prop) :
  P [] -> (forall x, P [x]) -> (forall x y b, P b -> P (x :: y :: b)) -> forall b, P b.
Proof.
  intros H0 H1 H2 b. enough (P b /\ forall x, P (x :: b)) by tauto.
  induction b as [|x b [IH1 IH2]]; [auto|]. split; [auto|]. intros y. by apply H2.
Qed.

Lemma sum16_bound b : wf_bytes b -> 0 <= sum16 b <= 65535 * ((len b + 1) / 2).
Proof.
  induction b as [|x|x y b IH] using pair_ind; intros Hwf; cbn [sum16].
  - by cbn.
  - apply Forall_cons in Hwf as [Hx _]. unfold is_byte in Hx. change (len [x]) with 1.
    change ((1 + 1) / 2) with 1. lia.
  - apply Forall_cons in Hwf as [Hx Hwf]. apply Forall_cons in Hwf as [Hy Hwf].
    unfold is_byte in *. specialize (IH Hwf). rewrite !len_cons.
    replace (len b + 1 + 1 + 1) with (len b + 1 + 1 * 2) by lia. rewrite Z.div_add by lia. lia.
Qed.

Lemma csumLoop_sum b : forall s,
  wf_bytes b -> 0 <= s -> s + sum16 b < 2 ^ 32 -> csumLoop b s = s + sum16 b.
Proof.
  induction b as [|x|x y b IH] using pair_ind; intros s Hwf Hs Hb; cbn [csumLoop sum16] in *.
  - lia.
  - apply Forall_cons in Hwf as [Hx _]. unfold is_byte in Hx.
    rewrite Z.shiftl_mul_pow2 by lia. unfold u32. rewrite (Z.mod_small (x * 2 ^ 8)), Z.mod_small by lia. lia.
  - apply Forall_cons in Hwf as [Hx Hwf]. apply Forall_cons in Hwf as [Hy Hwf].
    pose proof (proj1 (sum16_bound b Hwf)). unfold is_byte in *.
    rewrite lor_shiftl_add by lia. change (2 ^ 8) with 256.
    unfold u32. rewrite Z.mod_small by lia. rewrite IH by (done || lia). lia.
Qed.

(** Ones'-complement folding: 16 bits, the residue modulo 65535, and zero only
    for zero; two turns reach the fixpoint. *)
Lemma fold_step x :
  0 <= x < 2 ^ 32 -> u32 (Z.shiftr x 16 + Z.land x 0xffff) = x / 65536 + x mod 65536.
Proof.
  intros Hx. change 0xffff with (Z.ones 16). rewrite Z.land_ones, Z.shiftr_div_pow2 by lia.
  change (2 ^ 16) with 65536. apply Z.mod_small. Z.to_euclidean_division_equations; lia.
Qed.

Lemma foldLoop_spec fuel x :
  0 <= x < 2 ^ 32 ->
  exists k, 0 <= k /\ foldLoop (S (S fuel)) x = x - 65535 * k /\
    0 <= foldLoop (S (S fuel)) x <= 65535 /\ (x <> 0 -> foldLoop (S (S fuel)) x <> 0).
Proof.
  intros Hx. cbn [foldLoop].
  assert (Hsmall : forall y n, 0 <= y <= 65535 -> foldLoop n y = y).
  { intros y [|n] Hy; [done|]. cbn [foldLoop]. rewrite Z.shiftr_div_pow2 by lia.
    by rewrite Z.div_small by lia. }
  rewrite fold_step by done. rewrite Z.shiftr_div_pow2 by lia. change (2 ^ 16) with 65536.
  destruct (Z.eqb_spec (x / 65536) 0) as [E|E].
  { exists 0. Z.to_euclidean_division_equations; lia. }
  set (y := x / 65536 + x mod 65536).
  assert (Hy : 0 < y <= 131070) by (subst y; Z.to_euclidean_division_equations; lia).
  rewrite fold_step by lia. rewrite Z.shiftr_div_pow2 by lia. change (2 ^ 16) with 65536.
  destruct (Z.eqb_spec (y / 65536) 0) as [E'|E'].
  { exists (x / 65536). subst y. Z.to_euclidean_division_equations; lia. }
  assert (Hz : 0 < y / 65536 + y mod 65536 <= 65535)
    by (clearbody y; Z.to_euclidean_division_equations; lia).
  rewrite Hsmall by lia. exists (x / 65536 + 1).
  assert (y / 65536 + y mod 65536 = y - 65535)
    by (clearbody y; Z.to_euclidean_division_equations; lia).
  split_and!; [subst y; Z.to_euclidean_division_equations; lia| |lia..].
  rewrite H. subst y. Z.to_euclidean_division_equations; lia.
Qed.

Lemma icmpChecksum_sum b :
  wf_bytes b -> len b <= 131070 ->
  exists k, 0 <= k /\ icmpChecksum b = 65535 - (sum16 b - 65535 * k) /\
    0 <= icmpChecksum b <= 65535 /\ (sum16 b <> 0 -> icmpChecksum b <> 65535).
Proof.
  intros Hwf Hlen. pose proof (sum16_bound b Hwf) as Hb.
  assert (Hs : 0 <= sum16 b < 2 ^ 32).
  { assert ((len b + 1) / 2 < 65536) by (apply Z.div_lt_upper_bound; lia). lia. }
  unfold icmpChecksum. rewrite csumLoop_sum by (done || lia). rewrite Z.add_0_l.
  destruct (foldLoop_spec 1 (sum16 b) Hs) as (k & Hk & E & Hr & Hnz).
  assert (u16 (foldLoop 3 (sum16 b)) = foldLoop 3 (sum16 b)) as -> by (apply Z.mod_small; lia).
  rewrite not16_sub by done. exists k. rewrite E in *. lia.
Qed.

Lemma sum16_put16 t c ck rest :
  0 <= ck < 65536 -> sum16 ([t; c] ++ put16 ck ++ rest) = sum16 ([t; c] ++ [0; 0] ++ rest) + ck.
Proof.
  intros Hck. unfold put16. cbn [app sum16]. rewrite !land_255, Z.shiftr_div_pow2 by lia.
  change (2 ^ 8) with 256. rewrite (Z.mod_small (ck / 256)).
  - pose proof (Z.div_mod ck 256). lia.
  - split; [apply Z.div_pos; lia|apply Z.div_lt_upper_bound; lia].
Qed.

Lemma icmpChecksum_fills t c rest :
  wf_bytes ([t; c] ++ rest) -> len rest <= 131066 ->
  let ck := icmpChecksum ([t; c] ++ [0; 0] ++ rest) in
  0 <= ck < 65536 /\ icmpChecksum ([t; c] ++ put16 ck ++ rest) = 0.
Proof.
  intros Hwf Hlen ck. apply Forall_app in Hwf as [Htc Hrest].
  assert (Hwf0 : wf_bytes ([t; c] ++ [0; 0] ++ rest)).
  { apply Forall_app; split; [done|]. apply Forall_app; split; [|done].
    repeat constructor; done. }
  assert (Hwf1 : wf_bytes ([t; c] ++ put16 ck ++ rest)).
  { apply Forall_app; split; [done|]. apply Forall_app; split; [apply wf_put16|done]. }
  destruct (icmpChecksum_sum _ Hwf0) as (k & Hk & E & Hr & Hnz).
  { rewrite !len_app. change (len [t; c]) with 2. change (len [0; 0]) with 2. lia. }
  fold ck in E, Hr, Hnz. split; [lia|].
  destruct (icmpChecksum_sum _ Hwf1) as (k1 & Hk1 & E1 & Hr1 & Hnz1).
  { rewrite !len_app, len_put16. change (len [t; c]) with 2. lia. }
  pose proof (sum16_put16 t c ck rest ltac:(lia)) as Hs.
  pose proof (sum16_bound _ Hwf0). rewrite Hs in *.
  destruct (Z.eq_dec (sum16 ([t; c] ++ [0; 0] ++ rest)) 0); lia.
Qed.

Lemma foldLoop_fuel fuel x : 0 <= x < 2 ^ 32 -> foldLoop (3 + fuel) x = foldLoop 3 x.
Proof.
  intros Hx. destruct (foldLoop_spec (S fuel) x Hx) as (a & Ha & Ea & Hra & Hna).
  destruct (foldLoop_spec 1 x Hx) as (b & Hb & Eb & Hrb & Hnb).
  change (S (S 1)) with 3%nat in *. change (3 + fuel)%nat with (S (S (S fuel))).
  destruct (Z.eq_dec x 0); lia.
Qed.

(** the checksum verifies. Filling the checksum field of a packet (zero
    before) with [icmpChecksum] of it makes [icmpChecksum] of the result zero, the
    receiver's test, for every packet of up to 131070 bytes; the 32-bit sum cannot
    overflow there, and the folding loop ends within two turns, so the fuel 3 is
    enough: more of it changes nothing. *)
Theorem icmpChecksum_verifies t c rest :
  wf_bytes ([t; c] ++ rest) -> len rest <= 131066 ->
  let ck := icmpChecksum ([t; c] ++ [0; 0] ++ rest) in
  0 <= ck < 65536 /\
  icmpChecksum ([t; c] ++ put16 ck ++ rest) = 0 /\
  forall fuel, foldLoop (3 + fuel) (csumLoop rest 0) = foldLoop 3 (csumLoop rest 0).
Proof.
  intros Hwf Hlen ck. destruct (icmpChecksum_fills t c rest Hwf Hlen) as [H1 H2].
  split; [done|]. split; [done|]. intros fuel. apply Forall_app in Hwf as [_ Hrest].
  pose proof (sum16_bound rest Hrest).
  assert ((len rest + 1) / 2 < 65536) by (apply Z.div_lt_upper_bound; lia).
  rewrite csumLoop_sum by (done || lia). apply foldLoop_fuel. lia.
Qed.

Theorem icmpChecksum_verifies_witness :
  icmpChecksum ([8; 0] ++ [0; 0] ++ [18; 52; 0; 1; 97]) = 0x84ca /\
  icmpChecksum ([8; 0] ++ put16 0x84ca ++ [18; 52; 0; 1; 97]) = 0.
Proof.
  split; [by vm_compute|].
  exact (proj1 (proj2 (icmpChecksum_verifies 8 0 [18; 52; 0; 1; 97]
    ltac:(unfold wf_bytes; cbn; repeat constructor; done) ltac:(done)))).
Defined.

(** ** Reading guest frames *)

Section RelayLaws.
Context `{H : NetHeader} `{HL : !NetHeaderLaws H}.

Lemma returns_be16_range b (Q : Z -> Prop) :
  wf_bytes b -> 2 <= len b -> (forall v, 0 <= v < 2 ^ 16 -> Q v) -> returns (be16 b) Q.
Proof. intros Hwf Hl HQ. apply returns_be16; [done|done|]. intros; by apply HQ. Qed.

(** no frame crashes the echo parser: for every byte string, whatever its
    header length, total length and size say, [parseEchoRequest] returns, and an
    accepted request has 16-bit id and sequence number, a 4-byte destination and a
    payload no longer than the frame. *)
Theorem parseEchoRequest_total frame :
  wf_bytes frame ->
  exists e, parseEchoRequest frame = Done e /\
    forall dst id seq payload, e = Some (dst, id, seq, payload) ->
      length dst = 4%nat /\ 0 <= id < 2 ^ 16 /\ 0 <= seq < 2 ^ 16 /\ len payload + 22 <= len frame.
Proof.
  intros Hwf.
  enough (Hr : returns (parseEchoRequest frame) (fun e =>
    forall dst id seq payload, e = Some (dst, id, seq, payload) ->
      length dst = 4%nat /\ 0 <= id < 2 ^ 16 /\ 0 <= seq < 2 ^ 16 /\ len payload + 22 <= len frame)).
  { destruct Hr as (e & He & HQ). by exists e. }
  unfold parseEchoRequest. change (EthernetMinimumSize + IPv4MinimumSize + ICMPv4MinimumSize) with 42.
  change EthernetMinimumSize with 14. change ICMPv4MinimumSize with 8.
  destruct (Z.ltb_spec (len frame) 42); [by apply returns_done|].
  rewrite (slice_eq frame 12 14), (slice_from_eq frame) by lia. go_simpl.
  go_step. apply returns_be16_range; [auto with gosem|rewrite len_take; rewrite ?len_drop; lia|].
  intros et _. destruct (negb _); [by apply returns_done|].
  set (ip := drop (Z.to_nat 14) frame).
  assert (Hip : len ip = len frame - 14) by (subst ip; rewrite len_drop; lia).
  assert (Hipwf : wf_bytes ip) by (subst ip; auto with gosem).
  rewrite ip4_Protocol_spec, ip4_HeaderLength_spec, ip4_TotalLength_spec,
    ip4_DestinationAddress_spec by lia.
  go_step. go_step; [lia|]. destruct (negb _); [by apply returns_done|].
  go_step. go_step. go_step; [lia|]. go_step.
  pose proof (land_15_range x0) as Hx0. set (ihl := Z.land x0 15 * 4).
  destruct (Z.ltb_spec (len frame) (14 + ihl + 8)); [by apply returns_done|].
  rewrite slice_from_eq by lia. go_simpl. set (icmp := drop _ frame).
  assert (Hic : len icmp = len frame - 14 - ihl) by (subst icmp; rewrite len_drop; lia).
  go_step. go_step; [lia|]. destruct (negb _); [by apply returns_done|].
  rewrite (slice_eq ip 2 4) by lia. go_simpl.
  go_step. apply returns_be16_range; [auto with gosem|rewrite len_take; rewrite ?len_drop; lia|].
  intros total Ht. cbn zeta.
  set (tot := if (total <? ihl + 8) || (len frame <? 14 + total) then len frame - 14 else total).
  assert (Htot : ihl + 8 <= tot <= len frame - 14).
  { subst tot. destruct (Z.ltb_spec total (ihl + 8)), (Z.ltb_spec (len frame) (14 + total));
      cbn [orb]; lia. }
  go_step. go_step; [lia|lia|].
  rewrite (slice_eq icmp 4 6), (slice_eq icmp 6 8) by lia. go_simpl.
  assert (Hicwf : wf_bytes icmp) by (subst icmp; auto with gosem).
  go_step. apply returns_be16_range; [auto with gosem|rewrite len_take; rewrite ?len_drop; lia|].
  intros id Hid. go_step.
  apply returns_be16_range; [auto with gosem|rewrite len_take; rewrite ?len_drop; lia|].
  intros seq Hseq. go_step. go_step; [lia|lia|]. go_step.
  intros dst id' seq' payload [= <- <- <- <-].
  split; [by rewrite length_copy_at; [|cbn; lia]|]. split; [done|]. split; [done|lia].
Qed.

(** An echo request in a frame: any IPv4 options, any padding behind it. *)
Record echoFrame := mkEcho {
  ef_dmac : bytes; ef_smac : bytes; ef_src : bytes; ef_dst : bytes; ef_opts : bytes;
  ef_vihl : Z; ef_tos : Z; ef_mid : bytes; ef_ck : bytes; ef_code : Z; ef_icmpck : bytes;
  ef_id : Z; ef_seq : Z; ef_payload : bytes; ef_trailer : bytes;
}.

Definition frameBytes (e : echoFrame) : bytes :=
  ef_dmac e ++ ef_smac e ++ [8; 0] ++
  [ef_vihl e; ef_tos e] ++ put16 (28 + len (ef_opts e) + len (ef_payload e)) ++
  ef_mid e ++ [1] ++ ef_ck e ++ ef_src e ++ ef_dst e ++ ef_opts e ++
  [8; ef_code e] ++ ef_icmpck e ++ put16 (ef_id e) ++ put16 (ef_seq e) ++ ef_payload e ++
  ef_trailer e.

Record wf_echo (e : echoFrame) : Prop := {
  we_dmac : length (ef_dmac e) = 6%nat;
  we_smac : length (ef_smac e) = 6%nat;
  we_src : length (ef_src e) = 4%nat;
  we_dst : length (ef_dst e) = 4%nat;
  we_mid : length (ef_mid e) = 5%nat;
  we_ck : length (ef_ck e) = 2%nat;
  we_icmpck : length (ef_icmpck e) = 2%nat;
  we_ihl : Z.land (ef_vihl e) 15 * 4 = 20 + len (ef_opts e);
  we_id : 0 <= ef_id e < 2 ^ 16;
  we_seq : 0 <= ef_seq e < 2 ^ 16;
  we_total : 28 + len (ef_opts e) + len (ef_payload e) < 2 ^ 16;
}.

Lemma length_5_inv {A} (m : list A) : length m = 5%nat -> exists a b c d e, m = [a; b; c; d; e].
Proof. intros Hm. do 6 (destruct m as [|? m]; try discriminate). by eauto 10. Qed.

(** What the parser reads of the ICMP message of such a frame. *)
Lemma icmp_fields cd i0 i1 id seq payload trailer hi :
  0 <= id < 2 ^ 16 -> 0 <= seq < 2 ^ 16 -> hi = 8 + len payload ->
  let tail := [8; cd] ++ [i0; i1] ++ put16 id ++ put16 seq ++ payload ++ trailer in
  len tail = 8 + len payload + len trailer /\ idx tail 0 = Done 8 /\
  (b ← slice tail 4 6; be16 b) = Done id /\ (b ← slice tail 6 8; be16 b) = Done seq /\
  slice tail 8 hi = Done payload.
Proof.
  intros Hid Hseq -> tail. split; [|split; [done|]].
  { subst tail. rewrite !len_app, !len_put16. change (len [8; cd]) with 2. change (len [i0; i1]) with 2. lia. }
  assert (slice tail 4 6 = Done (put16 id)) as ->
    by (apply (slice_app ([8; cd] ++ [i0; i1]) (put16 id)); done).
  assert (slice tail 6 8 = Done (put16 seq)) as ->
    by (apply (slice_app ([8; cd] ++ [i0; i1] ++ put16 id) (put16 seq)); done).
  go_simpl. rewrite <- (app_nil_r (put16 id)), <- (app_nil_r (put16 seq)), !put16_be16 by done.
  split; [done|]. split; [done|].
  apply (slice_app ([8; cd] ++ [i0; i1] ++ put16 id ++ put16 seq) payload trailer); done.
Qed.

(** And of its IPv4 header. *)
Lemma ip_fields vihl tos total m ck src dst opts tail :
  length m = 5%nat -> length ck = 2%nat -> length src = 4%nat -> length dst = 4%nat -> 0 <= total < 2 ^ 16 ->
  let ip := [vihl; tos] ++ put16 total ++ m ++ [1] ++ ck ++ src ++ dst ++ opts ++ tail in
  len ip = 20 + len opts + len tail /\ idx ip 9 = Done 1 /\ idx ip 0 = Done vihl /\
  (b ← slice ip 2 4; be16 b) = Done total /\ slice ip 16 20 = Done dst /\
  slice_from ip (20 + len opts) = Done tail.
Proof.
  intros (m0 & m1 & m2 & m3 & m4 & ->)%length_5_inv (c0 & c1 & ->)%length_2_inv
    (a0 & a1 & a2 & a3 & ->)%length_4_inv (b0 & b1 & b2 & b3 & ->)%length_4_inv Ht ip.
  set (hd := [vihl; tos] ++ put16 total ++ [m0; m1; m2; m3; m4] ++ [1] ++ [c0; c1] ++ [a0; a1; a2; a3]).
  assert (Hhd : len hd = 16) by done.
  assert (E : ip = hd ++ [b0; b1; b2; b3] ++ opts ++ tail) by done.
  split_and!; [|done|done| | |].
  - rewrite E, !len_app, Hhd. change (len [b0; b1; b2; b3]) with 4. lia.
  - assert (slice ip 2 4 = Done (put16 total)) as -> by (subst ip; by apply (slice_app [vihl; tos] (put16 total))).
    go_simpl. by rewrite <- (app_nil_r (put16 total)), put16_be16.
  - rewrite E. by apply slice_app.
  - rewrite E, !app_assoc. apply slice_from_app. rewrite !len_app, Hhd. done.
Qed.

Lemma parseEchoRequest_echo e :
  wf_echo e ->
  parseEchoRequest (frameBytes e) = Done (Some (ef_dst e, ef_id e, ef_seq e, ef_payload e)) /\
  slice (frameBytes e) 6 12 = Done (ef_smac e) /\
  idx (frameBytes e) 26 = Done (default 0 (ef_src e !! 0%nat)) /\
  idx (frameBytes e) 27 = Done (default 0 (ef_src e !! 1%nat)) /\
  idx (frameBytes e) 28 = Done (default 0 (ef_src e !! 2%nat)) /\
  idx (frameBytes e) 29 = Done (default 0 (ef_src e !! 3%nat)).
Proof.
  intros [Hd Hs Hsrc Hdst Hmid Hck Hick Hihl Hid Hseq Htot].
  destruct e as [dmac smac src dst opts vihl tos mid ck cd ick id seq payload trailer];
    cbn in Hd, Hs, Hsrc, Hdst, Hmid, Hck, Hick, Hihl, Hid, Hseq, Htot.
  apply length_6_inv in Hd as (d0 & d1 & d2 & d3 & d4 & d5 & ->).
  apply length_6_inv in Hs as (s0 & s1 & s2 & s3 & s4 & s5 & ->).
  apply length_4_inv in Hsrc as (a0 & a1 & a2 & a3 & ->). apply length_4_inv in Hdst as (b0 & b1 & b2 & b3 & ->).
  apply length_5_inv in Hmid as (m0 & m1 & m2 & m3 & m4 & ->).
  apply length_2_inv in Hck as (c0 & c1 & ->). apply length_2_inv in Hick as (i0 & i1 & ->).
  unfold frameBytes. cbn [ef_dmac ef_smac ef_src ef_dst ef_opts ef_vihl ef_tos ef_mid ef_ck ef_code
    ef_icmpck ef_id ef_seq ef_payload ef_trailer].
  pose proof (len_nonneg opts) as Ho. pose proof (len_nonneg payload) as Hp. pose proof (len_nonneg trailer) as Htl.
  set (total := 28 + len opts + len payload) in *.
  destruct (icmp_fields cd i0 i1 id seq payload trailer (total - (20 + len opts)))
    as (Ltail & T0 & T4 & T6 & T8); [done|done|lia|]. set (tail := [8; cd] ++ _) in *.
  destruct (ip_fields vihl tos total [m0; m1; m2; m3; m4] [c0; c1] [a0; a1; a2; a3] [b0; b1; b2; b3] opts tail) as (Lip & P9 & P0 & P2 & P16 & Prest);
    [done..|lia|]. set (ip := [vihl; tos] ++ _) in *.
  set (eth := [d0; d1; d2; d3; d4; d5; s0; s1; s2; s3; s4; s5; 8; 0]).
  change ([d0; d1; d2; d3; d4; d5] ++ [s0; s1; s2; s3; s4; s5] ++ [8; 0] ++ ip) with (eth ++ ip).
  assert (Hfr : len (eth ++ ip) = 14 + len ip) by (rewrite len_app; done).
  assert (Hsl : forall lo hi, 0 <= lo <= hi -> hi <= 14 -> slice (eth ++ ip) lo hi = slice eth lo hi)
    by (intros; by apply slice_prefix).
  split; [|split_and!; [by rewrite Hsl by lia|done..]].
  unfold parseEchoRequest. change (EthernetMinimumSize + IPv4MinimumSize + ICMPv4MinimumSize) with 42.
  change EthernetMinimumSize with 14. change ICMPv4MinimumSize with 8.
  destruct (Z.ltb_spec (len (eth ++ ip)) 42); [lia|]. rewrite Hsl by lia.
  change (slice eth 12 14) with (Done [8; 0]). go_simpl. change (be16 [8; 0]) with (Done 2048).
  go_simpl. change (2048 =? 2048) with true. go_simpl. rewrite slice_from_app by done. go_simpl.
  rewrite ip4_Protocol_spec, ip4_HeaderLength_spec, ip4_TotalLength_spec, ip4_DestinationAddress_spec by lia.
  rewrite P9, P0, P2, P16. go_simpl. change (1 =? ICMPv4ProtocolNumber) with true. go_simpl. rewrite Hihl.
  destruct (Z.ltb_spec (len (eth ++ ip)) (14 + (20 + len opts) + 8)); [lia|].
  assert (slice_from (eth ++ ip) (14 + (20 + len opts)) = Done tail) as ->.
  { rewrite slice_from_eq in Prest |- * by lia. rewrite <- Prest.
    rewrite drop_app_ge by (unfold len in *; cbn [length eth]; lia). do 2 f_equal. cbn [length eth]. lia. }
  go_simpl. rewrite T0. go_simpl. change (8 =? ICMPv4Echo) with true. go_simpl.
  destruct (Z.ltb_spec total (20 + len opts + 8)); [lia|].
  destruct (Z.ltb_spec (len (eth ++ ip)) (14 + total)); [lia|]. cbn [orb].
  change (copy_at 0 [b0; b1; b2; b3] (zeros 4)) with [b0; b1; b2; b3].
  rewrite T4, T6. go_simpl. by rewrite T8.
Qed.

(** ** Building packets *)

(** The ICMP packet both builders fill in. *)
Definition echoBytes (t id seq ck : Z) (payload : bytes) : bytes :=
  [t; 0] ++ put16 ck ++ put16 id ++ put16 seq ++ payload.

Lemma icmp_fill t id seq payload :
  let b := copy_at 8 payload (copy_at 6 (put16 seq) (copy_at 4 (put16 id)
             (copy_at 0 [t] (zeros (Z.to_nat (ICMPv4MinimumSize + len payload)))))) in
  b = [t; 0] ++ [0; 0] ++ put16 id ++ put16 seq ++ payload /\
  forall ck, copy_at 2 (put16 ck) b = echoBytes t id seq ck payload.
Proof.
  change ICMPv4MinimumSize with 8. cbn zeta.
  assert (zeros (Z.to_nat (8 + len payload)) = [0; 0; 0; 0; 0; 0; 0; 0] ++ zeros (length payload)) as ->.
  { unfold len. rewrite Z2Nat.inj_add, Nat2Z.id by lia. done. }
  assert (E : copy_at 8 payload (copy_at 6 (put16 seq) (copy_at 4 (put16 id)
    (copy_at 0 [t] ([0; 0; 0; 0; 0; 0; 0; 0] ++ zeros (length payload))))) =
    [t; 0] ++ [0; 0] ++ put16 id ++ put16 seq ++ payload).
  { set (z := zeros (length payload)).
    pose proof (copy_at_mid [] [0] ([0; 0; 0; 0; 0; 0; 0] ++ z) [t] 0 eq_refl eq_refl) as F0.
    pose proof (copy_at_mid [t; 0; 0; 0] [0; 0] ([0; 0] ++ z) (put16 id) 4 eq_refl eq_refl) as F4.
    pose proof (copy_at_mid ([t; 0; 0; 0] ++ put16 id) [0; 0] z (put16 seq) 6 eq_refl eq_refl) as F6.
    pose proof (copy_at_mid (([t; 0; 0; 0] ++ put16 id) ++ put16 seq) z [] payload 8 eq_refl
      (length_zeros _)) as F8.
    rewrite !app_nil_r in F8. cbn [app put16] in *. by rewrite F0, F4, F6, F8. }
  rewrite E. split; [done|]. intros ck. unfold echoBytes.
  by apply (copy_at_mid [t; 0] [0; 0]).
Qed.

Lemma echoBytes_verifies t id seq payload :
  is_byte t -> wf_bytes payload -> len payload < 2 ^ 16 ->
  exists ck, icmpChecksum ([t; 0] ++ [0; 0] ++ put16 id ++ put16 seq ++ payload) = ck /\
    0 <= ck < 65536 /\ icmpChecksum (echoBytes t id seq ck payload) = 0.
Proof.
  intros Ht Hp Hl. eexists. split; [done|].
  set (rest := put16 id ++ put16 seq ++ payload).
  assert (Hwf : wf_bytes ([t; 0] ++ rest)).
  { apply wf_bytes_app; [by unfold wf_bytes; rewrite !Forall_cons|].
    subst rest. auto with gosem. }
  assert (Hlen : len rest <= 131066) by (subst rest; rewrite !len_app, !len_put16; lia).
  pose proof (icmpChecksum_fills t 0 rest Hwf Hlen) as [H1 H2]. split; [done|exact H2].
Qed.

Lemma sendEchoRequest_bytes hostID seq payload :
  wf_bytes payload -> len payload < 2 ^ 16 ->
  exists ck, sendEchoRequest hostID seq payload = echoBytes 8 hostID seq ck payload /\
    icmpChecksum (sendEchoRequest hostID seq payload) = 0.
Proof.
  intros Hp Hl. unfold sendEchoRequest. destruct (icmp_fill ICMPv4Echo hostID seq payload) as [E1 E2].
  destruct (echoBytes_verifies ICMPv4Echo hostID seq payload) as (ck & Eck & Hck & Hv); [done..|].
  cbn zeta in *. rewrite E2, E1, Eck. by exists ck.
Qed.

Lemma buildEchoReply_bytes flow src payload :
  length (fl_srcMAC flow) = 6%nat -> length (fl_guestMAC flow) = 6%nat ->
  wf_ip4 (fl_guestIP flow) -> wf_ip4 src ->
  wf_bytes payload -> len payload < 2 ^ 16 ->
  exists ck ih,
    ipHeader (u16 (28 + len payload)) 64 1 src (fl_guestIP flow) ih /\
    icmpChecksum (echoBytes 0 (fl_id flow) (fl_seq flow) ck payload) = 0 /\
    buildEchoReply flow src payload =
      fl_guestMAC flow ++ fl_srcMAC flow ++ [8; 0] ++ ih ++
      echoBytes 0 (fl_id flow) (fl_seq flow) ck payload.
Proof.
  intros Hm Hg Hiq Hsq Hp Hl. pose proof (proj1 Hiq) as Hi. pose proof (proj1 Hsq) as Hs. unfold buildEchoReply.
  destruct (icmp_fill ICMPv4EchoReply (fl_id flow) (fl_seq flow) payload) as [E1 E2].
  destruct (echoBytes_verifies ICMPv4EchoReply (fl_id flow) (fl_seq flow) payload)
    as (ck & Eck & Hck & Hv); [done..|].
  cbn zeta in *. rewrite E2, E1, Eck. set (icmp := echoBytes _ _ _ _ _) in *.
  change (Z.to_nat IPv4MinimumSize) with 20%nat. change (Z.to_nat EthernetMinimumSize) with 14%nat.
  set (f := mkIPv4 _ _ _ _ _).
  destruct (ip4_Encode_spec f (zeros 20 ++ icmp)) as (b0 & tos & h2 & H2 & Hw & Hb0 & E);
    [rewrite len_app, len_zeros; pose proof (len_nonneg icmp); lia|done..|].
  rewrite E. clear E. subst f. cbn [ip_SrcAddr ip_DstAddr ip_TotalLength ip_TTL ip_Protocol] in *.
  change (drop 20 (zeros 20 ++ icmp)) with icmp.
  assert (IPv4MinimumSize + (ICMPv4MinimumSize + len payload) = 28 + len payload) as ->
    by (unfold IPv4MinimumSize, ICMPv4MinimumSize; lia).
  destruct (ip4_filled b0 tos (u16 (28 + len payload)) h2 64 1 src (fl_guestIP flow) icmp) as (ih & Hih & Hlen & F);
    [done..|]. change ICMPv4ProtocolNumber with 1. rewrite F. exists ck, ih. split; [done|]. split; [done|].
  rewrite eth_Encode_spec;
    [|rewrite len_app, len_zeros; match goal with |- _ <= _ + len ?x => pose proof (len_nonneg x) end; lia
     |done|done].
  reflexivity.
Qed.

(** ** The relay *)

(** The flow [HandleFrame] records for an echo request. *)
Definition flowOf (now : Z) (r : ICMPRelay) (e : echoFrame) : icmpFlow :=
  mkFlow (ef_smac e) (ef_src e) (ef_dst e) (ef_id e) (ef_seq e) (now + icmpFlowTTL) (r_srcMAC r).

Definition nextSeq (r : ICMPRelay) : Z := u16 (r_seq r + 1).

(** The flows that survive the sweep of a request at time [now]. *)
Definition live (now : Z) (fs : gmap Z icmpFlow) : gmap Z icmpFlow :=
  filter (fun kv => ~ fl_deadline kv.2 < now) fs.

Lemma HandleFrame_eq now sendOk own e r :
  wf_echo e -> ef_dst e ∉ own -> 0 <= r_fd r ->
  HandleFrame now sendOk own (frameBytes e) (Some r) =
    Done (sendOk, Some (sendEchoRequest (r_hostID r) (nextSeq r) (ef_payload e), ef_dst e),
          Some (mkRelay (r_srcMAC r) (r_hostID r) (r_fd r)
            (if sendOk then <[nextSeq r := flowOf now r e]> (live now (r_flows r))
             else delete (nextSeq r) (live now (r_flows r))) (nextSeq r))).
Proof.
  intros He Hown Hfd. unfold HandleFrame. destruct (Z.ltb_spec (r_fd r) 0); [lia|].
  destruct (parseEchoRequest_echo e He) as (-> & Hs & H26 & H27 & H28 & H29). go_simpl.
  rewrite bool_decide_eq_false_2 by done. rewrite H26, H27, H28, H29, Hs. go_simpl.
  destruct He. apply length_6_inv in we_smac0 as (s0 & s1 & s2 & s3 & s4 & s5 & Es).
  apply length_4_inv in we_src0 as (a0 & a1 & a2 & a3 & Ea).
  rewrite Es, Ea. unfold flowOf. rewrite Es, Ea.
  cbn [list_lookup lookup default copy_at take drop zeros replicate length Nat.sub app Nat.add].
  destruct sendOk; [done|]. cbn [setFlows sweepLocked r_flows r_srcMAC r_hostID r_fd r_seq].
  by rewrite delete_insert_eq.
Qed.

(** C30: a relayed ping comes back to its guest. An echo request frame to a public
    address (any IP options, any padding behind it) makes [HandleFrame] consume it
    and send the host an echo request with our id, our next sequence number, the
    guest's data and a checksum that verifies; the host's echo reply with that
    sequence number then makes [handleReply] deliver a frame to the guest's MAC and
    address, from the replying host, with the guest's own id and sequence number and
    the reply's data, whose IP header checksum and ICMP checksum both verify, and forget
    the flow, so that a duplicate of the reply is dropped. *)
Theorem relay_roundtrip now own e r :
  wf_echo e -> wf_bytes (ef_src e) -> wf_bytes (ef_payload e) -> ef_dst e ∉ own ->
  0 <= r_fd r -> 0 <= r_hostID r < 2 ^ 16 -> length (r_srcMAC r) = 6%nat ->
  exists ck r1,
    HandleFrame now true own (frameBytes e) (Some r) =
      Done (true, Some (echoBytes 8 (r_hostID r) (nextSeq r) ck (ef_payload e), ef_dst e), Some r1) /\
    icmpChecksum (echoBytes 8 (r_hostID r) (nextSeq r) ck (ef_payload e)) = 0 /\
    forall code k0 k1 i0 i1 data src,
      let reply := [0; code; k0; k1; i0; i1] ++ put16 (nextSeq r) ++ data in
      wf_bytes data -> 28 + len data < 2 ^ 16 -> wf_ip4 src ->
      exists ih ck' r2,
        handleReply reply src r1 =
          Done (Some (ef_smac e ++ r_srcMAC r ++ [8; 0] ++ ih ++
                      echoBytes 0 (ef_id e) (ef_seq e) ck' data), r2) /\
        ipHeader (28 + len data) 64 1 src (ef_src e) ih /\
        icmpChecksum (echoBytes 0 (ef_id e) (ef_seq e) ck' data) = 0 /\
        handleReply reply src r2 = Done (None, r2).
Proof.
  intros He Hsrc' Hp Hown Hfd Hid Hmac.
  destruct (sendEchoRequest_bytes (r_hostID r) (nextSeq r) (ef_payload e)) as (ck & Eck & Hck).
  { done. }
  { pose proof (we_total e He). pose proof (len_nonneg (ef_opts e)). lia. }
  rewrite Eck in Hck. eexists ck, _. rewrite HandleFrame_eq by done. rewrite Eck.
  split; [done|]. split; [done|]. cbn zeta. intros code k0 k1 i0 i1 data src Hd Hl Hsrc.
  set (reply := [0; code; k0; k1; i0; i1] ++ put16 (nextSeq r) ++ data).
  destruct (buildEchoReply_bytes (flowOf now r e) src data) as (ck' & ih & Hih & Hv & Eb); pose proof (len_nonneg data);
    [done|apply He|split; [apply He|done]|done|done|lia|]. cbn [flowOf fl_guestMAC fl_srcMAC fl_guestIP fl_id fl_seq] in *.
  assert (Hrun : forall r', handleReply reply src r' =
    match r_flows r' !! nextSeq r with
    | None => Done (None, r')
    | Some flow => Done (Some (buildEchoReply flow src data),
                         setFlows (delete (nextSeq r) (r_flows r')) r')
    end).
  { intros r'. unfold handleReply. change ICMPv4MinimumSize with 8.
    assert (Hlen : len reply = 8 + len data).
    { subst reply. rewrite !len_app, len_put16. change (len [0; code; k0; k1; i0; i1]) with 6. lia. }
    pose proof (len_nonneg data). destruct (Z.ltb_spec (len reply) 8); [lia|].
    change (idx reply 0) with (Done 0). go_simpl. change (0 =? ICMPv4EchoReply) with true. go_simpl.
    assert (slice reply 6 8 = Done (put16 (nextSeq r))) as ->
      by (apply (slice_app [0; code; k0; k1; i0; i1] (put16 (nextSeq r))); done).
    go_simpl. rewrite <- (app_nil_r (put16 (nextSeq r))), put16_be16
      by (apply Z.mod_pos_bound; lia). go_simpl.
    assert (slice_from reply 8 = Done data) as ->; [|by destruct (r_flows r' !! _)].
    subst reply. rewrite app_assoc. by apply slice_from_app. }
  eexists ih, ck', _. rewrite Hrun. cbn [r_flows setFlows]. rewrite lookup_insert_eq.
  rewrite Eb. split; [done|]. unfold u16 in Hih. rewrite Z.mod_small in Hih by lia. split; [done|]. split; [done|].
  rewrite Hrun. cbn [r_flows setFlows]. by rewrite lookup_delete_eq.
Qed.

(** the flow table. A relayed request adds its own flow, with a deadline of 30
    seconds, and drops exactly the flows whose deadline has passed; every other flow
    keeps waiting for its reply. When the socket refuses the packet the flow is
    withdrawn and the frame is left to netstack. At most 65536 flows exist, as many
    as there are sequence numbers. *)
Theorem HandleFrame_flows now sendOk own e r ok sent r' :
  wf_echo e -> ef_dst e ∉ own -> 0 <= r_fd r ->
  (forall k, is_Some (r_flows r !! k) -> 0 <= k < 2 ^ 16) ->
  HandleFrame now sendOk own (frameBytes e) (Some r) = Done (ok, sent, Some r') ->
  ok = sendOk /\
  r_flows r' !! nextSeq r = (if sendOk then Some (flowOf now r e) else None) /\
  (forall k f, k <> nextSeq r ->
     (r_flows r' !! k = Some f <-> r_flows r !! k = Some f /\ now <= fl_deadline f)) /\
  (forall k, is_Some (r_flows r' !! k) -> 0 <= k < 2 ^ 16) /\
  (size (r_flows r') <= Z.to_nat (2 ^ 16))%nat.
Proof.
  intros He Hown Hfd Hkeys. rewrite HandleFrame_eq by done. intros [= <- _ <-]. cbn [r_flows].
  assert (Hother : forall k f, k <> nextSeq r ->
    ((if sendOk then <[nextSeq r:=flowOf now r e]> (live now (r_flows r))
      else delete (nextSeq r) (live now (r_flows r))) !! k = Some f <->
     r_flows r !! k = Some f /\ now <= fl_deadline f)).
  { intros k f Hk. assert (live now (r_flows r) !! k = Some f <->
      r_flows r !! k = Some f /\ now <= fl_deadline f) as <-.
    { unfold live. rewrite map_lookup_filter_Some. cbn. split; intros [? ?]; split; [done|lia|done|lia]. }
    destruct sendOk; [by rewrite lookup_insert_ne|by rewrite lookup_delete_ne]. }
  set (m := if sendOk then _ else _) in *.
  assert (Hm : forall k, is_Some (m !! k) -> 0 <= k < 2 ^ 16).
  { intros k [f Hf]. destruct (decide (k = nextSeq r)) as [->|Hk].
    - unfold nextSeq, u16. apply Z.mod_pos_bound. lia.
    - apply Hother in Hf as [Hf _]; [|done]. apply Hkeys. eauto. }
  split; [done|]. split.
  { subst m. destruct sendOk; [by rewrite lookup_insert_eq|by rewrite lookup_delete_eq]. }
  split; [exact Hother|]. split; [exact Hm|].
  rewrite <- size_dom.
  assert (Hsub : dom m ⊆ list_to_set (seqZ 0 (2 ^ 16))).
  { intros k Hk%elem_of_dom. apply elem_of_list_to_set, elem_of_seqZ. apply Hm in Hk. lia. }
  apply subseteq_size in Hsub. etrans; [exact Hsub|].
  rewrite size_list_to_set by apply NoDup_seqZ. rewrite length_seqZ. apply Nat.le_refl.
Qed.

(** a request to one of our own addresses is not consumed. The comment on
    [HandleFrame] counts it as consumed (netstack "must not see duplicates"); the
    code returns false, so the caller goes on to hand it to netstack, which is what
    answers it. *)
Theorem HandleFrame_own_not_consumed now sendOk own e r :
  wf_echo e -> ef_dst e ∈ own ->
  HandleFrame now sendOk own (frameBytes e) (Some r) = Done (false, None, Some r).
Proof.
  intros He Hown. unfold HandleFrame. destruct (Z.ltb_spec (r_fd r) 0); [done|].
  destruct (parseEchoRequest_echo e He) as (-> & _). go_simpl.
  by rewrite bool_decide_eq_true_2 by done.
Qed.

End RelayLaws.

(** ** A ping, evaluated *)

Definition demoEcho : echoFrame :=
  mkEcho [122;114;109;60;215;35] [2;0;0;0;0;9] [10;0;2;15] [8;8;8;8] [] 69 0 [0;0;0;0;64] [0;0]
    0 [0;0] 7 1 [97;98;99] [0;0;0].

Definition demoRelay : ICMPRelay := NewICMPRelay [122;114;109;60;215;35] (Some (5, 4660)).

Lemma demoEcho_wf : wf_echo demoEcho.
Proof. split; by vm_compute. Qed.

Theorem parseEchoRequest_total_witness :
  wf_bytes (frameBytes demoEcho) /\
  exists e, parseEchoRequest (frameBytes demoEcho) = Done e /\
    e = Some ([8;8;8;8], 7, 1, [97;98;99]).
Proof.
  assert (Hwf : wf_bytes (frameBytes demoEcho)) by (unfold wf_bytes; vm_compute; repeat constructor; done).
  split; [exact Hwf|]. destruct (parseEchoRequest_total (frameBytes demoEcho) Hwf) as (e & He & _).
  exists e. split; [exact He|]. vm_compute in He. by injection He as <-.
Defined.

Theorem relay_roundtrip_witness :
  exists ck r1,
    HandleFrame 0 true ∅ (frameBytes demoEcho) (Some demoRelay) =
      Done (true, Some (echoBytes 8 4660 1 ck [97;98;99], [8;8;8;8]), Some r1).
Proof.
  destruct (relay_roundtrip 0 ∅ demoEcho demoRelay) as (ck & r1 & E & _).
  - exact demoEcho_wf.
  - unfold wf_bytes. vm_compute. repeat constructor; done.
  - unfold wf_bytes. vm_compute. repeat constructor; done.
  - apply not_elem_of_empty.
  - done.
  - done.
  - done.
  - exists ck, r1. exact E.
Defined.

Theorem HandleFrame_flows_witness :
  exists ok sent r', HandleFrame 0 false ∅ (frameBytes demoEcho) (Some demoRelay) =
    Done (ok, sent, Some r') /\ ok = false /\ r_flows r' !! 1 = None.
Proof.
  destruct (HandleFrame 0 false ∅ (frameBytes demoEcho) (Some demoRelay))
    as [[[ok sent] [r'|]]|] eqn:E; [|by vm_compute in E..].
  exists ok, sent, r'. split; [done|].
  destruct (HandleFrame_flows 0 false ∅ demoEcho demoRelay ok sent r') as (H1 & H2 & _).
  - exact demoEcho_wf.
  - apply not_elem_of_empty.
  - done.
  - intros k [f Hf]. by vm_compute in Hf.
  - exact E.
  - split; [exact H1|exact H2].
Defined.

Theorem HandleFrame_own_not_consumed_witness :
  HandleFrame 0 true {[ [8;8;8;8] ]} (frameBytes demoEcho) (Some demoRelay) =
    Done (false, None, Some demoRelay).
Proof.
  apply (HandleFrame_own_not_consumed 0 true {[ [8;8;8;8] ]} demoEcho demoRelay).
  - exact demoEcho_wf.
  - by apply elem_of_singleton.
Defined.

(** ** The host socket: theorems *)

(** Every failure closes the socket again; a socket that is kept is the one new descriptor and has
    an echo id that is not zero. *)
Theorem openEchoSocket_fds opens binds name fds :
  (forall port, name = Some (Some port) -> 0 <= port < 2 ^ 16) ->
  match openEchoSocket opens binds name fds with
  | (Err _, fds') => fds' = fds
  | (Ok (fd, id), fds') => fd ∉ fds /\ fds' = {[fd]} ∪ fds /\ 0 < id < 2 ^ 16
  end.
Proof.
  intros Hp. unfold openEchoSocket. pose proof (is_fresh fds) as Hf.
  destruct opens; cbn [negb]; [|done]. destruct binds; cbn [negb]; [|set_solver].
  destruct name as [[port|]|]; [|set_solver..]. specialize (Hp port eq_refl).
  destruct (Z.eqb_spec port 0); [set_solver|]. split_and!; [done|done| |]; unfold u16; rewrite Z.mod_small; lia.
Qed.

Lemma handleReply_total `{NetHeader} pkt src r : exists f r', handleReply pkt src r = Done (f, r').
Proof.
  unfold handleReply. destruct (Z.ltb_spec (len pkt) ICMPv4MinimumSize) as [|Hl]; [by eexists _, _|].
  unfold ICMPv4MinimumSize in Hl.
  destruct (lookup_lt_is_Some_2 pkt 0%nat) as [t Ht]; [unfold len in Hl; lia|].
  rewrite (idx_lookup pkt 0 t) by done. destruct (be16_field pkt 6 8) as [seq Hs]; [lia..|].
  change (slice pkt 6 8 ≫= be16) with (slice pkt 6 8 ≫= fun b => be16 b) in Hs. rewrite Hs. go_simpl.
  destruct (t =? ICMPv4EchoReply); go_simpl; [|by eexists _, _].
  destruct (r_flows r !! seq); [|by eexists _, _].
  rewrite slice_from_eq by (unfold ICMPv4MinimumSize; lia). go_simpl. by eexists _, _.
Qed.

(** The read loop does not panic on any packets, whatever the other goroutines do to the
    relay; it ends exactly at the first failed read, and delivers at most one frame per packet. *)
Theorem readLoop_total `{NetHeader} turns r :
  exists fs r', readLoop turns r = Done (fs, r', bool_decide (RecvErr ∈ turns.*2)) /\
    (length fs <= length turns)%nat.
Proof.
  revert r. induction turns as [|[env recv] turns IH]; intros r; [by exists [], r|].
  cbn [readLoop fmap list_fmap snd]. destruct recv as [|pkt src|].
  - exists [], (env r). split; [|cbn; lia]. rewrite bool_decide_true; [done|by left].
  - destruct (handleReply_total pkt src (env r)) as (f & r1 & ->). go_simpl.
    destruct (IH r1) as (fs & r2 & -> & Hl). go_simpl. exists (option_list f ++ fs), r2. split.
    + do 2 f_equal. apply bool_decide_ext. rewrite elem_of_cons. naive_solver.
    + rewrite length_app. destruct f; cbn; lia.
  - destruct (IH (env r)) as (fs & r2 & -> & Hl). exists fs, r2. split; [|cbn; lia].
    do 2 f_equal. apply bool_decide_ext. rewrite elem_of_cons. naive_solver.
Qed.
