(* ===== verification/Main.v ===== *)
(** * Main: the sequential parts of vdeplug-go/main.go

    Argument parsing ([parseArgs]), the choice of the switch socket
    ([resolveSwitchSocket]) and of the link MTU, our MAC ([mustMACBytes]), the
    uplink's frame filter ([SendFrame] of [uplinkSink], [arpForOwnAddr],
    [ownAddrs]), and the way the lease table travels with the heartbeats
    ([Leases], [poolSnapshot], [leaseMap]). The failover state machine is in
    Fleet.v. *)
From S2P Require Import Prelude.
From S2P Require Import GoStd.
From S2P Require Import GoText.
From S2P Require Import NetLib.
From S2P Require Import Elect.
From S2P Require Import Dhcp.
From S2P Require DhcpServer.
From S2P Require Icmp.
From S2P Require Config.

(** ** Arguments *)

(** The loop of [parseArgs]; the state is (descr, fd, vnl). *)
Fixpoint parseArgsLoop (argv : list string) (descr : string) (fd : Z) (vnl : string) :
    string * Z * string :=
  match argv with
  | [] => (descr, fd, vnl)
  | arg :: argv =>
      match CutPrefix arg "seqpacket://" with
      | Some rest =>
          parseArgsLoop argv descr (match Atoi rest with Some n => n | None => fd end) vnl
      | None =>
          match CutPrefix arg "--descr" with
          | Some rest =>
              match rest with
              | String "=" d => parseArgsLoop argv d fd vnl
              | EmptyString =>
                  match argv with
                  | d :: argv => parseArgsLoop argv d fd vnl
                  | [] => (descr, fd, vnl)
                  end
              | _ => parseArgsLoop argv descr fd vnl
              end
          | None =>
              if HasPrefix arg "-" then parseArgsLoop argv descr fd vnl
              else if String.eqb descr "" then parseArgsLoop argv arg fd vnl
              else parseArgsLoop argv descr fd arg
          end
      end
  end.

Definition parseArgs (argv : list string) : string * Z * string := parseArgsLoop argv "" (-1) "".

(** The VNL parameters of [main]. *)
Definition vnlParams (vnl : string) : string :=
  match CutPrefix vnl "slirp://" with Some rest => rest | None => "" end.

(** ** Link MTU and switch socket *)

(** [link.FrameMax - 18] and the clamp of [main]; [uint32(cfg.MTU)] wraps. *)
Definition FrameMax : Z := 9216 + 14 + 4.
Definition linkMTU (cfgMTU : Z) : Z :=
  let mtu := FrameMax - 18 in
  if (68 <=? cfgMTU) && (u32 cfgMTU <=? mtu) then u32 cfgMTU else mtu.

(** [dirWritable] and the environment are arguments. *)
Definition resolveSwitchSocket (getenv : string -> string) (dirWritable : string -> bool)
    (join : string -> string -> string) (cfg : Config.Config) (selfDir : string) : string :=
  if negb (String.eqb (Config.Socket cfg) "") then Config.Socket cfg
  else if negb (String.eqb (getenv "VDE_SWITCH_SOCKET") "") then getenv "VDE_SWITCH_SOCKET"
  else if dirWritable "/tmp" then "/tmp/vde.socket"
  else if negb (String.eqb (getenv "TMPDIR") "") && dirWritable (getenv "TMPDIR")
  then join (getenv "TMPDIR") "vde.socket"
  else if dirWritable selfDir then join selfDir "vde.socket"
  else "vde.socket".

(** ** Our MAC *)

(** [strconv.ParseUint(p, 16, 8)], errors giving 0 (or the maximum 255 when the
    number is too large). *)
Fixpoint parseHexDigits (acc : Z) (s : string) : option Z :=
  match s with
  | EmptyString => Some acc
  | String c s => match hexVal c with Some d => parseHexDigits (acc * 16 + d) s | None => None end
  end.
Definition hexByte (s : string) : Z :=
  match s with
  | EmptyString => 0
  | _ => match parseHexDigits 0 s with
         | Some v => if v <? 256 then v else 255
         | None => 0
         end
  end.

(** The loop writes [out[i]], which panics past the sixth part. *)
Fixpoint macLoop (parts : list string) (i : nat) (out : bytes) : go bytes :=
  match parts with
  | [] => Done out
  | p :: parts =>
      if (i <? length out)%nat then macLoop parts (S i) (<[i := hexByte p]> out) else Panic
  end.
Definition mustMACBytes (s : string) : go bytes := macLoop (Split ":" s) 0 (zeros 6).

Definition vdeMAC : bytes := [122; 114; 109; 60; 215; 35].

Lemma vdeMAC_bytes : mustMACBytes "7a:72:6d:3c:d7:23" = Done vdeMAC.
Proof. by vm_compute. Qed.

(** ** The uplink filter *)

Definition arpForOwnAddr (frame : bytes) (own : gset bytes) : go bool :=
  if len frame <? 14 then Done true else
  et ← (b ← slice frame 12 14; be16 b);
  if negb (et =? 0x0806) then Done true else
  if len frame <? 14 + 28 then Done false else
  arp ← slice_from frame 14;
  op ← (b ← slice arp 6 8; be16 b);
  if negb (op =? 1) then Done true else
  tpa ← slice arp 24 28;
  Done (bool_decide (copy_at 0 tpa (zeros 4) ∈ own)).

Definition ownAddrs (cfg : Config.Config) : gset bytes :=
  list_to_set (omap (fun s => match To4 (ParseIP s) with
                              | [a; b; c; d] => Some [a; b; c; d]
                              | _ => None
                              end)
                    [Config.Gateway cfg; Config.Nameserver cfg]).

(** What becomes of a frame sent to the uplink. *)
Inductive uplinkResult :=
| Replied (reply : bytes)        (* a DHCP answer goes back into the switch *)
| Relayed (sent : option (bytes * bytes)) (* a ping went to the host socket *)
| Shed                           (* an ARP request for someone else *)
| Injected.                      (* netstack sees it *)

Record uplinkSink := mkUplink {
  u_dhcp : option DhcpServer.Server;
  u_own : gset bytes;
  u_icmp : option Icmp.ICMPRelay;
}.

(** [SendFrame]; [behind] is the rest of the frame's buffer, [now] and [sendOk]
    the clock and the host socket. *)
Definition SendFrame `{NetHeader} `{DhcpServer.DhcpLib} (now : Z) (sendOk : bool)
    (frame behind : bytes) (u : uplinkSink) : go (uplinkResult * uplinkSink) :=
  dh ← match u_dhcp u with
       | None => Done (None, None)
       | Some s => '(reply, s) ← DhcpServer.HandleFrame frame behind s; Done (reply, Some s)
       end;
  let '(reply, dhcp) := dh in
  let u := mkUplink dhcp (u_own u) (u_icmp u) in
  match reply with
  | Some f => Done (Replied f, u)
  | None =>
      '(consumed, sent, icmp) ← Icmp.HandleFrame now sendOk (u_own u) frame (u_icmp u);
      let u := mkUplink (u_dhcp u) (u_own u) icmp in
      if (consumed : bool) then Done (Relayed sent, u) else
      ours ← arpForOwnAddr frame (u_own u);
      if negb ours then Done (Shed, u) else Done (Injected, u)
  end.

(** ** The lease table, from the pool to a peer *)

(** [Pool.Leases]: MAC and address as text. *)
Definition Leases (p : Pool) : gmap string string :=
  list_to_map ((fun e => (macString e.1, v4String e.2)) <$> map_to_list (assigned p)).

(** The loop of [poolSnapshot] over the snapshot, in some iteration order. *)
Definition snapLease (e : string * string) : option Lease :=
  match ParseMAC e.1 with
  | None => None
  | Some hw =>
      match To4 (ParseIP e.2) with
      | [] => None
      | ip => Some (mkLease (array 6 hw) (array 4 ip))
      end
  end.
Definition poolSnapshot (snap : list (string * string)) : list Lease := omap snapLease snap.

Definition leaseMap (ls : list Lease) : gmap bytes bytes :=
  foldl (fun m l => <[lease_MAC l := lease_IP l]> m) ∅ ls.

(** ** Arguments: theorems *)

Lemma parseArgsLoop_fd argv : forall descr fd vnl d f v,
  parseArgsLoop argv descr fd vnl = (d, f, v) ->
  f = fd \/ exists arg rest, arg ∈ argv /\ CutPrefix arg "seqpacket://" = Some rest /\ Atoi rest = Some f.
Proof.
  induction argv as [argv IH] using (induction_ltof1 _ (@length string)); unfold ltof in IH.
  intros descr fd vnl d f v. destruct argv as [|arg argv]; [intros [= <- <- <-]; by left|].
  cbn [parseArgsLoop].
  assert (Hrec : forall l descr' fd' vnl', (length l <= length argv)%nat -> l ⊆ argv ->
    parseArgsLoop l descr' fd' vnl' = (d, f, v) -> fd' = fd \/ (exists rest, CutPrefix arg "seqpacket://" = Some rest /\ Atoi rest = Some fd') ->
    f = fd \/ exists a rest, a ∈ arg :: argv /\ CutPrefix a "seqpacket://" = Some rest /\ Atoi rest = Some f).
  { intros l descr' fd' vnl' Hl Hsub Hrun Hfd. apply IH in Hrun; [|cbn; lia].
    destruct Hrun as [->|(a & rest & Ha & Hc & Hv)]; [|right; exists a, rest; split_and!; [right; by apply Hsub|done..]].
    destruct Hfd as [->|(rest & Hc & Hv)]; [by left|right; exists arg, rest]. split_and!; [left|done..]. }
  destruct (CutPrefix arg "seqpacket://") as [rest|] eqn:Hc.
  { intros Hrun. eapply Hrec; [done|done|exact Hrun|].
    destruct (Atoi rest) eqn:Ha; [right; eauto|by left]. }
  destruct (CutPrefix arg "--descr") as [rest|].
  { destruct rest as [|c rest].
    - destruct argv as [|a argv]; [intros [= <- <- <-]; by left|].
      intros Hrun. eapply (Hrec argv); [cbn; lia|set_solver|exact Hrun|by left].
    - destruct (Ascii.eqb_spec c "=") as [->|Hne].
      + intros Hrun. by eapply Hrec; [..|exact Hrun|left].
      + intros Hrun. eapply (Hrec argv descr fd vnl); [done|done| |by left].
        by destruct c as [[] [] [] [] [] [] [] []]. }
  destruct (HasPrefix arg "-"); [intros Hrun; by eapply Hrec; [..|exact Hrun|left]|].
  destruct (String.eqb descr ""); intros Hrun; by eapply Hrec; [..|exact Hrun|left].
Qed.

(** The command line UML execs. *)
Lemma parseArgs_exec name fd params :
  name <> "" -> 0 <= fd < 2 ^ 63 ->
  let vnl := "slirp://" +:+ params in
  parseArgs ["--descr"; name; "seqpacket://" +:+ Itoa fd; vnl] = (name, fd, vnl) /\
  parseArgs ["--descr=" +:+ name; "seqpacket://" +:+ Itoa fd; vnl] = (name, fd, vnl) /\
  vnlParams vnl = params.
Proof.
  intros Hname Hfd vnl.
  assert (Htail : parseArgsLoop ["seqpacket://" +:+ Itoa fd; vnl] name (-1) "" = (name, fd, vnl)).
  { cbn [parseArgsLoop]. rewrite CutPrefix_same, Atoi_Itoa by done.
    change (CutPrefix vnl "seqpacket://") with (@None string).
    change (CutPrefix vnl "--descr") with (@None string). change (HasPrefix vnl "-") with false.
    cbn iota. by destruct (String.eqb_spec name ""). }
  split_and!; [exact Htail| |unfold vnlParams, vnl; by rewrite CutPrefix_same].
  unfold parseArgs. cbn [parseArgsLoop].
  change (CutPrefix ("--descr=" +:+ name) "seqpacket://") with (@None string).
  change (CutPrefix ("--descr=" +:+ name) "--descr") with (CutPrefix (String "=" name) "").
  cbn [CutPrefix]. exact Htail.
Qed.

(** the link descriptor. [parseArgs] returns a descriptor other than -1 only
    when an argument [seqpacket://N] spells it, so [main]'s [fd < 0] check stops
    everything else (standard input never becomes the link); and on the command
    line UML execs ([--descr NAME seqpacket://FD VNL], or [--descr=NAME]) it
    returns exactly the name, the descriptor and the VNL string. *)
Theorem parseArgs_contract :
  (forall argv d f v, parseArgs argv = (d, f, v) ->
     f = -1 \/ exists arg rest, arg ∈ argv /\ CutPrefix arg "seqpacket://" = Some rest /\
       Atoi rest = Some f) /\
  (forall name fd params, name <> "" -> 0 <= fd < 2 ^ 63 ->
     let vnl := "slirp://" +:+ params in
     parseArgs ["--descr"; name; "seqpacket://" +:+ Itoa fd; vnl] = (name, fd, vnl) /\
     parseArgs ["--descr=" +:+ name; "seqpacket://" +:+ Itoa fd; vnl] = (name, fd, vnl) /\
     vnlParams vnl = params).
Proof.
  split; [intros argv d f v; apply parseArgsLoop_fd|]. intros name fd params. apply parseArgs_exec.
Qed.

(** the MTU of the link. Every configured value below 2^32 gives a link that
    can carry an IP datagram in a frame (68 to 9216), the configured value itself
    when that is in range and the full frame otherwise. (At 2^32 and beyond the
    64-bit value passes the lower bound and is then cut to 32 bits: 2^32 gives a
    link of MTU 0.) *)
Theorem linkMTU_range :
  (forall m, m < 2 ^ 32 -> 68 <= linkMTU m <= 9216 /\
     (68 <= m <= 9216 -> linkMTU m = m) /\ (m < 68 \/ 9216 < m -> linkMTU m = 9216)) /\
  linkMTU (2 ^ 32) = 0.
Proof.
  split; [|by vm_compute]. intros m Hm. unfold linkMTU. change (FrameMax - 18) with 9216.
  destruct (Z.leb_spec 68 m); cbn [andb]; [|lia].
  rewrite u32_small by lia. destruct (Z.leb_spec m 9216); lia.
Qed.

(** ** The uplink filter: theorems *)

Section Uplink.
Context `{H : NetHeader} `{D : DhcpServer.DhcpLib}.

(** Frames of another ethertype pass the DHCP server and the relay unseen. *)
Lemma HandleFrame_other_type frame behind s et :
  14 <= len frame -> (b ← slice frame 12 14; be16 b) = Done et -> et <> 0x0800 ->
  DhcpServer.HandleFrame frame behind s = Done (None, s).
Proof.
  intros Hl Het Hne. unfold DhcpServer.HandleFrame. destruct (_ <? _); [done|].
  rewrite Het. go_simpl. by destruct (Z.eqb_spec et 2048).
Qed.

Lemma relay_other_type now ok own frame r et :
  14 <= len frame -> (b ← slice frame 12 14; be16 b) = Done et -> et <> 0x0800 ->
  Icmp.HandleFrame now ok own frame r = Done (false, None, r).
Proof.
  intros Hl Het Hne. unfold Icmp.HandleFrame. destruct r as [r|]; [|done].
  destruct (_ <? 0); [done|]. unfold Icmp.parseEchoRequest.
  destruct (len frame <? _); [done|]. rewrite Het. go_simpl. by destruct (Z.eqb_spec et 2048).
Qed.

(** An ARP packet: its operation and target address. *)
Record arpFrame (frame : bytes) (op : Z) (tpa : bytes) : Prop := {
  af_len : 42 <= len frame;
  af_type : (b ← slice frame 12 14; be16 b) = Done 0x0806;
  af_op : (b ← slice frame 20 22; be16 b) = Done op;
  af_tpa : slice frame 38 42 = Done tpa;
}.

Lemma slice_drop {A} (b : list A) n lo hi :
  0 <= n <= len b -> 0 <= lo -> slice (drop (Z.to_nat n) b) lo hi = slice b (n + lo) (n + hi).
Proof.
  intros Hn Hlo. unfold slice. rewrite len_drop by lia.
  destruct (Z.leb_spec 0 lo), (Z.leb_spec lo hi), (Z.leb_spec hi (len b - Z.of_nat (Z.to_nat n))),
    (Z.leb_spec 0 (n + lo)), (Z.leb_spec (n + lo) (n + hi)), (Z.leb_spec (n + hi) (len b)); try lia;
    cbn [andb]; try done.
  rewrite drop_drop. do 2 f_equal; [lia|]. f_equal. lia.
Qed.

Lemma arpForOwnAddr_arp frame own op tpa :
  arpFrame frame op tpa ->
  arpForOwnAddr frame own = Done (negb (op =? 1) || bool_decide (tpa ∈ own)).
Proof.
  intros [Hl Ht Hop Htpa]. unfold arpForOwnAddr.
  destruct (Z.ltb_spec (len frame) 14); [lia|]. rewrite Ht. go_simpl.
  change (2054 =? 2054) with true. go_simpl.
  destruct (Z.ltb_spec (len frame) (14 + 28)); [lia|].
  rewrite slice_from_eq by lia. go_simpl. rewrite !slice_drop by lia.
  change (14 + 6) with 20. change (14 + 8) with 22. rewrite Hop. go_simpl.
  destruct (Z.eqb_spec op 1); [|done]. go_simpl.
  change (14 + 24) with 38. change (14 + 28) with 42. rewrite Htpa. go_simpl.
  assert (length tpa = 4%nat) as (a & b & c & d & ->)%length_4_inv; [|done].
  rewrite slice_eq in Htpa by lia. injection Htpa as <-.
  rewrite length_take, length_drop. unfold len in Hl. lia.
Qed.

(** the switch's own ARP. An ARP frame reaches neither the DHCP server nor the
    ping relay; netstack sees it exactly when it is not a request or asks for one
    of the addresses netstack owns, so netstack, which would answer for every
    address, never claims another guest's; nothing of the uplink's state changes.
    (A reply for a foreign address is injected too, against the comment on
    [arpForOwnAddr].) *)
Theorem SendFrame_arp now ok frame behind u op tpa :
  arpFrame frame op tpa ->
  SendFrame now ok frame behind u =
    Done (if (op =? 1) && negb (bool_decide (tpa ∈ u_own u)) then Shed else Injected, u).
Proof.
  intros Harp. pose proof Harp as [Hl Ht _ _]. unfold SendFrame.
  assert ((match u_dhcp u with
    | None => Done (None, None)
    | Some s => '(reply, s) ← DhcpServer.HandleFrame frame behind s; Done (reply, Some s)
    end) = Done (None, u_dhcp u)) as ->.
  { destruct (u_dhcp u) as [s|]; [|done]. by rewrite (HandleFrame_other_type _ _ _ 2054) by (done || lia). }
  go_simpl. cbn [u_own u_icmp u_dhcp].
  rewrite (relay_other_type _ _ _ _ _ 2054) by (done || lia). go_simpl.
  cbn [u_own u_dhcp]. rewrite (arpForOwnAddr_arp _ _ op tpa) by done. go_simpl.
  destruct u. cbn. destruct (op =? 1), (bool_decide _); done.
Qed.

End Uplink.

#[local] Existing Instance DhcpServer.RefDhcp.

Definition arpRequest (op : Z) (tpa : bytes) : bytes :=
  Icmp.ef_dmac Icmp.demoEcho ++ [2;0;0;0;0;9; 8;6; 0;1; 8;0; 6;4] ++ put16 op ++
  [2;0;0;0;0;9; 10;0;2;15; 0;0;0;0;0;0] ++ tpa.

Definition demoUplink : uplinkSink :=
  mkUplink (Some DhcpServer.demoServer) {[ [10;0;2;2] ]} (Some Icmp.demoRelay).

Theorem SendFrame_arp_witness :
  SendFrame 0 true (arpRequest 1 [10;0;2;7]) [] demoUplink = Done (Shed, demoUplink) /\
  SendFrame 0 true (arpRequest 1 [10;0;2;2]) [] demoUplink = Done (Injected, demoUplink) /\
  SendFrame 0 true (arpRequest 2 [10;0;2;7]) [] demoUplink = Done (Injected, demoUplink).
Proof.
  split_and!.
  - refine (eq_trans (SendFrame_arp 0 true (arpRequest 1 [10;0;2;7]) [] demoUplink 1 [10;0;2;7] _) _);
      [split; by vm_compute|by vm_compute].
  - refine (eq_trans (SendFrame_arp 0 true (arpRequest 1 [10;0;2;2]) [] demoUplink 1 [10;0;2;2] _) _);
      [split; by vm_compute|by vm_compute].
  - refine (eq_trans (SendFrame_arp 0 true (arpRequest 2 [10;0;2;7]) [] demoUplink 2 [10;0;2;7] _) _);
      [split; by vm_compute|by vm_compute].
Defined.

(** ** Gossip: the lease table of the hub reaches its peers *)

(** Pools whose MACs and addresses are bytes (they come from Ethernet frames). *)
Definition pool_bytes (p : Pool) : Prop := Forall wf_bytes (order p).

Definition leaseOf (e : bytes * bytes) : Lease := mkLease e.1 e.2.

Lemma pool_lease_wf p k ip :
  pool_ok p -> pool_bytes p -> assigned p !! k = Some ip ->
  length k = 6%nat /\ wf_bytes k /\ wf_ip4 ip.
Proof.
  intros Hok Hb (i & Hi & ->)%(ok_assigned p Hok).
  pose proof (Forall_lookup_1 _ _ _ _ (ok_keys p Hok) Hi).
  pose proof (Forall_lookup_1 _ _ _ _ Hb Hi). split_and!; [done|done|apply wf_leaseAddr..].
Qed.

Lemma snapLease_text k ip :
  length k = 6%nat -> wf_bytes k -> wf_ip4 ip ->
  snapLease (macString k, v4String ip) = Some (leaseOf (k, ip)).
Proof.
  intros Hk Hwf Hip. unfold snapLease. cbn [fst snd]. rewrite ParseMAC_macString by done.
  rewrite ParseIP_v4String by done. destruct Hip as [(a & b & c & d & ->)%length_4_inv _].
  unfold leaseOf, array. cbn [fst snd]. by rewrite take_app_eq by done.
Qed.

Lemma snapshot_entries p l :
  pool_ok p -> pool_bytes p -> l ⊆ map_to_list (assigned p) ->
  poolSnapshot ((fun e => (macString e.1, v4String e.2)) <$> l) = leaseOf <$> l.
Proof.
  intros Hok Hb. induction l as [|[k ip] l IH]; intros Hsub; [done|].
  cbn [fmap list_fmap poolSnapshot omap list_omap fst snd].
  assert (Hin : assigned p !! k = Some ip) by (apply elem_of_map_to_list, Hsub; left).
  destruct (pool_lease_wf p k ip Hok Hb Hin) as (Hk & Hwf & Hip).
  rewrite snapLease_text by done. f_equal. apply IH. intros x Hx. apply Hsub. by right.
Qed.

Lemma Leases_list p :
  pool_ok p -> pool_bytes p ->
  map_to_list (Leases p) ≡ₚ ((fun e => (macString e.1, v4String e.2)) <$> map_to_list (assigned p)).
Proof.
  intros Hok Hb. unfold Leases. apply map_to_list_to_map.
  rewrite <- list_fmap_compose. apply NoDup_fmap_2_strong; [|apply NoDup_map_to_list].
  intros [k ip] [k' ip'] H1 H2. cbn. intros E.
  apply elem_of_map_to_list in H1, H2.
  destruct (pool_lease_wf p k ip Hok Hb H1) as (Hk & Hwf & _).
  destruct (pool_lease_wf p k' ip' Hok Hb H2) as (Hk' & Hwf' & _).
  apply (f_equal ParseMAC) in E. rewrite !ParseMAC_macString in E by done.
  injection E as ->. congruence.
Qed.

(** Whatever order the snapshot map is walked in, the hub gossips its pool. *)
Lemma poolSnapshot_pool p snap :
  pool_ok p -> pool_bytes p -> snap ≡ₚ map_to_list (Leases p) ->
  exists l, l ≡ₚ map_to_list (assigned p) /\ poolSnapshot snap = (leaseOf <$> l).
Proof.
  intros Hok Hb Hs. rewrite (Leases_list p Hok Hb) in Hs.
  assert (Hmap : forall A B (f : A -> B) l, f <$> l = map f l) by done.
  rewrite Hmap in Hs. apply Permutation_map_inv in Hs as (l & -> & Hl). rewrite <- Hmap.
  exists l. split; [by symmetry|]. apply (snapshot_entries p); [done|done|].
  intros x Hx. by rewrite Hl.
Qed.

Lemma leaseMap_lookup ls : forall (m : gmap bytes bytes) k,
  NoDup (lease_MAC <$> ls) -> (forall l, l ∈ ls -> m !! lease_MAC l = None) ->
  foldl (fun m l => <[lease_MAC l := lease_IP l]> m) m ls !! k =
  match find (fun l => bool_decide (lease_MAC l = k)) ls with
  | Some l => Some (lease_IP l)
  | None => m !! k
  end.
Proof.
  induction ls as [|l ls IH]; intros m k Hnd Hm; [done|]. cbn [foldl find].
  apply NoDup_cons in Hnd as [Hnin Hnd].
  assert (Hne : forall l', l' ∈ ls -> lease_MAC l <> lease_MAC l').
  { intros l' Hl' E. apply Hnin. rewrite E. by apply list_elem_of_fmap_2. }
  rewrite IH; [|done|].
  2:{ intros l' Hl'. rewrite lookup_insert_ne by by apply Hne. apply Hm. by right. }
  destruct (decide (lease_MAC l = k)) as [<-|Hk].
  - rewrite bool_decide_eq_true_2 by done.
    destruct (find _ ls) as [l'|] eqn:E; [|by rewrite lookup_insert_eq].
    apply find_some in E as [Hl' E]. apply bool_decide_eq_true in E.
    apply list_elem_of_In in Hl'. by destruct (Hne l').
  - rewrite bool_decide_eq_false_2 by done.
    destruct (find _ ls); [done|]. by rewrite lookup_insert_ne.
Qed.

Lemma leaseMap_entries (m : gmap bytes bytes) l :
  l ≡ₚ map_to_list m -> leaseMap (leaseOf <$> l) = m.
Proof.
  intros Hl.
  assert (Hmac : (lease_MAC <$> (leaseOf <$> l)) = l.*1) by by rewrite <- list_fmap_compose.
  assert (Hnd : NoDup l.*1).
  { rewrite Hl. apply NoDup_fst_map_to_list. }
  apply map_eq. intros k. unfold leaseMap.
  rewrite leaseMap_lookup; [|by rewrite Hmac|by intros; apply lookup_empty].
  rewrite lookup_empty. apply option_eq. intros ip. rewrite <- elem_of_map_to_list, <- Hl.
  split.
  - destruct (find _ _) as [x|] eqn:E; [|done]. intros [= <-].
    apply find_some in E as [Hx E]. apply bool_decide_eq_true in E.
    apply list_elem_of_In, list_elem_of_fmap in Hx as ([k' ip'] & -> & Hx). cbn in E. by subst.
  - intros Hin. destruct (find _ _) as [x|] eqn:E.
    + apply find_some in E as [Hx E]. apply bool_decide_eq_true in E.
      apply list_elem_of_In, list_elem_of_fmap in Hx as ([k' ip'] & -> & Hx). cbn in E. subst k'.
      f_equal. cbn. apply list_elem_of_lookup in Hx as [i Hi]. apply list_elem_of_lookup in Hin as [j Hj].
      pose proof (NoDup_lookup _ i j k Hnd) as Hij. rewrite !list_lookup_fmap, Hi, Hj in Hij.
      rewrite Hij in Hi by done. congruence.
    + exfalso. assert (Hx : leaseOf (k, ip) ∈ (leaseOf <$> l)) by by apply list_elem_of_fmap_2.
      apply list_elem_of_In in Hx. pose proof (find_none _ _ E _ Hx) as Hd. cbn in Hd.
      by apply bool_decide_eq_false in Hd.
Qed.

(** What a peer caches from a heartbeat of hub pool [p], and the pool it builds
    from it when it is promoted. *)
Definition cached (seq : Z) (snap : list (string * string)) : go (result (gmap bytes bytes)) :=
  r ← ParseBeacon (EncodeBeacon vdeMAC seq (poolSnapshot snap));
  Done (match r with Ok (_, ls) => Ok (leaseMap ls) | Err e => Err e end).

Lemma leases_wf p l :
  pool_ok p -> pool_bytes p -> l ≡ₚ map_to_list (assigned p) -> Forall wf_lease (leaseOf <$> l).
Proof.
  intros Hok Hb Hl. apply Forall_fmap, Forall_forall. intros [k ip] Hin.
  rewrite Hl in Hin. apply elem_of_map_to_list in Hin.
  destruct (pool_lease_wf p k ip Hok Hb Hin) as (Hk & Hwf & Hip4 & Hipwf). by split_and!.
Qed.

(** The heartbeat of a small enough pool carries its whole lease table. *)
Lemma beacon_carries_pool p seq snap :
  pool_ok p -> pool_bytes p -> (length (order p) <= MaxLeases)%nat -> 0 <= seq < 2 ^ 32 ->
  snap ≡ₚ map_to_list (Leases p) ->
  let frame := EncodeBeacon vdeMAC seq (poolSnapshot snap) in
  IsBeacon frame = Done true /\ len frame <= 345 /\
  exists ls, ParseBeacon frame = Done (Ok (seq, ls)) /\ leaseMap ls = assigned p.
Proof.
  intros Hok Hb Hlen Hseq Hsnap frame.
  destruct (poolSnapshot_pool p snap Hok Hb Hsnap) as (l & Hl & E). unfold frame. rewrite E.
  pose proof (leases_wf p l Hok Hb Hl) as Hwf.
  assert (Hsz : (length (leaseOf <$> l) <= MaxLeases)%nat).
  { rewrite length_fmap, Hl, length_map_to_list. by rewrite size_assigned. }
  split; [by apply EncodeBeacon_is_beacon|]. split; [by apply EncodeBeacon_len|].
  exists (leaseOf <$> l). rewrite EncodeBeacon_parses by done. rewrite take_ge by done.
  by rewrite (leaseMap_entries (assigned p)).
Qed.

(** failover keeps everyone's address. For a hub pool of at most 32 leases
    (the heartbeat's capacity), whatever order its lease map is walked in, the
    heartbeat is recognised as such by the peers, what a peer caches from it is the
    hub's lease table, and the pool the peer restores when it is promoted is the
    hub's: the same address for every old client, the next one for a new client. *)
Theorem failover_inherits p seq snap ord macs :
  pool_ok p -> pool_bytes p -> (length (order p) <= MaxLeases)%nat -> 0 <= seq < 2 ^ 32 ->
  snap ≡ₚ map_to_list (Leases p) -> (forall off, ord off ≡ₚ map_to_list (assigned p)) ->
  IsBeacon (EncodeBeacon vdeMAC seq (poolSnapshot snap)) = Done true /\
  cached seq snap = Done (Ok (assigned p)) /\
  Restore ord (freshPool p) = p /\
  serve macs (Restore ord (freshPool p)) = serve macs p.
Proof.
  intros Hok Hb Hlen Hseq Hsnap Hord.
  destruct (beacon_carries_pool p seq snap Hok Hb Hlen Hseq Hsnap) as (Hi & _ & ls & Hp & Hm).
  split; [done|]. split; [unfold cached; rewrite Hp; go_simpl; by rewrite Hm|].
  assert (E : Restore ord (freshPool p) = p) by by apply Restore_eq.
  by rewrite E.
Qed.

(** ** Evaluations *)

Definition demoMac (i : Z) : bytes := [2; 0; 0; 0; 0; i].
Definition poolOf (n : nat) : Pool :=
  (serve (demoMac <$> seqZ 1 (Z.of_nat n)) (NewPool [10;0;2;15] 240)).2.

Lemma poolOf_ok n : pool_ok (poolOf n).
Proof. by apply serve_ok, pool_ok_NewPool. Qed.

Theorem failover_inherits_witness :
  cached 7 (map_to_list (Leases (poolOf 3))) = Done (Ok (assigned (poolOf 3))) /\
  (serve [demoMac 2; demoMac 9] (Restore (fun _ => map_to_list (assigned (poolOf 3)))
     (freshPool (poolOf 3)))).1 = [Ok [10;0;2;16]; Ok [10;0;2;18]].
Proof.
  destruct (failover_inherits (poolOf 3) 7 (map_to_list (Leases (poolOf 3)))
    (fun _ => map_to_list (assigned (poolOf 3))) [demoMac 2; demoMac 9]) as (_ & H1 & _ & H2).
  - exact (poolOf_ok 3).
  - unfold pool_bytes, wf_bytes. vm_compute. repeat constructor; done.
  - vm_compute. repeat constructor.
  - done.
  - done.
  - done.
  - split; [exact H1|]. rewrite H2. by vm_compute.
Defined.

(** The hub's snapshot with the first client's entry last. *)
Definition lateFirst (p : Pool) : list (string * string) :=
  let l := map_to_list (Leases p) in
  filter (fun e => ~ e.1 = macString (demoMac 1)) l ++ filter (fun e => e.1 = macString (demoMac 1)) l.

(** failover with more than 32 leases hands out an address twice. The
    heartbeat carries 32 leases, in the order of a Go map; with 33 clients one of
    them is missing. When that is the client of the pool's first address, the pool a
    promoted peer restores counts 32 leases and continues at the 33rd address, which
    a restored client holds: the next new client gets that client's address. *)
Theorem failover_over_32_duplicates :
  exists snap m,
    snap ≡ₚ map_to_list (Leases (poolOf 33)) /\
    cached 1 snap = Done (Ok m) /\
    let q := Restore (fun _ => map_to_list m) (freshPool (poolOf 33)) in
    (GetOrAssign (demoMac 33) q).1 = Ok [10;0;2;47] /\
    (GetOrAssign (demoMac 99) q).1 = Ok [10;0;2;47].
Proof.
  exists (lateFirst (poolOf 33)), (delete (demoMac 1) (assigned (poolOf 33))).
  split; [|split; [vm_compute; reflexivity|split; vm_compute; reflexivity]].
  unfold lateFirst. rewrite Permutation_app_comm. apply filter_app_complement.
Qed.
