(* ===== verification/Segment.v ===== *)
(** * Segment: the hub's services on its own switch

    The hub's uplink is a port of its switch like any other: the switch hands frames to
    [uplinkSink] of main.go (Main.v), and what that answers - the DHCP server's
    replies - enters the switch again at the uplink's port. Here the two are put
    together: what a guest's request sets off, from its port to its answer. *)
From S2P Require Import Prelude.
From S2P Require Import NetLib.
From S2P Require Import VSwitch.
From S2P Require Import Dhcp.
From S2P Require DhcpServer.
From S2P Require Import Main.
Import DhcpServer (DhcpLib, Server, srv_pool, srv_mac, srv_opts).

Section Segment.
Context `{HL : NetHeaderLaws} `{DL : DhcpLib}.

(** One frame the switch hands to the uplink: [SendFrame], whose answer goes back into
    the switch. [behind] is the rest of the frame's buffer. *)
Definition uplinkTurn (now1 now2 now : Z) (sendOk : bool) (frame behind : bytes) (u : uplinkSink)
    (sw : Switch) : go (uplinkResult * uplinkSink * (Switch * list send)) :=
  '(r, u) ← SendFrame now sendOk frame behind u;
  match r with
  | Replied reply => out ← Forward now1 now2 Uplink reply sw; Done (r, u, out)
  | _ => Done (r, u, (sw, []))
  end.

(** The payload of a UDP datagram in a frame, and what follows it in the buffer. *)
Definition udpPayload (frame behind : bytes) : go (bytes * bytes) :=
  ip ← slice_from frame EthernetMinimumSize;
  '(udp, rest) ← ip4_Payload ip behind;
  payload ← udp_Payload udp; Done (payload, rest).

(** A request the server answers, as the server reads it. *)
Lemma HandleFrame_answered frame behind s reply s' :
  14 <= len frame -> DhcpServer.HandleFrame frame behind s = Done (Some reply, s') ->
  exists payload rest, udpPayload frame behind = Done (payload, rest) /\
    DhcpServer.HandlePacket payload rest (frameSrc frame) s = Done (Some reply, s').
Proof.
  intros Hl. unfold DhcpServer.HandleFrame, udpPayload. destruct (len frame <? _); [done|].
  destruct (b ← slice frame 12 14; be16 b) as [et|]; [|done]. go_simpl. destruct (negb (et =? 2048)); [done|].
  destruct (slice_from frame _) as [ip|]; [|done]. go_simpl.
  destruct (ip4_Protocol ip) as [pr|]; [|done]. go_simpl. destruct (negb (pr =? _)); [done|].
  destruct (ip4_Payload ip behind) as [[udp rest]|]; [|done]. go_simpl. destruct (len udp <? _); [done|].
  destruct (udp_DestinationPort udp) as [pt|]; [|done]. go_simpl. destruct (negb (pt =? _)); [done|].
  rewrite slice_eq by lia. go_simpl. destruct (udp_Payload udp) as [payload|]; [|done]. go_simpl.
  intros E. exists payload, rest. split; [done|]. rewrite <- E. f_equal. unfold frameSrc.
  change (Z.to_nat (12 - 6)) with 6%nat. change (Z.to_nat 6) with 6%nat.
  pose proof (length_frameSrc frame Hl) as H6. unfold frameSrc in H6.
  set (m := take 6 (drop 6 frame)) in *. by apply length_6_inv in H6 as (a & b & c & d & e & f & ->).
Qed.

(** The frame of an answer, as the switch sees it. *)
Lemma answer_addresses s dstMAC dstIP payload reply :
  length dstMAC = 6%nat -> length (srv_mac s) = 6%nat ->
  DhcpServer.replyOnWire s dstMAC dstIP payload reply ->
  14 <= len reply /\ frameDst reply = dstMAC /\ frameSrc reply = srv_mac s /\ isGroup reply = isGroup dstMAC.
Proof.
  intros Hd Hs (ih & uh & _ & _ & ->). unfold frameDst, frameSrc.
  rewrite (take_app_eq 6 dstMAC) by done. rewrite (drop_app_eq 6 dstMAC) by done.
  rewrite (take_app_eq 6 (srv_mac s)) by done. split_and!; try done.
  - rewrite !len_app, (len_of_length dstMAC 6), (len_of_length (srv_mac s) 6) by done.
    pose proof (len_nonneg ih). pose proof (len_nonneg uh). pose proof (len_nonneg payload).
    change (len [8; 0]) with 2. lia.
  - destruct dstMAC; done.
Qed.

(** C13: a client gets its lease, and nobody else's. A client on port [p] broadcasts a
    request the DHCP server answers. The switch hands it to the uplink, and when the
    uplink's turn comes - the switch as the request left it, whatever its queues hold
    by then - the reply, the offer or acknowledgement of the pool's lease for this
    client, enters the switch at the uplink's port and reaches port [p] and no other
    port, or every port but the uplink's if the client asked for a broadcast reply. *)
Theorem dhcp_reaches_client t1 t1' t2 t2' now ok p uid frame behind u s reply s' sw :
  wf sw -> ports sw !! Uplink = Some uid -> p <> Uplink ->
  14 <= len frame <= linkFrameMax -> isGroup frame = true -> isGroup (frameSrc frame) = false ->
  u_dhcp u = Some s -> pool_ok (srv_pool s) -> length (srv_mac s) = 6%nat -> frameSrc frame <> srv_mac s ->
  DhcpServer.HandleFrame frame behind s = Done (Some reply, s') -> len reply <= linkFrameMax ->
  t1' - t1 <= macTTL -> t2' - t1 <= macTTL ->
  returns (Forward t1 t1' p frame sw) (fun r1 =>
    received uid sw r1 frame true /\
    exists payload rest m, udpPayload frame behind = Done (payload, rest) /\ DhcpServer.FromBytes payload = Some m /\
      DhcpServer.answered payload (frameSrc frame) s reply s' /\
      forall sw1, wf sw1 -> ports sw1 = ports sw -> macs sw1 = macs r1.1 ->
      returns (uplinkTurn t2 t2' now ok frame behind u sw1) (fun '(res, u', r2) =>
        res = Replied reply /\ u_dhcp u' = Some s' /\
        forall q id, ports sw !! q = Some id ->
          received id sw1 r2 reply (if DhcpServer.IsBroadcast m then negb (q =? Uplink) else q =? p))).
Proof.
  intros Hwf Hup Hp Hl Hg Hsrc Hu Hok Hmac Hne Hreply Hmax Ht1 Ht2.
  destruct (HandleFrame_answered frame behind s reply s') as (payload & rest & Hpay & Hpk); [lia|done|].
  pose proof (length_frameSrc frame (proj1 Hl)) as H6.
  pose proof (DhcpServer.HandlePacket_answered payload rest (frameSrc frame) s reply s' Hmac H6 Hok Hpk) as Hans.
  pose proof Hans as (m & t & rep & ip & q0 & net & Hm & _ & _ & _ & _ & _ & _ & Hwire).
  apply answer_addresses in Hwire as (Hl14 & Hdst & Hrsrc & Hrg); [|by destruct (DhcpServer.IsBroadcast m)|done].
  destruct (Forward_outcome t1 t1' p frame sw Hwf Hl) as (r1 & E1 & (Hwf1 & _) & Hp1 & _ & Hm1 & _ & Hrec1).
  exists r1. split; [exact E1|]. split.
  { specialize (Hrec1 Uplink uid Hup). unfold bridgeTarget in Hrec1. rewrite Hg in Hrec1.
    by destruct (Z.eqb_spec Uplink p); [congruence|]. }
  exists payload, rest, m. do 3 (split; [done|]). intros sw1 Hwf2 Hp2 Hm2.
  assert (HF : returns (Forward t2 t2' Uplink reply sw1) (fun r2 => forall q id, ports sw1 !! q = Some id ->
     received id sw1 r2 reply (if DhcpServer.IsBroadcast m then negb (q =? Uplink) else q =? p))).
  { destruct (DhcpServer.IsBroadcast m).
    - eapply returns_mono; [|apply Forward_outcome; [exact Hwf2|lia]].
      intros r2 (_ & _ & _ & _ & _ & Hrec) q id Hq. specialize (Hrec q id Hq).
      unfold bridgeTarget in Hrec. rewrite Hrg in Hrec. change (isGroup _) with true in Hrec.
      by rewrite orb_true_l, andb_true_r in Hrec.
    - apply (Forward_known t1); try done; [by rewrite Hrg| |by rewrite Hrsrc, Hdst].
      by rewrite Hm2, Hm1, Hdst, Forward_remembers. }
  rewrite Hp2 in HF. destruct HF as (r2 & E2 & Hr2). unfold uplinkTurn, SendFrame. rewrite Hu, Hreply.
  go_simpl. rewrite E2. go_simpl. apply returns_done. by split.
Qed.

End Segment.

#[local] Existing Instance DhcpServer.RefDhcp.

(** A guest's DISCOVER on the hub of four ports. *)
Definition discover : bytes := DhcpServer.udpFrame 36.

Theorem dhcp_reaches_client_witness :
  exists reply s',
    DhcpServer.HandleFrame discover [] DhcpServer.demoServer = Done (Some reply, s') /\
    returns (Forward 0 0 Local discover demo) (fun r1 =>
      returns (uplinkTurn 5 5 5 true discover [] Main.demoUplink r1.1) (fun '(res, u', r2) =>
        forall q id, ports demo !! q = Some id -> received id r1.1 r2 reply (q =? Local))).
Proof.
  destruct (DhcpServer.HandleFrame discover [] DhcpServer.demoServer) as [[[reply|] s']|] eqn:E;
    [|by vm_compute in E..].
  exists reply, s'. split; [done|].
  assert (Hl : len reply <=? linkFrameMax = true) by (revert E; vm_compute; intros [= <- <-]; reflexivity).
  destruct (dhcp_reaches_client 0 0 5 5 5 true Local 0%nat discover [] Main.demoUplink DhcpServer.demoServer
    reply s' demo demo_wf) as (r1 & E1 & _ & payload & rest & m & Hpay & Hm & _ & H); try done;
    [by apply pool_ok_NewPool|by apply Z.leb_le|].
  exists r1. split; [exact E1|]. clear E Hl.
  vm_compute in Hpay. injection Hpay as <- <-. injection Hm as <-.
  destruct (Forward_outcome 0 0 Local discover demo demo_wf) as (x & E & (Hwf & _) & Hports & _); [by vm_compute|].
  rewrite E1 in E. injection E as <-.
  eapply returns_mono; [|exact (H r1.1 Hwf Hports eq_refl)]. by intros [[res u'] r2] (_ & _ & Hr).
Defined.
