(* ===== verification/Transport.v ===== *)
(** * Transport: internal/transport/transport.go

    The address grammar ([IsTCP]), the length-prefixed TCP framing of peer wires
    ([SendFrame], [RecvFrame]) and the dispatch between TCP and unix sockets
    ([TryConnect], [BindOrConnect]). A TCP connection is the byte stream its writer
    has put on it; the network's answers to a dial or a listen are arguments. *)
From S2P Require Import Prelude.
From S2P Require Import GoStd.

Definition FrameMax : Z := 9216 + 14 + 4.

(** ** Addresses *)

(** Cut at the last separator. *)
Fixpoint CutLast (sep : ascii) (s : string) : option (string * string) :=
  match s with
  | EmptyString => None
  | String c s' =>
      match CutLast sep s' with
      | Some (a, b) => Some (String c a, b)
      | None => if Ascii.eqb c sep then Some (EmptyString, s') else None
      end
  end.

(** [net.SplitHostPort]; every error is [None]. In the bracketed form the text
    behind the closing bracket is a colon and the port. *)
Definition splitBracketed (s' : string) : option (string * string) :=
  match Cut "]" s' with
  | Some (host, String c port) =>
      if negb (Ascii.eqb c ":") || containsByte ":" port || containsByte "[" s' ||
         containsByte "]" port
      then None else Some (host, port)
  | _ => None
  end.

Definition SplitHostPort (s : string) : option (string * string) :=
  match CutLast ":" s with
  | None => None
  | Some (before, port) =>
      match CutPrefix s "[" with
      | Some s' => splitBracketed s'
      | None =>
          if containsByte ":" before || containsByte "[" s || containsByte "]" s
          then None else Some (before, port)
      end
  end.

Definition IsTCP (addr : string) : bool :=
  if containsByte "/" addr then false else
  match SplitHostPort addr with
  | None => false
  | Some (_, port) => match Atoi port with Some _ => true | None => false end
  end.

(** ** Joining and binding *)

(** A wire or a listener, of either family; the payload is the OS's handle. *)
Inductive Conn (A : Type) := UnixConn (a : A) | TcpConn (a : A).
Arguments UnixConn {_} _.
Arguments TcpConn {_} _.

(** [dialTCP] and [dialUnix] are the outcomes of the two dials. *)
Definition TryConnect {A} (dialTCP dialUnix : result A) (addr : string) : result (Conn A) :=
  if IsTCP addr then c ← dialTCP; Ok (TcpConn c) else c ← dialUnix; Ok (UnixConn c).

(** Either a listener (hub side, [inl]) or a wire (peer side, [inr]). [listenTCP]
    is tried only when the dial failed; [bindUnix] is [unixseq.BindOrConnect]. *)
Definition BindOrConnect {A} (dialTCP listenTCP : result A) (bindUnix : result (A + A))
    (addr : string) : result (Conn A + Conn A) :=
  if IsTCP addr then
    match dialTCP with
    | Ok c => Ok (inr (TcpConn c))
    | Err _ => l ← listenTCP; Ok (inl (TcpConn l))
    end
  else
    r ← bindUnix;
    Ok (match r with inr c => inr (UnixConn c) | inl l => inl (UnixConn l) end).

(** ** Framing *)

(** [SendFrame]: the bytes written, in one [Write]. *)
Definition SendFrame (b : bytes) : result bytes :=
  if FrameMax <? len b then Err "frame exceeds FrameMax"
  else Ok (put16 (u16 (len b)) ++ b).

(** [io.ReadFull] of [n] bytes from what is left of a closed stream. *)
Definition ReadFull (n : Z) (stream : bytes) : result (bytes * bytes) :=
  if len stream <? n then Err (if len stream =? 0 then "EOF" else "unexpected EOF")
  else Ok (take (Z.to_nat n) stream, drop (Z.to_nat n) stream).

(** [RecvFrame] into a buffer of [buflen] bytes: the frame and the rest of the
    stream. *)
Definition RecvFrame (buflen : Z) (stream : bytes) : go (result (bytes * bytes)) :=
  match ReadFull 2 stream with
  | Err e => Done (Err e)
  | Ok (head, stream) =>
      n ← be16 head;
      if n =? 0 then Done (Err "EOF") else
      if (FrameMax <? n) || (buflen <? n) then Done (Err "peer frame exceeds buffer") else
      Done (ReadFull n stream)
  end.

(** A wire's reader: frames until the first error. *)
Fixpoint recvAll (fuel : nat) (buflen : Z) (stream : bytes) : go (list bytes * string) :=
  match fuel with
  | O => Done ([], "fuel")
  | S fuel =>
      r ← RecvFrame buflen stream;
      match r with
      | Err e => Done ([], e)
      | Ok (f, stream) =>
          '(fs, e) ← recvAll fuel buflen stream;
          Done (f :: fs, e)
      end
  end.

(** A wire's writer. *)
Fixpoint sendAll (fs : list bytes) : result bytes :=
  match fs with
  | [] => Ok []
  | f :: fs => b ← SendFrame f; rest ← sendAll fs; Ok (b ++ rest)
  end.

(** ** Theorems *)

Lemma ReadFull_app a b : ReadFull (len a) (a ++ b) = Ok (a, b).
Proof.
  unfold ReadFull. rewrite len_app. pose proof (len_nonneg b).
  destruct (Z.ltb_spec (len a + len b) (len a)); [lia|].
  unfold len. rewrite Nat2Z.id. by rewrite take_app_length, drop_app_length.
Qed.

Lemma ReadFull_inv n s a b : 0 <= n -> ReadFull n s = Ok (a, b) -> s = a ++ b /\ len a = n.
Proof.
  intros Hn. unfold ReadFull. destruct (Z.ltb_spec (len s) n); [done|]. intros [= <- <-].
  rewrite take_drop. split; [done|]. rewrite len_take; lia.
Qed.

Lemma RecvFrame_frame buflen f rest :
  0 < len f <= FrameMax -> len f <= buflen ->
  RecvFrame buflen (put16 (len f) ++ f ++ rest) = Done (Ok (f, rest)).
Proof.
  unfold FrameMax. intros Hf Hb. unfold RecvFrame.
  pose proof (ReadFull_app (put16 (len f)) (f ++ rest)) as E. rewrite len_put16 in E. rewrite E.
  rewrite <- (app_nil_r (put16 (len f))), put16_be16 by lia. go_simpl.
  destruct (Z.eqb_spec (len f) 0); [lia|]. unfold FrameMax.
  destruct (Z.ltb_spec (9216 + 14 + 4) (len f)), (Z.ltb_spec buflen (len f)); try lia.
  cbn [orb]. by rewrite ReadFull_app.
Qed.

(** framing round trip. What a peer writes with [SendFrame], frame after frame,
    the other side's [RecvFrame] loop reads back: the same frames, in order, then a
    clean end of stream, for any frames of 1 to [FrameMax] bytes, whatever buffer of
    at least that size it reads into; a turn per frame is enough. *)
Theorem framing_roundtrip fs buflen :
  Forall (fun f => 0 < len f <= FrameMax) fs -> FrameMax <= buflen ->
  exists stream, sendAll fs = Ok stream /\
    recvAll (S (length fs)) buflen stream = Done (fs, "EOF"%string).
Proof.
  intros Hfs Hb. induction Hfs as [|f fs Hf Hfs (stream & Es & Er)].
  { exists []. by split. }
  exists (put16 (len f) ++ f ++ stream). cbn [sendAll length]. rewrite Es. split.
  - unfold SendFrame. destruct (Z.ltb_spec FrameMax (len f)); [lia|]. unfold FrameMax in Hf.
    unfold u16. rewrite Z.mod_small by lia. cbn [mbind result_bind]. by rewrite <- app_assoc.
  - change (recvAll (S (S (length fs))) buflen (put16 (len f) ++ f ++ stream)) with
      (r ← RecvFrame buflen (put16 (len f) ++ f ++ stream);
       match r with
       | Err e => Done ([], e)
       | Ok (f, stream) => '(fs, e) ← recvAll (S (length fs)) buflen stream; Done (f :: fs, e)
       end).
    rewrite RecvFrame_frame by lia. go_simpl. rewrite Er. done.
Qed.

Theorem framing_roundtrip_witness :
  exists stream, sendAll [[1; 2; 3]; zeros 300] = Ok stream /\
    recvAll 3 9234 stream = Done ([[1; 2; 3]; zeros 300], "EOF"%string).
Proof.
  apply (framing_roundtrip [[1; 2; 3]; zeros 300] 9234).
  - repeat constructor; by vm_compute.
  - by vm_compute.
Defined.

(** the reader is safe on any stream. [RecvFrame] never panics; a frame it
    returns is not empty, fits the buffer and [FrameMax], and is exactly the bytes
    behind a length prefix that says so, the rest of the stream staying for the next
    turn; an oversized frame is refused by the sender before anything is written,
    so the stream never loses its framing. *)
Theorem RecvFrame_sound buflen stream :
  wf_bytes stream ->
  exists r, RecvFrame buflen stream = Done r /\
    (forall f rest, r = Ok (f, rest) ->
       0 < len f /\ len f <= buflen /\ len f <= FrameMax /\
       stream = put16 (len f) ++ f ++ rest /\ SendFrame f = Ok (put16 (len f) ++ f)) /\
    (forall b, FrameMax < len b -> exists e, SendFrame b = Err e).
Proof.
  intros Hwf. assert (Hbig : forall b, FrameMax < len b -> exists e, SendFrame b = Err e).
  { intros b Hb. unfold SendFrame. destruct (Z.ltb_spec FrameMax (len b)); [by eexists|lia]. }
  unfold RecvFrame. destruct (ReadFull 2 stream) as [[head rest]|e] eqn:Eh.
  2:{ eexists. split; [done|]. split; [done|exact Hbig]. }
  apply ReadFull_inv in Eh as [-> Hhead]; [|lia]. apply Forall_app in Hwf as [Hwh _].
  destruct (be16_put16_inv head) as (n & Hn & -> & ->); [unfold len in Hhead; lia|done|].
  go_simpl. destruct (Z.eqb_spec n 0).
  { eexists. split; [done|]. split; [done|exact Hbig]. }
  destruct (Z.ltb_spec FrameMax n), (Z.ltb_spec buflen n); cbn [orb];
    try (eexists; split; [done|]; split; [done|exact Hbig]).
  eexists. split; [done|]. split; [|exact Hbig]. intros f rest' Hr.
  apply ReadFull_inv in Hr as [-> Hlen]; [|lia]. rewrite Hlen. split_and!; try done; [lia|].
  unfold SendFrame, u16. rewrite Hlen. destruct (Z.ltb_spec FrameMax n); [lia|].
  by rewrite Z.mod_small by lia.
Qed.

Theorem RecvFrame_sound_witness :
  wf_bytes [0; 2; 7; 8; 9] /\
  exists r, RecvFrame 100 [0; 2; 7; 8; 9] = Done r /\ r = Ok ([7; 8], [9]).
Proof.
  assert (Hwf : wf_bytes [0; 2; 7; 8; 9]) by (unfold wf_bytes; repeat constructor; done).
  split; [exact Hwf|].
  destruct (RecvFrame_sound 100 [0; 2; 7; 8; 9] Hwf) as (r & Hr & _).
  exists r. split; [exact Hr|]. vm_compute in Hr. by injection Hr as <-.
Defined.

(** the address grammar. A path (anything with a slash) and a bare name are
    unix sockets, [HOST:PORT] with a decimal port and a host without colons or
    brackets is TCP; so is [\[HOST\]:PORT]. [TryConnect] and [BindOrConnect] use the
    family [IsTCP] says, never the other, and over TCP bind only when nobody
    answered the dial. *)
Theorem IsTCP_grammar :
  (forall s, containsByte "/" s = true -> IsTCP s = false) /\
  (forall s, containsByte ":" s = false -> IsTCP s = false) /\
  (forall host port, containsByte "/" host = false -> containsByte ":" host = false ->
     containsByte "[" host = false -> containsByte "]" host = false -> 0 <= port < 2 ^ 63 ->
     IsTCP (host +:+ String ":" (Itoa port)) = true) /\
  (forall A (dt du lt : result A) bu addr,
     (IsTCP addr = true -> forall c, TryConnect dt du addr = Ok c <-> exists a, dt = Ok a /\ c = TcpConn a) /\
     (IsTCP addr = false -> forall c, TryConnect dt du addr = Ok c <-> exists a, du = Ok a /\ c = UnixConn a) /\
     (forall l, BindOrConnect dt lt bu addr = Ok (inl (TcpConn l)) -> exists e, dt = Err e)).
Proof.
  assert (HL : forall sep s, containsByte sep s = false -> CutLast sep s = None).
  { intros sep s. induction s as [|c s IH]; [done|]. cbn [containsByte CutLast].
    intros [Hc Hs]%orb_false_iff. by rewrite IH, Hc. }
  split_and!.
  - intros s Hs. unfold IsTCP. by rewrite Hs.
  - intros s Hs. unfold IsTCP, SplitHostPort. rewrite HL by done. by destruct (containsByte "/" s).
  - intros host port H1 H2 H3 H4 Hp. pose proof (digits_Itoa port ltac:(lia)) as Hd.
    assert (Hfree : forall c, isDigit c = false -> containsByte c (Itoa port) = false)
      by (intros; by apply digits_free).
    unfold IsTCP. rewrite containsByte_app, H1. cbn [orb containsByte].
    change (Ascii.eqb ":" "/") with false. cbn [orb]. rewrite Hfree by done.
    assert (CutLast ":" (host +:+ String ":" (Itoa port)) = Some (host, Itoa port)) as Hcut.
    { clear H1 H3 H4. induction host as [|c host IH].
      - change ("" +:+ ?s) with s. cbn [CutLast]. by rewrite HL by by apply Hfree.
      - cbn [containsByte] in H2. apply orb_false_iff in H2 as [_ H2].
        change (String c host +:+ ?s) with (String c (host +:+ s)). cbn [CutLast]. by rewrite IH. }
    unfold SplitHostPort. rewrite Hcut. rewrite H2, !containsByte_app, H3, H4.
    cbn [orb containsByte]. change (Ascii.eqb ":" "[") with false.
    change (Ascii.eqb ":" "]") with false. cbn [orb]. rewrite !Hfree by done.
    assert (CutPrefix (host +:+ String ":" (Itoa port)) "[" = None) as ->.
    { destruct host as [|c host]; [done|]. cbn [containsByte] in H3.
      apply orb_false_iff in H3 as [Hc _]. rewrite Ascii.eqb_sym in Hc.
      change (String c host +:+ ?s) with (String c (host +:+ s)). cbn [CutPrefix]. by rewrite Hc. }
    change (false || false) with false. cbn iota. by rewrite Atoi_Itoa by done.
  - intros A dt du lt bu addr. unfold TryConnect, BindOrConnect. split_and!.
    + intros -> c. destruct dt; cbn; split; [intros [= <-]; eauto|by intros (? & [= ->] & ->)|
        done|by intros (? & ? & ?)].
    + intros -> c. destruct du; cbn; split; [intros [= <-]; eauto|by intros (? & [= ->] & ->)|
        done|by intros (? & ? & ?)].
    + intros l. destruct (IsTCP addr).
      * destruct dt; [done|]. intros _. by eexists.
      * destruct bu as [[l'|c]|]; done.
Qed.
