(* ===== verification/Wg.v ===== *)
(** * Wg: internal/wgup/conf.go

    The tunnel's configuration: the record, the parser of wg-quick files ([Parse],
    with [decodeKey] and [parseCIDRs]), [Load], and the choice of the file
    ([ResolvePath]). Error values carry no text that depends on the file. *)
From S2P Require Import Prelude.
From S2P Require Import GoStd.
From S2P Require Import GoText.
From S2P Require Transport.
From stdpp Require Import sorting.
#[local] Open Scope Z_scope.

Record Conf := mkConf {
  Path : string;
  PrivateKey : bytes;
  PresharedKey : bytes;
  Addresses : list IPNet;
  DNS : list bytes;
  PeerKey : bytes;
  AllowedIPs : list IPNet;
  Endpoint : string;
  Keepalive : Z;
  MTU : Z;
}.
#[export] Instance Conf_eq_dec : EqDecision Conf.
Proof. solve_decision. Defined.

(** [&Conf{Path: path}], and the assignments of the parser. *)
Definition newConf (path : string) : Conf := mkConf path [] [] [] [] [] [] "" 0 0.
Definition setPrivateKey (v : bytes) (c : Conf) : Conf :=
  mkConf (Path c) v (PresharedKey c) (Addresses c) (DNS c) (PeerKey c) (AllowedIPs c) (Endpoint c) (Keepalive c) (MTU c).
Definition setPresharedKey (v : bytes) (c : Conf) : Conf :=
  mkConf (Path c) (PrivateKey c) v (Addresses c) (DNS c) (PeerKey c) (AllowedIPs c) (Endpoint c) (Keepalive c) (MTU c).
Definition setAddresses (v : list IPNet) (c : Conf) : Conf :=
  mkConf (Path c) (PrivateKey c) (PresharedKey c) v (DNS c) (PeerKey c) (AllowedIPs c) (Endpoint c) (Keepalive c) (MTU c).
Definition appendDNS (v : list bytes) (c : Conf) : Conf :=
  mkConf (Path c) (PrivateKey c) (PresharedKey c) (Addresses c) (DNS c ++ v) (PeerKey c) (AllowedIPs c) (Endpoint c) (Keepalive c) (MTU c).
Definition setPeerKey (v : bytes) (c : Conf) : Conf :=
  mkConf (Path c) (PrivateKey c) (PresharedKey c) (Addresses c) (DNS c) v (AllowedIPs c) (Endpoint c) (Keepalive c) (MTU c).
Definition setAllowedIPs (v : list IPNet) (c : Conf) : Conf :=
  mkConf (Path c) (PrivateKey c) (PresharedKey c) (Addresses c) (DNS c) (PeerKey c) v (Endpoint c) (Keepalive c) (MTU c).
Definition setEndpoint (v : string) (c : Conf) : Conf :=
  mkConf (Path c) (PrivateKey c) (PresharedKey c) (Addresses c) (DNS c) (PeerKey c) (AllowedIPs c) v (Keepalive c) (MTU c).
Definition setKeepalive (v : Z) (c : Conf) : Conf :=
  mkConf (Path c) (PrivateKey c) (PresharedKey c) (Addresses c) (DNS c) (PeerKey c) (AllowedIPs c) (Endpoint c) v (MTU c).
Definition setMTU (v : Z) (c : Conf) : Conf :=
  mkConf (Path c) (PrivateKey c) (PresharedKey c) (Addresses c) (DNS c) (PeerKey c) (AllowedIPs c) (Endpoint c) (Keepalive c) v.

(** ** Values *)

Definition decodeKey (value : string) : result bytes :=
  match DecodeString value with
  | Some raw => if len raw =? 32 then Ok raw else Err "key must be 32 base64-encoded bytes"
  | None => Err "key must be 32 base64-encoded bytes"
  end.

(** One entry of a list: a network, or a bare address as a host route. *)
Definition parseCIDR (part : string) : result IPNet :=
  match ParseCIDR part with
  | Some ipnet => Ok ipnet
  | None =>
      match ParseIP part with
      | [] => Err "not a CIDR"
      | ip =>
          let bits := match To4 ip with [] => 128 | _ => 32 end in
          Ok (mkIPNet ip (CIDRMask bits (Z.to_nat (bits / 8))))
      end
  end.

Fixpoint parseParts (parts : list string) : result (list IPNet) :=
  match parts with
  | [] => Ok []
  | part :: parts =>
      let part := TrimSpace part in
      if String.eqb part "" then parseParts parts
      else n ← parseCIDR part; out ← parseParts parts; Ok (n :: out)
  end.

Definition parseCIDRs (value : string) : result (list IPNet) := parseParts (Split "," value).

(** The addresses of a DNS line that are addresses. *)
Definition parseDNS (value : string) : list bytes :=
  omap (fun d => match ParseIP (TrimSpace d) with [] => None | ip => Some ip end)
       (Split "," value).

(** strconv.Atoi as a (value, error) pair. *)
Definition atoi (value : string) : result Z :=
  match Atoi value with Some n => Ok n | None => Err "Atoi" end.

(** ** The parser *)

(** The [switch] on section and key. Unknown keys and sections are skipped. *)
Definition applyKey (section key value : string) (c : Conf) : result Conf :=
  if String.eqb section "Interface" then
    if String.eqb key "privatekey" then k ← decodeKey value; Ok (setPrivateKey k c)
    else if String.eqb key "address" then a ← parseCIDRs value; Ok (setAddresses a c)
    else if String.eqb key "dns" then Ok (appendDNS (parseDNS value) c)
    else if String.eqb key "mtu" then m ← atoi value; Ok (setMTU m c)
    else Ok c
  else if String.eqb section "Peer" then
    if String.eqb key "publickey" then k ← decodeKey value; Ok (setPeerKey k c)
    else if String.eqb key "presharedkey" then k ← decodeKey value; Ok (setPresharedKey k c)
    else if String.eqb key "allowedips" then a ← parseCIDRs value; Ok (setAllowedIPs a c)
    else if String.eqb key "endpoint" then
      match Transport.SplitHostPort value with
      | None => Err "endpoint"
      | Some _ => Ok (setEndpoint value c)
      end
    else if String.eqb key "persistentkeepalive" then
      ka ← atoi value;
      if (ka <? 0) || (65535 <? ka) then Err "keepalive out of range"
      else Ok (setKeepalive (u16 ka) c)
    else Ok c
  else Ok c.

(** One turn of the loop over the lines; the state is the section and the record. *)
Definition parseLine (st : string * Conf) (text : string) : result (string * Conf) :=
  let line := TrimSpace text in
  if String.eqb line "" || HasPrefix line "#" || HasPrefix line ";" then Ok st
  else if HasPrefix line "[" then Ok (Trim line "[]", st.2)
  else
    match Cut "=" line with
    | None => Err "not key=value"
    | Some (key, value) =>
        c ← applyKey st.1 (ToLower (TrimSpace key)) (TrimSpace value) st.2; Ok (st.1, c)
    end.

Fixpoint parseLines (lines : list string) (st : string * Conf) : result (string * Conf) :=
  match lines with
  | [] => Ok st
  | l :: lines => st ← parseLine st l; parseLines lines st
  end.

(** The checks behind the loop. *)
Definition complete (c : Conf) : result Conf :=
  if len (PrivateKey c) =? 0 then Err "no PrivateKey"
  else if len (PeerKey c) =? 0 then Err "no Peer PublicKey"
  else if len (AllowedIPs c) =? 0 then Err "no AllowedIPs"
  else if String.eqb (Endpoint c) "" then Err "no Endpoint"
  else Ok c.

Definition Parse (data path : string) : result Conf :=
  let '(lines, tooLong) := ScanLines data in
  st ← parseLines lines ("", newConf path);
  if tooLong then Err "bufio.Scanner: token too long" else complete st.2.

(** [file] is what [os.ReadFile] returns. *)
Definition Load (file : result string) (path : string) : result Conf :=
  data ← file; Parse data path.

(** ** The configuration file *)

(** Go compares strings byte by byte. *)
Fixpoint stringLe (a b : string) : bool :=
  match a, b with
  | EmptyString, _ => true
  | String _ _, EmptyString => false
  | String x a, String y b =>
      if code x <? code y then true else if code y <? code x then false else stringLe a b
  end.

(** [sort.Strings]. *)
Definition strLe (a b : string) : Prop := stringLe a b = true.
#[export] Instance strLe_dec a b : Decision (strLe a b).
Proof. unfold strLe. apply _. Defined.
Definition sortStrings : list string -> list string := merge_sort strLe.

(** [exists_ p]: [os.Stat] succeeds; [wd]: [os.Getwd]; [readDir]: the entries of a
    directory, each with whether it is one itself. *)
Definition ResolvePath (exists_ : string -> bool) (wd : result string)
    (readDir : string -> result (list (string * bool))) (override : string) : result string :=
  if negb (String.eqb override "") then
    if exists_ override then Ok override else Err "wireguard_conf_path"
  else
    wd ← wd;
    let dir := FilepathJoin [wd; ".config"; "wireguard"]%string in
    entries ← readDir dir;
    let names := omap (fun e : string * bool =>
      if negb e.2 && HasSuffix e.1 ".conf" then Some e.1 else None) entries in
    match sortStrings names with
    | [] => Err "wireguard: no *.conf"
    | name :: _ => Ok (FilepathJoin [dir; name])
    end.

(** ** Theorems: the choice of the file *)

#[export] Instance strLe_total : Total strLe.
Proof.
  intros a. induction a as [|x a IH]; intros [|y b]; unfold strLe in *; cbn [stringLe]; auto.
  destruct (Z.ltb_spec (code x) (code y)), (Z.ltb_spec (code y) (code x)); auto; lia.
Qed.

#[export] Instance strLe_trans : Transitive strLe.
Proof.
  intros a. induction a as [|x a IH]; intros [|y b] [|z c]; unfold strLe in *; cbn [stringLe]; try done.
  destruct (Z.ltb_spec (code x) (code y)), (Z.ltb_spec (code y) (code x)),
    (Z.ltb_spec (code y) (code z)), (Z.ltb_spec (code z) (code y)),
    (Z.ltb_spec (code x) (code z)), (Z.ltb_spec (code z) (code x)); try done; try lia.
  apply IH.
Qed.

#[export] Instance strLe_antisymm : AntiSymm (=) strLe.
Proof.
  intros a. induction a as [|x a IH]; intros [|y b]; unfold strLe in *; cbn [stringLe]; try done.
  destruct (Z.ltb_spec (code x) (code y)), (Z.ltb_spec (code y) (code x)); try done; try lia.
  intros H1 H2. rewrite (IH b) by done.
  replace x with y; [done|]. rewrite <- (chr_code x), <- (chr_code y). f_equal. lia.
Qed.

(** The head of a sorted list is its least element. *)
Lemma sortStrings_head l :
  match sortStrings l with
  | [] => l = []
  | x :: _ => x ∈ l /\ forall y, y ∈ l -> strLe x y
  end.
Proof.
  unfold sortStrings. pose proof (merge_sort_Permutation strLe l) as Hp.
  pose proof (StronglySorted_merge_sort strLe l) as Hs.
  destruct (merge_sort strLe l) as [|x s]; [by apply Permutation_nil_l in Hp|].
  apply StronglySorted_inv in Hs as [_ Hs]. rewrite Forall_forall in Hs. split.
  - rewrite <- Hp. by left.
  - intros y. rewrite <- Hp. intros [->|Hy]%elem_of_cons; [|by apply Hs].
    by destruct (total strLe x x).
Qed.

(** The configuration files among the entries of a directory. *)
Definition confFile (entries : list (string * bool)) (n : string) : Prop :=
  (n, false) ∈ entries /\ HasSuffix n ".conf" = true.

(** which file configures the tunnel. A path from the configuration wins, and must
    exist. Without one it is the first in byte order of the files of the wireguard
    directory that end in .conf, in whatever order the directory lists them; it is an
    error when there is none. *)
Theorem ResolvePath_least exists_ wd readDir override entries :
  let dir := FilepathJoin [wd; ".config"; "wireguard"]%string in
  readDir dir = Ok entries ->
  let r := ResolvePath exists_ (Ok wd) readDir override in
  if String.eqb override "" then
    (exists n, confFile entries n /\ (forall n', confFile entries n' -> strLe n n') /\
       r = Ok (FilepathJoin [dir; n])) \/
    ((forall n, ~ confFile entries n) /\ ~ is_Ok r)
  else r = if exists_ override then Ok override else Err "wireguard_conf_path".
Proof.
  intros dir Hdir r. unfold r, ResolvePath. destruct (String.eqb override ""); cbn [negb]; [|done].
  cbn [mbind result_bind]. fold dir. rewrite Hdir. cbn [mbind result_bind]. cbv zeta.
  set (names := omap _ entries).
  assert (Hn : forall n, n ∈ names <-> confFile entries n).
  { intros n. unfold names, confFile. rewrite list_elem_of_omap. split.
    - intros ([n' d] & He & E). destruct d; cbn [negb andb fst snd] in E; [discriminate|].
      destruct (HasSuffix n' ".conf") eqn:Hs; [|done]. injection E as <-. by split.
    - intros [He Hs]. exists (n, false). cbn [negb andb fst snd]. by rewrite Hs. }
  pose proof (sortStrings_head names) as Hh. destruct (sortStrings names) as [|x s].
  - right. split; [|by intros [? ?]]. intros n Hc. apply Hn in Hc. rewrite Hh in Hc.
    by apply elem_of_nil in Hc.
  - left. destruct Hh as [Hx Hle]. exists x. split_and!; [by apply Hn| |done].
    intros n' Hc. by apply Hle, Hn.
Qed.

Definition demoEntries : list (string * bool) :=
  [("zeta.conf", false); ("a.conf", true); ("alpha.conf", false); ("b", false)]%string.

(** A sub-directory and another file do not count. *)
Theorem ResolvePath_least_witness :
  exists n, confFile demoEntries n /\ strLe n "alpha.conf" /\
    Ok "/home/u/.config/wireguard/alpha.conf"%string =
    Ok (FilepathJoin [FilepathJoin ["/home/u"; ".config"; "wireguard"]; n])%string.
Proof.
  assert (Ha : confFile demoEntries "alpha.conf") by (split; [set_solver|reflexivity]).
  destruct (ResolvePath_least (fun _ => false) "/home/u" (fun _ => Ok demoEntries) "" demoEntries
    eq_refl) as [(n & Hn & Hle & E)|[H _]].
  - exists n. split; [exact Hn|]. split; [exact (Hle _ Ha)|]. rewrite <- E. vm_compute. reflexivity.
  - destruct (H _ Ha).
Defined.

(** ** Theorems: what an accepted file yields *)

Definition key32 (k : bytes) : Prop := length k = 32%nat /\ wf_bytes k.

(** Every field holds a value the tunnel can use, or its zero value. *)
Record wf_fields (c : Conf) : Prop := {
  wf_priv : PrivateKey c = [] \/ key32 (PrivateKey c);
  wf_psk : PresharedKey c = [] \/ key32 (PresharedKey c);
  wf_peer : PeerKey c = [] \/ key32 (PeerKey c);
  wf_addresses : Forall wf_net (Addresses c);
  wf_allowed : Forall wf_net (AllowedIPs c);
  wf_dns : Forall (fun ip => length ip = 16%nat /\ wf_bytes ip) (DNS c);
  wf_endpoint : Endpoint c = "" \/
    (is_Some (Transport.SplitHostPort (Endpoint c)) /\ containsByte "010" (Endpoint c) = false);
  wf_keepalive : 0 <= Keepalive c <= 65535;
  wf_mtu : - 2 ^ 63 <= MTU c < 2 ^ 63;
}.

(** And nothing a tunnel needs is missing. *)
Definition wf_conf (c : Conf) : Prop :=
  wf_fields c /\ key32 (PrivateKey c) /\ key32 (PeerKey c) /\ AllowedIPs c <> [] /\ Endpoint c <> "".

Lemma decodeKey_wf v k : decodeKey v = Ok k -> key32 k.
Proof.
  unfold decodeKey. destruct (DecodeString v) as [raw|] eqn:E; [|done].
  destruct (Z.eqb_spec (len raw) 32) as [Hl|]; [|done]. intros [= <-].
  split; [unfold len in Hl; lia|]. unfold DecodeString in E. by apply b64Quanta_wf in E.
Qed.

Lemma parseCIDR_wf part n : parseCIDR part = Ok n -> wf_net n.
Proof.
  unfold parseCIDR. destruct (ParseCIDR part) as [m|] eqn:E.
  { intros [= <-]. by apply ParseCIDR_wf in E as [? _]. }
  destruct (ParseIP part) as [|x ip] eqn:Eip; [done|].
  destruct (ParseIP_wf part) as [Hl Hw]; [by rewrite Eip|]. rewrite Eip in Hl, Hw.
  set (a := x :: ip) in *. intros H.
  assert (n = mkIPNet a (CIDRMask (match To4 a with [] => 128 | _ => 32 end)
    (Z.to_nat (match To4 a with [] => 128 | _ => 32 end / 8)))) as -> by (cbv zeta in H; congruence).
  clear H E Eip. unfold wf_net. cbn [ipnet_IP ipnet_Mask]. split; [by split; auto|].
  destruct (To4 a) as [|y b] eqn:E4; rewrite !length_CIDRMask; unfold len; rewrite length_CIDRMask.
  - change (Z.to_nat (128 / 8)) with 16%nat. split; [exists 128; split; [lia|done]|]. left. lia.
  - change (Z.to_nat (32 / 8)) with 4%nat. split; [exists 32; split; [lia|done]|]. right. split; [done|].
    rewrite <- E4. apply To4_length. by rewrite E4.
Qed.

Lemma parseParts_wf parts : forall out, parseParts parts = Ok out -> Forall wf_net out.
Proof.
  induction parts as [|p parts IH]; intros out; cbn [parseParts]; [intros [= <-]; constructor|].
  destruct (String.eqb (TrimSpace p) ""); [apply IH|].
  destruct (parseCIDR (TrimSpace p)) as [n|] eqn:E; [|done]. cbn [mbind result_bind].
  destruct (parseParts parts) as [ns|]; [|done]. cbn [mbind result_bind]. intros [= <-].
  constructor; [by eapply parseCIDR_wf|by apply IH].
Qed.

Lemma Atoi_range s n : Atoi s = Some n -> - 2 ^ 63 <= n < 2 ^ 63.
Proof.
  assert (Hnum : forall t v, match t with EmptyString => None | _ => parseDigits 0 t end = Some v -> 0 <= v).
  { intros [|c t] v; [done|]. by apply parseDigits_nonneg. }
  destruct s as [|c s]; [done|]. unfold Atoi. destruct (Ascii.eqb c "-").
  - destruct (match s with EmptyString => None | _ => _ end) as [v|] eqn:E; [|done].
    cbn [mbind option_bind]. apply Hnum in E. destruct (Z.leb_spec v (2 ^ 63)); [|done].
    intros [= <-]. lia.
  - set (t := if Ascii.eqb c "+" then s else String c s).
    destruct (match t with EmptyString => None | _ => _ end) as [v|] eqn:E; [|done].
    cbn [mbind option_bind]. apply Hnum in E. destruct (Z.ltb_spec v (2 ^ 63)); [|done].
    intros [= <-]. lia.
Qed.

Lemma parseDNS_wf v : Forall (fun ip => length ip = 16%nat /\ wf_bytes ip) (parseDNS v).
Proof.
  apply Forall_forall. intros ip (d & _ & E)%list_elem_of_omap.
  destruct (ParseIP (TrimSpace d)) as [|x l] eqn:Ed; [done|].
  assert (ip = x :: l) as -> by congruence. rewrite <- Ed. apply ParseIP_wf. by rewrite Ed.
Qed.

Lemma applyKey_wf section key value c c' :
  containsByte "010" value = false -> wf_fields c -> applyKey section key value c = Ok c' ->
  wf_fields c'.
Proof.
  intros Hv [P1 P2 P3 P4 P5 P6 P7 P8 P9] H. unfold applyKey in H.
  assert (Hk : forall k, decodeKey value = Ok k -> k = [] \/ key32 k)
    by (intros k Hk; right; by eapply decodeKey_wf).
  assert (Hn : forall ns, parseCIDRs value = Ok ns -> Forall wf_net ns)
    by (intros ns; apply parseParts_wf).
  assert (Ha : forall n, atoi value = Ok n -> - 2 ^ 63 <= n < 2 ^ 63).
  { unfold atoi. intros n. destruct (Atoi value) eqn:E; [|done]. intros [= <-]. by eapply Atoi_range. }
  assert (Hd := parseDNS_wf value).
  repeat match type of H with
  | (if String.eqb ?a ?b then _ else _) = _ => destruct (String.eqb a b)
  end.
  all: try (destruct (decodeKey value) as [k|] eqn:E; [|discriminate H]; specialize (Hk k eq_refl)).
  all: try (destruct (parseCIDRs value) as [ns|] eqn:E; [|discriminate H]; specialize (Hn ns eq_refl)).
  all: try (destruct (atoi value) as [m|] eqn:E; [|discriminate H]; specialize (Ha m eq_refl)).
  all: cbn [mbind result_bind] in H.
  all: try (destruct (Transport.SplitHostPort value) eqn:Eh; [|discriminate H]).
  all: try (destruct ((m <? 0) || (65535 <? m)) eqn:Em; [discriminate H|]; bool_arith).
  all: assert (Hc : c' = match Ok c' with Ok x => x | Err _ => c end) by done; rewrite <- H in Hc;
    cbn iota in Hc; rewrite Hc; clear H Hc.
  all: split; try assumption; unfold appendDNS, setEndpoint, setKeepalive; cbn.
  all: try (apply Forall_app; by split).
  all: try (right; split; [by eexists|done]).
  all: unfold u16; try (pose proof (Z.mod_pos_bound m (2 ^ 16)); lia).
Qed.

Lemma Cut_free c sep s a b :
  Cut sep s = Some (a, b) -> containsByte c s = false -> containsByte c b = false.
Proof.
  revert a b. induction s as [|x s IH]; intros a b; [done|]. cbn [Cut containsByte].
  intros H Hf. apply orb_false_iff in Hf as [_ Hf].
  destruct (Ascii.eqb x sep); [by injection H as <- <-|].
  destruct (Cut sep s) as [[u v]|]; [|done]. injection H as <- <-. by eapply IH.
Qed.

Lemma parseLine_wf st text st' :
  containsByte "010" text = false -> wf_fields st.2 -> parseLine st text = Ok st' -> wf_fields st'.2.
Proof.
  intros Ht Hst. unfold parseLine. apply TrimSpace_free in Ht. cbv zeta.
  destruct (_ || _ || _); [by intros [= <-]|]. destruct (HasPrefix _ "["); [by intros [= <-]|].
  destruct (Cut "=" (TrimSpace text)) as [[key value]|] eqn:E; [|done].
  destruct (applyKey _ _ _ _) as [c|] eqn:Ea; [|done]. cbn [mbind result_bind]. intros [= <-].
  cbn [snd]. eapply applyKey_wf; [|exact Hst|exact Ea]. eapply TrimSpace_free, Cut_free; done.
Qed.

Lemma parseLines_wf lines : forall st st',
  Forall (fun l => containsByte "010" l = false) lines -> wf_fields st.2 ->
  parseLines lines st = Ok st' -> wf_fields st'.2.
Proof.
  induction lines as [|l lines IH]; intros st st' Hl Hst; cbn [parseLines]; [by intros [= <-]|].
  apply Forall_cons in Hl as [Hl Hls]. destruct (parseLine st l) as [st1|] eqn:E; [|done].
  cbn [mbind result_bind]. apply IH; [done|]. by eapply parseLine_wf.
Qed.

Lemma newConf_wf path : wf_fields (newConf path).
Proof. split; cbn; auto; try constructor; lia. Qed.

Lemma Parse_fields data path c :
  Parse data path = Ok c -> wf_fields c /\ complete c = Ok c.
Proof.
  unfold Parse. pose proof (ScanLines_free data) as Hf. destruct (ScanLines data) as [lines tooLong].
  destruct (parseLines lines ("", newConf path)) as [st|] eqn:E; [|done]. cbn [mbind result_bind].
  apply parseLines_wf in E; [|done|apply newConf_wf]. destruct tooLong; [done|]. intros Hc.
  assert (c = st.2) as ->; [|done]. revert Hc. unfold complete. repeat case_match; by intros [= <-].
Qed.

Lemma complete_wf c : wf_fields c -> complete c = Ok c -> wf_conf c.
Proof.
  intros E. unfold complete.
  destruct (Z.eqb_spec (len (PrivateKey c)) 0) as [|H1]; [done|].
  destruct (Z.eqb_spec (len (PeerKey c)) 0) as [|H2]; [done|].
  destruct (Z.eqb_spec (len (AllowedIPs c)) 0) as [|H3]; [done|].
  destruct (String.eqb_spec (Endpoint c) "") as [|H4]; [done|].
  intros _. destruct (wf_priv _ E) as [Hp|Hp]; [by rewrite Hp in H1|].
  destruct (wf_peer _ E) as [Hq|Hq]; [by rewrite Hq in H2|].
  split_and!; try done. intros Ha. by rewrite Ha in H3.
Qed.

(** C21: the type of a configuration. Whatever bytes the file holds, an accepted one
    yields 32-byte keys, at least one allowed network, only networks with a canonical
    mask of their address's family, an endpoint that splits into host and port and
    holds no line break, a keepalive that fits 16 bits, and an MTU that fits an int. *)
Theorem Parse_wf data path c : Parse data path = Ok c -> wf_conf c.
Proof. intros [Hf Hc]%Parse_fields. by apply complete_wf. Qed.

(** ** Theorems: files as wg-quick users write them *)

(** What such a file says; networks, DNS servers and the endpoint are the texts. *)
Record settings := mkSettings {
  s_private : bytes; s_addresses : list string; s_dns : list string; s_mtu : option Z;
  s_public : bytes; s_preshared : option bytes; s_allowed : list string; s_endpoint : string;
  s_keepalive : option Z;
}.

Definition entry (key value : string) : string := (key +:+ " = " +:+ value)%string.
Definition entryList (key : string) (values : list string) : list string :=
  match values with [] => [] | _ => [entry key (String.concat ", " values)] end.
Definition entryOpt (key : string) (value : option string) : list string :=
  match value with None => [] | Some v => [entry key v] end.

Definition interfaceLines (s : settings) : list string :=
  entry "PrivateKey" (EncodeToString (s_private s)) ::
  entryList "Address" (s_addresses s) ++ entryList "DNS" (s_dns s) ++
  entryOpt "MTU" (Itoa <$> s_mtu s).
Definition peerLines (s : settings) : list string :=
  entry "PublicKey" (EncodeToString (s_public s)) ::
  entryOpt "PresharedKey" (EncodeToString <$> s_preshared s) ++
  entryList "AllowedIPs" (s_allowed s) ++ [entry "Endpoint" (s_endpoint s)] ++
  entryOpt "PersistentKeepalive" (Itoa <$> s_keepalive s).
Definition settingsLines (s : settings) : list string :=
  "[Interface]"%string :: interfaceLines s ++ ""%string :: "[Peer]"%string :: peerLines s.

(** A list element: trimmed, on one line, without a comma. *)
Definition item (t : string) : Prop := clean t /\ containsByte "," t = false.
Definition isNet (t : string) (n : IPNet) : Prop := item t /\ ParseCIDR t = Some n.

Record valid (s : settings) (addrs allowed : list IPNet) : Prop := {
  v_private : key32 (s_private s);
  v_public : key32 (s_public s);
  v_preshared : forall k, s_preshared s = Some k -> key32 k;
  v_addresses : Forall2 isNet (s_addresses s) addrs;
  v_allowed : Forall2 isNet (s_allowed s) allowed;
  v_some : s_allowed s <> [];
  v_dns : Forall (fun t => item t /\ ParseIP t <> []) (s_dns s);
  v_endpoint : clean (s_endpoint s) /\ is_Some (Transport.SplitHostPort (s_endpoint s));
  v_mtu : forall m, s_mtu s = Some m -> 0 <= m < 2 ^ 63;
  v_keepalive : forall k, s_keepalive s = Some k -> 0 <= k <= 65535;
  v_short : Forall (fun l => (String.length l < maxScanTokenSize)%nat) (settingsLines s);
}.

Definition meaning (path : string) (s : settings) (addrs allowed : list IPNet) : Conf :=
  mkConf path (s_private s) (default [] (s_preshared s)) addrs (ParseIP <$> s_dns s) (s_public s)
    allowed (s_endpoint s) (default 0 (s_keepalive s)) (default 0 (s_mtu s)).

Lemma parseLines_app l1 l2 st st' :
  parseLines l1 st = Ok st' -> parseLines (l1 ++ l2) st = parseLines l2 st'.
Proof.
  revert st. induction l1 as [|l l1 IH]; intros st; cbn [parseLines app]; [by intros [= ->]|].
  destruct (parseLine st l) as [st1|]; [|done]. apply IH.
Qed.

(** A key as the program knows it: no marker of a comment or section, no '='. *)
Definition keyName (key : string) : Prop :=
  clean key /\ containsByte "=" key = false /\
  exists c s, key = String c s /\ c <> "#"%char /\ c <> ";"%char /\ c <> "["%char.

Lemma HasPrefix_other p c s : c <> p -> HasPrefix (String c s) (String p "") = false.
Proof. intros H. unfold HasPrefix. cbn. by destruct (ascii_dec p c) as [->|]. Qed.

Lemma clean_plain c d s t :
  plain c = true -> plain d = true -> String c s = (t +:+ String d "")%string ->
  containsByte "010" (String c s) = false -> clean (String c s).
Proof. intros. split; eauto. Qed.

(** One line of such a file. *)
Lemma parseLine_entry key value st c :
  keyName key -> clean value -> applyKey st.1 (ToLower key) value st.2 = Ok c ->
  parseLine st (entry key value) = Ok (st.1, c).
Proof.
  intros (Hk & Heq & x & s & Ex & H1 & H2 & H3) Hv Ha.
  assert (Hc : clean (entry key value)) by by apply clean_app.
  unfold parseLine. rewrite (clean_trim _ Hc). cbv zeta.
  assert (Hm : String.eqb (entry key value) "" || HasPrefix (entry key value) "#" ||
    HasPrefix (entry key value) ";" = false /\ HasPrefix (entry key value) "[" = false).
  { unfold entry. rewrite Ex. change (String x s +:+ ?r)%string with (String x (s +:+ r)%string).
    by rewrite !HasPrefix_other. }
  destruct Hm as [-> ->]. unfold entry.
  assert (Ec : Cut "=" (key +:+ " = " +:+ value)%string = Some (key +:+ " ", String " " value)%string).
  { change (" = " +:+ value)%string with (String " " (String "=" (String " " value))).
    change (String " " (String "=" ?r)) with (" " +:+ String "=" r)%string.
    rewrite <- string_app_assoc. apply Cut_app. by rewrite containsByte_app, Heq. }
  rewrite Ec, TrimSpace_behind, clean_trim_space by done. by rewrite Ha.
Qed.

Lemma parseLine_section name st :
  clean (String "[" (name +:+ "]")) -> Trim (String "[" (name +:+ "]")) "[]" = name ->
  parseLine st (String "[" (name +:+ "]")) = Ok (name, st.2).
Proof.
  intros Hc Ht. unfold parseLine. rewrite (clean_trim _ Hc). cbv zeta.
  rewrite !HasPrefix_other by done. cbn [String.eqb orb]. rewrite Ht.
  assert (H : HasPrefix (String "[" (name +:+ "]")) "[" = true) by by destruct name.
  by rewrite H.
Qed.

(** ** Lists of networks *)

Lemma Split_list t ts :
  containsByte "," t = false -> Forall (fun t => containsByte "," t = false) ts ->
  Split "," (String.concat ", " (t :: ts)) = t :: (String " " <$> ts).
Proof.
  intros Ht H. revert t Ht. induction H as [|u ts Hu _ IH]; intros t Ht; [by apply Split_none|].
  change (String.concat ", " (t :: u :: ts))
    with (t +:+ String "," (String " " (String.concat ", " (u :: ts))))%string.
  rewrite Split_app by done. f_equal. cbn [Split]. rewrite IH by done. done.
Qed.

Lemma parseParts_items (ts : list string) ns :
  Forall2 isNet ts ns -> parseParts (String " " <$> ts) = Ok ns.
Proof.
  induction 1 as [|t n ts ns [[Hc _] Hn] _ IH]; [done|]. cbn [fmap list_fmap parseParts].
  rewrite clean_trim_space by done. destruct (String.eqb_spec t "") as [->|].
  { by destruct Hc as [(? & ? & ? & _) _ _]. }
  unfold parseCIDR. rewrite Hn. cbn [mbind result_bind]. change (list_fmap _ _ ?f ts) with (f <$> ts).
  by rewrite IH.
Qed.

Lemma parseCIDRs_list ts ns :
  ts <> [] -> Forall2 isNet ts ns -> parseCIDRs (String.concat ", " ts) = Ok ns.
Proof.
  intros Hne H. destruct H as [|t n ts ns Hn H]; [done|]. unfold parseCIDRs.
  rewrite Split_list; [|by apply Hn|by eapply Forall2_Forall_l; [exact H|];
    apply Forall_forall; intros ? _ ? [[_ ?] _]].
  destruct Hn as [[Hc _] Hn]. cbn [parseParts]. rewrite clean_trim by done.
  destruct (String.eqb_spec t "") as [->|].
  { by destruct Hc as [(? & ? & ? & _) _ _]. }
  unfold parseCIDR. rewrite Hn. cbn [mbind result_bind]. by rewrite parseParts_items with (ns := ns).
Qed.

Lemma parseDNS_list ts :
  ts <> [] -> Forall (fun t => item t /\ ParseIP t <> []) ts ->
  parseDNS (String.concat ", " ts) = ParseIP <$> ts.
Proof.
  intros Hne H. destruct H as [|t ts [[Hc Hf] Hip] H]; [done|]. clear Hne. unfold parseDNS.
  rewrite Split_list; [|done|by eapply Forall_impl; [exact H|]; intros ? [[_ ?] _]].
  cbn [omap list_omap fmap list_fmap]. rewrite clean_trim by done.
  destruct (ParseIP t) as [|x ip]; [done|]. f_equal.
  induction H as [|u ts [[Hu _] Hipu] _ IH]; [done|]. cbn [omap list_omap fmap list_fmap].
  rewrite clean_trim_space by done. destruct (ParseIP u) as [|y ipu]; [done|]. f_equal. apply IH.
Qed.

(** ** The values of the other keys *)

Lemma decodeKey_Encode k : key32 k -> decodeKey (EncodeToString k) = Ok k.
Proof.
  intros [Hl Hw]. unfold decodeKey. rewrite DecodeString_Encode by done. unfold len. by rewrite Hl.
Qed.

Lemma clean_Encode k : key32 k -> clean (EncodeToString k).
Proof.
  intros [Hl Hw]. unfold EncodeToString. pose proof (b64Encode_chars k) as Hc.
  assert (Hne : b64Encode k <> []) by (by destruct k as [|? [|? [|? ?]]]).
  set (l := b64Encode k) in *. clearbody l. split.
  - destruct Hc as [|c l [_ Hp]]; [done|]. by exists c, (string_of_list_ascii l).
  - destruct (exists_last Hne) as (u & d & ->). apply Forall_app in Hc as [_ Hc].
    apply Forall_cons in Hc as [[_ Hp] _]. exists (string_of_list_ascii u), d. split; [|done].
    clear. induction u as [|x u IH]; [done|]. cbn. by rewrite IH.
  - clear Hne. induction Hc as [|c l [[H1 _] _] _ IH]; [done|]. cbn. rewrite IH.
    by destruct (Ascii.eqb_spec c "010").
Qed.

Lemma clean_Itoa n : 0 <= n -> clean (Itoa n).
Proof.
  intros Hn. destruct (Itoa_cons n Hn) as (c & s & Ec & Hc).
  destruct (string_snoc (Itoa n)) as (u & d & E & Hd); [by rewrite Ec|].
  split; [exists c, s; by split; [|apply plain_digit]|exists u, d|].
  - split; [done|]. apply plain_digit, Hd, digits_Itoa, Hn.
  - by apply digits_free, digits_Itoa.
Qed.

Lemma clean_concat ts : ts <> [] -> Forall clean ts -> clean (String.concat ", " ts).
Proof.
  intros Hne H. induction H as [|t ts Ht H IH]; [done|]. destruct ts as [|u ts]; [done|].
  change (String.concat ", " (t :: u :: ts)) with (t +:+ ", " +:+ String.concat ", " (u :: ts))%string.
  apply clean_app; [done|by apply IH|done].
Qed.

Lemma keyName_dec key :
  match key with
  | String c _ => plain c && negb (existsb (Ascii.eqb c) ["#"; ";"; "["]%char)
  | _ => false
  end && match rev_string key "" with String d _ => plain d | _ => false end &&
  negb (containsByte "010" key) && negb (containsByte "=" key) = true -> keyName key.
Proof.
  destruct key as [|c s]; [done|]. intros H.
  apply andb_true_iff in H as [H Heq%negb_true_iff]. apply andb_true_iff in H as [H Hnl%negb_true_iff].
  apply andb_true_iff in H as [H Hd]. apply andb_true_iff in H as [Hc Hm%negb_true_iff].
  cbn [existsb] in Hm. rewrite !orb_false_iff, !Ascii.eqb_neq in Hm. destruct Hm as (M1 & M2 & M3 & _).
  split; [|split; [done|by exists c, s]].
  split; [by exists c, s| |done].
  destruct (rev_string (String c s) "") as [|d u] eqn:E; [done|]. exists (rev_string u ""), d.
  split; [|done]. rewrite <- (rev_string_involutive (String c s)), E.
  cbn [rev_string]. apply rev_string_acc.
Qed.

Ltac key_name := apply keyName_dec; vm_compute; reflexivity.

(** ** The lines of each key *)

Lemma entry_step sec key value c c' :
  keyName key -> clean value -> applyKey sec (ToLower key) value c = Ok c' ->
  parseLines [entry key value] (sec, c) = Ok (sec, c').
Proof. intros Hk Hv Ha. cbn [parseLines]. by rewrite (parseLine_entry key value (sec, c) c'). Qed.

Lemma isNet_clean ts ns : Forall2 isNet ts ns -> Forall clean ts.
Proof. induction 1 as [|t n ts ns [[Hc _] _] _ IH]; by constructor. Qed.

Lemma address_lines ts ns c :
  Forall2 isNet ts ns -> Addresses c = [] ->
  parseLines (entryList "Address" ts) ("Interface"%string, c) = Ok ("Interface"%string, setAddresses ns c).
Proof.
  intros H Hc. destruct ts as [|t ts].
  { apply Forall2_nil_inv_l in H as ->. destruct c. cbn in *. by subst. }
  unfold entryList. apply entry_step; [key_name|apply clean_concat; [done|by eapply isNet_clean]|].
  change (applyKey _ (ToLower "Address") ?v c) with (a ← parseCIDRs v; Ok (setAddresses a c)).
  by rewrite parseCIDRs_list with (ns := ns).
Qed.

Lemma allowed_lines ts ns c :
  Forall2 isNet ts ns -> ts <> [] ->
  parseLines (entryList "AllowedIPs" ts) ("Peer"%string, c) = Ok ("Peer"%string, setAllowedIPs ns c).
Proof.
  intros H Hne. destruct ts as [|t ts]; [done|].
  unfold entryList. apply entry_step; [key_name|apply clean_concat; [done|by eapply isNet_clean]|].
  change (applyKey _ (ToLower "AllowedIPs") ?v c) with (a ← parseCIDRs v; Ok (setAllowedIPs a c)).
  by rewrite parseCIDRs_list with (ns := ns).
Qed.

Lemma dns_lines ts c :
  Forall (fun t => item t /\ ParseIP t <> []) ts -> DNS c = [] ->
  parseLines (entryList "DNS" ts) ("Interface"%string, c) =
    Ok ("Interface"%string, appendDNS (ParseIP <$> ts) c).
Proof.
  intros H Hc. destruct ts as [|t ts].
  { destruct c. cbn in *. by subst. }
  unfold entryList. apply entry_step; [key_name| |].
  - apply clean_concat; [done|]. eapply Forall_impl; [exact H|]. by intros ? [[? _] _].
  - change (applyKey _ (ToLower "DNS") ?v c) with (Ok (appendDNS (parseDNS v) c)).
    by rewrite parseDNS_list.
Qed.

Lemma atoi_Itoa n : 0 <= n < 2 ^ 63 -> atoi (Itoa n) = Ok n.
Proof. intros Hn. unfold atoi. by rewrite Atoi_Itoa. Qed.

Lemma mtu_lines o c :
  (forall m, o = Some m -> 0 <= m < 2 ^ 63) -> MTU c = 0 ->
  parseLines (entryOpt "MTU" (Itoa <$> o)) ("Interface"%string, c) =
    Ok ("Interface"%string, setMTU (default 0 o) c).
Proof.
  intros H Hc. destruct o as [m|].
  2:{ destruct c. cbn in *. by subst. }
  specialize (H m eq_refl). apply entry_step; [key_name|apply clean_Itoa; lia|].
  change (applyKey _ (ToLower "MTU") ?v c) with (m ← atoi v; Ok (setMTU m c)).
  by rewrite atoi_Itoa.
Qed.

Lemma preshared_lines o c :
  (forall k, o = Some k -> key32 k) -> PresharedKey c = [] ->
  parseLines (entryOpt "PresharedKey" (EncodeToString <$> o)) ("Peer"%string, c) =
    Ok ("Peer"%string, setPresharedKey (default [] o) c).
Proof.
  intros H Hc. destruct o as [k|].
  2:{ destruct c. cbn in *. by subst. }
  specialize (H k eq_refl). apply entry_step; [key_name|by apply clean_Encode|].
  change (applyKey _ (ToLower "PresharedKey") ?v c) with (k ← decodeKey v; Ok (setPresharedKey k c)).
  by rewrite decodeKey_Encode.
Qed.

Lemma keepalive_lines o c :
  (forall k, o = Some k -> 0 <= k <= 65535) -> Keepalive c = 0 ->
  parseLines (entryOpt "PersistentKeepalive" (Itoa <$> o)) ("Peer"%string, c) =
    Ok ("Peer"%string, setKeepalive (default 0 o) c).
Proof.
  intros H Hc. destruct o as [k|].
  2:{ destruct c. cbn in *. by subst. }
  specialize (H k eq_refl). apply entry_step; [key_name|apply clean_Itoa; lia|].
  change (applyKey _ (ToLower "PersistentKeepalive") ?v c) with
    (ka ← atoi v; if (ka <? 0) || (65535 <? ka) then Err "keepalive out of range"
                  else Ok (setKeepalive (u16 ka) c)).
  rewrite atoi_Itoa by lia. cbn [mbind result_bind default from_option id].
  destruct (Z.ltb_spec k 0); [lia|]. destruct (Z.ltb_spec 65535 k); [lia|]. cbn [orb].
  unfold u16. by rewrite Z.mod_small by lia.
Qed.

Lemma interface_lines s addrs allowed path :
  valid s addrs allowed ->
  parseLines (interfaceLines s) ("Interface"%string, newConf path) =
    Ok ("Interface"%string,
        mkConf path (s_private s) [] addrs (ParseIP <$> s_dns s) [] [] "" 0 (default 0 (s_mtu s))).
Proof.
  intros V. unfold interfaceLines.
  change (entry ?k ?v :: ?l) with ([entry k v] ++ l).
  erewrite parseLines_app.
  2:{ apply (entry_step "Interface" "PrivateKey" _ _ (setPrivateKey (s_private s) (newConf path)));
        [key_name|apply clean_Encode, V|].
      change (applyKey _ (ToLower "PrivateKey") ?v ?c) with (k ← decodeKey v; Ok (setPrivateKey k c)).
      by rewrite decodeKey_Encode by apply V. }
  erewrite parseLines_app by by apply address_lines; [apply V|].
  erewrite parseLines_app by by apply dns_lines; [apply V|].
  rewrite mtu_lines; [done|apply V|done].
Qed.

Lemma peer_lines s addrs allowed c :
  valid s addrs allowed -> PresharedKey c = [] -> Keepalive c = 0 ->
  parseLines (peerLines s) ("Peer"%string, c) =
    Ok ("Peer"%string,
        mkConf (Path c) (PrivateKey c) (default [] (s_preshared s)) (Addresses c) (DNS c) (s_public s)
          allowed (s_endpoint s) (default 0 (s_keepalive s)) (MTU c)).
Proof.
  intros V Hp Hk. unfold peerLines.
  change (entry ?k ?v :: ?l) with ([entry k v] ++ l).
  erewrite parseLines_app.
  2:{ apply (entry_step "Peer" "PublicKey" _ _ (setPeerKey (s_public s) c));
        [key_name|apply clean_Encode, V|].
      change (applyKey _ (ToLower "PublicKey") ?v ?c) with (k ← decodeKey v; Ok (setPeerKey k c)).
      by rewrite decodeKey_Encode by apply V. }
  erewrite parseLines_app by by apply preshared_lines; [apply V|].
  erewrite parseLines_app by by apply allowed_lines; [apply V|apply V].
  destruct (v_endpoint _ _ _ V) as [He [hp Hs]].
  erewrite parseLines_app.
  2:{ eapply (entry_step "Peer" "Endpoint"); [key_name|exact He|].
      change (applyKey _ (ToLower "Endpoint") ?v ?c) with
        (match Transport.SplitHostPort v with None => Err "endpoint" | Some _ => Ok (setEndpoint v c) end).
      rewrite Hs. reflexivity. }
  rewrite keepalive_lines; [done|apply V|done].
Qed.

Lemma settings_clean s addrs allowed :
  valid s addrs allowed ->
  Forall (fun l => containsByte "010" l = false /\ dropCR l = l /\
    (String.length l < maxScanTokenSize)%nat) (settingsLines s).
Proof.
  intros V.
  assert (Hok : Forall (fun l => clean l \/ l = ""%string) (settingsLines s)).
  { assert (He : forall k v, keyName k -> clean v -> clean (entry k v)).
    { intros k v [Hk _] Hv. by apply clean_app. }
    assert (Hl : forall k ts, keyName k -> Forall clean ts ->
      Forall (fun l => clean l \/ l = ""%string) (entryList k ts)).
    { intros k [|t ts] Hk Hts; constructor; [|constructor]. left. apply He; [done|]. by apply clean_concat. }
    assert (Ho : forall k o, keyName k -> (forall v, o = Some v -> clean v) ->
      Forall (fun l => clean l \/ l = ""%string) (entryOpt k o)).
    { intros k [v|] Hk Hv; constructor; [|constructor]. left. apply He; auto. }
    destruct V as [V1 V2 V3 V4 V5 V6 V7 [V8 _] V9 V10 _].
    unfold settingsLines, interfaceLines, peerLines.
    repeat first [apply Forall_cons; split | apply Forall_app; split | apply Forall_nil; exact I].
    all: try (by right).
    all: try (left; apply He; [key_name|by auto using clean_Encode]).
    all: try (apply Hl; [key_name|]; try by eapply isNet_clean).
    - left. split; [by eexists _, _|by exists "[Interface", "]"%char|done].
    - eapply Forall_impl; [exact V7|]. by intros ? [[? _] _].
    - apply Ho; [key_name|]. intros v (m & Hm & ->)%fmap_Some. apply clean_Itoa. by apply V9.
    - left. split; [by eexists _, _|by exists "[Peer", "]"%char|done].
    - apply Ho; [key_name|]. intros v (k & Hk & ->)%fmap_Some. apply clean_Encode. by apply V3.
    - apply Ho; [key_name|]. intros v (k & Hk & ->)%fmap_Some. apply clean_Itoa. by apply V10. }
  pose proof (v_short _ _ _ V) as Hsh. rewrite Forall_forall in Hok, Hsh |- *.
  intros l Hin. specialize (Hsh l Hin). destruct (Hok l Hin) as [Hc | ->]; [|done].
  split_and!; [apply Hc|by apply dropCR_clean|done].
Qed.

(** C27: a file written the way wg-quick users write it is read as what it says. For
    every settings with 32-byte keys, networks and servers in any notation Go parses,
    an endpoint with a port, and lines under 64 KiB, [Parse] of the text yields these
    keys, networks, servers, endpoint, keepalive and MTU. *)
Theorem Parse_settings s addrs allowed path :
  valid s addrs allowed ->
  Parse (fileText (settingsLines s)) path = Ok (meaning path s addrs allowed).
Proof.
  intros V. unfold Parse. rewrite ScanLines_fileText by by eapply settings_clean.
  unfold settingsLines.
  change ("[Interface]"%string :: ?l) with (["[Interface]"%string] ++ l).
  erewrite parseLines_app with (st' := ("Interface"%string, newConf path)) by reflexivity.
  erewrite parseLines_app by by eapply interface_lines.
  change (""%string :: "[Peer]"%string :: ?l) with ([""; "[Peer]"]%string ++ l).
  erewrite parseLines_app by reflexivity.
  erewrite peer_lines by done. cbn [mbind result_bind]. unfold complete.
  cbn [snd PrivateKey PeerKey AllowedIPs Endpoint].
  destruct V as [[V1 _] [V2 _] V3 V4 V5 V6 V7 [[(c & t & E & _) _ _] _] V9 V10 _].
  unfold len. rewrite V1, V2, E.
  destruct V5 as [|? ? ? ? _ _]; [done|]. cbn [Z.of_nat Z.eqb length String.eqb]. by rewrite <- E.
Qed.

(** ** Boundaries and defects *)

(** a file is never accepted truncated. When some line does not fit the scanner's
    64 KiB buffer, [Parse] fails, whatever the lines before it say. *)
Theorem Parse_long_line data path l :
  l ∈ Split "010" data -> (maxScanTokenSize <= String.length l)%nat -> ~ is_Ok (Parse data path).
Proof.
  intros Hl Hs [c Hc]. unfold Parse, ScanLines in Hc.
  assert (Ht : (scanTokens (dropLastEmpty (Split "010" data))).2 = true).
  { assert (Hin : l ∈ dropLastEmpty (Split "010" data)).
    { clear Hc. induction (Split "010" data) as [|x ls IH]; [done|]. cbn [dropLastEmpty].
      apply elem_of_cons in Hl as [<-|Hl].
      - destruct ls; [|by left]. destruct (String.eqb_spec l "") as [->|]; [|by left].
        exfalso. revert Hs. unfold maxScanTokenSize. cbn [String.length]. lia.
      - destruct ls; [by apply elem_of_nil in Hl|]. right. by apply IH. }
    clear Hc Hl. induction (dropLastEmpty (Split "010" data)) as [|x ls IH]; [by apply elem_of_nil in Hin|].
    cbn [scanTokens]. destruct (Nat.leb_spec maxScanTokenSize (String.length x)); [done|].
    apply elem_of_cons in Hin as [->|Hin]; [lia|]. specialize (IH Hin).
    by destruct (scanTokens ls). }
  destruct (scanTokens (dropLastEmpty (Split "010" data))) as [lines t]. cbn [snd] in Ht. subst t.
  destruct (parseLines lines ("", newConf path)); done.
Qed.

(** A text whose characters are easily checked. *)
Lemma clean_check key : 
  match key with
  | String c _ => plain c && negb (existsb (Ascii.eqb c) ["#"; ";"; "["]%char)
  | _ => false
  end && match rev_string key "" with String d _ => plain d | _ => false end &&
  negb (containsByte "010" key) && negb (containsByte "=" key) = true -> clean key.
Proof. intros H. by apply keyName_dec in H as [? _]. Qed.

Lemma isNet_v4 ip n :
  wf_ip4 ip -> 0 <= n <= 32 ->
  isNet (v4String ip +:+ String "/" (Itoa n))%string
    (mkIPNet (maskBytes ip (CIDRMask n 4)) (CIDRMask n 4)).
Proof.
  intros Hip Hn. split; [|by apply ParseCIDR_v4]. destruct (v4String_shape ip Hip) as (c & s & E & Hc & Ht).
  split.
  - destruct (clean_Itoa n) as [_ (u & d & Ei & Hd) Hf]; [lia|]. split.
    + rewrite E. exists c, (s +:+ String "/" (Itoa n))%string. split; [done|by apply plain_digit].
    + exists (v4String ip +:+ String "/" u)%string, d. split; [|done].
      rewrite Ei, string_app_assoc. done.
    + rewrite containsByte_app, v4String_free by done. exact Hf.
  - rewrite containsByte_app, v4String_free by done. change (containsByte "," (Itoa n) = false).
    apply digits_free; [done|apply digits_Itoa; lia].
Qed.

(** Of two lines of the same list key the second replaces the first. *)
Theorem AllowedIPs_lines_replace ts1 ns1 ts2 ns2 c :
  Forall2 isNet ts1 ns1 -> Forall2 isNet ts2 ns2 -> ts1 <> [] -> ts2 <> [] ->
  parseLines (entryList "AllowedIPs" ts1 ++ entryList "AllowedIPs" ts2) ("Peer"%string, c) =
    Ok ("Peer"%string, setAllowedIPs ns2 c).
Proof.
  intros H1 H2 N1 N2. erewrite parseLines_app by by apply allowed_lines.
  by rewrite allowed_lines with (ns := ns2).
Qed.

(** ** A configuration, and evaluations *)

Definition demoKey : bytes := seqZ 1 32.

Definition demoSettings : settings :=
  mkSettings demoKey ["10.8.0.2/24"] ["9.9.9.9"] (Some 1380) (seqZ 101 32) None
    ["10.0.0.0/8"; "192.168.7.0/24"] "vpn.example:51820" (Some 25).

Definition demoNet (t : string) : IPNet := default (mkIPNet [] []) (ParseCIDR t).
Definition demoAddrs : list IPNet := [demoNet "10.8.0.2/24"].
Definition demoAllowed : list IPNet := [demoNet "10.0.0.0/8"; demoNet "192.168.7.0/24"].

Lemma demoSettings_valid : valid demoSettings demoAddrs demoAllowed.
Proof.
  assert (Hi : forall t, t ∈ ["10.8.0.2/24"; "10.0.0.0/8"; "192.168.7.0/24"; "9.9.9.9"]%string -> item t).
  { intros t Ht. split; [apply clean_check|]; revert t Ht; apply Forall_forall;
      repeat constructor. }
  split; try done.
  - split; [done|]. by refine (bool_decide_unpack _ _).
  - split; [done|]. by refine (bool_decide_unpack _ _).
  - repeat (constructor; [split; [apply Hi; set_solver|reflexivity]|]). constructor.
  - repeat (constructor; [split; [apply Hi; set_solver|reflexivity]|]). constructor.
  - repeat (constructor; [split; [apply Hi; set_solver|done]|]). constructor.
  - split; [by apply clean_check|by eexists].
  - intros m [= <-]. lia.
  - intros m [= <-]. lia.
  - refine (bool_decide_unpack _ _). vm_compute. exact I.
Qed.

Definition demoText : string := fileText (settingsLines demoSettings).
Definition demoConf : Conf := meaning "wg0.conf" demoSettings demoAddrs demoAllowed.

Theorem Parse_settings_witness : Parse demoText "wg0.conf" = Ok demoConf.
Proof. exact (Parse_settings demoSettings demoAddrs demoAllowed "wg0.conf" demoSettings_valid). Defined.

Lemma demoText_parses : Parse demoText "wg0.conf" = Ok demoConf.
Proof. vm_compute. reflexivity. Qed.

Theorem Parse_wf_witness : wf_conf demoConf.
Proof. exact (Parse_wf demoText "wg0.conf" demoConf demoText_parses). Defined.

(** A line of [n] characters. *)
Fixpoint longLine (n : nat) : string := match n with O => "" | S n => String "x" (longLine n) end.

Lemma longLine_ok n : String.length (longLine n) = n /\ containsByte "010" (longLine n) = false.
Proof. induction n as [|n [IH1 IH2]]; [done|]. cbn. by rewrite IH1, IH2. Qed.

Theorem Parse_long_line_witness : ~ is_Ok (Parse (longLine maxScanTokenSize) "wg0.conf").
Proof.
  apply (Parse_long_line _ _ (longLine maxScanTokenSize)).
  - rewrite Split_none by apply longLine_ok. left.
  - rewrite (proj1 (longLine_ok maxScanTokenSize)). apply le_n.
Defined.
