(* ===== verification/UnixSeq.v ===== *)
(** * UnixSeq: internal/unixseq/unixseq.go

    The SOCK_SEQPACKET switch socket. The operating system is a [world]: the
    process's descriptor table, the files (by path) and the socket files a live
    listener answers on. [BindOrConnect] is the code's sequence of system calls;
    [fault k] makes the [k]-th fallible call fail, [env k] is what the rest of the
    machine does in front of it. *)
From S2P Require Import Prelude.

Inductive fdKind := FdSocket | FdConn | FdBound (ino : Z) | FdListen (ino : Z).

(** A file: its identity (inode and device), whether it is a socket, its mode. *)
Record node := mkNode { node_id : Z; node_sock : bool; node_mode : Z }.

Record world := mkWorld {
  fds : gmap nat fdKind;
  files : gmap string node;
  listening : gset Z;
}.

(** ** System calls *)

Definition sys_socket (fault : bool) (w : world) : option (nat * world) :=
  if fault then None
  else let fd := fresh (dom (fds w)) in
       Some (fd, mkWorld (<[fd := FdSocket]> (fds w)) (files w) (listening w)).

Definition sys_close (fd : nat) (w : world) : world :=
  mkWorld (delete fd (fds w)) (files w)
          (match fds w !! fd with Some (FdListen i) => listening w ∖ {[i]} | _ => listening w end).

Definition answers (path : string) (w : world) : bool :=
  match files w !! path with
  | Some n => node_sock n && bool_decide (node_id n ∈ listening w)
  | None => false
  end.

(** stat(2) finds a socket file. *)
Definition isSocket (path : string) (w : world) : bool :=
  match files w !! path with Some n => node_sock n | None => false end.

(** connect(2): someone answers, unless it is refused all the same. *)
Definition sys_connect (fault : bool) (fd : nat) (path : string) (w : world) : option world :=
  if negb fault && answers path w
  then Some (mkWorld (<[fd := FdConn]> (fds w)) (files w) (listening w)) else None.

Definition sys_remove (fault : bool) (path : string) (w : world) : world :=
  if fault then w else mkWorld (fds w) (delete path (files w)) (listening w).

(** Identities in use: a bound socket keeps its file's, also when the file is gone. *)
Definition fdId (k : fdKind) : option Z :=
  match k with FdBound id | FdListen id => Some id | _ => None end.
Definition usedIds (w : world) : gset Z :=
  listening w ∪ list_to_set (node_id <$> (map_to_list (files w)).*2) ∪ map_img (omap fdId (fds w)).

(** bind(2) creates the socket file; it fails on an existing path. *)
Definition sys_bind (fault : bool) (fd : nat) (path : string) (w : world) : option (Z * world) :=
  if fault then None else
  match files w !! path with
  | Some _ => None
  | None =>
      let id := fresh (usedIds w) in
      Some (id, mkWorld (<[fd := FdBound id]> (fds w)) (<[path := mkNode id true 0x1ED]> (files w))
                        (listening w))
  end.

(** listen(2) on the socket bound to the file [id]. *)
Definition sys_listen (fault : bool) (fd : nat) (id : Z) (w : world) : option world :=
  if fault then None
  else Some (mkWorld (<[fd := FdListen id]> (fds w)) (files w) ({[id]} ∪ listening w)).

Definition sys_chmod (fault : bool) (path : string) (mode : Z) (w : world) : world :=
  if fault then w
  else mkWorld (fds w) (alter (fun n => mkNode (node_id n) (node_sock n) mode) path (files w))
               (listening w).

(** ** The package *)

Record Listener := mkListener { l_fd : nat; l_path : string; l_id : option Z }.

Definition TryConnect (fault1 fault2 : bool) (path : string) (w : world) : result nat * world :=
  match sys_socket fault1 w with
  | None => (Err "socket", w)
  | Some (fd, w) =>
      match sys_connect fault2 fd path w with
      | Some w => (Ok fd, w)
      | None => (Err "connect", sys_close fd w)
      end
  end.

Section BindOrConnect.
Variable (env : nat -> world -> world) (fault : nat -> bool).

(** The end of the function, once the hub's socket is bound. *)
Definition listenAndStat (path : string) (mode : Z) (hubFD : nat) (id : Z) (w : world) :
    result (Listener + nat) * world :=
  match sys_listen (fault 8) hubFD id (env 10 w) with
  | None =>
      let w := sys_close hubFD (env 10 w) in
      (Err "listen", sys_remove (fault 9) path (env 11 w))
  | Some w =>
      let socketMode := if mode =? 0 then 0x180 else mode in
      let w := sys_chmod (fault 10) path socketMode (env 12 w) in
      let w := env 13 w in
      (Ok (inl (mkListener hubFD path
         (if fault 11 then None else node_id <$> files w !! path))), w)
  end.

Definition bindHub (path : string) (mode : Z) (w : world) : result (Listener + nat) * world :=
  match sys_socket (fault 4) (env 6 w) with
  | None => (Err "socket", env 6 w)
  | Some (hubFD, w) =>
      match sys_bind (fault 5) hubFD path (env 7 w) with
      | None =>
          let w := sys_close hubFD (env 7 w) in
          match sys_socket (fault 6) (env 8 w) with
          | None => (Err "socket", env 8 w)
          | Some (fd, w) =>
              match sys_connect (fault 7) fd path (env 9 w) with
              | Some w => (Ok (inr fd), w)
              | None => (Err "bind", sys_close fd (env 9 w))
              end
          end
      | Some (id, w) => listenAndStat path mode hubFD id w
      end
  end.

Definition BindOrConnect (path : string) (mode : Z) (w : world) : result (Listener + nat) * world :=
  match sys_socket (fault 0) (env 0 w) with
  | None => (Err "socket", env 0 w)
  | Some (fd1, w) =>
      match sys_connect (fault 1) fd1 path (env 1 w) with
      | Some w => (Ok (inr fd1), w)
      | None =>
          let w := sys_close fd1 (env 1 w) in
          match sys_socket (fault 2) (env 2 w) with
          | None => (Err "socket", env 2 w)
          | Some (fd2, w) =>
              match sys_connect (fault 3) fd2 path (env 3 w) with
              | Some w => (Ok (inr fd2), w)
              | None =>
                  let w := sys_close fd2 (env 3 w) in
                  let w := env 4 w in
                  let stale := negb (fault 13) && isSocket path w in
                  let w := if stale then sys_remove (fault 12) path (env 5 w) else w in
                  bindHub path mode w
              end
          end
      end
  end.

End BindOrConnect.

(** [Listener.Close]. *)
Definition Close (fault : bool) (l : Listener) (w : world) : world :=
  let w := sys_close (l_fd l) w in
  match l_id l with
  | None => w
  | Some id =>
      match files w !! l_path l with
      | None => w
      | Some n => if node_id n =? id then sys_remove fault (l_path l) w else w
      end
  end.

Definition ConnClose (fd : nat) (w : world) : world := sys_close fd w.

(** accept(2) on a listening descriptor; a client has connected, unless [fault]. *)
Definition sys_accept (fault : bool) (fd : nat) (w : world) : option (nat * world) :=
  match fds w !! fd with
  | Some (FdListen _) =>
      if fault then None
      else let c := fresh (dom (fds w)) in
           Some (c, mkWorld (<[c := FdConn]> (fds w)) (files w) (listening w))
  | _ => None
  end.

Definition Accept (fault : bool) (l : Listener) (w : world) : result nat * world :=
  match sys_accept fault (l_fd l) w with
  | Some (fd, w) => (Ok fd, w)
  | None => (Err "accept", w)
  end.

(** [Listener.Stat]: the identity captured at the bind, zero when there is none. *)
Definition ListenerStat (l : Listener) : Z := default 0 (l_id l).

Definition Stat (fault : bool) (path : string) (w : world) : result Z :=
  if fault then Err "stat" else
  match files w !! path with Some n => Ok (node_id n) | None => Err "stat" end.

(** ** One system call at a time

    [BindOrConnect] and [Close] as machines whose steps are their system calls (a
    failed call's close(2) goes with it: nobody else can see it), for the runs in which
    other processes do something in between. *)

(** In front of which call a process is: the numbers are those of [env]. *)
Inductive bindAt :=
| B0 | B1 (fd : nat) | B2 | B3 (fd : nat) | B4 | B5
| B6 | B7 (hubFD : nat) | B8 | B9 (fd : nat)
| B10 (hubFD : nat) (id : Z) | B11 | B12 (hubFD : nat) (id : Z) | B13 (hubFD : nat) (id : Z).

(** What a call leads to. *)
Definition bound : Type := result (Listener + nat).
Definition retry (next : nat -> bindAt) (r : option (nat * world)) (w : world) : (bindAt + bound) * world :=
  match r with Some (fd, w) => (inl (next fd), w) | None => (inr (Err "socket"), w) end.
Definition joined (next : bindAt + bound) (fd : nat) (r : option world) (w : world)
  : (bindAt + bound) * world :=
  match r with Some w => (inr (Ok (inr fd)), w) | None => (next, sys_close fd w) end.

(** The next call; [fault]: it fails. *)
Definition bindStep (fault : bool) (path : string) (mode : Z) (at_ : bindAt) (w : world)
  : (bindAt + bound) * world :=
  match at_ with
  | B0 => retry B1 (sys_socket fault w) w
  | B1 fd => joined (inl B2) fd (sys_connect fault fd path w) w
  | B2 => retry B3 (sys_socket fault w) w
  | B3 fd => joined (inl B4) fd (sys_connect fault fd path w) w
  | B4 => (inl (if negb fault && isSocket path w then B5 else B6), w)
  | B5 => (inl B6, sys_remove fault path w)
  | B6 => retry B7 (sys_socket fault w) w
  | B7 hubFD =>
      match sys_bind fault hubFD path w with
      | Some (id, w) => (inl (B10 hubFD id), w)
      | None => (inl B8, sys_close hubFD w)
      end
  | B8 => retry B9 (sys_socket fault w) w
  | B9 fd => joined (inr (Err "bind")) fd (sys_connect fault fd path w) w
  | B10 hubFD id =>
      match sys_listen fault hubFD id w with
      | Some w => (inl (B12 hubFD id), w)
      | None => (inl B11, sys_close hubFD w)
      end
  | B11 => (inr (Err "listen"), sys_remove fault path w)
  | B12 hubFD id => (inl (B13 hubFD id), sys_chmod fault path (if mode =? 0 then 0x180 else mode) w)
  | B13 hubFD id =>
      (inr (Ok (inl (mkListener hubFD path (if fault then None else node_id <$> files w !! path)))), w)
  end.

(** The number of a position, and of the call it makes. *)
Definition position (at_ : bindAt) : nat :=
  match at_ with
  | B0 => 0 | B1 _ => 1 | B2 => 2 | B3 _ => 3 | B4 => 4 | B5 => 5 | B6 => 6 | B7 _ => 7
  | B8 => 8 | B9 _ => 9 | B10 _ _ => 10 | B11 => 11 | B12 _ _ => 12 | B13 _ _ => 13
  end.
Definition callOf (at_ : bindAt) : nat :=
  match at_ with
  | B0 => 0 | B1 _ => 1 | B2 => 2 | B3 _ => 3 | B4 => 13 | B5 => 12 | B6 => 4 | B7 _ => 5
  | B8 => 6 | B9 _ => 7 | B10 _ _ => 8 | B11 => 9 | B12 _ _ => 10 | B13 _ _ => 11
  end.

(** Steps until the function returns; [env] acts in front of each. *)
Fixpoint bindLoop (fuel : nat) (env : nat -> world -> world) (fault : nat -> bool) (path : string)
    (mode : Z) (at_ : bindAt) (w : world) : (bindAt + bound) * world :=
  match fuel with
  | O => (inl at_, w)
  | S fuel =>
      match bindStep (fault (callOf at_)) path mode at_ (env (position at_) w) with
      | (inl at_, w) => bindLoop fuel env fault path mode at_ w
      | r => r
      end
  end.

(** the steps are the function: whatever fails and whatever happens between the calls,
    [BindOrConnect] returns what its steps, at most eleven, come to. *)
Theorem bindLoop_BindOrConnect env fault path mode w :
  bindLoop 11 env fault path mode B0 w =
    let '(r, w') := BindOrConnect env fault path mode w in (inr r, w').
Proof.
  unfold BindOrConnect. cbn [bindLoop bindStep position callOf].
  destruct (sys_socket (fault _) _) as [[fd1 w1]|]; [|done]. cbn [retry bindLoop bindStep position callOf].
  destruct (sys_connect (fault _) _ _ _) as [w2|]; [done|]. cbn [joined bindLoop bindStep position callOf].
  destruct (sys_socket (fault _) _) as [[fd2 w3]|]; [|done]. cbn [retry bindLoop bindStep position callOf].
  destruct (sys_connect (fault _) _ _ _) as [w4|]; [done|]. cbn [joined bindLoop bindStep position callOf].
  assert (Hub : forall n v, bindLoop (5 + n)%nat env fault path mode B6 v =
    let '(r, w') := bindHub env fault path mode v in (inr r, w')).
  { clear. intros n v. unfold bindHub. cbn [Nat.add bindLoop bindStep position callOf].
    destruct (sys_socket (fault _) _) as [[hub w1]|]; [|done]. cbn [retry bindLoop bindStep position callOf].
    destruct (sys_bind _ _ _ _) as [[id w2]|]; cbn [bindLoop bindStep position callOf].
    - unfold listenAndStat. by destruct (sys_listen _ _ _ _).
    - destruct (sys_socket (fault _) _) as [[fd w2]|]; [|done]. cbn [retry bindLoop bindStep position callOf].
      by destruct (sys_connect (fault _) _ _ _). }
  destruct (negb (fault _) && _); cbn [bindLoop bindStep position callOf]; [exact (Hub 0%nat _)|exact (Hub 1%nat _)].
Qed.

(** [Listener.Close], once its descriptor is closed: in front of the stat, or of the remove. *)
Inductive closeAt := C1 | C2.
Definition closeStep (fault : bool) (l : Listener) (at_ : closeAt) (w : world) : option closeAt * world :=
  match at_ with
  | C1 =>
      (match l_id l, Stat fault (l_path l) w with
       | Some id, Ok n => if n =? id then Some C2 else None
       | _, _ => None
       end, w)
  | C2 => (None, sys_remove fault (l_path l) w)
  end.

(** The steps of an undisturbed [Close]. *)
Lemma closeStep_Close fault l w :
  Close fault l w =
    match closeStep false l C1 (sys_close (l_fd l) w) with
    | (Some at_, w) => (closeStep fault l at_ w).2
    | (None, w) => w
    end.
Proof.
  unfold Close, closeStep, Stat. destruct (l_id l) as [id|]; [|done].
  destruct (files _ !! _) as [n|]; [|done]. by destruct (node_id n =? id).
Qed.

(** ** Descriptors *)

Lemma fresh_fd (w : world) : fds w !! fresh (dom (fds w)) = None.
Proof. apply not_elem_of_dom, is_fresh. Qed.

(** A world whose descriptor table is [t]. *)
Definition has_fds (t : gmap nat fdKind) (w : world) : Prop := fds w = t.

Lemma socket_fds f w t fd w' :
  has_fds t w -> sys_socket f w = Some (fd, w') -> t !! fd = None /\ has_fds (<[fd := FdSocket]> t) w'.
Proof.
  unfold sys_socket, has_fds. intros <-. destruct f; [done|]. intros [= <- <-].
  split; [apply fresh_fd|done].
Qed.

Lemma close_fds k t fd w :
  t !! fd = None -> has_fds (<[fd := k]> t) w -> has_fds t (sys_close fd w).
Proof. unfold has_fds, sys_close. cbn. intros Ht ->. by apply delete_insert_id. Qed.

Lemma connect_fds f fd path t w w' :
  has_fds (<[fd := FdSocket]> t) w -> sys_connect f fd path w = Some w' ->
  has_fds (<[fd := FdConn]> t) w'.
Proof.
  unfold has_fds, sys_connect. destruct (_ && _); [|done]. intros H [= <-]. cbn. rewrite H.
  by rewrite insert_insert_eq.
Qed.

(** What a call of [BindOrConnect] leaves in the descriptor table. *)
Definition balanced (t : gmap nat fdKind) (r : result (Listener + nat) * world) : Prop :=
  match r.1 with
  | Err _ => has_fds t r.2
  | Ok (inr fd) => t !! fd = None /\ has_fds (<[fd := FdConn]> t) r.2
  | Ok (inl l) => t !! l_fd l = None /\ exists id, has_fds (<[l_fd l := FdListen id]> t) r.2
  end.

Section Balance.
Variable (env : nat -> world -> world) (fault : nat -> bool).
Hypothesis env_fds : forall k w, fds (env k w) = fds w.

Lemma env_has k t w : has_fds t w -> has_fds t (env k w).
Proof. unfold has_fds. by rewrite env_fds. Qed.
#[local] Hint Resolve env_has : core.

Lemma bindHub_balanced path mode t w :
  has_fds t w -> balanced t (bindHub env fault path mode w).
Proof.
  intros Hw. unfold bindHub. destruct (sys_socket (fault 4) _) as [[hub w1]|] eqn:E4; [|by apply env_has].
  apply (socket_fds _ _ t) in E4 as [Hhub Hw1]; [|auto].
  destruct (sys_bind _ _ _ _) as [[id w2]|] eqn:Eb.
  - assert (Hw2 : has_fds (<[hub := FdBound id]> t) w2).
    { unfold sys_bind in Eb. destruct (fault 5); [done|]. destruct (files _ !! _); [done|].
      injection Eb as -> <-. unfold has_fds. cbn. by rewrite env_fds, Hw1, insert_insert_eq. }
    unfold listenAndStat, sys_listen. destruct (fault 8).
    + cbn. assert (has_fds t (env 11 (sys_close hub (env 10 w2)))) by (apply env_has, (close_fds (FdBound id)); [done|by apply env_has]).
      unfold balanced, sys_remove. cbn. by destruct (fault 9).
    + split; [done|]. eexists. unfold has_fds. cbn. rewrite env_fds.
      assert (Hc : forall f p m w, fds (sys_chmod f p m w) = fds w) by by intros []. 
      rewrite Hc, env_fds. cbn. rewrite env_fds, Hw2. by rewrite insert_insert_eq.
  - assert (Hw2 : has_fds t (env 8 (sys_close hub (env 7 w1)))) by (apply env_has, (close_fds FdSocket); [done|by apply env_has]).
    destruct (sys_socket (fault 6) _) as [[fd w2]|] eqn:E6; [|exact Hw2].
    apply (socket_fds _ _ t) in E6 as [Hfd Hw3]; [|done].
    destruct (sys_connect (fault 7) _ _ _) as [w3|] eqn:Ec.
    + split; [done|]. eapply connect_fds; [|exact Ec]. auto.
    + unfold balanced. cbn. apply (close_fds FdSocket); [done|by apply env_has].
Qed.

Lemma BindOrConnect_fds path mode w : balanced (fds w) (BindOrConnect env fault path mode w).
Proof.
  set (t := fds w). assert (Hw : has_fds t w) by done. unfold BindOrConnect.
  destruct (sys_socket (fault 0) _) as [[fd1 w1]|] eqn:E0; [|by apply env_has].
  apply (socket_fds _ _ t) in E0 as [H1 Hw1]; [|auto].
  destruct (sys_connect (fault 1) _ _ _) as [w2|] eqn:Ec1.
  { split; [done|]. eapply connect_fds; [|exact Ec1]. auto. }
  assert (Hw2 : has_fds t (env 2 (sys_close fd1 (env 1 w1)))) by (apply env_has, (close_fds FdSocket); [done|by apply env_has]).
  destruct (sys_socket (fault 2) _) as [[fd2 w3]|] eqn:E2; [|exact Hw2].
  apply (socket_fds _ _ t) in E2 as [H2 Hw3]; [|done].
  destruct (sys_connect (fault 3) _ _ _) as [w4|] eqn:Ec2.
  { split; [done|]. eapply connect_fds; [|exact Ec2]. auto. }
  assert (Hw4 : has_fds t (env 4 (sys_close fd2 (env 3 w3)))) by (apply env_has, (close_fds FdSocket); [done|by apply env_has]).
  apply bindHub_balanced. destruct (_ && _); [|done].
  unfold sys_remove. destruct (fault 12); [auto|]. unfold has_fds. cbn. rewrite env_fds. exact Hw4.
Qed.

End Balance.

(** no descriptor leaks. However the system calls of [BindOrConnect] fail and
    whatever the rest of the machine does to the files and sockets between them, it
    returns holding exactly one new descriptor, the connection or the listener it
    returns, and none when it returns an error. *)
Theorem BindOrConnect_no_leak env fault path mode w :
  (forall k v, fds (env k v) = fds v) -> balanced (fds w) (BindOrConnect env fault path mode w).
Proof. intros Henv. by apply BindOrConnect_fds. Qed.

Definition emptyWorld : world := mkWorld ∅ ∅ ∅.

Theorem BindOrConnect_no_leak_witness :
  balanced ∅ (BindOrConnect (fun _ w => w) (fun k => (k =? 8)%nat) "/tmp/vde.socket" 0 emptyWorld) /\
  is_Ok (BindOrConnect (fun _ w => w) (fun _ => false) "/tmp/vde.socket" 0 emptyWorld).1.
Proof.
  split; [|by eexists].
  apply (BindOrConnect_no_leak (fun _ w => w) (fun k => (k =? 8)%nat) "/tmp/vde.socket" 0 emptyWorld).
  done.
Defined.

(** ** The switch socket, undisturbed *)

Definition quiet : nat -> world -> world := fun _ w => w.
Definition noFault : nat -> bool := fun _ => false.

Lemma answers_files path w w' :
  files w' = files w -> listening w' = listening w -> answers path w' = answers path w.
Proof. unfold answers. by intros -> ->. Qed.

Lemma close_socket_id fd w :
  fds w !! fd = None -> sys_close fd (mkWorld (<[fd := FdSocket]> (fds w)) (files w) (listening w)) = w.
Proof.
  intros Hfd. unfold sys_close. cbn. rewrite lookup_insert_eq, delete_insert_id by done. by destruct w.
Qed.

Lemma BindOrConnect_join path mode w :
  answers path w = true ->
  BindOrConnect quiet noFault path mode w =
    (Ok (inr (fresh (dom (fds w)))),
     mkWorld (<[fresh (dom (fds w)) := FdConn]> (fds w)) (files w) (listening w)).
Proof.
  intros Ha. unfold BindOrConnect, sys_socket, quiet, noFault, sys_connect.
  rewrite (answers_files path w) by done. rewrite Ha. cbn. by rewrite insert_insert_eq.
Qed.

Lemma BindOrConnect_silent path mode w :
  answers path w = false ->
  BindOrConnect quiet noFault path mode w =
    bindHub quiet noFault path mode
      (if isSocket path w
       then mkWorld (fds w) (delete path (files w)) (listening w) else w).
Proof.
  intros Ha. unfold BindOrConnect, sys_socket, quiet, noFault, sys_connect.
  rewrite (answers_files path w) by done. rewrite Ha. cbn [negb andb].
  rewrite close_socket_id by apply fresh_fd. cbn [files].
  rewrite (answers_files path w) by done. rewrite Ha. cbn [negb andb].
  rewrite close_socket_id by apply fresh_fd. by destruct (isSocket path w).
Qed.

Lemma usedIds_socket fd w :
  fds w !! fd = None -> usedIds (mkWorld (<[fd := FdSocket]> (fds w)) (files w) (listening w)) = usedIds w.
Proof.
  intros Hfd. unfold usedIds. cbn [fds files listening]. rewrite omap_insert. cbn [fdId].
  by rewrite delete_id by by rewrite lookup_omap, Hfd.
Qed.

(** The world after the hub has bound [path]. *)
Definition boundWorld (path : string) (mode : Z) (w : world) : world :=
  let fd := fresh (dom (fds w)) in
  let id := fresh (usedIds w) in
  mkWorld (<[fd := FdListen id]> (fds w))
          (<[path := mkNode id true (if mode =? 0 then 0x180 else mode)]> (files w))
          ({[id]} ∪ listening w).

Lemma bindHub_free path mode w :
  files w !! path = None ->
  bindHub quiet noFault path mode w =
    (Ok (inl (mkListener (fresh (dom (fds w))) path (Some (fresh (usedIds w))))),
     boundWorld path mode w).
Proof.
  intros Hn. unfold bindHub, sys_socket, quiet, noFault, sys_bind. cbn [files]. rewrite Hn.
  rewrite usedIds_socket by apply fresh_fd.
  unfold listenAndStat, sys_listen, sys_chmod, noFault. cbn [files fds listening].
  rewrite alter_insert_eq, lookup_insert_eq, !insert_insert_eq. done.
Qed.

Lemma bindHub_taken path mode w n :
  files w !! path = Some n -> answers path w = false ->
  bindHub quiet noFault path mode w = (Err "bind"%string, w).
Proof.
  intros Hn Ha. unfold bindHub, sys_socket, quiet, noFault, sys_bind. cbn [files]. rewrite Hn.
  rewrite close_socket_id by apply fresh_fd. unfold sys_connect.
  rewrite (answers_files path w) by done. rewrite Ha. cbn [negb andb].
  by rewrite close_socket_id by apply fresh_fd.
Qed.

Lemma BindOrConnect_cases path mode w :
  (answers path w = true /\ BindOrConnect quiet noFault path mode w =
     (Ok (inr (fresh (dom (fds w)))),
      mkWorld (<[fresh (dom (fds w)) := FdConn]> (fds w)) (files w) (listening w))) \/
  (answers path w = false /\ exists v, fds v = fds w /\ listening v = listening w /\
     (forall p, p <> path -> files v !! p = files w !! p) /\ files v !! path = None /\
     BindOrConnect quiet noFault path mode w =
       (Ok (inl (mkListener (fresh (dom (fds v))) path (Some (fresh (usedIds v))))),
        boundWorld path mode v)) \/
  (answers path w = false /\ BindOrConnect quiet noFault path mode w = (Err "bind"%string, w)).
Proof.
  destruct (answers path w) eqn:Ha.
  { left. split; [done|]. by apply BindOrConnect_join. }
  right. rewrite BindOrConnect_silent by done. pose proof Ha as Ha'. unfold answers in Ha'. unfold isSocket.
  destruct (files w !! path) as [n|] eqn:Hn.
  - destruct (node_sock n).
    + left. split; [done|]. exists (mkWorld (fds w) (delete path (files w)) (listening w)).
      split_and!; [done|done|by intros; apply lookup_delete_ne|by apply lookup_delete_eq|].
      apply bindHub_free. apply lookup_delete_eq.
    + right. split; [done|]. by apply (bindHub_taken _ _ _ n).
  - left. split; [done|]. exists w. split_and!; [done..|]. by apply bindHub_free.
Qed.

(** joining or binding. When nothing disturbs it, [BindOrConnect] joins a live
    listener and changes no file; with no file at the path, or a stale socket file,
    it binds: the path holds a fresh socket file of the configured mode (0600 by
    default) on which it listens, so that the next instance joins; a file that is
    not a socket is never deleted, the call fails and the world is unchanged. Files
    at other paths are untouched. *)
Theorem BindOrConnect_outcome path mode w :
  let '(r, w') := BindOrConnect quiet noFault path mode w in
  (forall p, p <> path -> files w' !! p = files w !! p) /\
  match files w !! path with
  | Some n =>
      if node_sock n then
        if bool_decide (node_id n ∈ listening w)
        then (exists fd, r = Ok (inr fd)) /\ files w' = files w
        else (exists l, r = Ok (inl l)) /\ answers path w' = true
      else is_Ok r -> False
  | None => (exists l, r = Ok (inl l)) /\ answers path w' = true
  end /\
  (forall n, files w !! path = Some n -> node_sock n = false -> w' = w) /\
  (forall l, r = Ok (inl l) ->
     l_path l = path /\ exists n, files w' !! path = Some n /\ l_id l = Some (node_id n) /\
       node_sock n = true /\ node_mode n = (if mode =? 0 then 0x180 else mode) /\
       node_id n ∉ listening w).
Proof.
  assert (Hbound : forall v, files v !! path = None ->
    answers path (boundWorld path mode v) = true /\
    exists n, files (boundWorld path mode v) !! path = Some n /\ fresh (usedIds v) = node_id n /\
      node_sock n = true /\ node_mode n = (if mode =? 0 then 0x180 else mode) /\
      node_id n ∉ listening v).
  { intros v Hv. unfold answers, boundWorld. cbn [files listening]. rewrite lookup_insert_eq.
    split; [cbn; rewrite bool_decide_eq_true_2 by set_solver; done|].
    eexists. split_and!; [done..|]. cbn. pose proof (is_fresh (usedIds v)) as Hf.
    unfold usedIds in Hf at 2. set_solver. }
  destruct (answers path w) eqn:Ha.
  { rewrite BindOrConnect_join by done. unfold answers in Ha.
    destruct (files w !! path) as [n|] eqn:Hn; [|done]. apply andb_true_iff in Ha as [Hs Hl].
    rewrite Hs, Hl. split_and!; [done|by eexists|done|intros ? [= <-]; congruence|done]. }
  rewrite BindOrConnect_silent by done. unfold answers in Ha. unfold isSocket.
  destruct (files w !! path) as [n|] eqn:Hn.
  - destruct (node_sock n) eqn:Hs.
    + cbn in Ha. rewrite Ha. set (v := mkWorld _ (delete path (files w)) _).
      assert (Hv : files v !! path = None) by apply lookup_delete_eq.
      rewrite bindHub_free by done. destruct (Hbound v Hv) as [Hans (m & Hm)].
      split_and!; [|by eexists|done|intros ? [= <-]; congruence|].
      * intros p Hp. cbn. by rewrite lookup_insert_ne, lookup_delete_ne by done.
      * intros l [= <-]. cbn [l_path l_id]. split; [done|]. exists m.
        destruct Hm as (? & -> & ?). done.
    + rewrite (bindHub_taken path mode w n Hn).
      2:{ unfold answers. by rewrite Hn, Hs. }
      split_and!; [done|by intros [? ?]|done|done].
  - rewrite bindHub_free by done. destruct (Hbound w Hn) as [Hans (m & Hm)].
    split_and!; [|by eexists|done|done|].
    + intros p Hp. cbn. by rewrite lookup_insert_ne by done.
    + intros l [= <-]. cbn [l_path l_id]. split; [done|]. exists m.
      destruct Hm as (? & -> & ?). done.
Qed.

(** closing the listener. [Close] removes the socket file exactly when the path
    still is the file this listener created: its own file goes away, a file another
    instance has put there since stays, and so does every other file; either way
    nobody can connect through this listener any more. *)
Theorem Close_own_file path mode w l w1 w2 :
  BindOrConnect quiet noFault path mode w = (Ok (inl l), w1) ->
  listening w2 = listening w1 -> fds w2 = fds w1 ->
  let w3 := Close false l w2 in
  (forall p, p <> path -> files w3 !! p = files w2 !! p) /\
  (files w2 !! path = files w1 !! path -> files w3 !! path = None) /\
  (forall n, files w2 !! path = Some n -> l_id l <> Some (node_id n) -> files w3 = files w2) /\
  (forall id, l_id l = Some id -> id ∉ listening w3).
Proof.
  intros Hb Hl Hfds w3.
  assert (Hw1 : exists v, l = mkListener (fresh (dom (fds v))) path (Some (fresh (usedIds v))) /\
    w1 = boundWorld path mode v).
  { destruct (answers path w) eqn:Ha.
    { rewrite BindOrConnect_join in Hb by done. done. }
    rewrite BindOrConnect_silent in Hb by done. unfold isSocket in Hb.
    set (v := if match files w !! path with Some n => node_sock n | None => false end
              then _ else w) in Hb.
    destruct (files v !! path) as [n|] eqn:Hv.
    - rewrite (bindHub_taken _ _ _ n) in Hb; [done|done|].
      subst v. unfold answers in *. destruct (files w !! path) as [m|] eqn:Hm.
      + destruct (node_sock m) eqn:Hs; cbn in Hv; [by rewrite lookup_delete_eq in Hv|].
        by rewrite Hm, Hs.
      + cbn. by rewrite Hm.
    - rewrite bindHub_free in Hb by done. injection Hb as <- <-. by exists v. }
  destruct Hw1 as (v & -> & ->). subst w3. unfold Close. cbn [l_fd l_path l_id].
  set (fd := fresh (dom (fds v))). set (id := fresh (usedIds v)).
  assert (Hc : sys_close fd w2 = mkWorld (delete fd (fds w2)) (files w2) (listening w2 ∖ {[id]})).
  { unfold sys_close. rewrite Hfds at 2. unfold boundWorld. cbn [fds]. fold fd id.
    by rewrite lookup_insert_eq. }
  rewrite Hc. cbn [files].
  destruct (files w2 !! path) as [n|] eqn:Hn.
  - destruct (Z.eqb_spec (node_id n) id) as [Hid|Hid]; cbn [sys_remove files listening].
    + split_and!; [intros p Hp; by rewrite lookup_delete_ne|intros _; apply lookup_delete_eq| |].
      * intros n' [= <-] Hne. congruence.
      * intros ? [= <-]. set_solver.
    + split_and!; [done| |done|intros ? [= <-]; set_solver].
      intros E. unfold boundWorld in E. cbn [files] in E. rewrite lookup_insert_eq in E.
      injection E as ->. done.
  - split_and!; [done|done|done|intros ? [= <-]; cbn; set_solver].
Qed.

Theorem Close_own_file_witness :
  exists l w1, BindOrConnect quiet noFault "/tmp/vde.socket" 0 emptyWorld = (Ok (inl l), w1) /\
    files w1 !! "/tmp/vde.socket"%string = Some (mkNode 0 true 0x180) /\
    files (Close false l w1) !! "/tmp/vde.socket"%string = None.
Proof.
  eexists _, _. split; [reflexivity|]. split; [by vm_compute|].
  refine (proj1 (proj2 (Close_own_file "/tmp/vde.socket" 0 emptyWorld _ _ _ eq_refl eq_refl eq_refl)) _).
  reflexivity.
Defined.

(** ** The listener's life *)

Lemma sys_accept_None fault l w :
  (forall id, fds w !! l_fd l <> Some (FdListen id)) -> sys_accept fault (l_fd l) w = None.
Proof.
  intros Hn. unfold sys_accept. destruct (fds w !! l_fd l) as [[| |id|id]|] eqn:E; try done.
  by destruct (Hn id).
Qed.

(** A listener accepts until it is closed. An accepted connection is one new
    descriptor of its own: the listener keeps its descriptor, its file and its
    identity. After [Close] every [Accept] fails and opens nothing, which is what
    ends the hub's accept loop; and a caller that compares [Listener.Stat] with
    [Stat] of the path sees whether the path is still this listener's file. *)
Theorem Accept_until_closed path mode w l w1 fault :
  BindOrConnect quiet noFault path mode w = (Ok (inl l), w1) ->
  (exists fd w2, Accept false l w1 = (Ok fd, w2) /\ fds w1 !! fd = None /\ fd <> l_fd l /\
     fds w2 = <[fd := FdConn]> (fds w1) /\ files w2 = files w1 /\ listening w2 = listening w1) /\
  Accept true l w1 = (Err "accept"%string, w1) /\
  Stat false path w1 = Ok (ListenerStat l) /\
  (forall f w2, fds w2 = fds w1 -> let w3 := Close f l w2 in
     Accept fault l w3 = (Err "accept"%string, w3)).
Proof.
  intros Hb. destruct (BindOrConnect_cases path mode w)
    as [(_ & E)|[(_ & v & Hf & _ & _ & Hv & E)|(_ & E)]]; rewrite E in Hb; try done.
  injection Hb as <- <-. unfold Accept, sys_accept. cbn [l_fd].
  set (hub := fresh (dom (fds v))). set (w1 := boundWorld path mode v).
  assert (Hhub : fds w1 !! hub = Some (FdListen (fresh (usedIds v)))) by apply lookup_insert_eq.
  rewrite Hhub. split_and!; [|done| |].
  - eexists _, _. split; [done|]. pose proof (fresh_fd w1) as Hn. split_and!; try done. congruence.
  - unfold Stat, w1, boundWorld. cbn [files]. by rewrite lookup_insert_eq.
  - intros f w2 Hf2. assert (Hn : forall id, fds (Close f
        (mkListener hub path (Some (fresh (usedIds v)))) w2) !! hub <> Some (FdListen id)).
    { intros id. assert (Hd : fds (sys_close hub w2) !! hub = None) by apply lookup_delete_eq.
      unfold Close. cbn [l_fd l_id l_path].
      destruct (files (sys_close hub w2) !! path) as [n|]; [|by rewrite Hd].
      destruct (node_id n =? _); [|by rewrite Hd].
      destruct f; cbn [sys_remove fds]; by rewrite Hd. }
    pose proof (sys_accept_None fault (mkListener hub path (Some (fresh (usedIds v)))) _ Hn) as Ha.
    unfold sys_accept in Ha. cbn [l_fd] in Ha. by rewrite Ha.
Qed.

Theorem Accept_until_closed_witness :
  exists l w1, BindOrConnect quiet noFault "/tmp/vde.socket" 0 emptyWorld = (Ok (inl l), w1) /\
    (Accept false l w1).1 = Ok 1%nat /\ (Accept false l (Close false l w1)).1 = Err "accept"%string.
Proof.
  eexists _, _. split; [reflexivity|]. split; [by vm_compute|].
  destruct (Accept_until_closed "/tmp/vde.socket" 0 emptyWorld _ _ false eq_refl) as (_ & _ & _ & H).
  match goal with |- context [Close false ?l ?w] => exact (f_equal fst (H false w eq_refl)) end.
Defined.
