(* ===== verification/Link.v ===== *)
(** * Link: internal/link/link.go and the seqpacket wires of internal/unixseq

    The guest link: an Ethernet endpoint between one SOCK_SEQPACKET descriptor
    and gVisor's stack. An [EtherEndpoint] value is the struct of the code
    without its descriptor and channel; what the endpoint hands to netstack
    ([InjectInbound]) and to its sink are results of the operations.

    The answers of the kernel to the successive [recvmsg] and [sendmsg] calls of
    a loop are a list; a loop that has used them all is still blocked ([None]). *)
From S2P Require Import Prelude NetLib.

Definition FrameMax : Z := 9216 + 14 + 4.
Definition MinFrame : Z := EthernetMinimumSize.

(** ** Kernel answers *)

Inductive recvAnswer := RecvEINTR | RecvErrno (e : string) | RecvMsg (b : bytes).
Inductive sendAnswer := SendEINTR | SendErrno (e : string) | SendOk.

Definition EOF : string := "EOF".

(** ** internal/unixseq: Conn

    A message longer than the buffer is cut to it (the loop passes no flag and
    ignores MSG_TRUNC). *)
Fixpoint ConnSendFrame (b : bytes) (answers : list sendAnswer)
  : option (result bytes * list sendAnswer) :=
  match answers with
  | [] => None
  | SendEINTR :: rest => ConnSendFrame b rest
  | SendErrno e :: rest => Some (Err e, rest)
  | SendOk :: rest => Some (Ok b, rest)
  end.

Fixpoint ConnRecvFrame (buflen : Z) (answers : list recvAnswer)
  : option (result bytes * list recvAnswer) :=
  match answers with
  | [] => None
  | RecvEINTR :: rest => ConnRecvFrame buflen rest
  | RecvErrno e :: rest => Some (Err e, rest)
  | RecvMsg m :: rest =>
      let b := take (Z.to_nat buflen) m in
      if len b =? 0 then Some (Err EOF, rest) else Some (Ok b, rest)
  end.

(** ** internal/link: EtherEndpoint *)

Record Stats := mkStats {
  RxPackets : Z; TxPackets : Z; RxBytes : Z; TxBytes : Z; Dropped : Z }.

Record EtherEndpoint := mkEndpoint {
  mtu : Z;
  linkAddr : bytes;
  stats : Stats;
  guestMAC : option bytes;
  has_sink : bool;
}.

Definition New (mtu : Z) (addr : bytes) : EtherEndpoint :=
  mkEndpoint mtu addr (mkStats 0 0 0 0 0) None false.

Definition SetSink (e : EtherEndpoint) : EtherEndpoint :=
  mkEndpoint (mtu e) (linkAddr e) (stats e) (guestMAC e) true.

Definition GuestMAC (e : EtherEndpoint) : bytes * bool :=
  match guestMAC e with Some m => (m, true) | None => ([], false) end.

(** The atomic counters wrap at 64 bits. *)
Definition u64 (x : Z) : Z := x mod 2 ^ 64.

Definition countRx (n : Z) (s : Stats) : Stats :=
  mkStats (u64 (RxPackets s + 1)) (TxPackets s) (u64 (RxBytes s + n)) (TxBytes s) (Dropped s).
Definition countTx (n : Z) (s : Stats) : Stats :=
  mkStats (RxPackets s) (u64 (TxPackets s + 1)) (RxBytes s) (u64 (TxBytes s + n)) (Dropped s).
Definition countDrop (s : Stats) : Stats :=
  mkStats (RxPackets s) (TxPackets s) (RxBytes s) (TxBytes s) (u64 (Dropped s + 1)).

Definition setStats (s : Stats) (e : EtherEndpoint) : EtherEndpoint :=
  mkEndpoint (mtu e) (linkAddr e) s (guestMAC e) (has_sink e).
Definition setGuest (m : bytes) (e : EtherEndpoint) : EtherEndpoint :=
  mkEndpoint (mtu e) (linkAddr e) (stats e) (Some m) (has_sink e).
Definition drop1 (e : EtherEndpoint) : EtherEndpoint := setStats (countDrop (stats e)) e.

(** One turn of [Start]: the frame of an outbound packet goes to the sink. *)
Definition pump (b : bytes) (e : EtherEndpoint) : EtherEndpoint * option bytes :=
  if has_sink e then (setStats (countTx (len b) (stats e)) e, Some b) else (drop1 e, None).

(** [Start] on the packets the channel delivers before it is closed. *)
Fixpoint Start (pkts : list bytes) (e : EtherEndpoint) : EtherEndpoint * list bytes * string :=
  match pkts with
  | [] => (e, [], "link closed"%string)
  | b :: rest =>
      let '(e, sent) := pump b e in
      let '(e, frames, err) := Start rest e in
      (e, from_option (fun f => [f]) [] sent ++ frames, err)
  end.

(** [header.EthernetBroadcastAddress] when neither the route nor an earlier
    frame names the guest. *)
Definition headerDst (remote : bytes) (e : EtherEndpoint) : bytes :=
  if len remote =? 0 then default EthernetBroadcastAddress (guestMAC e) else remote.

(** The link header of an outbound packet. *)
Definition AddHeader `{NetHeader} (remote : bytes) (proto : Z) (e : EtherEndpoint) : bytes :=
  eth_Encode (mkEth (linkAddr e) (headerDst remote e) proto) (zeros (Z.to_nat EthernetMinimumSize)).

(** The ethertypes with a network protocol behind them. *)
Definition protoOf (ethertype : Z) : option Z :=
  if ethertype =? 0x0800 then Some 0x0800
  else if ethertype =? 0x86DD then Some 0x86DD
  else if ethertype =? 0x0806 then Some 0x0806
  else None.

(** What [InjectInbound] gets: protocol, link header, payload. *)
Record inbound := mkInbound { in_proto : Z; in_header : bytes; in_payload : bytes }.

(** [consume n b] is the packet buffer's [LinkHeader().Consume(n)] on data [b]. *)
Definition Inject (consume : Z -> bytes -> option (bytes * bytes)) (frame : bytes)
    (e : EtherEndpoint) : go (EtherEndpoint * option inbound) :=
  if len frame <? MinFrame then Done (drop1 e, None) else
  mac ← slice frame 6 12;
  let e := setGuest mac e in
  t ← slice frame 12 14;
  ethertype ← be16 t;
  match protoOf ethertype with
  | None => Done (drop1 e, None)
  | Some proto =>
      match consume MinFrame frame with
      | None => Done (drop1 e, None)
      | Some (h, payload) =>
          Done (setStats (countRx (len frame) (stats e)) e, Some (mkInbound proto h payload))
      end
  end.

Definition SendFrame (b : bytes) (answers : list sendAnswer)
  : option (result bytes * list sendAnswer) := ConnSendFrame b answers.

Fixpoint RecvFrame (buflen : Z) (answers : list recvAnswer) (e : EtherEndpoint)
  : option (go (result bytes * EtherEndpoint) * list recvAnswer) :=
  match answers with
  | [] => None
  | RecvEINTR :: rest => RecvFrame buflen rest e
  | RecvErrno err :: rest => Some (Done (Err err, e), rest)
  | RecvMsg m :: rest =>
      let b := take (Z.to_nat buflen) m in
      if len b =? 0 then Some (Done (Err EOF, e), rest)
      else
        if 12 <=? len b then
          (* [buf[6:12]] of the whole buffer *)
          Some ((mac ← slice b 6 12; Done (Ok b, setGuest mac e)), rest)
        else Some (Done (Ok b, e), rest)
  end.

(** ** Lemmas *)

Lemma protoOf_id t p : protoOf t = Some p -> p = t.
Proof. unfold protoOf. repeat case_match; intros [= <-]; lia. Qed.

(** The source address field of a frame. *)
Definition srcOf (frame : bytes) : bytes := take 6 (drop 6 frame).

Definition etherTypeOf (frame : bytes) : go Z := t ← slice frame 12 14; be16 t.

Lemma etherTypeOf_returns frame : 14 <= len frame -> no_panic (etherTypeOf frame).
Proof.
  intros Hl. destruct (be16_field frame 12 14) as [t Ht]; [lia..|]. by exists t.
Qed.

Lemma slice_src frame : 12 <= len frame -> slice frame 6 12 = Done (srcOf frame).
Proof. intros. by rewrite slice_eq by lia. Qed.

(** ** Inbound frames *)

Section Inject.
Context (consume : Z -> bytes -> option (bytes * bytes)).
(** [Consume] moves the first [n] bytes of the packet, when it has that many,
    into the header (gVisor's packet buffer). *)
Hypothesis consume_spec : forall n b, 0 <= n ->
  consume n b = if n <=? len b then Some (take (Z.to_nat n) b, drop (Z.to_nat n) b) else None.

Lemma Inject_eq frame e :
  Inject consume frame e =
    if len frame <? 14 then Done (drop1 e, None) else
    t ← etherTypeOf frame;
    let e := setGuest (srcOf frame) e in
    Done match protoOf t with
         | None => (drop1 e, None)
         | Some p => (setStats (countRx (len frame) (stats e)) e,
                      Some (mkInbound p (take 14 frame) (drop 14 frame)))
         end.
Proof.
  unfold Inject. change MinFrame with 14. destruct (Z.ltb_spec (len frame) 14); [done|].
  rewrite slice_src by lia. unfold etherTypeOf. cbn [mbind go_bind].
  destruct (slice frame 12 14) as [s|]; [|done]. cbn [mbind go_bind].
  destruct (be16 s) as [t|]; [|done]. cbn [mbind go_bind].
  destruct (protoOf t); [|done]. rewrite consume_spec by lia.
  by destruct (Z.leb_spec 14 (len frame)); [|lia].
Qed.

(** every frame is accounted for. [Inject] never panics. A frame with a full
    Ethernet header and type IPv4, IPv6 or ARP reaches netstack under that
    protocol, split after its 14-byte header and otherwise untouched, and counts
    as received; every other frame is dropped and counts as dropped. The guest's
    address is the source of the last frame that had a header, handled or not. *)
Theorem Inject_classifies frame e :
  returns (Inject consume frame e) (fun '(e', out) =>
    guestMAC e' = (if len frame <? 14 then guestMAC e else Some (srcOf frame)) /\
    match out with
    | Some i =>
        in_header i ++ in_payload i = frame /\ len (in_header i) = 14 /\
        etherTypeOf frame = Done (in_proto i) /\ in_proto i ∈ [0x0800; 0x86DD; 0x0806] /\
        stats e' = countRx (len frame) (stats e)
    | None =>
        (len frame < 14 \/ exists t, etherTypeOf frame = Done t /\ t ∉ [0x0800; 0x86DD; 0x0806]) /\
        stats e' = countDrop (stats e)
    end).
Proof.
  rewrite Inject_eq. destruct (Z.ltb_spec (len frame) 14) as [Hs|Hl].
  { apply returns_done. auto. }
  destruct (etherTypeOf_returns frame) as [t Ht]; [done|]. rewrite Ht. cbn [mbind go_bind].
  apply returns_done. destruct (protoOf t) as [p|] eqn:Hp.
  - pose proof (protoOf_id _ _ Hp) as ->. cbn. split_and!; try done.
    + by rewrite take_drop.
    + apply len_take. lia.
    + unfold protoOf in Hp. rewrite !elem_of_cons. repeat case_match; simplify_eq; lia.
  - cbn. split_and!; try done. right. exists t. split; [done|].
    unfold protoOf in Hp. rewrite !elem_of_cons, elem_of_nil. repeat case_match; simplify_eq; lia.
Qed.

Context `{NetHeaderLaws}.

Lemma AddHeader_wire remote proto e :
  length (linkAddr e) = 6%nat -> length (headerDst remote e) = 6%nat ->
  AddHeader remote proto e = headerDst remote e ++ linkAddr e ++ put16 proto.
Proof.
  intros Hs Hd. unfold AddHeader. rewrite eth_Encode_spec by done. cbn [eth_DstAddr eth_SrcAddr eth_Type].
  rewrite drop_zeros. change (zeros _) with (@nil Z). by rewrite app_nil_r.
Qed.

(** A well-formed address state: our own address and the learned one have six
    bytes. *)
Definition wf_endpoint (e : EtherEndpoint) : Prop :=
  length (linkAddr e) = 6%nat /\ from_option (fun m => length m = 6%nat) True (guestMAC e).

(** the two ends of a wire agree. What one endpoint puts on the wire for a
    packet (its Ethernet header in front of the payload) the other hands to its
    netstack as the same protocol and payload. Without a resolved destination
    the header names the guest heard last, or everybody; and the answer of the
    receiving end goes back to the sender. *)
Theorem endpoints_exchange a b remote proto payload :
  wf_endpoint a -> length (linkAddr b) = 6%nat ->
  remote = [] \/ length remote = 6%nat -> proto ∈ [0x0800; 0x86DD; 0x0806] ->
  let header := AddHeader remote proto a in
  take 6 header =
    (if decide (remote = []) then default EthernetBroadcastAddress (guestMAC a) else remote) /\
  returns (Inject consume (header ++ payload) b) (fun '(b', out) =>
    out = Some (mkInbound proto header payload) /\
    take 6 (AddHeader [] proto b') = linkAddr a).
Proof.
  intros [Ha Hg] Hb Hr Hp header.
  assert (Hd : headerDst remote a =
    if decide (remote = []) then default EthernetBroadcastAddress (guestMAC a) else remote).
  { unfold headerDst. case_decide as He; [by subst|]. destruct Hr as [->|Hr]; [done|].
    unfold len. by rewrite Hr. }
  assert (Hl : length (headerDst remote a) = 6%nat).
  { rewrite Hd. case_decide; [by destruct (guestMAC a)|]. by destruct Hr. }
  assert (Hw : header = headerDst remote a ++ linkAddr a ++ put16 proto) by by apply AddHeader_wire.
  assert (Hlen : length header = 14%nat) by (rewrite Hw, !length_app, Hl, Ha; done).
  split. { rewrite Hw, <- Hd. by rewrite take_app_eq. }
  rewrite Inject_eq. pose proof (len_nonneg payload).
  destruct (Z.ltb_spec (len (header ++ payload)) 14) as [Hs|_].
  { rewrite len_app in Hs. unfold len at 1 in Hs. lia. }
  assert (Ht : etherTypeOf (header ++ payload) = Done proto).
  { unfold etherTypeOf. rewrite Hw, <- !app_assoc, app_assoc.
    rewrite slice_app; [|unfold len; rewrite length_app, Hl, Ha; done..].
    cbn [mbind go_bind]. rewrite <- (app_nil_r (put16 proto)). apply put16_be16.
    rewrite !elem_of_cons, elem_of_nil in Hp. lia. }
  rewrite Ht. cbn [mbind go_bind].
  assert (protoOf proto = Some proto) as ->.
  { rewrite !elem_of_cons, elem_of_nil in Hp. by destruct Hp as [-> | [-> | [-> | []]]]. }
  apply returns_done.
  rewrite take_app_eq, drop_app_eq by done. split; [done|].
  assert (Hsrc : srcOf (header ++ payload) = linkAddr a).
  { unfold srcOf. rewrite Hw, <- !app_assoc. rewrite drop_app_eq by done. by rewrite take_app_eq. }
  rewrite Hsrc. rewrite AddHeader_wire; [|done..]. by rewrite take_app_eq.
Qed.

End Inject.

(** ** The seqpacket loops *)

(** a read never returns an empty frame. [RecvFrame] skips interrupted calls
    and takes the first other answer of the kernel: a message is returned cut to
    the buffer, never empty, and the guest's address is learned from it; a
    closed peer (an empty message) or an error is an error, so no reader can
    spin on it. The peer wires of internal/unixseq read the same way. *)
Theorem RecvFrame_outcome buflen answers e : 0 < buflen ->
  match RecvFrame buflen answers e with
  | None => Forall (eq RecvEINTR) answers
  | Some (m, rest) => exists k a, answers = replicate k RecvEINTR ++ a :: rest /\
      returns m (fun '(r, e') =>
        ConnRecvFrame buflen answers = Some (r, rest) /\
        match r with
        | Ok b => exists msg, a = RecvMsg msg /\ b = take (Z.to_nat buflen) msg /\
            0 < len b <= buflen /\
            guestMAC e' = (if len b <? 12 then guestMAC e else Some (srcOf b))
        | Err err => (a = RecvErrno err \/ a = RecvMsg [] /\ err = EOF) /\ e' = e
        end)
  end.
Proof.
  intros Hbuf. induction answers as [|a answers IH]; cbn [RecvFrame ConnRecvFrame]; [done|].
  destruct a as [|err|m].
  - destruct (RecvFrame buflen answers e) as [[r rest]|]; [|by constructor].
    destruct IH as (k & a & -> & HQ). by exists (S k), a.
  - exists 0%nat, (RecvErrno err). split; [done|]. apply returns_done. by auto.
  - assert (Hb : len (take (Z.to_nat buflen) m) <= buflen) by (unfold len; rewrite length_take; lia).
    pose proof (len_nonneg (take (Z.to_nat buflen) m)).
    destruct (Z.eqb_spec (len (take (Z.to_nat buflen) m)) 0) as [H0|Hn].
    { exists 0%nat, (RecvMsg m). split; [done|]. apply returns_done. split; [done|]. split; [|done].
      right. split; [|done]. destruct m as [|x m]; [done|]. exfalso.
      unfold len in H0. rewrite length_take in H0. cbn [length] in H0. lia. }
    destruct (Z.leb_spec 12 (len (take (Z.to_nat buflen) m))) as [Hl|Hs];
      exists 0%nat, (RecvMsg m); (split; [done|]).
    + rewrite slice_src by done. apply returns_done. split; [done|]. exists m.
      split_and!; try done; [lia|]. by destruct (Z.ltb_spec (len (take (Z.to_nat buflen) m)) 12); [lia|].
    + apply returns_done. split; [done|]. exists m.
      split_and!; try done; [lia|]. by destruct (Z.ltb_spec (len (take (Z.to_nat buflen) m)) 12); [|lia].
Qed.

(** ** Examples *)

Definition refConsume (n : Z) (b : bytes) : option (bytes * bytes) :=
  if n <=? len b then Some (take (Z.to_nat n) b, drop (Z.to_nat n) b) else None.

Definition demoEndpoint : EtherEndpoint := New 9216 [122; 114; 109; 60; 215; 35].
Definition demoArp : bytes := EthernetBroadcastAddress ++ [2; 0; 0; 0; 0; 1] ++ [8; 6] ++ zeros 28.

Theorem Inject_classifies_witness :
  returns (Inject refConsume demoArp demoEndpoint) (fun '(e', out) =>
    guestMAC e' = Some [2; 0; 0; 0; 0; 1] /\
    (exists i, out = Some i /\ in_proto i = 0x0806 /\ in_payload i = zeros 28) /\
    RxPackets (stats e') = 1 /\ RxBytes (stats e') = 42).
Proof.
  generalize (Inject_classifies refConsume (fun n b _ => eq_refl) demoArp demoEndpoint).
  apply returns_mono. intros [e' [i|]] (Hg & Hi); cbn in Hi.
  - destruct Hi as (Hw & Hl & Ht & _ & Hs). split; [exact Hg|]. rewrite Hs. split; [|by split].
    exists i. split; [done|]. split; [by injection Ht|].
    apply (app_inj_1 _ (take 14 demoArp)) in Hw; [by destruct Hw|].
    unfold len in Hl. change (length (take 14 demoArp)) with 14%nat. lia.
  - destruct Hi as [[?|(t & Ht & Hn)] _]; [done|]. injection Ht as <-. exfalso. apply Hn.
    by apply (bool_decide_unpack _).
Defined.

Theorem endpoints_exchange_witness :
  take 6 (AddHeader (H := RefHeader) [] 0x0800 demoEndpoint) = EthernetBroadcastAddress /\
  returns (Inject refConsume (AddHeader [] 0x0800 demoEndpoint ++ zeros 20)
             (New 1500 [2; 0; 0; 0; 0; 1])) (fun '(b', out) =>
    out = Some (mkInbound 0x0800 (AddHeader [] 0x0800 demoEndpoint) (zeros 20)) /\
    take 6 (AddHeader [] 0x0800 b') = linkAddr demoEndpoint).
Proof.
  apply (endpoints_exchange refConsume (fun n b _ => eq_refl) demoEndpoint
           (New 1500 [2; 0; 0; 0; 0; 1]) [] 0x0800 (zeros 20)).
  - by split.
  - done.
  - by left.
  - by apply (bool_decide_unpack _).
Defined.

Theorem RecvFrame_outcome_witness :
  exists r rest, RecvFrame FrameMax [RecvEINTR; RecvMsg demoArp; RecvMsg []] demoEndpoint = Some (r, rest)
    /\ rest = [RecvMsg []] /\ returns r (fun '(r, e') => r = Ok demoArp /\
         guestMAC e' = Some [2; 0; 0; 0; 0; 1]).
Proof.
  pose proof (RecvFrame_outcome FrameMax [RecvEINTR; RecvMsg demoArp; RecvMsg []] demoEndpoint) as H.
  cbn [RecvFrame] in *. eexists _, _. split; [reflexivity|]. split; [reflexivity|].
  destruct H as (k & a & Hk & Hr); [reflexivity|].
  revert Hr. apply returns_mono. intros [[b|err] e'] [Hc Hr].
  - vm_compute in Hc. injection Hc as <-. split; [reflexivity|]. by destruct Hr as (? & ? & ? & ? & ->).
  - vm_compute in Hc. discriminate.
Defined.
