(* ===== verification/Stats.v ===== *)
(** * Stats: dumpStats of main.go

    What an instance prints when it gets SIGUSR1: the link's, the switch's and the
    netstack's counters, and the lease table, as fmt prints a map - in the order of
    its keys. *)
From S2P Require Import Prelude.
From S2P Require Import GoStd.
From S2P Require Import GoText.
From S2P Require VSwitch.
From S2P Require Import Dhcp.
From S2P Require Import Main.
From S2P Require Link.
From Stdlib Require Import Sorting.Sorted.
From stdpp Require Import sorting.
#[local] Open Scope string_scope.
#[local] Open Scope Z_scope.

Definition newline : string := String (chr 10) "".

Definition logf (s : string) : string := ("[vde_plug-go] " +:+ s) +:+ newline.

(** The netstack's counters (gVisor keeps them). *)
Record netCounters := mkCounters {
  udp_PacketsReceived : Z; udp_UnknownPortErrors : Z; udp_MalformedPacketsReceived : Z;
  ip_PacketsReceived : Z; ip_OutgoingPacketErrors : Z; ip_MalformedPacketsReceived : Z }.

(** fmt's order of the keys of a map of strings. *)
Definition key_le (a b : string * string) : Prop := String.le a.1 b.1.
#[export] Instance key_le_dec a b : Decision (key_le a b).
Proof. unfold key_le, String.le. apply _. Defined.

Fixpoint joinWith (sep : string) (l : list string) : string :=
  match l with
  | [] => ""
  | [s] => s
  | s :: l => (s +:+ sep) +:+ joinWith sep l
  end.

(** A map printed with the verb v. *)
Definition entryText (e : string * string) : string := (e.1 +:+ ":") +:+ e.2.
Definition mapText (l : list (string * string)) : string :=
  ("map[" +:+ joinWith " " (entryText <$> merge_sort key_le l)) +:+ "]".

Definition counter (name : string) (n : Z) : string := (name +:+ "=") +:+ Itoa n.

(** [dumpStats]: the lines it logs. [snap] is the snapshot [Leases] returned, in any order. *)
Definition dumpStats (n : option (Link.Stats * netCounters)) (sw : VSwitch.Switch)
    (snap : option (list (string * string))) : list string :=
  match n with
  | None => [logf ("stats: " +:+ counter "switch_drops" (VSwitch.Dropped sw))]
  | Some (st, s) =>
      [logf ("stats: " +:+ joinWith " "
         [counter "rx" (Link.RxPackets st); counter "tx" (Link.TxPackets st); counter "rxbytes" (Link.RxBytes st);
          counter "txbytes" (Link.TxBytes st); counter "dropped" (Link.Dropped st);
          counter "switch_drops" (VSwitch.Dropped sw)]);
       logf ("udp: " +:+ joinWith " "
         [counter "in" (udp_PacketsReceived s); counter "unknownport" (udp_UnknownPortErrors s);
          counter "malformed" (udp_MalformedPacketsReceived s)]);
       logf ("ip: " +:+ joinWith " "
         [counter "in" (ip_PacketsReceived s); counter "outerr" (ip_OutgoingPacketErrors s);
          counter "malformed" (ip_MalformedPacketsReceived s)])] ++
      match snap with Some l => [logf ("dhcp leases: " +:+ mapText l)] | None => [] end
  end.

(** ** Theorems *)

#[local] Instance key_le_trans : Transitive key_le.
Proof. intros a b c. unfold key_le. apply PreOrder_Transitive. Qed.
#[local] Instance key_le_total : Total key_le.
Proof. intros a b. unfold key_le. apply String.le_total. Qed.

(** The text of a map does not depend on the order it is walked in. *)
Lemma mapText_order (m : gmap string string) l :
  l ≡ₚ map_to_list m -> mapText l = mapText (map_to_list m).
Proof.
  intros Hp. unfold mapText.
  assert (E : merge_sort key_le l = merge_sort key_le (map_to_list m)); [|by rewrite E].
  apply (StronglySorted_unique_strong key_le);
    [|apply (StronglySorted_merge_sort key_le)|apply (StronglySorted_merge_sort key_le)|].
  - intros [k v] [k' v'] H1 H2 Hle Hle'. rewrite merge_sort_Permutation in H1, H2. rewrite Hp in H1.
    assert (k = k') as <- by exact (anti_symm String.le k k' Hle Hle'). f_equal. exact (map_to_list_unique m k v v' H1 H2).
  - by rewrite !merge_sort_Permutation.
Qed.

(** the lease table in the statistics. Whatever order the pool's map is walked in, the
    last line of the dump is the same: every client once, with its address, in the order
    of the clients' hardware addresses as text. *)
Theorem dumpStats_leases st s sw p snap :
  pool_ok p -> pool_bytes p -> snap ≡ₚ map_to_list (Leases p) ->
  exists es, es ≡ₚ map_to_list (assigned p) /\
    StronglySorted (fun a b => String.le (macString a.1) (macString b.1)) es /\
    last (dumpStats (Some (st, s)) sw (Some snap)) =
      Some (logf ("dhcp leases: " +:+ ("map[" +:+ joinWith " "
        ((fun e => (macString e.1 +:+ ":") +:+ v4String e.2) <$> es)) +:+ "]")).
Proof.
  intros Hok Hb Hs. pose proof (Leases_list p Hok Hb) as Hl.
  set (f := fun e : bytes * bytes => (macString e.1, v4String e.2)) in Hl.
  pose proof (StronglySorted_merge_sort key_le (map_to_list (Leases p))) as Hsorted.
  pose proof (transitivity (merge_sort_Permutation key_le (map_to_list (Leases p))) Hl) as Hperm.
  apply Permutation_map_inv in Hperm as (es & Ees & Hes).
  exists es. split; [done|]. split.
  - rewrite Ees in Hsorted. clear -Hsorted. induction es as [|e es IH]; [constructor|].
    cbn [map] in Hsorted. apply StronglySorted_inv in Hsorted as [H1 H2].
    constructor; [by apply IH|]. exact (proj1 (List.Forall_map f _ es) H2).
  - unfold dumpStats. rewrite (mapText_order (Leases p)) by done. cbn [app last].
    unfold mapText. rewrite Ees. by rewrite <- (list_fmap_compose f entryText).
Qed.

Theorem dumpStats_leases_witness :
  last (dumpStats (Some (Link.mkStats 1 2 60 120 0, mkCounters 1 0 0 1 0 0)) VSwitch.demo
          (Some (rev (map_to_list (Leases (poolOf 3)))))) =
    Some (logf "dhcp leases: map[02:00:00:00:00:01:10.0.2.15 02:00:00:00:00:02:10.0.2.16 02:00:00:00:00:03:10.0.2.17]") /\
  exists es, es ≡ₚ map_to_list (assigned (poolOf 3)) /\
    StronglySorted (fun a b => String.le (macString a.1) (macString b.1)) es.
Proof.
  split; [by vm_compute|].
  destruct (dumpStats_leases (Link.mkStats 1 2 60 120 0) (mkCounters 1 0 0 1 0 0) VSwitch.demo (poolOf 3)
    (rev (map_to_list (Leases (poolOf 3))))) as (es & H1 & H2 & _).
  - exact (poolOf_ok 3).
  - unfold pool_bytes, wf_bytes. vm_compute. repeat constructor; done.
  - symmetry. apply Permutation_rev.
  - by exists es.
Defined.

(** Without a netstack only the switch's counter is printed, whatever the pool. *)
Theorem dumpStats_bare sw snap :
  dumpStats None sw snap = [logf ("stats: switch_drops=" +:+ Itoa (VSwitch.drops sw))].
Proof. done. Qed.
