(* ===== verification/Conns.v ===== *)
(** * Conns: the connections of internal/transport

    The interface [transport.Conn] as a class ([FrameConn]) with its contract
    ([FrameConnLaws]): one direction of a wire is a queue of frames with an end.
    Its two implementations are instances: the seqpacket connections of
    internal/unixseq, with the loops of Link.v over the kernel's answers, and
    [tcpConn], with the framing of Transport.v over a stream that arrives in
    pieces. What uses a connection is proved against the class; Fabric.v is the
    main client. The listeners are at the end. *)
From S2P Require Import Prelude.
From S2P Require Link.
From S2P Require Transport.
From S2P Require UnixSeq.

(** ** The interface *)

(** One direction of a connection: what its sender and its receiver do to it.
    [RecvOn] is [None] while the read blocks; after an error nobody reads again.
    [TransitOn k] is the progress of the medium between two calls. *)
Class FrameConn (W : Type) := {
  freshConn : W;
  SendOn : bytes -> W -> result W;
  RecvOn : Z -> W -> option (go (result (bytes * W)));
  CloseOn : W -> W;
  TransitOn : nat -> W -> W;
}.

(** The frames a connection carries whole: not empty (an empty frame reads as
    the end on both implementations), and no longer than a frame buffer. *)
Definition fits (f : bytes) : Prop := 0 < len f <= Link.FrameMax.

(** [holds closed fs w]: [fs] was sent and not yet read, in this order. *)
Class FrameConnLaws (W : Type) `{FrameConn W} := {
  holds : bool -> list bytes -> W -> Prop;
  holds_fresh : holds false [] freshConn;
  send_open f fs w : holds false fs w -> fits f ->
    exists w', SendOn f w = Ok w' /\ holds false (fs ++ [f]) w';
  send_closed f fs w : holds true fs w -> exists e, SendOn f w = Err e;
  recv_next c f fs w buflen : holds c (f :: fs) w -> Link.FrameMax <= buflen ->
    RecvOn buflen w = None \/
    exists w', RecvOn buflen w = Some (Done (Ok (f, w'))) /\ holds c fs w';
  recv_blocks w buflen : holds false [] w -> RecvOn buflen w = None;
  recv_end w buflen : holds true [] w -> RecvOn buflen w = Some (Done (Err Link.EOF));
  close_holds c fs w : holds c fs w -> holds true fs (CloseOn w);
  transit_holds c fs w k : holds c fs w -> holds c fs (TransitOn k w);
  transit_arrives c f fs w : holds c (f :: fs) w ->
    exists k, forall buflen, RecvOn buflen (TransitOn k w) <> None;
}.

(** ** What every connection does *)

Section Contract.
Context `{FrameConnLaws W}.

(** A use of the connection, by either end or by the medium. *)
Inductive use := Send (f : bytes) | Recv (buflen : Z) | Close | Transit (k : nat).

Definition sendable (u : use) : Prop :=
  match u with Send f => fits f | Recv buflen => Link.FrameMax <= buflen | _ => True end.

(** What the uses did: the frames accepted, the frames read, the end seen. *)
Record seen := mkSeen { accepted : list bytes; taken : list bytes; ended : option string }.

Definition useConn (u : use) (w : W) (s : seen) : go (W * seen) :=
  match u with
  | Send f =>
      match SendOn f w with
      | Ok w => Done (w, mkSeen (accepted s ++ [f]) (taken s) (ended s))
      | Err _ => Done (w, s)
      end
  | Recv buflen =>
      match ended s, RecvOn buflen w with
      | None, Some r =>
          r ← r;
          Done match r with
               | Ok (f, w) => (w, mkSeen (accepted s) (taken s ++ [f]) None)
               | Err e => (w, mkSeen (accepted s) (taken s) (Some e))
               end
      | _, _ => Done (w, s)
      end
  | Close => Done (CloseOn w, s)
  | Transit k => Done (TransitOn k w, s)
  end.

Fixpoint useAll (us : list use) (w : W) (s : seen) : go (W * seen) :=
  match us with
  | [] => Done (w, s)
  | u :: us => '(w, s) ← useConn u w s; useAll us w s
  end.

Definition closes (u : use) : bool := match u with Close => true | _ => false end.

(** [s] is what a queue of frames with an end shows, [c] says if it is closed. *)
Definition conn_inv (c : bool) (s : seen) (w : W) : Prop :=
  exists fs, holds c fs w /\ accepted s = taken s ++ fs /\
    (ended s = None \/ ended s = Some Link.EOF /\ fs = [] /\ c = true).

(** The frames a use adds, on a connection closed or not; those of a run. *)
Definition adds (c : bool) (u : use) : list bytes :=
  match u with Send f => if c then [] else [f] | _ => [] end.

Fixpoint sentBefore (c : bool) (us : list use) : list bytes :=
  match us with [] => [] | u :: us => adds c u ++ sentBefore (c || closes u) us end.

Lemma useConn_inv c u w s :
  conn_inv c s w -> sendable u ->
  returns (useConn u w s) (fun '(w', s') =>
    conn_inv (c || closes u) s' w' /\ accepted s' = accepted s ++ adds c u).
Proof.
  intros (fs & Hh & Ha & He) Hu. destruct u as [f|buflen| |k]; cbn [useConn closes adds].
  - rewrite orb_false_r. destruct c.
    + destruct (send_closed f fs w Hh) as [e ->]. apply returns_done. rewrite app_nil_r.
      split; [|done]. by exists fs.
    + destruct (send_open f fs w Hh Hu) as (w' & -> & Hh'). apply returns_done. split; [|done].
      exists (fs ++ [f]). cbn. rewrite Ha, app_assoc. split_and!; try done.
      destruct He as [?|(_ & _ & ?)]; [by left|done].
  - rewrite orb_false_r, app_nil_r. destruct (ended s) as [e|] eqn:Es.
    { apply returns_done. split; [|done]. exists fs. by rewrite Es. }
    destruct fs as [|f fs]; [destruct c|].
    + rewrite recv_end by done. go_simpl. apply returns_done. split; [|done].
      exists []. split_and!; try done. by right.
    + rewrite recv_blocks by done. apply returns_done. split; [|done]. exists []. rewrite Es. by auto.
    + destruct (recv_next c f fs w buflen Hh Hu) as [->|(w' & -> & Hh')].
      * apply returns_done. split; [|done]. exists (f :: fs). rewrite Es. by auto.
      * go_simpl. apply returns_done. split; [|done]. exists fs. cbn. rewrite <- app_assoc. by auto.
  - rewrite orb_true_r, app_nil_r. apply returns_done. split; [|done].
    exists fs. split; [by eapply close_holds|].
    split; [done|]. destruct He as [?|(? & ? & _)]; auto.
  - rewrite orb_false_r, app_nil_r. apply returns_done. split; [|done].
    exists fs. by auto using transit_holds.
Qed.

Lemma useAll_inv us : forall c w s,
  conn_inv c s w -> Forall sendable us ->
  returns (useAll us w s) (fun '(w', s') =>
    conn_inv (c || existsb closes us) s' w' /\ accepted s' = accepted s ++ sentBefore c us).
Proof.
  induction us as [|u us IH]; intros c w s Hi Hus; cbn [useAll existsb sentBefore].
  { apply returns_done. by rewrite orb_false_r, app_nil_r. }
  apply Forall_cons in Hus as [Hu Hus]. apply returns_bind.
  eapply returns_mono; [|by apply useConn_inv]. intros [w' s'] [Hi' Ha].
  rewrite orb_assoc, app_assoc, <- Ha. by apply IH.
Qed.

(** What is held can be read: the medium delivers, the receiver reads. *)
Lemma drain c fs : forall w a t,
  holds c fs w ->
  exists us, Forall sendable us /\ sentBefore c us = [] /\
    returns (useAll us w (mkSeen a t None)) (fun '(_, s) => s = mkSeen a (t ++ fs) None).
Proof.
  induction fs as [|f fs IH]; intros w a t Hh.
  { exists []. split_and!; [done..|]. apply returns_done. by rewrite app_nil_r. }
  destruct (transit_arrives c f fs w Hh) as [k Hk].
  pose proof (transit_holds c (f :: fs) w k Hh) as Hh'.
  destruct (recv_next c f fs _ Link.FrameMax Hh') as [Hn|(w' & Er & Hw')];
    [done|by destruct (Hk Link.FrameMax)|].
  destruct (IH w' a (t ++ [f]) Hw') as (us & Hus & Hs & Hr).
  exists (Transit k :: Recv Link.FrameMax :: us). split_and!.
  - repeat constructor; [|done]. cbn. lia.
  - cbn. by rewrite !orb_false_r.
  - cbn [useAll useConn]. go_simpl. cbn [useConn ended]. rewrite Er. go_simpl. cbn [accepted taken].
    by rewrite <- app_assoc in Hr.
Qed.

Definition start : seen := mkSeen [] [] None.

Lemma conn_inv_start : conn_inv false start freshConn.
Proof. exists []. split_and!; [apply holds_fresh|done|by left]. Qed.

(** C11: every connection is a queue of frames. However sends, reads, closes and the
    progress of the medium interleave, nothing panics; the frames read are a
    prefix, in order, of those sent before the first close; the reader sees an end
    only after a close and only when it has read all of them; and until it sees
    the end, what is still missing can be read. It holds of the seqpacket and of
    the TCP connections alike. *)
Theorem conn_fifo us :
  Forall sendable us ->
  returns (useAll us freshConn start) (fun '(w, s) =>
    accepted s = sentBefore false us /\ taken s `prefix_of` accepted s /\
    (forall e, ended s = Some e ->
       e = Link.EOF /\ existsb closes us = true /\ taken s = accepted s) /\
    (ended s = None -> exists us', Forall sendable us' /\
       returns (useAll us' w s) (fun '(_, s') => taken s' = accepted s /\ accepted s' = accepted s))).
Proof.
  intros Hus. eapply returns_mono; [|apply (useAll_inv us false), Hus; apply conn_inv_start].
  intros [w s] [(fs & Hh & Ha & He) Hs]. split; [done|]. split; [rewrite Ha; by eexists|]. split.
  - intros e Hse. destruct He as [He|(He & -> & Hc)]; [congruence|].
    rewrite app_nil_r in Ha. rewrite He in Hse. by injection Hse as <-.
  - intros Hn. destruct s as [a t e]. cbn in *. subst e.
    destruct (drain _ fs w a t Hh) as (us' & Hus' & _ & Hr).
    exists us'. split; [done|]. revert Hr. apply returns_mono. intros [w' s'] ->. cbn. by rewrite Ha.
Qed.

End Contract.

(** ** Seqpacket connections: internal/unixseq *)

(** One direction: the messages in the kernel's queue, whether the sender's end is
    gone, and how many times a signal interrupts the next call. *)
Record SeqWire := mkSeq { sq_queue : list bytes; sq_closed : bool; sq_signals : nat }.

Definition SeqSend (f : bytes) (w : SeqWire) : result SeqWire :=
  match Link.ConnSendFrame f (replicate (sq_signals w) Link.SendEINTR ++
          [if sq_closed w then Link.SendErrno "EPIPE" else Link.SendOk]) with
  | Some (Ok f, _) => Ok (mkSeq (sq_queue w ++ [f]) (sq_closed w) 0)
  | Some (Err e, _) => Err e
  | None => Err "blocked"
  end.

(** [None] blocks: nothing is queued and the other end is open. *)
Definition SeqRecv (buflen : Z) (w : SeqWire) : option (go (result (bytes * SeqWire))) :=
  let ready := match sq_queue w with
               | m :: _ => [Link.RecvMsg m]
               | [] => if sq_closed w then [Link.RecvMsg []] else []
               end in
  match Link.ConnRecvFrame buflen (replicate (sq_signals w) Link.RecvEINTR ++ ready) with
  | Some (Ok f, _) => Some (Done (Ok (f, mkSeq (tail (sq_queue w)) (sq_closed w) 0)))
  | Some (Err e, _) => Some (Done (Err e))
  | None => None
  end.

Definition SeqClose (w : SeqWire) : SeqWire := mkSeq (sq_queue w) true (sq_signals w).

#[export] Instance SeqConn : FrameConn SeqWire := {
  freshConn := mkSeq [] false 0;
  SendOn := SeqSend;
  RecvOn := SeqRecv;
  CloseOn := SeqClose;
  TransitOn k w := mkSeq (sq_queue w) (sq_closed w) k;
}.

Ltac seq_simpl := cbn; unfold SeqSend, SeqRecv, SeqClose; cbn.

Lemma ConnSendFrame_signals k f rest :
  Link.ConnSendFrame f (replicate k Link.SendEINTR ++ rest) = Link.ConnSendFrame f rest.
Proof. by induction k. Qed.

Lemma ConnRecvFrame_signals k buflen rest :
  Link.ConnRecvFrame buflen (replicate k Link.RecvEINTR ++ rest) = Link.ConnRecvFrame buflen rest.
Proof. by induction k. Qed.

(** A message that fits the buffer is read whole. *)
Lemma ConnRecvFrame_fits buflen f :
  fits f -> Link.FrameMax <= buflen ->
  Link.ConnRecvFrame buflen [Link.RecvMsg f] = Some (Ok f, []).
Proof.
  intros [Hf Hm] Hb. cbn [Link.ConnRecvFrame].
  rewrite take_ge by (unfold len in *; lia). by destruct (Z.eqb_spec (len f) 0); [lia|].
Qed.

#[export] Program Instance SeqConnLaws : FrameConnLaws SeqWire := {
  holds c fs w := Forall fits fs /\ sq_queue w = fs /\ sq_closed w = c;
}.
Next Obligation. done. Qed.
Next Obligation.
  intros f fs w (Hfs & Hq & Hc) Hf. eexists. seq_simpl. rewrite ConnSendFrame_signals, Hc. split; [done|].
  cbn. rewrite Hq. split_and!; [by apply Forall_app_2; [|constructor]|done..].
Qed.
Next Obligation.
  intros f fs w (Hfs & Hq & Hc). eexists. seq_simpl. by rewrite ConnSendFrame_signals, Hc.
Qed.
Next Obligation.
  intros c f fs w buflen (Hfs & Hq & Hc) Hb. right. eexists. seq_simpl.
  apply Forall_cons in Hfs as [Hf Hfs]. rewrite ConnRecvFrame_signals, Hq, ConnRecvFrame_fits by done.
  by rewrite Hc.
Qed.
Next Obligation.
  intros w buflen (_ & Hq & Hc). seq_simpl. by rewrite ConnRecvFrame_signals, Hq, Hc.
Qed.
Next Obligation.
  intros w buflen (_ & Hq & Hc). seq_simpl. rewrite ConnRecvFrame_signals, Hq, Hc. cbn.
  by rewrite take_nil.
Qed.
Next Obligation. by intros c fs w (Hfs & Hq & Hc). Qed.
Next Obligation. by intros c fs w k (Hfs & Hq & Hc). Qed.
Next Obligation.
  intros c f fs w (Hfs & Hq & Hc). exists 0%nat. intros buflen. seq_simpl. rewrite Hq. cbn.
  by destruct (_ =? 0).
Qed.

(** ** TCP connections: [tcpConn] *)

(** One direction: the bytes written and still in flight, those that arrived and
    were not read, and whether the sender's end is closed. *)
Record TcpWire := mkTcp { tw_flight : bytes; tw_arrived : bytes; tw_closed : bool }.

(** Whether [RecvFrame] finds all it reads: its two [io.ReadFull] calls wait for
    the bytes they are asked for. *)
Definition frameArrived (buflen : Z) (s : bytes) : bool :=
  match be16 s with
  | Done n =>
      (2 <=? len s) &&
      ((n =? 0) || (Transport.FrameMax <? n) || (buflen <? n) || (2 + n <=? len s))
  | Panic => false
  end.

Definition TcpSend (f : bytes) (w : TcpWire) : result TcpWire :=
  if tw_closed w then Err "closed"%string
  else b ← Transport.SendFrame f; Ok (mkTcp (tw_flight w ++ b) (tw_arrived w) false).

(** [None] blocks: the bytes it waits for have not arrived. *)
Definition TcpRecv (buflen : Z) (w : TcpWire) : option (go (result (bytes * TcpWire))) :=
  if (tw_closed w && bool_decide (tw_flight w = [])) || frameArrived buflen (tw_arrived w)
  then Some (r ← Transport.RecvFrame buflen (tw_arrived w);
             Done ('(f, rest) ← r; Ok (f, mkTcp (tw_flight w) rest (tw_closed w))))
  else None.

Definition TcpClose (w : TcpWire) : TcpWire := mkTcp (tw_flight w) (tw_arrived w) true.

(** The next [k] bytes arrive. *)
Definition TcpTransit (k : nat) (w : TcpWire) : TcpWire :=
  mkTcp (drop k (tw_flight w)) (tw_arrived w ++ take k (tw_flight w)) (tw_closed w).

#[export] Instance TcpConn : FrameConn TcpWire := {
  freshConn := mkTcp [] [] false;
  SendOn := TcpSend;
  RecvOn := TcpRecv;
  CloseOn := TcpClose;
  TransitOn := TcpTransit;
}.

Ltac tcp_simpl := cbn; unfold TcpSend, TcpRecv, TcpClose, TcpTransit; cbn.

(** A prefix of two concatenations that is long enough contains the first part. *)
Lemma prefix_split {A} (a b x y : list A) :
  a ++ b = x ++ y -> (length x <= length a)%nat -> exists z, a = x ++ z /\ y = z ++ b.
Proof.
  intros E Hl. exists (drop (length x) a).
  assert (Hx : take (length x) a = x).
  { rewrite <- (take_app_le a b) by done. by rewrite E, take_app_length. }
  assert (Ha : a = x ++ drop (length x) a) by by rewrite <- Hx at 1; rewrite take_drop.
  split; [done|]. rewrite Ha, <- app_assoc in E. by apply app_inv_head in E.
Qed.

(** What the sender wrote and the receiver has not read. *)
Definition pending (fs : list bytes) : bytes := concat ((fun f => put16 (len f) ++ f) <$> fs).

Lemma pending_cons f fs : pending (f :: fs) = put16 (len f) ++ f ++ pending fs.
Proof. unfold pending. rewrite fmap_cons. apply (eq_sym (app_assoc _ _ _)). Qed.

Lemma pending_snoc fs f : pending (fs ++ [f]) = pending fs ++ put16 (len f) ++ f.
Proof.
  induction fs as [|g fs IH]; cbn [app]; rewrite pending_cons; [by rewrite app_nil_r|].
  by rewrite pending_cons, IH, <- !app_assoc.
Qed.

Lemma SendFrame_fits f : fits f -> Transport.SendFrame f = Ok (put16 (len f) ++ f).
Proof.
  intros [Hf Hm]. unfold Transport.SendFrame, Link.FrameMax, u16 in *.
  destruct (Z.ltb_spec Transport.FrameMax (len f)) as [Hb|_]; [unfold Transport.FrameMax in Hb; lia|].
  by rewrite Z.mod_small by lia.
Qed.

Lemma RecvFrame_pending f rest buflen :
  fits f -> Link.FrameMax <= buflen ->
  Transport.RecvFrame buflen (put16 (len f) ++ f ++ rest) = Done (Ok (f, rest)).
Proof.
  intros [Hf Hm] Hb. unfold Link.FrameMax in *.
  apply Transport.RecvFrame_frame; unfold Transport.FrameMax; lia.
Qed.

(** A frame that has arrived starts what has arrived. *)
Lemma frameArrived_inv f fs rest s buflen :
  fits f -> Link.FrameMax <= buflen -> frameArrived buflen s = true ->
  s ++ rest = pending (f :: fs) ->
  exists z, s = put16 (len f) ++ f ++ z /\ z ++ rest = pending fs.
Proof.
  intros [Hf Hm] Hb Ha E. rewrite pending_cons in E.
  unfold frameArrived in Ha. unfold Link.FrameMax in *.
  assert (Hs2 : 2 <= len s) by (destruct (be16 s); [lia|done]).
  destruct (prefix_split s rest (put16 (len f)) _ E) as (s1 & -> & E1); [unfold len in Hs2; cbn; lia|].
  rewrite put16_be16 in Ha by lia. rewrite len_app, len_put16 in Ha.
  destruct (Z.eqb_spec (len f) 0); [lia|]. unfold Transport.FrameMax in Ha.
  destruct (Z.ltb_spec (9216 + 14 + 4) (len f)); [lia|].
  destruct (Z.ltb_spec buflen (len f)); [lia|]. cbn [orb] in Ha.
  destruct (prefix_split s1 rest f _ (eq_sym E1)) as (z & -> & E2); [unfold len in *; lia|].
  by exists z.
Qed.

Lemma frameArrived_pending f fs buflen : fits f -> frameArrived buflen (pending (f :: fs)) = true.
Proof.
  intros [Hf Hm]. rewrite pending_cons. unfold frameArrived, Link.FrameMax in *.
  rewrite put16_be16, !len_app, len_put16 by lia. pose proof (len_nonneg (pending fs)).
  destruct (Z.leb_spec 2 (2 + (len f + len (pending fs)))); [|lia].
  destruct (Z.leb_spec (2 + len f) (2 + (len f + len (pending fs)))); [|lia].
  by rewrite !orb_true_r.
Qed.

Lemma frameArrived_nil buflen : frameArrived buflen [] = false.
Proof. done. Qed.

#[export] Program Instance TcpConnLaws : FrameConnLaws TcpWire := {
  holds c fs w := Forall fits fs /\ tw_arrived w ++ tw_flight w = pending fs /\ tw_closed w = c;
}.
Next Obligation. done. Qed.
Next Obligation.
  intros f fs w (Hfs & Hp & Hc) Hf. tcp_simpl. rewrite Hc, SendFrame_fits by done. cbn.
  eexists. split; [done|]. cbn. split_and!; [by apply Forall_app_2; [|constructor]| |done].
  by rewrite app_assoc, Hp, pending_snoc.
Qed.
Next Obligation. intros f fs w (Hfs & Hp & Hc). eexists. tcp_simpl. by rewrite Hc. Qed.
Next Obligation.
  intros c f fs w buflen (Hfs & Hp & Hc) Hb. apply Forall_cons in Hfs as [Hf Hfs]. tcp_simpl.
  destruct (frameArrived buflen (tw_arrived w)) eqn:Ha.
  - rewrite orb_true_r. right.
    destruct (frameArrived_inv f fs (tw_flight w) (tw_arrived w) buflen) as (z & -> & Ez); [done..|].
    rewrite RecvFrame_pending by done. eexists. split; [done|]. by split_and!.
  - rewrite orb_false_r. destruct (tw_closed w) eqn:Hw, (decide (tw_flight w = [])) as [Hfl|Hfl];
      [|by rewrite ?bool_decide_eq_false_2 by done; left..|by left|by left].
    rewrite Hfl, app_nil_r in Hp. rewrite Hp, frameArrived_pending in Ha by done. done.
Qed.
Next Obligation.
  intros w buflen (_ & Hp & Hc). tcp_simpl. rewrite Hc. apply app_nil in Hp as [-> _]. done.
Qed.
Next Obligation.
  intros w buflen (_ & Hp & Hc). tcp_simpl. rewrite Hc. apply app_nil in Hp as [-> ->]. done.
Qed.
Next Obligation. by intros c fs w (Hfs & Hp & Hc). Qed.
Next Obligation.
  intros c fs w k (Hfs & Hp & Hc). tcp_simpl. split_and!; [done| |done].
  by rewrite <- app_assoc, take_drop.
Qed.
Next Obligation.
  intros c f fs w (Hfs & Hp & Hc). exists (length (tw_flight w)). intros buflen. tcp_simpl.
  rewrite take_ge by done. rewrite Hp, frameArrived_pending by by apply Forall_cons in Hfs as [? _].
  by rewrite orb_true_r.
Qed.

(** ** Listeners: [unixListener], [tcpListener]

    [Accept] of either family wraps the kernel's answer; [Close] of the unix one is
    [UnixSeq.Close], of the TCP one the runtime's. *)
Definition ListenerAccept {A B} (l : Transport.Conn A) (answer : result B) : result (Transport.Conn B) :=
  match l with
  | Transport.UnixConn _ => c ← answer; Ok (Transport.UnixConn c)
  | Transport.TcpConn _ => c ← answer; Ok (Transport.TcpConn c)
  end.

Definition isTcpConn {A} (c : Transport.Conn A) : bool :=
  match c with Transport.TcpConn _ => true | Transport.UnixConn _ => false end.

(** Both ends of a wire run the same implementation: a hub that binds an address
    accepts connections of the family a peer dials at this address, and with them
    the same framing, whatever the network answers. *)
Theorem ends_agree {A} (dialTCP listenTCP dialTCP' dialUnix' accept : result A) bindUnix addr l c d :
  Transport.BindOrConnect dialTCP listenTCP bindUnix addr = Ok (inl l) ->
  ListenerAccept l accept = Ok c ->
  Transport.TryConnect dialTCP' dialUnix' addr = Ok d ->
  isTcpConn c = Transport.IsTCP addr /\ isTcpConn d = Transport.IsTCP addr.
Proof.
  unfold Transport.BindOrConnect, Transport.TryConnect. destruct (Transport.IsTCP addr).
  - destruct dialTCP as [x|e]; [done|]. destruct listenTCP as [y|e']; [|done].
    intros [= <-]. destruct accept; [|done]. intros [= <-]. destruct dialTCP'; [|done]. by intros [= <-].
  - destruct bindUnix as [[y|y]|e]; try done. intros [= <-].
    destruct accept; [|done]. intros [= <-]. destruct dialUnix'; [|done]. by intros [= <-].
Qed.

Theorem ends_agree_witness :
  isTcpConn (Transport.TcpConn 5%nat) = true /\ isTcpConn (Transport.TcpConn 6%nat) = true.
Proof.
  apply (ends_agree (Err "refused") (Ok 4%nat) (Ok 6%nat) (Err "unused") (Ok 5%nat) (Err "unused")
           "203.0.113.7:9100" (Transport.TcpConn 4%nat)); by vm_compute.
Defined.

(** ** Evaluations *)

Definition demoUses : list use :=
  [Send [1; 2; 3]; Recv 9234; Transit 1; Recv 9234; Send (zeros 300); Transit 3; Recv 9234;
   Close; Send [9]; Transit 1000; Recv 9234; Recv 9234; Recv 9234].

Lemma demoUses_sendable : Forall sendable demoUses.
Proof.
  unfold demoUses. repeat (apply Forall_cons_2; [cbn [sendable]; unfold fits, Link.FrameMax; rewrite ?len_zeros, ?len_cons; unfold len; cbn [length]; lia|]).
  apply Forall_nil_2.
Qed.

Theorem conn_fifo_witness :
  returns (useAll (W := TcpWire) demoUses freshConn start) (fun '(_, s) =>
    taken s = [[1; 2; 3]; zeros 300] /\ ended s = Some "EOF"%string) /\
  returns (useAll (W := SeqWire) demoUses freshConn start) (fun '(_, s) =>
    accepted s = [[1; 2; 3]; zeros 300] /\ taken s `prefix_of` accepted s).
Proof.
  split.
  - assert (He : match useAll (W := TcpWire) demoUses freshConn start with
                 | Done (_, s) => ended s = Some "EOF"%string | Panic => False end) by by vm_compute.
    destruct (conn_fifo (W := TcpWire) demoUses demoUses_sendable) as ([w s] & E & Ha & _ & Hend & _).
    rewrite E in He. exists (w, s). split; [done|]. split; [|done].
    destruct (Hend _ He) as (_ & _ & ->). by rewrite Ha.
  - destruct (conn_fifo (W := SeqWire) demoUses demoUses_sendable) as ([w s] & E & Ha & Hp & _).
    exists (w, s). split; [done|]. by rewrite Ha in *.
Defined.
