(* ===== verification/Wire.v ===== *)
(** * Wire: the goroutines of vdeplug-go/main.go that move frames

    The guest-wire reader ([wire]), a hub's reader per peer ([peerReader]) and
    its accept loop ([acceptPeers]), a peer's reader of the hub connection with
    its heartbeat watch ([runPeer]), and the heartbeats themselves
    ([sendBeacons]). A loop is a function of the results its blocking calls
    return, in order; when they are used up the goroutine is blocked again.
    Between two turns the other goroutines act on the switch: a turn carries
    their effect ([env]) as an arbitrary function. *)
From S2P Require Import Prelude.
From S2P Require Import Elect.
From S2P Require Import VSwitch.
From S2P Require Import Dhcp.
From S2P Require Link.
From S2P Require Transport.
From S2P Require Main.

(** ** Turns *)

(** What happens around one blocking read: the other goroutines' effect on the
    switch before it returns, the clock readings of [learn] and [lookup] if the
    frame is forwarded, and the read's result. *)
Record turn := mkTurn {
  env : Switch -> Switch;
  now1 : Z; now2 : Z;
  recv : result bytes;
}.

(** ** The guest wire *)

(** [f.currentPeer()] and, when there is one, the outcome of its [SendFrame]. *)
Inductive hubSend := NoPeer | HubOk | HubErr (e : string).

Inductive route := ToHub (frame : bytes) | ToSwitch (frame : bytes).

Definition wireFrame (peer : hubSend) (now1 now2 : Z) (frame : bytes) (sw : Switch)
  : go (Switch * list send * list route) :=
  if len frame <? 14 then Done (sw, [], []) else
  match peer with
  | HubOk => Done (sw, [], [ToHub frame])
  | HubErr _ | NoPeer =>
      r ← Forward now1 now2 Local frame sw; Done (r.1, r.2, [ToSwitch frame])
  end.

(** The result: the switch, the synchronous sends, where each frame went, and
    the error put on [rxErr]. *)
Fixpoint wire (turns : list (turn * hubSend)) (sw : Switch)
  : go (Switch * list send * list route * option string) :=
  match turns with
  | [] => Done (sw, [], [], None)
  | (t, peer) :: rest =>
      let sw := env t sw in
      match recv t with
      | Err e => Done (sw, [], [], Some e)
      | Ok frame =>
          '(sw, evs, rt) ← wireFrame peer (now1 t) (now2 t) frame sw;
          '(sw, evs', rt', err) ← wire rest sw;
          Done (sw, evs ++ evs', rt ++ rt', err)
      end
  end.

(** ** The hub's side of a peer wire *)

(** The deferred call: the port goes away with the reader (and the connection is
    closed). *)
Fixpoint peerReader (port : Port) (turns : list turn) (sw : Switch)
  : go (Switch * list send * list bytes * option string) :=
  match turns with
  | [] => Done (sw, [], [], None)
  | t :: rest =>
      let sw := env t sw in
      match recv t with
      | Err reason => sw ← RemovePort port sw; Done (sw, [], [], Some reason)
      | Ok frame =>
          if len frame =? 0
          then sw ← RemovePort port sw; Done (sw, [], [], Some "<nil>"%string)
          else if len frame <? 14 then peerReader port rest sw
          else
            r ← Forward (now1 t) (now2 t) port frame sw;
            '(sw, evs, fs, reason) ← peerReader port rest r.1;
            Done (sw, r.2 ++ evs, frame :: fs, reason)
      end
  end.

(** [acceptPeers] on the connections (sinks) [Accept] returns: the readers it
    starts and the connections it closes. *)
Fixpoint acceptPeers (conns : list nat) (sw : Switch)
  : Switch * list (Port * nat) * list nat :=
  match conns with
  | [] => (sw, [], [])
  | conn :: rest =>
      match AddPeer conn sw with
      | (sw, Some port) =>
          let '(sw, readers, closed) := acceptPeers rest sw in (sw, (port, conn) :: readers, closed)
      | (sw, None) =>
          let '(sw, readers, closed) := acceptPeers rest sw in (sw, readers, conn :: closed)
      end
  end.

(** ** The peer's side *)

Definition beaconInterval : Z := 10 ^ 9.
Definition beaconDeadline : Z := 3 * beaconInterval.

(** The errors put on [done]: the hub connection's, the guest link's, and the
    [errHubSilent] of the watch. *)
Inductive lostReason := RecvFailed (e : string) | GuestFailed (e : string) | errHubSilent.

Record peerState := mkPeer {
  sawBeacon : bool;
  lastBeacon : Z;
  leases : gmap bytes bytes;
}.

(** What the two goroutines of [runPeer] see: a read from the hub at time [now]
    (with the outcome of passing its frame to the guest), a tick of the watch. *)
Inductive peerEvent :=
| HubRecv (now : Z) (r : result bytes) (guestSend : option string)
| Tick (now : Z).

(** One frame from the hub: the frame passed on to the guest, if any. *)
Definition hubFrame (now : Z) (frame : bytes) (st : peerState)
  : go (peerState * option bytes) :=
  isb ← (if 14 <=? len frame then IsBeacon frame else Done false);
  if (isb : bool) then
    r ← ParseBeacon frame;
    Done (mkPeer true now (match r with
                           | Ok (_, ls) => Main.leaseMap ls
                           | Err _ => leases st
                           end), None)
  else Done (st, if 14 <=? len frame then Some frame else None).

Definition hubSilent (now : Z) (st : peerState) : bool :=
  sawBeacon st && (beaconDeadline <? now - lastBeacon st).

(** [runPeer]: the frames sent to the guest and the first value put on [done]. *)
Fixpoint runPeer (evs : list peerEvent) (st : peerState)
  : go (peerState * list bytes * option lostReason) :=
  match evs with
  | [] => Done (st, [], None)
  | Tick now :: rest =>
      if hubSilent now st then Done (st, [], Some errHubSilent) else runPeer rest st
  | HubRecv _ (Err e) _ :: _ => Done (st, [], Some (RecvFailed e))
  | HubRecv now (Ok frame) guestSend :: rest =>
      '(st, out) ← hubFrame now frame st;
      match out, guestSend with
      | Some _, Some e => Done (st, [], Some (GuestFailed e))
      | _, _ =>
          '(st, fs, reason) ← runPeer rest st;
          Done (st, option_list out ++ fs, reason)
      end
  end.

(** ** Heartbeats *)

(** One turn of [sendBeacons]; [snap] is [pool.Leases()] as it is walked, [None]
    without a pool. The state is the sequence number and the leases. *)
Definition beaconTurn (now1 now2 : Z) (snap : option (list (string * string)))
    (st : Z * list Lease) (sw : Switch) : go (Switch * list send * (Z * list Lease)) :=
  let ls := match snap with Some s => Main.poolSnapshot s | None => st.2 end in
  r ← Forward now1 now2 Uplink (EncodeBeacon Main.vdeMAC st.1 ls) sw;
  Done (r.1, r.2, (u32 (st.1 + 1), ls)).

(** The loop of [sendBeacons], a turn per interval: what the other goroutines did to
    the switch, the clock readings of [Forward], the pool as it is walked. The result
    holds the heartbeats, in order. *)
Record beacon := mkBeacon {
  b_env : Switch -> Switch; b_now1 : Z; b_now2 : Z; b_snap : option (list (string * string)) }.

Fixpoint sendBeacons (turns : list beacon) (st : Z * list Lease) (sw : Switch)
  : go (Switch * list bytes) :=
  match turns with
  | [] => Done (sw, [])
  | t :: turns =>
      '(sw, _, st') ← beaconTurn (b_now1 t) (b_now2 t) (b_snap t) st (b_env t sw);
      '(sw, fs) ← sendBeacons turns st' sw;
      Done (sw, EncodeBeacon Main.vdeMAC st.1 st'.2 :: fs)
  end.

(** The sinks of the ports: the guest's descriptor, and "uplink: none". *)
Definition guestSinkSend (frame : bytes) (answers : list Link.sendAnswer)
  : option (result bytes * list Link.sendAnswer) := Link.SendFrame frame answers.
Definition blackholeSend (frame : bytes) : result unit := Ok tt.

(** ** Specifications

    The turns before the first failed read, with the frame each read. *)
Fixpoint untilErr {A} (get : A -> result bytes) (l : list A) : list (A * bytes) * option string :=
  match l with
  | [] => ([], None)
  | x :: rest =>
      match get x with
      | Err e => ([], Some e)
      | Ok f => let '(fs, err) := untilErr get rest in ((x, f) :: fs, err)
      end
  end.

(** Other goroutines keep the switch well formed, and frames fit the buffer the
    loops read into. *)
Definition turn_ok (t : turn) : Prop :=
  (forall sw, wf sw -> wf (env t sw)) /\
  forall f, recv t = Ok f -> len f <= Link.FrameMax.

Definition routeOf (x : turn * hubSend * bytes) : option route :=
  if len x.2 <? 14 then None
  else Some (match x.1.2 with HubOk => ToHub x.2 | _ => ToSwitch x.2 end).

Lemma Forward_fits n1 n2 from f sw :
  wf sw -> len f <= Link.FrameMax -> returns (Forward n1 n2 from f sw) (fun r => wf r.1).
Proof. apply Forward_wf. Qed.

(** the guest wire loses nothing and crashes nothing. Whatever the other
    goroutines do to the switch and whatever role the instance has at each
    frame, the wire reader never panics (its buffer is no larger than the
    switch's frame buffers), every frame with an Ethernet header goes to exactly
    one place, in order - to the hub when the instance is a peer and the send
    succeeds, to the local switch otherwise - and only a failed read ends it,
    with the error that shuts the instance down. *)
Theorem wire_routes turns sw :
  wf sw -> Forall (fun x => turn_ok x.1) turns ->
  returns (wire turns sw) (fun '(sw', _, rt, err) =>
    wf sw' /\ rt = omap routeOf (untilErr (fun x => recv x.1) turns).1 /\
    err = (untilErr (fun x => recv x.1) turns).2).
Proof.
  intros Hwf Ht. revert sw Hwf. induction Ht as [|[t peer] turns [Henv Hfit] Ht IH]; intros sw Hwf.
  { by apply returns_done. }
  cbn [wire untilErr fst] in *. destruct (recv t) as [f|e].
  2:{ apply returns_done. cbn. auto. }
  specialize (Hfit f eq_refl). specialize (Henv sw Hwf).
  assert (Hf : returns (wireFrame peer (now1 t) (now2 t) f (env t sw)) (fun '(sw', _, rt) =>
            wf sw' /\ rt = option_list (routeOf (t, peer, f)))).
  { unfold wireFrame, routeOf. cbn [fst snd]. destruct (len f <? 14); [by apply returns_done|].
    destruct peer; [|by apply returns_done|];
      apply returns_bind; (eapply returns_mono; [|by apply Forward_fits]);
      intros r Hr; by apply returns_done. }
  apply returns_bind. revert Hf. apply returns_mono. intros [[sw1 evs] rt] [Hw ->].
  apply returns_bind. eapply returns_mono; [|by apply IH].
  intros [[[sw2 evs'] rt'] err] (Hw2 & -> & ->). apply returns_done.
  destruct (untilErr _ turns) as [fs er]. cbn. split_and!; [done| |done].
  by destruct (routeOf _).
Qed.

(** ** The hub's readers *)

(** A read of length 0 ends [peerReader] like an error does. *)
Definition peerRecv (t : turn) : result bytes :=
  match recv t with
  | Ok f => if len f =? 0 then Err "<nil>"%string else Ok f
  | Err e => Err e
  end.

Definition portGone (port : Port) (sw : Switch) : Prop :=
  ports sw !! port = None /\ forall k e, macs sw !! k = Some e -> entry_port e <> port.

Lemma RemovePort_gone port sw :
  wf sw -> returns (RemovePort port sw) (fun sw' => wf sw' /\ portGone port sw').
Proof.
  intros Hwf. destruct (RemovePort_wf port sw Hwf) as (sw' & E & Hw').
  exists sw'. split; [done|]. split; [done|]. revert E. unfold RemovePort.
  assert (Hg : forall sw, ports sw !! port = None -> portGone port (forgetMacs port sw)).
  { intros s Hp. split; [done|]. intros k e. by intros [_ Hk]%map_lookup_filter_Some. }
  destruct (ports sw !! port) as [id|] eqn:Hp; go_simpl.
  - destruct (closeDone id sw) as [s|]; [|done]. go_simpl. intros [= <-]. apply Hg. cbn.
    apply lookup_delete_eq.
  - intros [= <-]. by apply Hg.
Qed.

(** a peer's frames enter the switch in order, and the port goes with the
    wire. Whatever the other goroutines do, a hub's reader of a peer connection
    never panics, forwards every frame with an Ethernet header, in order and on
    that peer's port, until the first failed or empty read; then, and only then,
    it removes the port, leaving no route and no learned address to it. *)
Theorem peerReader_pumps port turns sw :
  wf sw -> Forall turn_ok turns ->
  returns (peerReader port turns sw) (fun '(sw', _, fs, reason) =>
    wf sw' /\
    fs = filter (fun f => 14 <= len f) (untilErr peerRecv turns).1.*2 /\
    reason = (untilErr peerRecv turns).2 /\
    (reason <> None -> portGone port sw')).
Proof.
  intros Hwf Ht. revert sw Hwf. induction Ht as [|t turns [Henv Hfit] Ht IH]; intros sw Hwf.
  { by apply returns_done. }
  specialize (Henv sw Hwf). cbn [peerReader untilErr].
  assert (Hend : forall e : string, returns
    (sw0 ← RemovePort port (env t sw); Done (sw0, @nil send, @nil bytes, Some e))
    (fun '(sw', _, fs, reason) => wf sw' /\ fs = [] /\ reason = Some e /\
       (reason <> None -> portGone port sw'))).
  { intros e. apply returns_bind. eapply returns_mono; [|by apply RemovePort_gone].
    intros sw' [Hw Hg]. by apply returns_done. }
  destruct (recv t) as [f|e] eqn:Er.
  2:{ assert (peerRecv t = Err e) as -> by (unfold peerRecv; by rewrite Er). apply Hend. }
  destruct (Z.eqb_spec (len f) 0) as [H0|H0].
  { assert (peerRecv t = Err "<nil>"%string) as -> by (unfold peerRecv; by rewrite Er, H0). apply Hend. }
  assert (peerRecv t = Ok f) as ->.
  { unfold peerRecv. rewrite Er. by destruct (Z.eqb_spec (len f) 0). }
  destruct (untilErr peerRecv turns) as [l er] eqn:E. cbn [fst snd fmap list_fmap] in *.
  destruct (Z.ltb_spec (len f) 14).
  - eapply returns_mono; [|by apply IH]. intros [[[sw' evs] fs] reason] (Hw & -> & -> & Hg).
    split_and!; try done. by rewrite filter_cons_False by lia.
  - apply returns_bind. eapply returns_mono; [|by apply Forward_fits; auto]. intros r Hr.
    apply returns_bind. eapply returns_mono; [|by apply IH].
    intros [[[sw' evs] fs] reason] (Hw & -> & -> & Hg). apply returns_done.
    split_and!; try done. by rewrite filter_cons_True by lia.
Qed.

(** Peer numbers [0 .. n-1] are taken, the others free. *)
Definition seated (n : Z) (sw : Switch) : Prop :=
  wf sw /\ 0 <= n <= MaxPeers /\ forall p, 0 <= p -> is_Some (ports sw !! p) <-> p < n.

Lemma seated_zero sw : wf sw -> peers sw = 0 -> seated 0 sw.
Proof.
  intros Hwf Hp. split; [done|]. split; [by unfold MaxPeers|]. intros p Hge. split; [|lia].
  intros [id Hid]. exfalso. rewrite (wf_peers sw Hwf) in Hp.
  assert (He : peerPorts sw = ∅) by (apply map_size_empty_inv; lia).
  assert (Hin : peerPorts sw !! p = Some id) by (by apply map_lookup_filter_Some).
  by rewrite He, lookup_empty in Hin.
Qed.

Lemma AddPeer_seated n conn sw :
  seated n sw ->
  if decide (n < MaxPeers)
  then (AddPeer conn sw).2 = Some n /\ seated (n + 1) (AddPeer conn sw).1
  else AddPeer conn sw = (sw, None).
Proof.
  intros (Hwf & Hn & Hs). pose proof (wf_AddPeer conn sw Hwf) as Hw. revert Hw. unfold AddPeer.
  destruct (lowestFree _ 0 (ports sw)) as [q|] eqn:Hq; cbn [fst snd]; intros Hw.
  - apply lowestFree_Some in Hq as (Hr & Hq & Hlow). rewrite Z2Nat.id in Hr by done.
    assert (q = n) as ->.
    { destruct (Z.lt_trichotomy q n) as [Hlt|[E|Hgt]]; [|done|].
      - apply Hs in Hlt as [id Hid]; [congruence|lia].
      - destruct (Hlow n) as [id Hid]; [lia|]. apply (mk_is_Some (ports sw !! n)), Hs in Hid; lia. }
    rewrite decide_True by lia. split; [done|]. split; [done|]. split; [lia|].
    intros p Hp. cbn. rewrite lookup_insert. case_decide as E; [subst; split; [lia|by eauto]|].
    rewrite Hs by done. lia.
  - rewrite decide_False; [done|]. intros Hlt. rewrite lowestFree_None in Hq.
    destruct (Hq n) as [id Hid]; [unfold MaxPeers in *; lia|].
    apply (mk_is_Some (ports sw !! n)), Hs in Hid; lia.
Qed.

Lemma acceptPeers_from n conns sw :
  seated n sw ->
  let '(sw', readers, closed) := acceptPeers conns sw in
  seated (Z.min MaxPeers (n + len conns)) sw' /\
  readers = zip (seqZ n (MaxPeers - n)) conns /\ closed = drop (Z.to_nat (MaxPeers - n)) conns.
Proof.
  revert n sw. induction conns as [|conn conns IH]; intros n sw Hs; cbn [acceptPeers].
  { destruct Hs as (? & ? & ?). rewrite len_nil, Z.add_0_r, Z.min_r by lia.
    split; [done|]. by rewrite zip_with_nil_r, drop_nil. }
  pose proof (AddPeer_seated n conn sw Hs) as HA. rewrite len_cons. pose proof (len_nonneg conns).
  destruct (AddPeer conn sw) as [sw1 r]. case_decide as Hlt; cbn in HA.
  - destruct HA as [-> Hs1]. specialize (IH (n + 1) sw1 Hs1).
    destruct (acceptPeers conns sw1) as [[sw2 readers] closed]. destruct IH as (Hs2 & -> & ->).
    split; [by replace (n + (len conns + 1)) with (n + 1 + len conns) by lia|].
    rewrite (seqZ_cons n (MaxPeers - n)) by lia. cbn [zip_with].
    replace (Z.succ n) with (n + 1) by lia.
    replace (Z.pred (MaxPeers - n)) with (MaxPeers - (n + 1)) by lia. split; [done|].
    replace (Z.to_nat (MaxPeers - n)) with (S (Z.to_nat (MaxPeers - (n + 1)))) by lia. done.
  - injection HA as -> ->. destruct Hs as (Hw & Hn & Hs).
    assert (n = MaxPeers) as -> by lia. specialize (IH MaxPeers sw (conj Hw (conj Hn Hs))).
    destruct (acceptPeers conns sw) as [[sw2 readers] closed]. destruct IH as (Hs2 & -> & ->).
    rewrite Z.sub_diag. cbn. rewrite drop_0. split; [|done].
    replace (Z.min MaxPeers (MaxPeers + (len conns + 1))) with
      (Z.min MaxPeers (MaxPeers + len conns)) by lia. done.
Qed.

(** seats on a hub. From a hub without peers, [acceptPeers] starts readers for
    the first 32 connections, on ports 0, 1, 2, ... in order of arrival, closes
    all later ones, and the switch counts exactly the seated peers. *)
Theorem acceptPeers_seats conns sw :
  wf sw -> peers sw = 0 ->
  let '(sw', readers, closed) := acceptPeers conns sw in
  wf sw' /\ peers sw' = Z.min MaxPeers (len conns) /\
  readers = zip (seqZ 0 MaxPeers) conns /\ closed = drop 32 conns.
Proof.
  intros Hwf Hp. pose proof (acceptPeers_from 0 conns sw (seated_zero sw Hwf Hp)) as H.
  destruct (acceptPeers conns sw) as [[sw' readers] closed]. destruct H as ((Hw & Hn & Hs) & -> & ->).
  split; [done|]. split; [|by rewrite Z.sub_0_r].
  rewrite (wf_peers sw' Hw). rewrite <- size_dom.
  set (n := Z.min MaxPeers (len conns)).
  assert (E : dom (peerPorts sw') = list_to_set (seqZ 0 n)).
  { apply set_eq. intros p. rewrite elem_of_list_to_set, elem_of_seqZ, elem_of_dom.
    unfold peerPorts. destruct (decide (0 <= p)) as [Hge|Hge].
    - specialize (Hs p Hge). rewrite Z.add_0_l in Hs. fold n in Hs.
      assert (is_Some (peerPorts sw' !! p) <-> is_Some (ports sw' !! p)) as Hpp.
      { unfold peerPorts. split; intros [id Hid]; exists id.
        - by apply map_lookup_filter_Some in Hid as [? _].
        - by apply map_lookup_filter_Some. }
      unfold peerPorts in Hpp. rewrite Hpp, Hs. lia.
    - split; [|lia]. intros [id [_ Hk]%map_lookup_filter_Some]. by cbn in Hk. }
  rewrite E, size_list_to_set, length_seqZ by apply NoDup_seqZ.
  pose proof (len_nonneg conns). unfold n, MaxPeers in *. lia.
Qed.

(** ** The peer: what an event means *)

Definition isBeaconFrame (f : bytes) : bool :=
  match IsBeacon f with Done b => b | Panic => false end.

(** The frames of an event that are for the guest, and the lease table and beat
    times of those that are heartbeats. *)
Definition guestFrame (ev : peerEvent) : option bytes :=
  match ev with
  | HubRecv _ (Ok f) _ => if (14 <=? len f) && negb (isBeaconFrame f) then Some f else None
  | _ => None
  end.
Definition beatOf (ev : peerEvent) : option (Z * bytes) :=
  match ev with
  | HubRecv now (Ok f) _ => if isBeaconFrame f then Some (now, f) else None
  | _ => None
  end.
Definition cacheFrame (m : gmap bytes bytes) (f : bytes) : gmap bytes bytes :=
  match ParseBeacon f with Done (Ok (_, ls)) => Main.leaseMap ls | _ => m end.
Definition see (st : peerState) (ev : peerEvent) : peerState :=
  match beatOf ev with
  | Some (now, f) => mkPeer true now (cacheFrame (leases st) f)
  | None => st
  end.

(** The event that ends [runPeer], and why. *)
Definition ends (st : peerState) (ev : peerEvent) : option lostReason :=
  match ev with
  | Tick now => if hubSilent now st then Some errHubSilent else None
  | HubRecv _ (Err e) _ => Some (RecvFailed e)
  | HubRecv _ (Ok _) (Some e) => guestFrame ev ≫= (fun _ => Some (GuestFailed e))
  | HubRecv _ (Ok _) None => None
  end.

Lemma beacon_long f : isBeaconFrame f = true -> 25 <= len f.
Proof. unfold isBeaconFrame, IsBeacon. destruct (Z.ltb_spec (len f) 25); [done|lia]. Qed.

Lemma hubFrame_eq now f st g :
  hubFrame now f st = Done (see st (HubRecv now (Ok f) g), guestFrame (HubRecv now (Ok f) g)).
Proof.
  unfold hubFrame, see, guestFrame, beatOf. destruct (IsBeacon_no_panic f) as [b Hb].
  pose proof (beacon_long f) as Hl. unfold isBeaconFrame in *. rewrite Hb in *.
  destruct (Z.leb_spec 14 (len f)); go_simpl.
  - destruct b; go_simpl; [|by destruct g]. unfold cacheFrame.
    destruct (ParseBeacon_no_panic f) as [r ->]. go_simpl. by destruct r as [[]|].
  - destruct b; [specialize (Hl eq_refl); lia|done].
Qed.

Lemma see_guest st ev f : guestFrame ev = Some f -> see st ev = st.
Proof.
  destruct ev as [now [g|e] s|]; [|done..]. unfold guestFrame, see, beatOf.
  by destruct (isBeaconFrame g); [rewrite andb_false_r|].
Qed.

(** [runPeer] handles the events up to the first one that ends it. *)
Lemma runPeer_split evs : forall st,
  returns (runPeer evs st) (fun '(st', fs, reason) => exists pre post,
    evs = pre ++ post /\ fs = omap guestFrame pre /\ st' = foldl see st pre /\
    (forall a ev b, pre = a ++ ev :: b -> ends (foldl see st a) ev = None) /\
    match post with [] => reason = None | ev :: _ => reason = ends st' ev /\ reason <> None end).
Proof.
  induction evs as [|ev evs IH]; intros st.
  { apply returns_done. exists [], []. split_and!; try done. by intros []. }
  assert (Hstop : forall why, ends st ev = Some why ->
    exists pre post, ev :: evs = pre ++ post /\ [] = omap guestFrame pre /\ st = foldl see st pre /\
      (forall a ev0 b, pre = a ++ ev0 :: b -> ends (foldl see st a) ev0 = None) /\
      match post with [] => Some why = None | ev :: _ => Some why = ends st ev /\ Some why <> None end).
  { intros why Hw. exists [], (ev :: evs). split_and!; try done. by intros []. }
  assert (Hgo : ends st ev = None -> returns (runPeer evs (see st ev)) (fun '(st', fs, reason) =>
    exists pre post, ev :: evs = pre ++ post /\ option_list (guestFrame ev) ++ fs = omap guestFrame pre /\
      st' = foldl see st pre /\
      (forall a ev0 b, pre = a ++ ev0 :: b -> ends (foldl see st a) ev0 = None) /\
      match post with [] => reason = None | ev :: _ => reason = ends st' ev /\ reason <> None end)).
  { intros Hn. eapply returns_mono; [|apply IH].
    intros [[st' fs] reason] (pre & post & -> & -> & -> & Hpre & Hpost).
    exists (ev :: pre), post. split_and!; try done.
    - cbn. by destruct (guestFrame ev).
    - intros [|x a] ev0 b [= <- ->]; [done|]. cbn. by eapply Hpre. }
  destruct ev as [now [f|e] g|now]; cbn [runPeer].
  - rewrite (hubFrame_eq now f st g). go_simpl.
    set (ev := HubRecv now (Ok f) g) in *.
    destruct (guestFrame ev) as [f'|] eqn:Hgf, g as [e|].
    + apply returns_done. rewrite (see_guest st ev f' Hgf). apply (Hstop (GuestFailed e)). cbn -[guestFrame].
      by rewrite Hgf.
    + apply returns_bind. eapply returns_mono; [|by apply Hgo].
      intros [[st' fs] reason] H. by apply returns_done.
    + apply returns_bind. eapply returns_mono; [|apply Hgo; cbn -[guestFrame]; by rewrite Hgf].
      intros [[st' fs] reason] H. by apply returns_done.
    + apply returns_bind. eapply returns_mono; [|by apply Hgo].
      intros [[st' fs] reason] H. by apply returns_done.
  - apply returns_done. by apply Hstop.
  - destruct (hubSilent now st) eqn:Hs.
    + apply returns_done. apply Hstop. cbn. by rewrite Hs.
    + specialize (Hgo ltac:(cbn; by rewrite Hs)). cbn [option_list] in Hgo. exact Hgo.
Qed.

(** C24: heartbeats stay off the guest's wire. On any frames a hub sends, however
    malformed, [runPeer] does not panic. Up to the event that ends it, the guest
    gets exactly the frames with an Ethernet header that are not heartbeats, in
    order; every heartbeat updates the cached lease table instead, unless it does
    not parse; and it only returns with a reason. *)
Theorem runPeer_guest evs st :
  returns (runPeer evs st) (fun '(st', fs, reason) => exists pre post,
    evs = pre ++ post /\ fs = omap guestFrame pre /\
    Forall (fun f => 14 <= len f /\ IsBeacon f = Done false) fs /\
    leases st' = foldl cacheFrame (leases st) (omap beatOf pre).*2 /\
    (reason = None <-> post = [])).
Proof.
  eapply returns_mono; [|apply runPeer_split].
  intros [[st' fs] reason] (pre & post & -> & -> & -> & _ & Hpost).
  exists pre, post. split_and!; try done.
  - apply Forall_forall. intros f Hf. apply list_elem_of_omap in Hf as ([now [g|e] s|now] & _ & Hg);
      [|done..]. unfold guestFrame, isBeaconFrame in Hg. destruct (IsBeacon_no_panic g) as [b Hb].
    rewrite Hb in Hg. destruct (Z.leb_spec 14 (len g)), b; try done. by injection Hg as <-.
  - clear Hpost. revert st. induction pre as [|ev pre IH]; intros st; [done|]. cbn [foldl].
    rewrite IH. unfold see. cbn [omap list_omap]. by destruct (beatOf ev) as [[now f]|].
  - destruct post as [|ev post]; [done|]. destruct Hpost as [_ Hn]. by split.
Qed.

(** ** The heartbeat watch *)

(** When the last heartbeat among the events arrived. *)
Definition lastBeat (evs : list peerEvent) : option Z := last (omap beatOf evs).*1.

Lemma foldl_see evs st :
  sawBeacon (foldl see st evs) = (sawBeacon st || bool_decide (is_Some (lastBeat evs))) /\
  lastBeacon (foldl see st evs) = default (lastBeacon st) (lastBeat evs).
Proof.
  induction evs as [|ev evs IH] using rev_ind; [by rewrite orb_false_r|].
  rewrite foldl_app. cbn [foldl]. unfold lastBeat in *. rewrite omap_app, fmap_app. cbn [omap list_omap].
  unfold see. destruct (beatOf ev) as [[now f]|] eqn:Hb; cbn [fmap list_fmap].
  - rewrite last_snoc. cbn. by rewrite orb_true_r.
  - by rewrite app_nil_r.
Qed.

Lemma hubSilent_after evs st now :
  sawBeacon st = false ->
  hubSilent now (foldl see st evs) = true <->
  exists t, lastBeat evs = Some t /\ beaconDeadline < now - t.
Proof.
  intros H0. destruct (foldl_see evs st) as [Hs Hl]. unfold hubSilent. rewrite Hs, Hl, H0.
  destruct (lastBeat evs) as [t|]; cbn.
  - rewrite Z.ltb_lt. split; [by eauto|]. by intros (? & [= <-] & ?).
  - split; [done|]. by intros (? & ? & _).
Qed.

(** C15: the watch fires on wedged hubs and on no others. A peer gives up on a hub
    as silent only at a tick more than three seconds after the last heartbeat it
    got, and never when the hub has not sent any (an older binary). Conversely a
    tick at such a moment ends the peer: it returns, with this reason or an
    earlier one. *)
Theorem heartbeat_watch evs st :
  sawBeacon st = false ->
  returns (runPeer evs st) (fun '(_, _, reason) =>
    (reason = Some errHubSilent -> exists pre now post t,
       evs = pre ++ Tick now :: post /\ lastBeat pre = Some t /\ 3 * 10 ^ 9 < now - t) /\
    (forall pre now post t,
       evs = pre ++ Tick now :: post -> lastBeat pre = Some t -> 3 * 10 ^ 9 < now - t ->
       reason <> None)).
Proof.
  intros H0. eapply returns_mono; [|apply runPeer_split].
  intros [[st' fs] reason] (pre & post & -> & -> & -> & Hpre & Hpost). split.
  - intros ->. destruct post as [|ev post]; [done|]. destruct Hpost as [He _].
    destruct ev as [now [f|e] [s|]|now]; cbn -[guestFrame] in He; try done;
      [by destruct (guestFrame _)|].
    destruct (hubSilent now (foldl see st pre)) eqn:Hs; [|done].
    apply (hubSilent_after pre st now H0) in Hs as (t & Ht & Hd). by exists pre, now, post, t.
  - intros a now b t E Ht Hd ->. destruct post as [|ev post]; [|by destruct Hpost].
    rewrite app_nil_r in E. specialize (Hpre a (Tick now) b E). cbn in Hpre.
    rewrite (proj2 (hubSilent_after a st now H0)) in Hpre; [done|by exists t].
Qed.

(** ** Heartbeats end to end *)

Lemma beacon_group frame : IsBeacon frame = Done true -> isGroup frame = true.
Proof.
  unfold IsBeacon. destruct (Z.ltb_spec (len frame) 25); [done|].
  destruct frame as [|x f]; [done|]. change (idx (x :: f) 0) with (Done x). go_simpl.
  rewrite land_1_odd. cbn [isGroup]. by destruct (Z.odd x).
Qed.

(** What a peer does with a well-formed heartbeat. *)
Lemma hubFrame_beacon now frame ps seq ls m :
  IsBeacon frame = Done true -> ParseBeacon frame = Done (Ok (seq, ls)) -> Main.leaseMap ls = m ->
  hubFrame now frame ps = Done (mkPeer true now m, None).
Proof.
  intros Hi Hp <-. pose proof (beacon_long frame) as Hl. unfold isBeaconFrame in Hl.
  rewrite Hi in Hl. specialize (Hl eq_refl). unfold hubFrame.
  destruct (Z.leb_spec 14 (len frame)); [|lia]. rewrite Hi. go_simpl. by rewrite Hp.
Qed.

(** a heartbeat reaches every peer with the hub's leases. One turn of
    [sendBeacons] on a well-formed switch, for a pool of at most 32 leases walked
    in any order, does not panic and hands the same frame to every port of the
    switch but the uplink; a peer that reads this frame passes nothing to its
    guest, notes the beat, and caches exactly the pool's lease table; and the
    next heartbeat carries the next sequence number modulo 2^32. *)
Theorem heartbeat_delivers n1 n2 p snap st sw :
  wf sw -> pool_ok p -> Main.pool_bytes p -> (length (order p) <= MaxLeases)%nat ->
  0 <= st.1 < 2 ^ 32 -> snap ≡ₚ map_to_list (Main.Leases p) ->
  exists frame,
    returns (beaconTurn n1 n2 (Some snap) st sw) (fun '(sw', evs, st') =>
      wf sw' /\ st'.1 = (st.1 + 1) mod 2 ^ 32 /\
      forall port id, ports sw !! port = Some id ->
        received id sw (sw', evs) frame (negb (port =? Uplink))) /\
    forall now ps, hubFrame now frame ps = Done (mkPeer true now (assigned p), None).
Proof.
  intros Hwf Hok Hb Hlen Hseq Hsnap.
  destruct (Main.beacon_carries_pool p st.1 snap Hok Hb Hlen Hseq Hsnap) as (Hi & Hmax & ls & Hp & Hm).
  set (frame := EncodeBeacon Main.vdeMAC st.1 (Main.poolSnapshot snap)) in *.
  exists frame. pose proof (beacon_long frame) as Hl. unfold isBeaconFrame in Hl. rewrite Hi in Hl.
  specialize (Hl eq_refl). split.
  - unfold beaconTurn. fold frame. apply returns_bind.
    eapply returns_mono; [|apply Forward_outcome; [done|unfold linkFrameMax; lia]].
    intros [sw' evs] ((Hw & _) & _ & _ & _ & _ & Hrec). apply returns_done. split; [done|]. split; [done|].
    intros port id Hid. specialize (Hrec port id Hid).
    unfold bridgeTarget in Hrec. rewrite (beacon_group frame Hi) in Hrec. cbn in Hrec.
    by rewrite andb_true_r in Hrec.
  - intros now ps. by eapply hubFrame_beacon.
Qed.

(** Every heartbeat is one: while the pool's walks give well-formed leases, each turn of
    [sendBeacons] puts a frame on the switch that peers recognise and that fits a
    message, numbered on from the last modulo 2^32, and the switch stays well formed
    whatever the other goroutines do in between. *)
Theorem sendBeacons_numbers turns : forall st sw,
  wf sw -> Forall wf_lease st.2 -> 0 <= st.1 < 2 ^ 32 ->
  Forall (fun t => (forall x, wf x -> wf (b_env t x)) /\
                   forall s, b_snap t = Some s -> Forall wf_lease (Main.poolSnapshot s)) turns ->
  returns (sendBeacons turns st sw) (fun '(sw', fs) =>
    wf sw' /\ length fs = length turns /\
    forall k f, fs !! k = Some f -> IsBeacon f = Done true /\ len f <= 345 /\
      exists ls, ParseBeacon f = Done (Ok ((st.1 + Z.of_nat k) mod 2 ^ 32, ls))).
Proof.
  induction turns as [|t turns IH]; intros st sw Hwf Hl Hseq Ht; cbn [sendBeacons].
  { by apply returns_done. }
  apply Forall_cons in Ht as [[Henv Hsnap] Ht]. unfold beaconTurn.
  set (ls := match b_snap t with Some s => Main.poolSnapshot s | None => st.2 end).
  assert (Hls : Forall wf_lease ls) by (subst ls; destruct (b_snap t) as [s|]; [by apply Hsnap|done]).
  destruct (ParseBeacon_encoded Main.vdeMAC st.1 ls eq_refl Hseq Hls) as (Hi & Hlen & Hp).
  apply returns_bind, returns_bind. eapply returns_mono; [|apply Forward_fits; [by apply Henv|]].
  2:{ unfold Link.FrameMax. lia. }
  intros r Hr. apply returns_done, returns_bind. cbn [snd].
  eapply returns_mono; [|apply IH; [done|done|cbn; apply Z.mod_pos_bound; lia|done]].
  intros [sw' fs] (Hw' & Hn & Hall). apply returns_done. split_and!; [done|cbn; by rewrite Hn|].
  intros [|k] f Hf; cbn in Hf.
  - injection Hf as <-. split_and!; [done|done|]. eexists. rewrite Hp. cbn.
    by rewrite Z.add_0_r, Z.mod_small by lia.
  - destruct (Hall k f Hf) as (? & ? & ls' & E). split_and!; [done|done|]. exists ls'. rewrite E.
    cbn [fst]. unfold u32. rewrite Z.add_mod_idemp_l by lia. do 4 f_equal. lia.
Qed.

Definition calmBeacon (snap : option (list (string * string))) : beacon := mkBeacon id 0 0 snap.

(** ** Evaluations *)

Definition idle (r : result bytes) : turn := mkTurn id 0 0 r.

Lemma idle_ok r : (forall f, r = Ok f -> len f <= Link.FrameMax) -> turn_ok (idle r).
Proof. by split. Qed.

Definition demoTurns : list turn :=
  idle <$> [Ok (ethFrame bcast macA); Ok [1; 2; 3]; Ok (ethFrame macB macA); Err "EOF"%string].

Lemma demoTurns_ok : Forall turn_ok demoTurns.
Proof.
  unfold demoTurns. apply Forall_fmap.
  repeat (apply Forall_cons_2; [apply idle_ok; by intros f [= <-]|]). apply Forall_nil_2.
Qed.

(** The instance is a peer whose hub dies at the third frame. *)
Definition demoWire : list (turn * hubSend) := zip demoTurns [HubOk; HubOk; HubErr "EPIPE"; NoPeer].

Theorem wire_routes_witness :
  returns (wire demoWire demo) (fun '(_, _, rt, err) =>
    rt = [ToHub (ethFrame bcast macA); ToSwitch (ethFrame macB macA)] /\ err = Some "EOF"%string).
Proof.
  eapply returns_mono; [|apply (wire_routes demoWire demo demo_wf)].
  - intros [[[sw' evs] rt] err] (_ & -> & ->). by vm_compute.
  - apply Forall_forall. intros [t s] Hin. apply elem_of_zip_l in Hin.
    exact (proj1 (Forall_forall _ _) demoTurns_ok t Hin).
Defined.

Theorem peerReader_pumps_witness :
  returns (peerReader 0 demoTurns demo) (fun '(sw', _, fs, reason) =>
    fs = [ethFrame bcast macA; ethFrame macB macA] /\ reason = Some "EOF"%string /\ portGone 0 sw').
Proof.
  eapply returns_mono; [|apply (peerReader_pumps 0 demoTurns demo demo_wf demoTurns_ok)].
  intros [[[sw' evs] fs] reason] (_ & -> & Hr & Hg). split; [by vm_compute|].
  split; [rewrite Hr; by vm_compute|]. apply Hg. rewrite Hr. by vm_compute.
Defined.

Definition emptyHub : Switch := AddPort Local 101 (AddPort Uplink 100 New).

Lemma emptyHub_wf : wf emptyHub.
Proof. by repeat apply wf_AddPort; try apply wf_New. Qed.

Theorem acceptPeers_seats_witness :
  let '(_, readers, closed) := acceptPeers (seq 200 34) emptyHub in
  readers = zip (seqZ 0 32) (seq 200 32) /\ closed = [232%nat; 233%nat].
Proof.
  pose proof (acceptPeers_seats (seq 200 34) emptyHub emptyHub_wf eq_refl) as H.
  destruct (acceptPeers (seq 200 34) emptyHub) as [[sw' readers] closed].
  destruct H as (_ & _ & -> & ->). by vm_compute.
Defined.

Definition demoBeat : bytes := EncodeBeacon Main.vdeMAC 0 [].

Definition freshPeer : peerState := mkPeer false 0 ∅.

Theorem heartbeat_watch_witness :
  returns (runPeer [Tick (10 ^ 9); HubRecv (15 * 10 ^ 8) (Ok demoBeat) None; Tick (4 * 10 ^ 9);
                    Tick (5 * 10 ^ 9)] freshPeer)
    (fun '(_, _, reason) => reason <> None) /\
  (runPeer [Tick (10 ^ 9); Tick (20 * 10 ^ 9)] freshPeer) = Done (freshPeer, [], None).
Proof.
  split; [|by vm_compute].
  generalize (heartbeat_watch [Tick (10 ^ 9); HubRecv (15 * 10 ^ 8) (Ok demoBeat) None;
    Tick (4 * 10 ^ 9); Tick (5 * 10 ^ 9)] freshPeer eq_refl).
  apply returns_mono. intros [[st fs] reason] [_ H].
  apply (H [Tick (10 ^ 9); HubRecv (15 * 10 ^ 8) (Ok demoBeat) None; Tick (4 * 10 ^ 9)]
           (5 * 10 ^ 9) [] (15 * 10 ^ 8)); by vm_compute.
Defined.

Theorem heartbeat_delivers_witness :
  exists frame, forall now ps,
    hubFrame now frame ps = Done (mkPeer true now (assigned (Main.poolOf 3)), None).
Proof.
  destruct (heartbeat_delivers 0 0 (Main.poolOf 3) (map_to_list (Main.Leases (Main.poolOf 3)))
    (7, []) demo) as (frame & _ & H).
  - exact demo_wf.
  - exact (Main.poolOf_ok 3).
  - unfold Main.pool_bytes, wf_bytes. vm_compute. repeat constructor; done.
  - vm_compute. repeat constructor.
  - done.
  - done.
  - by exists frame.
Defined.

Theorem sendBeacons_numbers_witness :
  returns (sendBeacons [calmBeacon None; calmBeacon None] (2 ^ 32 - 1, []) demo) (fun '(_, fs) =>
    exists f ls, fs !! 1%nat = Some f /\ ParseBeacon f = Done (Ok (0, ls))).
Proof.
  eapply returns_mono; [|apply (sendBeacons_numbers [calmBeacon None; calmBeacon None] (2 ^ 32 - 1, []) demo demo_wf)].
  - intros [sw fs] (_ & Hn & Hall). destruct fs as [|f0 [|f1 fs]]; try done.
    destruct (Hall 1%nat f1 eq_refl) as (_ & _ & ls & E). by exists f1, ls.
  - by apply Forall_nil_2.
  - done.
  - repeat (apply Forall_cons_2; [by split|]). by apply Forall_nil_2.
Defined.
