(* ===== verification/Rejoin.v ===== *)
(** * Rejoin: a peer's connections over time

    Between two hubs, [fleet.loop] of main.go closes one connection and opens the next
    ([runPeer], [setPeer], [currentPeer], [unixseq.Conn]). A [Conn] is a descriptor
    number and its reader is a goroutine blocked in recvmsg(2) on it. Here a peer
    process is a descriptor table, the readers that were started and the current
    connection; what a reader does with a frame is [Wire.hubFrame].

    Two facts of the system calls matter: socket(2) takes the lowest free number, and
    close(2) does not wake a thread that is blocked reading: the read completes on the
    socket it was started on, and the next one uses the number again. *)
From S2P Require Import Prelude.
From S2P Require Import Elect.
From S2P Require Import Wire.
From S2P Require Main.

(** ** State *)

(** A reader goroutine of [runPeer]: the number it reads, the socket of the read it is
    blocked in ([None] once it has returned), and the variables of its [runPeer]. *)
Record reader := mkReader { r_fd : nat; r_on : option nat; r_vars : peerState }.

Record node := mkNode {
  table : gmap nat nat;      (* descriptor number to socket *)
  sockets : nat;             (* sockets made so far *)
  readers : list reader;     (* in the order they were started *)
  peerConn : option nat;     (* the current connection's descriptor *)
  guestRx : list bytes;      (* frames sent to the guest *)
  silences : nat;            (* history: how often the watch ended [runPeer] *)
}.

Definition node0 (fds : gmap nat nat) : node := mkNode fds 0 [] None [] 0.

(** ** Operations *)

Definition setPeer (p : option nat) (n : node) : node :=
  mkNode (table n) (sockets n) (readers n) p (guestRx n) (silences n).
Definition currentPeer (n : node) : option nat := peerConn n.

(** socket(2): the lowest number that is not open. *)
Fixpoint lowestFd (fuel fd : nat) (t : gmap nat nat) : nat :=
  match fuel with
  | O => fd
  | S fuel => match t !! fd with None => fd | Some _ => lowestFd fuel (S fd) t end
  end.
Definition newFd (n : node) : nat := lowestFd (S (size (table n))) 0 (table n).

(** [TryConnect] and the start of [runPeer]; the last reader is the current one's. *)
Definition join (n : node) : node :=
  let fd := newFd n in
  let s := sockets n in
  setPeer (Some fd)
    (mkNode (<[fd := s]> (table n)) (S s) (readers n ++ [mkReader fd (Some s) freshPeer])
       (peerConn n) (guestRx n) (silences n)).

(** The end of [runPeer]: the deferred [setPeer(nil)] and [hub.Close()]. *)
Definition leave (n : node) : node :=
  let t := match currentPeer n with Some fd => delete fd (table n) | None => table n end in
  setPeer None (mkNode t (sockets n) (readers n) (peerConn n) (guestRx n) (silences n)).

Definition putReader (g : nat) (r : reader) (n : node) : node :=
  mkNode (table n) (sockets n) (<[g := r]> (readers n)) (peerConn n) (guestRx n) (silences n).

(** Whether reader [g] belongs to the [runPeer] that runs now. *)
Definition isCurrent (g : nat) (n : node) : bool :=
  bool_decide (is_Some (peerConn n)) && (S g =? length (readers n))%nat.

(** The read of [g] returns [r] at time [now]. A frame is handled and the loop reads
    its descriptor again; an error ends the goroutine, and its [runPeer] if that still
    waits. *)
Definition readReturns (g : nat) (now : Z) (r : result bytes) (n : node) : go node :=
  match readers n !! g with
  | Some rd =>
      match r_on rd with
      | None => Done n
      | Some _ =>
          match r with
          | Err _ =>
              let n' := putReader g (mkReader (r_fd rd) None (r_vars rd)) n in
              Done (if isCurrent g n then leave n' else n')
          | Ok frame =>
              '(st, out) ← hubFrame now frame (r_vars rd);
              let on := table n !! r_fd rd in
              let n := putReader g (mkReader (r_fd rd) on st) n in
              Done (mkNode (table n) (sockets n) (readers n) (peerConn n)
                      (guestRx n ++ option_list out) (silences n))
          end
      end
  | None => Done n
  end.

(** A tick of the current watch. *)
Definition tick (now : Z) (n : node) : node :=
  match peerConn n, last (readers n) with
  | Some _, Some rd =>
      if hubSilent now (r_vars rd)
      then let n := leave n in
           mkNode (table n) (sockets n) (readers n) (peerConn n) (guestRx n) (S (silences n))
      else n
  | _, _ => n
  end.

Inductive event := Join | ReadReturns (g : nat) (now : Z) (r : result bytes) | Tick (now : Z).

Definition nstep (e : event) (n : node) : go node :=
  match e with
  | Join => Done (match peerConn n with None => join n | Some _ => n end)
  | ReadReturns g now r => readReturns g now r n
  | Tick now => Done (tick now n)
  end.

Fixpoint nrun (evs : list event) (n : node) : go node :=
  match evs with [] => Done n | e :: evs => n ← nstep e n; nrun evs n end.

(** ** One reader, while every [runPeer] ends with its reader *)

Record inv (n : node) : Prop := {
  in_cur : forall fd, peerConn n = Some fd ->
    is_Some (table n !! fd) /\ exists rd, last (readers n) = Some rd /\ r_fd rd = fd;
  in_one : silences n = 0%nat -> forall g rd, readers n !! g = Some rd -> is_Some (r_on rd) ->
    peerConn n = Some (r_fd rd) /\ S g = length (readers n) /\ r_on rd = table n !! r_fd rd;
}.

Lemma inv_node0 fds : inv (node0 fds).
Proof. by split. Qed.

(** No reader runs between two connections. *)
Lemma no_reader n g rd :
  inv n -> silences n = 0%nat -> peerConn n = None -> readers n !! g = Some rd -> r_on rd = None.
Proof.
  intros Hi Hs Hp Hg. destruct (r_on rd) as [s|] eqn:Hr; [|done].
  destruct (in_one n Hi Hs g rd Hg) as (Hq & _); [by rewrite Hr|congruence].
Qed.

Lemma inv_join n : inv n -> peerConn n = None -> inv (join n).
Proof.
  intros Hi Hp. split; cbn.
  - intros fd [= <-]. rewrite lookup_insert_eq. split; [by eexists|].
    rewrite last_snoc. by eexists.
  - intros Hs g rd Hg Hr. apply lookup_app_Some in Hg as [Hg|[Hl Hg]].
    + rewrite (no_reader n g rd Hi Hs Hp Hg) in Hr. by destruct Hr.
    + destruct (g - length (readers n))%nat as [|k] eqn:E; [|done]. injection Hg as <-. cbn.
      rewrite lookup_insert_eq, length_app. cbn. split_and!; [done|lia|done].
Qed.

Lemma inv_tick now n : inv n -> inv (tick now n).
Proof.
  intros Hi. unfold tick. destruct (peerConn n) as [fd|]; [|done].
  destruct (last (readers n)) as [rd|]; [|done]. by destruct (hubSilent now (r_vars rd)).
Qed.

(** The last reader after another or the same one was updated. *)
Lemma last_insert (l : list reader) g rd rd' r :
  last l = Some r -> l !! g = Some rd -> r_fd rd' = r_fd rd ->
  exists r', last (<[g := rd']> l) = Some r' /\ r_fd r' = r_fd r.
Proof.
  rewrite !last_lookup, length_insert. intros Hl Hg Hf.
  destruct (decide (g = Nat.pred (length l))) as [->|Hne].
  - rewrite list_lookup_insert_eq by (by eapply lookup_lt_Some). exists rd'. split; [done|congruence].
  - rewrite list_lookup_insert_ne by done. by exists r.
Qed.

Lemma inv_read g rd on st n out :
  inv n -> readers n !! g = Some rd -> is_Some (r_on rd) -> on = table n !! r_fd rd ->
  inv (mkNode (table n) (sockets n) (<[g := mkReader (r_fd rd) on st]> (readers n)) (peerConn n)
         out (silences n)).
Proof.
  intros Hi Hg Hr ->. split; cbn.
  - intros fd Hfd. destruct (in_cur n Hi fd Hfd) as [Ht (r & Hl & <-)]. split; [done|].
    by eapply last_insert.
  - intros Hs h rd' Hh Hr'. rewrite length_insert. destruct (in_one n Hi Hs g rd Hg Hr) as (Hp & Hn & _).
    apply list_lookup_insert_Some in Hh as [(<- & <- & _)|[_ Hh]]; [done|].
    by apply (in_one n Hi Hs h rd' Hh Hr').
Qed.

Lemma inv_error g rd n :
  inv n -> readers n !! g = Some rd -> is_Some (r_on rd) ->
  let n' := putReader g (mkReader (r_fd rd) None (r_vars rd)) n in
  inv (if isCurrent g n then leave n' else n').
Proof.
  intros Hi Hg Hr n'.
  assert (Hone : silences n = 0%nat -> forall h rd', readers n' !! h = Some rd' -> r_on rd' = None).
  { intros Hs h rd' Hh. destruct (r_on rd') as [s|] eqn:Er; [|done]. exfalso.
    destruct (in_one n Hi Hs g rd Hg Hr) as (_ & Hn & _).
    apply list_lookup_insert_Some in Hh as [(<- & <- & _)|[Hne Hh]]; [done|].
    destruct (in_one n Hi Hs h rd' Hh) as (_ & Hn' & _); [by rewrite Er|lia]. }
  assert (Hno : forall m, readers m = readers n' -> silences m = silences n ->
    silences m = 0%nat -> forall h rd', readers m !! h = Some rd' -> is_Some (r_on rd') ->
    peerConn m = Some (r_fd rd') /\ S h = length (readers m) /\ r_on rd' = table m !! r_fd rd').
  { intros m Er Es Hs h rd' Hh [x Hx]. rewrite Er in Hh. rewrite (Hone ltac:(congruence) h rd' Hh) in Hx. done. }
  destruct (isCurrent g n); split; try (by apply Hno); cbn; [done|].
  intros fd Hfd. destruct (in_cur n Hi fd Hfd) as [Ht (r & Hl & <-)]. split; [done|].
  by eapply last_insert.
Qed.

Lemma nstep_inv e n : inv n -> returns (nstep e n) inv.
Proof.
  intros Hi. destruct e as [|g now r|now]; cbn [nstep].
  - apply returns_done. destruct (peerConn n) eqn:Hp; [done|by apply inv_join].
  - unfold readReturns. destruct (readers n !! g) as [rd|] eqn:Hg; [|by apply returns_done].
    destruct (r_on rd) as [s|] eqn:Hr; [|by apply returns_done].
    assert (Hrun : is_Some (r_on rd)) by by rewrite Hr.
    destruct r as [frame|e].
    + rewrite (hubFrame_eq now frame (r_vars rd) None). go_simpl. apply returns_done.
      by apply (inv_read g rd _ _ n).
    + apply returns_done. by apply (inv_error g rd).
  - by apply returns_done, inv_tick.
Qed.

Lemma nrun_inv evs : forall n, inv n -> returns (nrun evs n) inv.
Proof.
  induction evs as [|e evs IH]; intros n Hi; cbn [nrun]; [by apply returns_done|].
  apply returns_bind. eapply returns_mono; [|by apply nstep_inv]. intros n' Hn'. by apply IH.
Qed.

(** C17: one reader per connection. A peer that rejoins hubs any number of times never
    panics; and as long as every one of its connections ended because its read
    failed - a hub that died, however - at most one reader runs, and it reads the
    current connection's descriptor, on the socket this descriptor names. *)
Theorem one_reader evs fds :
  returns (nrun evs (node0 fds)) (fun n => silences n = 0%nat ->
    forall g rd, readers n !! g = Some rd -> is_Some (r_on rd) ->
      currentPeer n = Some (r_fd rd) /\ r_on rd = table n !! r_fd rd /\
      forall h rd', readers n !! h = Some rd' -> is_Some (r_on rd') -> h = g).
Proof.
  eapply returns_mono; [|apply nrun_inv, inv_node0]. intros n Hi Hs g rd Hg Hr.
  destruct (in_one n Hi Hs g rd Hg Hr) as (Hp & Hl & Ho). split_and!; [done|done|].
  intros h rd' Hh Hr'. destruct (in_one n Hi Hs h rd' Hh Hr') as (_ & Hl' & _). lia.
Qed.

(** ** A wedged hub that resumes *)

Definition sec : Z := 10 ^ 9.
Definition beat (g : nat) (t : Z) : event := ReadReturns g (t * sec) (Ok demoBeat).

(** A hub that dies, and the next one. *)
Definition died : list event :=
  [Join; beat 0 1; ReadReturns 0 (2 * sec) (Err "EOF"%string); Join; beat 1 3].

Definition facts (n : node) := (r_on <$> readers n, r_fd <$> readers n, currentPeer n, silences n).

Lemma nrun_facts evs :
  exists n, nrun evs (node0 ∅) = Done n /\
    match nrun evs (node0 ∅) with Done n => facts n | Panic => facts (node0 ∅) end = facts n.
Proof. destruct (nrun_inv evs (node0 ∅) (inv_node0 ∅)) as (n & E & _). exists n. by rewrite E. Qed.

Lemma nrun_app evs1 evs2 n : nrun (evs1 ++ evs2) n = (n ← nrun evs1 n; nrun evs2 n).
Proof.
  revert n. induction evs1 as [|e evs1 IH]; intros n; [done|]. cbn [nrun app].
  destruct (nstep e n) as [n'|]; [|done]. cbn [mbind go_bind]. apply IH.
Qed.

(** ** Descriptor numbers *)

Lemma lowestFd_spec fuel t : forall fd,
  (forall k, (k < fd)%nat -> is_Some (t !! k)) ->
  let r := lowestFd fuel fd t in
  (forall k, (k < r)%nat -> is_Some (t !! k)) /\ (t !! r = None \/ r = (fd + fuel)%nat).
Proof.
  induction fuel as [|fuel IH]; intros fd H; cbn [lowestFd]; [split; [done|right; lia]|].
  destruct (t !! fd) as [s|] eqn:E; [|by auto].
  destruct (IH (S fd)) as [H1 H2].
  { intros k Hk. destruct (decide (k = fd)) as [->|]; [by eexists|apply H; lia]. }
  split; [done|]. destruct H2; [by left|right; lia].
Qed.

(** socket(2) finds a free number, and every lower one is open. *)
Lemma newFd_spec n :
  table n !! newFd n = None /\ forall k, (k < newFd n)%nat -> is_Some (table n !! k).
Proof.
  destruct (lowestFd_spec (S (size (table n))) (table n) 0) as [H1 H2]; [lia|]. fold (newFd n) in H1, H2.
  split; [|done]. destruct H2 as [|H2]; [done|]. exfalso.
  assert (Hsub : (list_to_set (seq 0 (newFd n)) : gset nat) ⊆ dom (table n)).
  { intros k Hk. apply elem_of_list_to_set, elem_of_seq in Hk. apply elem_of_dom, H1. lia. }
  apply subseteq_size in Hsub. rewrite size_list_to_set, length_seq, size_dom in Hsub by apply NoDup_seq. lia.
Qed.

Lemma newFd_unique n fd :
  table n !! fd = None -> (forall k, (k < fd)%nat -> is_Some (table n !! k)) -> newFd n = fd.
Proof.
  intros Hf Hl. destruct (newFd_spec n) as [H1 H2].
  destruct (Nat.lt_trichotomy (newFd n) fd) as [Hlt|[|Hlt]]; [|done|].
  - destruct (Hl _ Hlt) as [x Hx]. congruence.
  - destruct (H2 _ Hlt) as [x Hx]. congruence.
Qed.

(** The connection has the lowest number it could have. *)
Definition lowest (n : node) : Prop :=
  forall fd, peerConn n = Some fd -> forall k, (k < fd)%nat -> is_Some (table n !! k).

Lemma nstep_lowest e n : lowest n -> returns (nstep e n) lowest.
Proof.
  intros Hl. destruct e as [|g now r|now]; cbn [nstep].
  - apply returns_done. destruct (peerConn n) eqn:Hp; [done|]. intros fd [= <-] k Hk. cbn [join setPeer table].
    destruct (newFd_spec n) as [_ H]. rewrite lookup_insert_ne by lia. by apply H.
  - unfold readReturns. destruct (readers n !! g) as [rd|]; [|by apply returns_done].
    destruct (r_on rd) as [s|]; [|by apply returns_done]. destruct r as [frame|e].
    + rewrite (hubFrame_eq now frame (r_vars rd) None). go_simpl. by apply returns_done.
    + apply returns_done. by destruct (isCurrent g n).
  - apply returns_done. unfold tick. destruct (peerConn n) as [fd|]; [|done].
    destruct (last (readers n)) as [rd|]; [|done]. by destruct (hubSilent now (r_vars rd)).
Qed.

Lemma nrun_lowest evs : forall n, lowest n -> returns (nrun evs n) lowest.
Proof.
  induction evs as [|e evs IH]; intros n Hn; cbn [nrun]; [by apply returns_done|].
  apply returns_bind. eapply returns_mono; [|by apply nstep_lowest]. intros n' Hn'. by apply IH.
Qed.

(** A hub given up on and joined again: the next connection has the number of the last, and
    the old reader is where it was. *)
Lemma rejoin_same_number n fd rd now :
  inv n -> lowest n -> currentPeer n = Some fd -> last (readers n) = Some rd ->
  hubSilent now (r_vars rd) = true ->
  nrun [Tick now; Join] n = Done (mkNode (<[fd := sockets n]> (delete fd (table n))) (S (sockets n))
    (readers n ++ [mkReader fd (Some (sockets n)) freshPeer]) (Some fd) (guestRx n) (S (silences n))).
Proof.
  intros Hi Hl Hp Hrd Hsil. unfold currentPeer in Hp. cbn [nrun nstep mbind go_bind]. unfold tick.
  rewrite Hp, Hrd, Hsil. cbn [leave setPeer peerConn mbind go_bind]. unfold join, setPeer. cbn [table sockets readers guestRx silences].
  unfold leave, currentPeer. rewrite Hp. cbn [setPeer table sockets readers guestRx silences].
  rewrite (newFd_unique _ fd); [done| |]; cbn [table].
  - apply lookup_delete_eq.
  - intros k Hk. rewrite lookup_delete_ne by lia. by apply (Hl fd).
Qed.

(** The old reader takes a frame off the current connection. *)
Definition stolenBy (g : nat) (frames : list (Z * bytes)) : list event :=
  (fun x => ReadReturns g x.1 (Ok x.2)) <$> frames.

(** A frame one reader takes changes no other reader, and leaves it reading its number. *)
Lemma read_frame g rd s now frame n :
  readers n !! g = Some rd -> r_on rd = Some s ->
  exists st rx, nstep (ReadReturns g now (Ok frame)) n =
    Done (mkNode (table n) (sockets n) (<[g := mkReader (r_fd rd) (table n !! r_fd rd) st]> (readers n))
            (peerConn n) rx (silences n)) /\
    (14 <= len frame -> IsBeacon frame = Done true -> sawBeacon st = true /\ lastBeacon st = now).
Proof.
  intros Hg Hr. cbn [nstep]. unfold readReturns. rewrite Hg, Hr.
  destruct (hubFrame now frame (r_vars rd)) as [[st out]|] eqn:E;
    [|by rewrite (hubFrame_eq now frame (r_vars rd) None) in E].
  go_simpl. exists st, (guestRx n ++ option_list out). split; [done|]. intros Hl Hb. unfold hubFrame in E.
  destruct (Z.leb_spec 14 (len frame)); [|lia]. rewrite Hb in E. go_simpl.
  destruct (ParseBeacon frame) as [r|]; [|done]. cbn [mbind go_bind] in E. by injection E as <- _.
Qed.

Lemma stolen_frames g h rd' frames : forall n rd s,
  g <> h -> readers n !! g = Some rd -> r_on rd = Some s -> table n !! r_fd rd = Some s ->
  readers n !! h = Some rd' ->
  exists n', nrun (stolenBy g frames) n = Done n' /\ readers n' !! h = Some rd' /\
    length (readers n') = length (readers n) /\ peerConn n' = peerConn n /\ silences n' = silences n.
Proof.
  induction frames as [|[t f] frames IH]; intros n rd s Hne Hg Hr Ht Hh; cbn [stolenBy fmap list_fmap nrun]; [by exists n|].
  destruct (read_frame g rd s t f n Hg Hr) as (st & rx & E & _). cbn [fst snd]. rewrite E. go_simpl.
  match goal with |- context [nrun _ ?m] => destruct (IH m (mkReader (r_fd rd) (table n !! r_fd rd) st) s) as (n' & Hrun & Hh' & Hl & Hp & Hs) end;
    cbn [readers table r_on r_fd peerConn silences] in *; try done.
  - apply list_lookup_insert_eq. by eapply lookup_lt_Some.
  - by rewrite list_lookup_insert_ne.
  - exists n'. rewrite length_insert in Hl. by split_and!.
Qed.

(** C18: a stale reader steals heartbeats. Take any state a peer can reach in which the
    watch gives up the current hub as silent while its connection's reader is blocked in
    its read. After the peer has joined again the new connection has the old one's
    descriptor number and the old reader is still blocked in the old socket. Once that
    read completes (the hub resumes), the old reader reads the new connection's socket
    besides its own reader. From then on, whatever frames the old reader takes there,
    heartbeats or not, the new watch does not see them: after the last heartbeat that its
    own reader got it fires as soon as three seconds are over, and gives up a hub that has
    been beating all along. *)
Theorem stale_reader_steals_heartbeats evs fds n fd rd s now t1 f1 t0 b stolen now' :
  nrun evs (node0 fds) = Done n ->
  currentPeer n = Some fd -> last (readers n) = Some rd -> r_on rd = Some s -> hubSilent now (r_vars rd) = true ->
  14 <= len b -> IsBeacon b = Done true -> t0 + beaconDeadline < now' ->
  let g := Nat.pred (length (readers n)) in
  exists n1 n2 n3,
    (nrun [Tick now; Join] n = Done n1 /\ currentPeer n1 = Some fd /\
     readers n1 !! g = Some rd /\ r_on <$> readers n1 !! S g = Some (Some (sockets n))) /\
    (nrun [ReadReturns g t1 (Ok f1)] n1 = Done n2 /\ currentPeer n2 = Some fd /\
     r_on <$> readers n2 !! g = Some (Some (sockets n)) /\ r_on <$> readers n2 !! S g = Some (Some (sockets n))) /\
    nrun (ReadReturns (S g) t0 (Ok b) :: stolenBy g stolen ++ [Tick now']) n2 = Done n3 /\
    currentPeer n3 = None /\ silences n3 = S (S (silences n)).
Proof.
  intros Hrun Hp Hrd Hr Hsil Hlb Hb Hlate g.
  destruct (nrun_inv evs (node0 fds) (inv_node0 fds)) as (? & E & Hi). assert (x = n) as -> by congruence. clear E.
  destruct (nrun_lowest evs (node0 fds)) as (? & E & Hl); [done|]. assert (x = n) as -> by congruence. clear E.
  destruct (in_cur n Hi fd Hp) as [_ (rd0 & Hrd0 & Hfd)]. assert (rd0 = rd) as -> by congruence.
  pose proof Hrd as Hg. rewrite last_lookup in Hg. fold g in Hg.
  assert (Hlen : length (readers n) = S g) by (apply lookup_lt_Some in Hg; lia).
  pose proof (rejoin_same_number n fd rd now Hi Hl Hp Hrd Hsil) as E1.
  set (new := mkReader fd (Some (sockets n)) freshPeer) in *.
  match type of E1 with _ = Done ?m => set (n1 := m) in * end.
  assert (G1 : readers n1 !! g = Some rd) by (cbn; rewrite lookup_app_l; [done|lia]).
  assert (N1 : readers n1 !! S g = Some new) by (cbn; rewrite lookup_app_r, Hlen, Nat.sub_diag by lia; done).
  assert (T1 : table n1 !! fd = Some (sockets n)) by apply lookup_insert_eq.
  destruct (read_frame g rd s t1 f1 n1 G1 Hr) as (st1 & rx1 & E2 & _). rewrite Hfd, T1 in E2.
  match type of E2 with _ = Done ?m => set (n2 := m) in * end.
  assert (G2 : readers n2 !! g = Some (mkReader fd (Some (sockets n)) st1))
    by (apply list_lookup_insert_eq; by eapply lookup_lt_Some).
  assert (N2 : readers n2 !! S g = Some new) by (unfold n2; cbn [readers]; rewrite list_lookup_insert_ne by lia; done).
  destruct (read_frame (S g) new (sockets n) t0 b n2 N2 eq_refl) as (st & rx & E3 & Hst). specialize (Hst Hlb Hb) as [Hsaw Hlast].
  match type of E3 with _ = Done ?m => set (n3 := m) in * end.
  assert (G3 : readers n3 !! g = Some (mkReader fd (Some (sockets n)) st1))
    by (unfold n3; cbn [readers]; rewrite list_lookup_insert_ne by lia; done).
  assert (N3 : exists on, readers n3 !! S g = Some (mkReader fd on st))
    by (eexists; apply list_lookup_insert_eq; by eapply lookup_lt_Some).
  destruct N3 as [on N3].
  destruct (stolen_frames g (S g) _ stolen n3 _ (sockets n) ltac:(lia) G3 eq_refl T1 N3)
    as (n4 & E4 & N4 & L4 & P4 & S4).
  assert (L3 : length (readers n3) = S (S g)).
  { unfold n3, n2, n1. cbn [readers]. rewrite !length_insert, length_app, Hlen. cbn. lia. }
  assert (E5 : tick now' n4 = (let m := leave n4 in
    mkNode (table m) (sockets m) (readers m) (peerConn m) (guestRx m) (S (silences m)))).
  { unfold tick. rewrite P4. cbn [peerConn n3 n2 n1]. rewrite last_lookup, L4, L3. cbn [Nat.pred]. rewrite N4.
    cbn [r_vars]. unfold hubSilent. rewrite Hsaw, Hlast. cbn [andb]. destruct (Z.ltb_spec beaconDeadline (now' - t0)); [done|lia]. }
  exists n1, n2, (tick now' n4). split_and!; try done.
  - by rewrite N1.
  - cbn [nrun]. by rewrite E2.
  - by rewrite G2.
  - by rewrite N2.
  - cbn [nrun]. rewrite E3. cbn [mbind go_bind]. rewrite nrun_app, E4. done.
  - by rewrite E5.
  - rewrite E5. cbn. by rewrite S4.
Qed.

Theorem one_reader_witness :
  exists n, nrun died (node0 ∅) = Done n /\
    silences n = 0%nat /\ r_on <$> readers n = [None; Some 1%nat] /\ currentPeer n = Some 0%nat.
Proof.
  destruct (one_reader died ∅) as (n & E & H). destruct (nrun_facts died) as (n' & E' & F).
  assert (n' = n) as -> by congruence.
  assert (G : facts n = ([None; Some 1%nat], [0%nat; 0%nat], Some 0%nat, 0%nat)).
  { rewrite <- F. vm_compute. reflexivity. }
  injection G as Hr Hf _ Hs. exists n. split; [exact E|]. split; [exact Hs|]. split; [exact Hr|]. clear E E' F.
  destruct (readers n) as [|r0 [|r1 [|]]] eqn:Er; try done. injection Hr as Hr0 Hr1. injection Hf as Hf0 Hf1.
  destruct (H Hs 1%nat r1) as (Hp & _); [done|by rewrite Hr1|]. by rewrite Hp, Hf1.
Defined.

(** A hub beats once, is stopped for four seconds, is given up on and joined again; it
    resumes, its first frame completes the old read, and it beats every second from then
    on: the first beat reaches the new reader, the others the old one. *)
Theorem stale_reader_steals_heartbeats_witness :
  exists n n1 n2 n3,
    nrun [Join; beat 0 1] (node0 ∅) = Done n /\ nrun [Tick (5 * sec); Join] n = Done n1 /\
    nrun [beat 0 6] n1 = Done n2 /\
    nrun [beat 1 7; beat 0 8; beat 0 9; beat 0 10; beat 0 11; Tick (11 * sec)] n2 = Done n3 /\
    currentPeer n3 = None /\ silences n3 = 2%nat.
Proof.
  destruct (nrun_facts [Join; beat 0 1]) as (n & E & F).
  assert (G : facts n = ([Some 0%nat], [0%nat], Some 0%nat, 0%nat)) by (rewrite <- F; vm_compute; reflexivity).
  assert (V : match nrun [Join; beat 0 1] (node0 ∅) with
    | Done n => match last (readers n) with Some rd => hubSilent (5 * sec) (r_vars rd) | None => false end
    | Panic => false end = true) by (vm_compute; reflexivity).
  rewrite E in V. injection G as Hr Hf Hp Hs. clear F.
  destruct (readers n) as [|rd [|]] eqn:Er; try done. cbn in Hr, V. injection Hr as Hr.
  destruct (stale_reader_steals_heartbeats [Join; beat 0 1] ∅ n 0 rd 0 (5 * sec) (6 * sec) demoBeat
    (7 * sec) demoBeat [(8 * sec, demoBeat); (9 * sec, demoBeat); (10 * sec, demoBeat); (11 * sec, demoBeat)] (11 * sec))
    as (n1 & n2 & n3 & (E1 & _) & (E2 & _) & E3 & H1 & H2).
  - exact E.
  - exact Hp.
  - by rewrite Er.
  - exact Hr.
  - exact V.
  - vm_compute. discriminate.
  - vm_compute. reflexivity.
  - vm_compute. reflexivity.
  - rewrite Er in E2, E3. rewrite Hs in H2. exists n, n1, n2, n3. split_and!; [exact E|exact E1|exact E2|exact E3|exact H1|exact H2].
Defined.
