(* ===== verification/Instance.v ===== *)
(** * Instance: the set-up of an instance (runInstance in vdeplug-go/main.go)

    The choice of the uplink from the configuration, the lease pool a hub starts
    with - seeded, after a promotion, with the table the dead hub gossiped - and
    its DHCP service, and the guest port forwarding falls back to. The theorems
    follow a lease through a whole failover and keep it inside the network. *)
From S2P Require Import Prelude.
From S2P Require Import GoStd.
From S2P Require Import NetLib.
From S2P Require Import Elect.
From S2P Require Import Dhcp.
From S2P Require DhcpServer.
From S2P Require Import Config.
From S2P Require Main.
From S2P Require Wire.

(** ** The uplink *)

Inductive uplinkKind :=
| Isolated                 (* none *)
| Tap (name : string)
| Slirp
| Wireguard.               (* slirp with a tunnel on top *)

Definition tapName (uplink : string) : string :=
  match CutPrefix uplink "tap:" with
  | Some rest => if String.eqb rest "" then "tap0" else rest
  | None => "tap0"
  end.

(** The [switch] of [runInstance]; [Err] is its [fatalf]. *)
Definition chooseUplink (c : Config) : result uplinkKind :=
  if String.eqb (Uplink c) "none" then Ok Isolated
  else if HasPrefix (Uplink c) "tap" then Ok (Tap (tapName (Uplink c)))
  else
    let isWG := String.eqb (Uplink c) "wireguard" in
    if negb isWG && negb (String.eqb (Uplink c) "slirp") && negb (String.eqb (Uplink c) "")
    then Err "unknown uplink"
    else Ok (if isWG then Wireguard else Slirp).

(** ** The lease pool *)

(** [seed] is the table cached from heartbeats, [ord] the order in which Go
    walks it at each offset. [None]: the instance runs without DHCP. *)
Definition hubPool (c : Config) (seed : gmap bytes bytes) (ord : Z -> list (bytes * bytes))
  : go (option Pool) :=
  let start := ParseIP (DHCPStart c) in
  match start with
  | [] => Done None
  | _ =>
      if String.eqb (DHCPStart c) "" then Done None else
      size ← UsableLeases (Network c) start 256;
      if size =? 0 then Done None else
      let pool := NewPool start size in
      Done (Some (if decide (seed = ∅) then pool else Restore ord pool))
  end.

Definition hubOptions (c : Config) : DhcpServer.Options :=
  DhcpServer.mkOptions (Network c) (Gateway c) (Nameserver c) (MTU c) 0 [].

Definition hubServer (c : Config) (pool : Pool) : DhcpServer.Server :=
  DhcpServer.New (hubOptions c) pool Main.vdeMAC.

(** The guest the unpinned forwarding rules go to. *)
Definition forwardFallback (c : Config) (pool : option Pool) : bytes :=
  let fallback := ParseIP (DHCPStart c) in
  match pool with
  | Some p => match First p with [] => fallback | first => first end
  | None => fallback
  end.

(** ** Lemmas *)

(** Only the IPv4 form of the start counts. *)
Lemma UsableLeases_To4 net s s' m :
  To4 s = To4 s' -> UsableLeases net s m = UsableLeases net s' m.
Proof. unfold UsableLeases. by intros ->. Qed.

Lemma NewPool_To4 s s' n : To4 s = To4 s' -> NewPool s n = NewPool s' n.
Proof. unfold NewPool. by intros ->. Qed.

(** A configuration whose network is an IPv4 prefix and whose first lease is an
    IPv4 address. *)
Record v4Config (c : Config) (ip : bytes) (n : Z) (start : bytes) : Prop := {
  vc_ip : wf_ip4 ip;
  vc_len : 0 <= n <= 32;
  vc_start : wf_ip4 start;
  vc_network : Network c = (v4String ip +:+ String "/" (Itoa n))%string;
  vc_first : DHCPStart c = v4String start;
}.

Definition outside (ip : bytes) (n : Z) (start : bytes) : bool :=
  (addr32 start <? netOf (addr32 ip) n) || (bcastOf (addr32 ip) n <=? addr32 start).

Definition hubPoolSize (ip : bytes) (n : Z) (start : bytes) : Z :=
  Z.min 256 (bcastOf (addr32 ip) n - addr32 start).

Lemma hubPool_eq c ip n start seed ord :
  v4Config c ip n start ->
  hubPool c seed ord = Done
    (if outside ip n start then None
     else let pool := NewPool (v4Prefix ++ start) (hubPoolSize ip n start) in
          Some (if decide (seed = ∅) then pool else Restore ord pool)).
Proof.
  intros [Hip Hn Hst Hnet Hfst]. unfold hubPool. rewrite Hnet, Hfst.
  assert (HP : ParseIP (v4String start) = v4Prefix ++ start).
  { unfold ParseIP. rewrite ParseAddr_v4String by done. unfold To16. by rewrite (proj1 Hst). }
  assert (Hne : String.eqb (v4String start) "" = false).
  { destruct (String.eqb_spec (v4String start) "") as [E|]; [|done]. by rewrite E in HP. }
  rewrite HP, Hne. cbn [v4Prefix zeros app replicate].
  change (0 :: _) with (v4Prefix ++ start). rewrite UsableLeases_eq by done. go_simpl.
  fold (outside ip n start). destruct (outside ip n start) eqn:Ho; [done|].
  unfold outside in Ho. bool_arith. fold (hubPoolSize ip n start).
  destruct (Z.eqb_spec (hubPoolSize ip n start) 0) as [E|]; [unfold hubPoolSize in E; lia|done].
Qed.

Lemma serve_bytes macs p :
  pool_ok p -> Main.pool_bytes p -> Forall wf_bytes macs -> Main.pool_bytes (serve macs p).2.
Proof.
  intros Hok Hp Hm. unfold Main.pool_bytes in *. apply Forall_forall. intros k Hk.
  apply (serve_order macs p Hok) in Hk. apply elem_of_app in Hk as [Hk|Hk].
  - by eapply Forall_forall in Hk.
  - apply list_elem_of_fmap in Hk as (m & -> & Hk). eapply Forall_forall in Hk; [|exact Hm].
    unfold array. auto with gosem.
Qed.

Lemma freshPool_empty p : pool_ok p -> order p = [] -> assigned p = ∅ -> p = freshPool p.
Proof.
  intros Hok Ho Ha. destruct (ok_next p Hok) as [Hn _]. rewrite Ho in Hn.
  unfold freshPool. destruct p. cbn in *. by subst.
Qed.

(** The first client's entry. *)
Lemma first_lease p k o : pool_ok p -> order p = k :: o -> assigned p !! k = Some (leaseAddr p 0).
Proof. intros Hok E. apply (ok_assigned p Hok). exists 0%nat. by rewrite E. Qed.

Lemma First_nonempty p : pool_ok p -> order p <> [] -> First p <> [].
Proof.
  intros Hok Hne. unfold First. destruct (order p) as [|k o] eqn:E; [done|].
  rewrite (first_lease p k o Hok E). cbn. pose proof (wf_leaseAddr p 0) as [Hl _].
  by destruct (leaseAddr p 0).
Qed.

(** The first address of a pool that starts at [start]. *)
Lemma base_lease start p : wf_ip4 start -> pool_base p = array 4 (To4 (v4Prefix ++ start)) -> leaseAddr p 0 = start.
Proof.
  intros Hst Hb. unfold leaseAddr. rewrite Hb, To4_v4 by apply Hst. unfold array.
  rewrite take_app_eq by (symmetry; apply Hst). pose proof (addr32_range _ Hst).
  rewrite (u32_small 0), Z.add_0_r, u32_small by lia. by apply put32_addr32.
Qed.

(** Whoever came first has it; the fallback is it, with a client or without. *)
Lemma firstLease c ip n start p :
  v4Config c ip n start -> pool_ok p ->
  freshPool p = NewPool (v4Prefix ++ start) (hubPoolSize ip n start) ->
  To4 (forwardFallback c (Some p)) = start.
Proof.
  intros Hc Hok Hf. pose proof (vc_start _ _ _ _ Hc) as Hst.
  assert (Hb : pool_base p = array 4 (To4 (v4Prefix ++ start))) by (apply (f_equal pool_base) in Hf; exact Hf).
  unfold forwardFallback, First. destruct (order p) as [|k o] eqn:E.
  - rewrite (vc_first _ _ _ _ Hc). unfold ParseIP. rewrite ParseAddr_v4String by done. unfold To16.
    rewrite (proj1 Hst). cbn [Nat.eqb]. apply To4_v4, Hst.
  - rewrite (first_lease p k o Hok E), (base_lease start p Hst Hb). cbn [default].
    destruct Hst as [Hl _]. by do 5 (destruct start as [|? start]; try discriminate Hl).
Qed.

(** The first of a cold pool's clients is the first that asked. *)
Lemma serve_prefix macs : forall p, order p `prefix_of` order (serve macs p).2.
Proof.
  induction macs as [|m macs IH]; intros p; cbn [serve]; [done|].
  assert (H : order p `prefix_of` order (GetOrAssign m p).2).
  { unfold GetOrAssign. destruct (assigned p !! array 6 m); [done|]. destruct (_ <=? _); [done|]. by eexists. }
  destruct (GetOrAssign m p) as [r q]. specialize (IH q). destruct (serve macs q) as [rs q']. cbn in *. by etrans.
Qed.

Lemma serve_first macs start sz k o :
  0 < sz -> order (serve macs (NewPool start sz)).2 = k :: o -> head (array 6 <$> macs) = Some k.
Proof.
  intros Hsz. destruct macs as [|m macs]; cbn [serve]; [done|]. unfold GetOrAssign. cbn [assigned NewPool].
  rewrite lookup_empty. change (pool_size _ <=? pool_next _) with (sz <=? 0).
  destruct (Z.leb_spec sz 0); [lia|].
  match goal with |- context [serve macs ?q] => pose proof (serve_prefix macs q) as Hp; destruct (serve macs q) as [rs q'] end.
  cbn in *. intros E. rewrite E in Hp. by apply prefix_cons_inv_1 in Hp as ->.
Qed.

(** The pool of a promoted instance, seeded with the table of pool [p]. *)
Lemma hubPool_seeded c ip n start ord p :
  v4Config c ip n start -> outside ip n start = false -> pool_ok p ->
  freshPool p = NewPool (v4Prefix ++ start) (hubPoolSize ip n start) ->
  (forall off, ord off ≡ₚ map_to_list (assigned p)) ->
  hubPool c (assigned p) ord = Done (Some p).
Proof.
  intros Hc Ho Hok Hf Hord. rewrite (hubPool_eq c ip n start _ ord Hc), Ho. cbn zeta.
  rewrite <- Hf. f_equal. f_equal. case_decide as He; [|by apply Restore_eq].
  symmetry. apply freshPool_empty; [done| |done]. destruct (order p) as [|k o] eqn:E; [done|].
  apply first_lease in E; [|done]. by rewrite He, lookup_empty in E.
Qed.

Lemma serve_fresh macs p : pool_ok p -> p = freshPool p -> freshPool (serve macs p).2 = p.
Proof.
  intros Hok Hf. pose proof (serve_facts macs p Hok) as Hs. destruct (serve macs p) as [rs q].
  destruct Hs as (_ & _ & Hbase & Hsize & _). cbn [snd]. unfold freshPool. by rewrite Hbase, Hsize.
Qed.

(** ** The uplink: what each spelling selects *)

(** every instance comes up with the uplink it names or not at all. [none]
    isolates the guest; [slirp] or nothing selects NAT and [wireguard] NAT with a
    tunnel; [tap:NAME] selects the tap NAME; any other text that starts with
    [tap] - not only [tap] itself - selects [tap0]; everything else is refused. *)
Theorem chooseUplink_cases c :
  match chooseUplink c with
  | Ok Isolated => Uplink c = "none"
  | Ok (Tap name) =>
      (name <> "" /\ Uplink c = ("tap:" +:+ name)%string) \/
      (name = "tap0" /\ HasPrefix (Uplink c) "tap" = true /\
       forall rest, rest <> "" -> Uplink c <> ("tap:" +:+ rest)%string)
  | Ok Slirp => Uplink c = "slirp" \/ Uplink c = ""
  | Ok Wireguard => Uplink c = "wireguard"
  | Err _ => (Uplink c ∉ ["none"; "slirp"; ""; "wireguard"]) /\ HasPrefix (Uplink c) "tap" = false
  end.
Proof.
  unfold chooseUplink. destruct (String.eqb_spec (Uplink c) "none") as [|Hn]; [done|].
  destruct (HasPrefix (Uplink c) "tap") eqn:Ht.
  - unfold tapName. destruct (CutPrefix (Uplink c) "tap:") as [rest|] eqn:Hc.
    + pose proof (CutPrefix_app _ _ _ Hc) as E. destruct (String.eqb_spec rest "") as [->|Hr].
      * right. split_and!; try done. intros r Hr. rewrite E. by destruct r.
      * by left.
    + right. split_and!; try done. intros r Hr E. by rewrite E, CutPrefix_same in Hc.
  - destruct (String.eqb_spec (Uplink c) "wireguard"), (String.eqb_spec (Uplink c) "slirp"),
      (String.eqb_spec (Uplink c) ""); cbn; auto.
    split; [|done]. rewrite !elem_of_cons, elem_of_nil. naive_solver.
Qed.

(** ** Leases stay inside the network *)

(** C40: a hub leases addresses of its own network only. For an IPv4 configuration
    the set-up does not panic, whether it starts cold or takes over with any lease table at all; it
    runs without DHCP exactly when the first lease
    lies outside the network or is its broadcast address; and otherwise, whatever
    sequence of clients asks, every address leased is in the network, is not its
    broadcast address, and is one of the 256 from the first one on. *)
Theorem hub_leases_inside c ip n start seed ord :
  v4Config c ip n start ->
  exists r, hubPool c seed ord = Done r /\
    (r = None <-> netOf (addr32 start) n <> netOf (addr32 ip) n \/ addr32 start = bcastOf (addr32 ip) n) /\
    forall pool macs i a, r = Some pool -> (serve macs pool).1 !! i = Some (Ok a) ->
      netOf (addr32 a) n = netOf (addr32 ip) n /\ addr32 a <> bcastOf (addr32 ip) n /\
      addr32 start <= addr32 a < addr32 start + 256.
Proof.
  intros Hc. rewrite (hubPool_eq c ip n start seed ord Hc). eexists. split; [done|].
  destruct Hc as [Hip Hn Hst _ _]. cbn zeta.
  pose proof (addr32_range _ Hip) as Hipr. pose proof (addr32_range _ Hst) as Hstr.
  pose proof (bcastOf_lt (addr32 ip) n Hipr Hn).
  assert (Hnet : forall a, 0 <= a < 2 ^ 32 ->
    netOf a n = netOf (addr32 ip) n <-> netOf (addr32 ip) n <= a <= bcastOf (addr32 ip) n).
  { intros a Ha. split; [|by apply netOf_unique]. intros E. unfold bcastOf. rewrite <- E. unfold netOf.
    assert (0 < 2 ^ (32 - n)) by (apply Z.pow_pos_nonneg; lia).
    pose proof (Z.mod_pos_bound a (2 ^ (32 - n)) ltac:(lia)). pose proof (Z.div_mod a (2 ^ (32 - n)) ltac:(lia)).
    lia. }
  assert (Hout : outside ip n start = true <->
    netOf (addr32 start) n <> netOf (addr32 ip) n \/ addr32 start = bcastOf (addr32 ip) n).
  { rewrite Hnet by done. unfold outside. rewrite orb_true_iff, Z.ltb_lt, Z.leb_le. lia. }
  split; [rewrite <- Hout; by destruct (outside ip n start)|]. intros pool macs i a Hr Ha.
  destruct (outside ip n start) eqn:Ho; [done|]. unfold outside in Ho. bool_arith.
  set (p0 := NewPool (v4Prefix ++ start) (hubPoolSize ip n start)) in *.
  assert (Hp0 : ranged p0) by (split; [done|by intros ? ? E]).
  assert (Hpool : ranged pool /\ pool_base pool = pool_base p0 /\ pool_size pool = pool_size p0).
  { assert (pool = if decide (seed = ∅) then p0 else Restore ord p0) as -> by congruence.
    case_decide; [done|]. apply ranged_Restore; [done|]. cbn. unfold hubPoolSize. lia. }
  destruct Hpool as (Hrg & Hb & Hs). apply (ranged_serve macs pool i a Hrg) in Ha as (off & Hoff & ->).
  rewrite Hs in Hoff. cbn in Hoff. unfold hubPoolSize in Hoff.
  assert (E : addr32 (put32 (u32 (addr32 (pool_base pool) + u32 off))) = addr32 start + off).
  { rewrite addr32_put32 by apply u32_range. rewrite Hb. cbn [p0 NewPool pool_base]. rewrite To4_v4 by apply Hst.
    unfold array. rewrite take_app_eq by (symmetry; apply Hst).
    rewrite (u32_small off), u32_small by lia. done. }
  rewrite E. split; [|lia]. apply netOf_unique; [done|]. lia.
Qed.

(** ** Failover, end to end *)

(** C9: a failover is invisible to the guests. Take a hub that started cold, has
    served any sequence of clients and holds at most 32 leases. The heartbeat it
    sends next, in whatever order its tables are walked, gives the peer that
    reads it the lease table; and the pool that peer starts with when it is
    promoted, under the same configuration, is the dead hub's pool: every client
    keeps its address, new clients get the next free one, and port forwarding
    falls back to the same guest: the address the dead hub forwarded to since it
    started, which is the first client's, if there is one. *)
Theorem failover_transparent c ip n start ord0 p0 macs seq snap now ps ord :
  v4Config c ip n start -> hubPool c ∅ ord0 = Done (Some p0) -> Forall wf_bytes macs ->
  let p := (serve macs p0).2 in
  (length (order p) <= MaxLeases)%nat -> 0 <= seq < 2 ^ 32 ->
  snap ≡ₚ map_to_list (Main.Leases p) ->
  let frame := EncodeBeacon Main.vdeMAC seq (Main.poolSnapshot snap) in
  exists ps', Wire.hubFrame now frame ps = Done (ps', None) /\
    ((forall off, ord off ≡ₚ map_to_list (Wire.leases ps')) ->
     exists p', hubPool c (Wire.leases ps') ord = Done (Some p') /\ p' = p /\
       To4 (forwardFallback c (Some p')) = To4 (forwardFallback c (Some p0)) /\
       (forall k o, order p = k :: o ->
          assigned p !! k = Some (To4 (forwardFallback c (Some p'))) /\ head (array 6 <$> macs) = Some k)).
Proof.
  intros Hc Hp0 Hmacs p Hlen Hseq Hsnap frame.
  rewrite (hubPool_eq c ip n start ∅ ord0 Hc) in Hp0.
  destruct (outside ip n start) eqn:Ho; [done|]. cbn zeta in Hp0. rewrite decide_True in Hp0 by done.
  assert (Hp0' : NewPool (v4Prefix ++ start) (hubPoolSize ip n start) = p0) by congruence.
  clear Hp0; rename Hp0' into Hp0.
  assert (Hok0 : pool_ok p0).
  { rewrite <- Hp0. apply pool_ok_NewPool. unfold hubPoolSize. lia. }
  assert (Hok : pool_ok p) by by apply serve_ok.
  assert (Hb : Main.pool_bytes p).
  { apply serve_bytes; [done| |done]. rewrite <- Hp0. constructor. }
  assert (Hfresh : freshPool p = p0) by (apply serve_fresh; [done|by rewrite <- Hp0]).
  destruct (Main.beacon_carries_pool p seq snap Hok Hb Hlen Hseq Hsnap) as (Hi & _ & ls & Hls & Hm).
  exists (Wire.mkPeer true now (assigned p)). split.
  { fold frame in Hi, Hls. apply Wire.hubFrame_beacon with (ls := ls) (seq := seq); done. }
  cbn [Wire.leases]. intros Hord. exists p. split.
  { apply (hubPool_seeded c ip n start); try done. by rewrite Hp0. }
  split; [done|]. pose proof (firstLease c ip n start p Hc Hok ltac:(by rewrite Hfresh, Hp0)) as Hf.
  split.
  - rewrite Hf. symmetry. apply (firstLease c ip n start p0 Hc Hok0). by rewrite <- Hp0.
  - intros k o E. split.
    + rewrite Hf, (first_lease p k o Hok E). f_equal. apply (base_lease start p (vc_start _ _ _ _ Hc)).
      rewrite <- Hp0 in Hfresh. by apply (f_equal pool_base) in Hfresh.
    + apply (serve_first macs (v4Prefix ++ start) (hubPoolSize ip n start) k o); [|by rewrite Hp0].
      unfold outside in Ho. unfold hubPoolSize. bool_arith. lia.
Qed.

(** ** Evaluations *)

Lemma Defaults_v4 : v4Config Defaults [10;0;2;0] 24 [10;0;2;15].
Proof. split; try done; split; try done; repeat constructor; done. Qed.

Theorem hub_leases_inside_witness :
  exists r, hubPool Defaults ∅ (fun _ => []) = Done r /\ r <> None.
Proof.
  destruct (hub_leases_inside Defaults [10;0;2;0] 24 [10;0;2;15] ∅ (fun _ => []) Defaults_v4)
    as (r & Hr & Hn & _).
  exists r. split; [exact Hr|]. intros E. apply Hn in E. revert E. vm_compute. by intros [].
Defined.

Definition demoClients : list bytes := Main.demoMac <$> [7; 3; 9].
Definition demoHub : Pool := NewPool (v4Prefix ++ [10;0;2;15]) 240.
Definition demoServed : Pool := (serve demoClients demoHub).2.

Theorem failover_transparent_witness :
  hubPool Defaults (assigned demoServed) (fun _ => map_to_list (assigned demoServed)) =
    Done (Some demoServed).
Proof.
  destruct (failover_transparent Defaults [10;0;2;0] 24 [10;0;2;15] (fun _ => []) demoHub
    demoClients 5 (map_to_list (Main.Leases demoServed)) 0 Wire.freshPeer
    (fun _ => map_to_list (assigned demoServed)) Defaults_v4) as (ps' & Hps & H).
  - by vm_compute.
  - repeat constructor; done.
  - vm_compute. repeat constructor.
  - done.
  - done.
  - assert (E : Wire.leases ps' = assigned demoServed).
    { vm_compute in Hps. injection Hps as <-. by vm_compute. }
    rewrite E in H. destruct (H (fun _ => Permutation_refl _)) as (p' & H1 & H2 & _).
    rewrite H1. f_equal. f_equal. exact H2.
Defined.

(** The pool does not set the gateway's address aside: a range that includes it
    leases it. *)
Lemma gateway_can_be_leased :
  let c := mkConfig true false None "" "" 0 "slirp" "10.0.2.0/24" "10.0.2.254" "10.0.2.3" "10.0.2.254"
             "" 0 false [] "" 16 in
  exists p, hubPool c ∅ (fun _ => []) = Done (Some p) /\
    (GetOrAssign (Main.demoMac 1) p).1 = Ok (To4 (ParseIP (Gateway c))).
Proof. eexists. split; [by vm_compute|]. by vm_compute. Qed.
