(* ===== verification/PortFwd.v ===== *)
(** * PortFwd: internal/portfwd/portfwd.go

    Host ports relayed to guests. [Start] opens one listener per rule and undoes
    everything when a rule fails; its effects are a trace. The UDP relay keeps a
    table of paths, one netstack connection per host sender: the table, the
    connections' state and the reader goroutines are one record, and a run is a
    sequence of datagrams in either direction, read failures and reaper ticks. *)
From S2P Require Import Prelude.
From S2P Require Import GoStd.
From S2P Require Import Config.

(** ** Rules *)

(** The guest address of a rule: its own, the fallback's, or the fallback's
    network with the rule's last octet. *)
Definition guestOf (fallbackIP : bytes) (r : Forward) : result string :=
  guestIP ←
    (if String.eqb (GuestIP r) "" then
       match To4 fallbackIP with
       | [] => Err "no fallback is known"
       | ip4 => Ok (v4String ip4)
       end
     else Ok (GuestIP r));
  guestIP ←
    (if 0 <? LastOctet r then
       match To4 fallbackIP with
       | [] => Err "fallback not IPv4"
       | ip4 => Ok (v4String (<[3%nat := LastOctet r mod 256]> ip4))
       end
     else Ok guestIP);
  match To4 (ParseIP guestIP) with
  | [] => Err "guest address is not a usable IPv4 address"
  | _ => Ok guestIP
  end.

(** The destination [serveTCP] and [serveUDP] dial: it indexes the four bytes of
    the guest address. *)
Definition guestDst (guestIP : string) (guestPort : Z) : go (bytes * Z) :=
  let guest4 := To4 (ParseIP guestIP) in
  b0 ← idx guest4 0; b1 ← idx guest4 1; b2 ← idx guest4 2; b3 ← idx guest4 3;
  Done ([b0; b1; b2; b3], guestPort).

(** ** Start *)

Record service := mkService {
  svc_udp : bool; svc_listener : nat; svc_guest : string; svc_port : Z }.

Inductive effect :=
| Listened (host : string) (l : nat)   (* a listener opened on the host address *)
| Serving (s : service)                (* its goroutine started *)
| Closed (l : nat).

(** [listen i udp addr] is what the [i]-th listening attempt returns. *)
Section Start.
Variable listen : nat -> bool -> string -> result nat.

Fixpoint startRules (i : nat) (rules : list Forward) (fallbackIP : bytes) (opened : list nat)
  : list effect * result (list service) :=
  match rules with
  | [] => ([], Ok [])
  | r :: rules =>
      let abort e := (Closed <$> opened, Err e) in
      match guestOf fallbackIP r with
      | Err e => abort e
      | Ok guestIP =>
          let hostAddr := JoinHostPort (HostIP r) (HostPort r) in
          match listen i (UDP r) hostAddr with
          | Err e => abort e
          | Ok l =>
              let s := mkService (UDP r) l guestIP (GuestPort r) in
              let '(tr, res) := startRules (S i) rules fallbackIP (opened ++ [l]) in
              (Listened hostAddr l :: Serving s :: tr,
               match res with Ok ss => Ok (s :: ss) | Err e => Err e end)
          end
      end
  end.

Definition Start (c : Config) (fallbackIP : bytes) : list effect * result (list service) :=
  match ParsePorts c with
  | Err e => ([], Err e)
  | Ok rules => startRules 0 rules fallbackIP []
  end.

End Start.

(** ** The UDP relay *)

(** [UDPAddr]: address bytes and port; [IP.Equal] identifies the two forms of an
    IPv4 address. *)
Abbreviation udpAddr := (bytes * Z)%type.

Definition ipEqual (a b : bytes) : bool :=
  if (length a =? length b)%nat then bool_decide (a = b)
  else if (length a =? 4)%nat && (length b =? 16)%nat
       then bool_decide (take 12 b = v4Prefix) && bool_decide (a = drop 12 b)
  else if (length a =? 16)%nat && (length b =? 4)%nat
       then bool_decide (take 12 a = v4Prefix) && bool_decide (b = drop 12 a)
  else false.

Definition sameSrc (a b : udpAddr) : bool := ipEqual a.1 b.1 && (a.2 =? b.2).

Record path := mkPath { guest : nat; src : udpAddr; last_seen : Z }.

(** [readers]: the running reader goroutines by connection, with the source each
    captured. *)
Record relay := mkRelay {
  paths : list path;
  closed : gset nat;
  readers : gmap nat udpAddr;
  conns : nat;           (* connections made so far: the next one's identity *)
}.

Definition noPaths : relay := mkRelay [] ∅ ∅ 0.

Inductive output :=
| ToGuest (conn : nat) (data : bytes)
| ToHost (dst : udpAddr) (data : bytes).

Inductive udpEvent :=
| HostDatagram (now : Z) (from : udpAddr) (data : bytes) (epErr writeOk : bool)
| GuestDatagram (conn : nat) (data : bytes) (writeOk : bool)
| GuestReadErr (conn : nat)
| ReapTick (now : Z).

Definition closeConn (c : nat) (st : relay) : relay :=
  mkRelay (paths st) ({[c]} ∪ closed st) (readers st) (conns st).

(** [p.last = now] on the path with connection [c]. *)
Definition touch (now : Z) (c : nat) (st : relay) : relay :=
  mkRelay ((fun p => if (guest p =? c)%nat then mkPath c (src p) now else p) <$> paths st)
    (closed st) (readers st) (conns st).

(** The path of a sender: found, or made. *)
Definition pathFor (epErr : bool) (from : udpAddr) (st : relay) : option (nat * relay) :=
  match find (fun cand => sameSrc (src cand) from) (paths st) with
  | Some p => Some (guest p, st)
  | None =>
      if epErr then None else
      let c := conns st in
      Some (c, mkRelay (paths st ++ [mkPath c from 0]) (closed st) (<[c := from]> (readers st)) (S c))
  end.

Definition reap (now : Z) (st : relay) : relay :=
  let idle p := 30 * 10 ^ 9 <? now - last_seen p in
  mkRelay (filter (fun p => idle p = false) (paths st))
    (list_to_set (guest <$> filter (fun p => idle p = true) (paths st)) ∪ closed st)
    (readers st) (conns st).

Definition udpStep (ev : udpEvent) (st : relay) : option (relay * list output) :=
  match ev with
  | HostDatagram now from data epErr writeOk =>
      match pathFor epErr from st with
      | None => Some (st, [])
      | Some (c, st) =>
          let st := touch now c st in
          if writeOk && negb (bool_decide (c ∈ closed st))
          then Some (st, [ToGuest c data]) else Some (closeConn c st, [])
      end
  | GuestDatagram c data writeOk =>
      match readers st !! c with
      | Some dst =>
          if bool_decide (c ∈ closed st) then None   (* a read on it fails instead *)
          else if writeOk then Some (st, [ToHost dst data])
          else Some (closeConn c (mkRelay (paths st) (closed st) (delete c (readers st)) (conns st)), [])
      | None => None
      end
  | GuestReadErr c =>
      match readers st !! c with
      | Some _ =>
          Some (closeConn c (mkRelay (filter (fun p => guest p <> c) (paths st)) (closed st)
                               (delete c (readers st)) (conns st)), [])
      | None => None
      end
  | ReapTick now => Some (reap now st, [])
  end.

Fixpoint udpRun (evs : list udpEvent) (st : relay) : option (relay * list output) :=
  match evs with
  | [] => Some (st, [])
  | ev :: evs =>
      '(st, out) ← udpStep ev st; '(st, outs) ← udpRun evs st; Some (st, out ++ outs)
  end.

(** ** Start: theorems *)

Definition listened (tr : list effect) : list nat :=
  omap (fun e => match e with Listened _ l => Some l | _ => None end) tr.
Definition serving (tr : list effect) : list service :=
  omap (fun e => match e with Serving s => Some s | _ => None end) tr.
Definition closes (tr : list effect) : list nat :=
  omap (fun e => match e with Closed l => Some l | _ => None end) tr.

(** The guest a rule means. *)
Definition ruleTarget (fallbackIP : bytes) (r : Forward) : bytes :=
  if 0 <? LastOctet r then take 3 (To4 fallbackIP) ++ [LastOctet r]
  else if String.eqb (GuestIP r) "" then To4 fallbackIP else To4 (ParseIP (GuestIP r)).

Definition serves (fallbackIP : bytes) (r : Forward) (s : service) : Prop :=
  svc_udp s = UDP r /\
  guestDst (svc_guest s) (svc_port s) = Done (ruleTarget fallbackIP r, GuestPort r).

Lemma closes_fmap ls : closes (Closed <$> ls) = ls.
Proof. unfold closes. induction ls as [|l ls IH]; [done|]. cbn. by f_equal. Qed.
Lemma listened_closed ls : listened (Closed <$> ls) = [].
Proof. unfold listened. by induction ls. Qed.

Lemma To4_cases ip : To4 ip = [] \/ length (To4 ip) = 4%nat.
Proof.
  unfold To4. destruct (Nat.eqb_spec (length ip) 4); [by right|].
  destruct (Nat.eqb_spec (length ip) 16); cbn; [|by left].
  case_bool_decide; [|by left]. right. rewrite length_drop. lia.
Qed.

Lemma guestDst_To4 g port :
  To4 (ParseIP g) <> [] -> guestDst g port = Done (To4 (ParseIP g), port).
Proof.
  intros Hne. destruct (To4_cases (ParseIP g)) as [|H]; [done|]. unfold guestDst.
  by destruct (length_4_inv _ H) as (a & b & c & d & ->).
Qed.

Lemma guestOf_dst fb r g port :
  wf_bytes fb -> wf_forward r -> guestOf fb r = Ok g -> guestDst g port = Done (ruleTarget fb r, port).
Proof.
  intros Hfb Hr. unfold guestOf, ruleTarget.
  assert (Hip : To4 fb = [] \/ wf_ip4 (To4 fb)).
  { destruct (To4_cases fb) as [?|H]; [by left|right]. split; [done|].
    unfold To4. repeat case_match; auto with gosem. by constructor. }
  destruct (Z.ltb_spec 0 (LastOctet r)) as [Hpos|Hz].
  - destruct (if String.eqb (GuestIP r) "" then _ else _) as [g0|]; [|done]. cbn [mbind result_bind].
    destruct Hip as [->|Hip]; [done|]. destruct (To4 fb) as [|x ip4] eqn:E; [done|]. rewrite <- E in *.
    assert (Hoct : 1 <= LastOctet r <= 254) by (destruct (wf_target r Hr) as [[]|[[]|[]]]; lia).
    rewrite Z.mod_small by lia. cbn [mbind result_bind].
    assert (Hset : <[3%nat := LastOctet r]> (To4 fb) = take 3 (To4 fb) ++ [LastOctet r]).
    { destruct Hip as [Hl _]. destruct (length_4_inv _ Hl) as (a & b & c & d & ->). done. }
    assert (Hwf : wf_ip4 (take 3 (To4 fb) ++ [LastOctet r])).
    { destruct Hip as [Hl Hb]. split; [rewrite length_app, length_take, Hl; done|].
      apply wf_bytes_app; [by apply wf_bytes_take|]. constructor; [unfold is_byte; lia|constructor]. }
    rewrite Hset, ParseIP_v4String by done. intros Hg.
    assert (g = v4String (take 3 (To4 fb) ++ [LastOctet r])) as ->.
    { destruct (_ ++ _); [done|congruence]. }
    rewrite guestDst_To4; rewrite ParseIP_v4String by done; [done|]. by destruct (take 3 (To4 fb)).
  - destruct (String.eqb_spec (GuestIP r) "") as [Hg|Hg]; cbn [mbind result_bind].
    + destruct Hip as [->|Hip]; [done|]. destruct (To4 fb) as [|x ip4] eqn:E; [done|].
      cbn [mbind result_bind]. rewrite ParseIP_v4String by done. intros Hgg.
      assert (g = v4String (x :: ip4)) as -> by congruence.
      rewrite guestDst_To4; by rewrite ParseIP_v4String by done.
    + destruct (To4 (ParseIP (GuestIP r))) eqn:E; [done|]. intros [= <-].
      by rewrite guestDst_To4, E by (by rewrite E).
Qed.

Lemma startRules_spec listen fb rules : forall i opened,
  wf_bytes fb -> Forall wf_forward rules ->
  let '(tr, res) := startRules listen i rules fb opened in
  match res with
  | Ok ss => closes tr = [] /\ serving tr = ss /\ listened tr = svc_listener <$> ss /\
      Forall2 (serves fb) rules ss
  | Err _ => closes tr = opened ++ listened tr
  end.
Proof.
  induction rules as [|r rules IH]; intros i opened Hfb Hrs; cbn [startRules].
  { by split_and!. }
  apply Forall_cons in Hrs as [Hr Hrs].
  destruct (guestOf fb r) as [g|e] eqn:Hg.
  2:{ by rewrite closes_fmap, listened_closed, app_nil_r. }
  destruct (listen i (UDP r) _) as [l|e].
  2:{ by rewrite closes_fmap, listened_closed, app_nil_r. }
  specialize (IH (S i) (opened ++ [l]) Hfb Hrs).
  destruct (startRules listen (S i) rules fb (opened ++ [l])) as [tr res]. destruct res as [ss|e].
  - destruct IH as (Hc & Hs & Hl & Hf). cbn. rewrite <- Hs. unfold closes, listened, serving in *.
    rewrite Hc, Hl, <- Hs. split_and!; try done. rewrite Hs. constructor; [|done]. split; [done|].
    by apply guestOf_dst.
  - unfold closes, listened in *. cbn. by rewrite IH, <- app_assoc.
Qed.

(** C38: all rules or none. [Start] either serves every rule of the configuration,
    in order and each toward the guest it means (its own address, the fallback, or
    the fallback's network with the rule's last octet) so that no service can panic
    on its address, or it fails and has closed every listener it opened. *)
Theorem Start_all_or_nothing listen c fb :
  wf_bytes fb ->
  let '(tr, res) := Start listen c fb in
  match res with
  | Ok ss => exists rules, ParsePorts c = Ok rules /\ length rules = length (Ports c) /\
      serving tr = ss /\ listened tr = svc_listener <$> ss /\ closes tr = [] /\
      Forall2 (serves fb) rules ss
  | Err _ => closes tr = listened tr
  end.
Proof.
  intros Hfb. unfold Start. unfold ParsePorts. destruct (parsePorts (Ports c)) as [rules|e] eqn:Hp; [|done].
  apply parsePorts_sound in Hp as [Hlen Hwf].
  pose proof (startRules_spec listen fb rules 0 [] Hfb Hwf) as H.
  destruct (startRules listen 0 rules fb []) as [tr [ss|e]]; [|exact H].
  destruct H as (Hc & Hs & Hl & Hf). by exists rules.
Qed.

(** ** The UDP relay: the table *)

Lemma ipEqual_sym a b : ipEqual a b = ipEqual b a.
Proof.
  unfold ipEqual. destruct (Nat.eqb_spec (length a) (length b)) as [E|Hne].
  { rewrite E, Nat.eqb_refl. apply bool_decide_ext. split; congruence. }
  destruct (Nat.eqb_spec (length b) (length a)), (Nat.eqb_spec (length a) 4),
    (Nat.eqb_spec (length b) 16), (Nat.eqb_spec (length a) 16), (Nat.eqb_spec (length b) 4);
    try done; lia.
Qed.

Lemma sameSrc_sym a b : sameSrc a b = sameSrc b a.
Proof. unfold sameSrc. by rewrite ipEqual_sym, Z.eqb_sym. Qed.

Lemma sameSrc_refl a : sameSrc a a = true.
Proof. unfold sameSrc, ipEqual. by rewrite Nat.eqb_refl, bool_decide_eq_true_2, Z.eqb_refl. Qed.

(** One path per sender, one connection per path; a path's connection is read by
    the goroutine that answers its sender, or it is closed. *)
Record relay_ok (st : relay) : Prop := {
  ro_conns : NoDup (guest <$> paths st);
  ro_bound : forall p, p ∈ paths st -> (guest p < conns st)%nat;
  ro_srcs : forall p q, p ∈ paths st -> q ∈ paths st -> sameSrc (src p) (src q) = true -> p = q;
  ro_reader : forall p, p ∈ paths st ->
    readers st !! guest p = Some (src p) \/ (readers st !! guest p = None /\ guest p ∈ closed st);
  ro_fresh : forall c, (conns st <= c)%nat -> readers st !! c = None /\ c ∉ closed st;
}.

Lemma relay_ok_noPaths : relay_ok noPaths.
Proof.
  split; cbn; [apply NoDup_nil_2|set_solver..|].
  intros c _. split; [apply lookup_empty|set_solver].
Qed.

Lemma relay_ok_close c st : (c < conns st)%nat -> relay_ok st -> relay_ok (closeConn c st).
Proof.
  intros Hc [H1 H2 H3 H4 H5]. split; try done; cbn.
  - intros p Hp. destruct (H4 p Hp) as [|[? ?]]; [by left|right]. split; [done|set_solver].
  - intros d Hd. destruct (H5 d Hd). split; [done|]. cbn in *. assert (d <> c) by lia. set_solver.
Qed.

(** Removing paths keeps the table sound. *)
Lemma relay_ok_filter (P : path -> Prop) `{forall p, Decision (P p)} st cl :
  relay_ok st -> closed st ⊆ cl -> (forall c, c ∈ cl -> (c < conns st)%nat) ->
  relay_ok (mkRelay (filter P (paths st)) cl (readers st) (conns st)).
Proof.
  intros [H1 H2 H3 H4 H5] Hsub Hcl.
  assert (Hin : forall p, p ∈ filter P (paths st) -> p ∈ paths st) by (intros p [_ ?]%list_elem_of_filter; done).
  split; cbn; [|by auto|by auto| |].
  - by eapply sublist_NoDup; [|apply fmap_sublist, sublist_filter].
  - intros p Hp. destruct (H4 p (Hin p Hp)) as [|[? ?]]; [by left|right; split; [done|by apply Hsub]].
  - intros c Hc. destruct (H5 c Hc). split; [done|]. intros ?%Hcl. lia.
Qed.

Lemma relay_ok_unread c st :
  relay_ok st -> (forall p, p ∈ paths st -> guest p = c -> c ∈ closed st) ->
  relay_ok (mkRelay (paths st) (closed st) (delete c (readers st)) (conns st)).
Proof.
  intros [H1 H2 H3 H4 H5] Hc. split; cbn; try done.
  - intros p Hp. destruct (decide (guest p = c)) as [E|Hne].
    + right. rewrite E, lookup_delete_eq. split; [done|by eapply Hc].
    + rewrite lookup_delete_ne by done. by apply H4.
  - intros d Hd. destruct (H5 d Hd). split; [|done]. rewrite lookup_delete_None. by right.
Qed.

Lemma touch_guests now c st : guest <$> paths (touch now c st) = guest <$> paths st.
Proof.
  cbn. rewrite <- list_fmap_compose. apply list_fmap_ext. intros i p _. cbn.
  by destruct (Nat.eqb_spec (guest p) c) as [<-|].
Qed.

Lemma touch_inv now c st p' :
  p' ∈ paths (touch now c st) ->
  exists p, p ∈ paths st /\ guest p' = guest p /\ src p' = src p /\
    p' = (if (guest p =? c)%nat then mkPath c (src p) now else p).
Proof.
  cbn. intros (p & -> & Hp)%list_elem_of_fmap. exists p.
  by destruct (Nat.eqb_spec (guest p) c) as [<-|].
Qed.

Lemma relay_ok_touch now c st : relay_ok st -> relay_ok (touch now c st).
Proof.
  intros [H1 H2 H3 H4 H5]. split; [by rewrite touch_guests| | | |done].
  - intros p' (p & Hp & -> & _ & _)%touch_inv. by apply H2.
  - intros p' q' (p & Hp & _ & Es & Ep)%touch_inv (q & Hq & _ & Eq & Eq')%touch_inv.
    rewrite Es, Eq. intros Hs. assert (p = q) as -> by by apply H3. congruence.
  - intros p' (p & Hp & -> & -> & _)%touch_inv. by apply H4.
Qed.

(** The path found or made: its source is the sender, and the table stays sound. *)
Lemma pathFor_spec epErr from st c st' :
  relay_ok st -> pathFor epErr from st = Some (c, st') ->
  relay_ok st' /\ (c < conns st')%nat /\ exists p, p ∈ paths st' /\ guest p = c /\ sameSrc (src p) from = true.
Proof.
  intros Hok. unfold pathFor. destruct (find _ (paths st)) as [p|] eqn:Hf.
  - intros [= <- <-]. apply find_some in Hf as [Hp Hs]. apply list_elem_of_In in Hp.
    split; [done|]. split; [by apply (ro_bound st Hok)|]. by exists p.
  - destruct epErr; [done|]. intros [= <- <-].
    assert (Hnone : forall q, q ∈ paths st -> sameSrc (src q) from = false).
    { intros q Hq. apply list_elem_of_In in Hq. apply (find_none _ _ Hf q Hq). }
    split; [|cbn; split; [lia|]; exists (mkPath (conns st) from 0); split_and!;
      [apply elem_of_app; right; by left|done|apply sameSrc_refl]].
    destruct Hok as [H1 H2 H3 H4 H5]. split; cbn.
    + rewrite fmap_app. apply NoDup_app. split; [done|]. split; [|apply NoDup_singleton].
      intros g (q & -> & Hq)%list_elem_of_fmap. cbn. rewrite list_elem_of_singleton.
      apply H2 in Hq. lia.
    + intros q [Hq|Hq]%elem_of_app; [apply H2 in Hq; lia|].
      apply list_elem_of_singleton in Hq as ->. cbn. lia.
    + intros p q [Hp|Hp]%elem_of_app [Hq|Hq]%elem_of_app;
        try (apply list_elem_of_singleton in Hp as ->); try (apply list_elem_of_singleton in Hq as ->);
        cbn; [by apply H3| | |done]; intros Hs.
      * by rewrite Hnone in Hs.
      * by rewrite sameSrc_sym, Hnone in Hs.
    + intros p [Hp|Hp]%elem_of_app.
      * specialize (H2 p Hp). rewrite lookup_insert_ne by lia. by apply H4.
      * apply list_elem_of_singleton in Hp as ->. left. cbn. by rewrite lookup_insert_eq.
    + intros d Hd. destruct (H5 d) as [Hr Hc]; [lia|]. by rewrite lookup_insert_ne by lia.
Qed.

Lemma reader_bound st c dst : relay_ok st -> readers st !! c = Some dst -> (c < conns st)%nat.
Proof.
  intros Hok Hr. destruct (Nat.lt_ge_cases c (conns st)) as [|Hge]; [done|].
  destruct (ro_fresh st Hok c Hge). congruence.
Qed.

Lemma udpStep_ok ev st st' out : relay_ok st -> udpStep ev st = Some (st', out) -> relay_ok st'.
Proof.
  intros Hok. destruct ev as [now from data epErr writeOk|c data writeOk|c|now]; cbn [udpStep].
  - destruct (pathFor epErr from st) as [[c st1]|] eqn:Hp; [|by intros [= <- <-]].
    destruct (pathFor_spec _ _ _ _ _ Hok Hp) as (Hok1 & Hc & _).
    pose proof (relay_ok_touch now c st1 Hok1) as Hok2.
    destruct (writeOk && _); intros [= <- <-]; [done|]. by apply relay_ok_close.
  - destruct (readers st !! c) as [dst|] eqn:Hr; [|done]. case_bool_decide; [done|].
    destruct writeOk; intros [= <- <-]; [done|].
    assert (Hc := reader_bound st c dst Hok Hr).
    apply (relay_ok_unread c (closeConn c st) (relay_ok_close c st Hc Hok)).
    intros p _ _. cbn. set_solver.
  - destruct (readers st !! c) as [dst|] eqn:Hr; [|done]. intros [= <- <-].
    assert (Hc := reader_bound st c dst Hok Hr).
    pose proof (relay_ok_filter (fun p => guest p <> c) st ({[c]} ∪ closed st) Hok) as H1.
    specialize (H1 ltac:(set_solver)).
    assert (Hcl : forall d, d ∈ ({[c]} ∪ closed st : gset nat) -> (d < conns st)%nat).
    { intros d Hd. destruct (Nat.lt_ge_cases d (conns st)) as [|Hge]; [done|].
      destruct (ro_fresh st Hok d Hge). assert (d <> c) by lia. set_solver. }
    specialize (H1 Hcl). apply (relay_ok_unread c) in H1; [exact H1|].
    cbn [paths]. intros p [Hne _]%list_elem_of_filter E. done.
  - intros [= <- <-]. apply relay_ok_filter; [done|set_solver|].
    intros c [Hc|Hc]%elem_of_union.
    + apply elem_of_list_to_set, list_elem_of_fmap in Hc as (p & -> & [_ Hp]%list_elem_of_filter).
      by apply (ro_bound st Hok).
    + destruct (Nat.lt_ge_cases c (conns st)) as [|Hge]; [done|]. by destruct (ro_fresh st Hok c Hge).
Qed.

Lemma udpRun_ok evs : forall st st' outs,
  relay_ok st -> udpRun evs st = Some (st', outs) -> relay_ok st'.
Proof.
  induction evs as [|ev evs IH]; intros st st' outs Hok; cbn [udpRun]; [by intros [= <- <-]|].
  destruct (udpStep ev st) as [[st1 out]|] eqn:Hs; [|done]. cbn [mbind option_bind].
  destruct (udpRun evs st1) as [[st2 outs2]|] eqn:Hr; [|done]. intros [= <- <-].
  eapply IH; [|done]. by eapply udpStep_ok.
Qed.

(** What a tick keeps and closes. *)
Lemma reap_spec now st :
  (forall p, p ∈ paths (reap now st) <-> p ∈ paths st /\ now - last_seen p <= 30 * 10 ^ 9) /\
  (forall c, c ∈ closed (reap now st) <->
     c ∈ closed st \/ exists p, p ∈ paths st /\ guest p = c /\ 30 * 10 ^ 9 < now - last_seen p).
Proof.
  split.
  - intros p. cbn [reap paths]. rewrite list_elem_of_filter, Z.ltb_ge. tauto.
  - intros c. cbn [reap closed]. rewrite elem_of_union, elem_of_list_to_set, list_elem_of_fmap.
    split.
    + intros [(p & -> & [Hp Hin]%list_elem_of_filter)|H]; [|by left].
      right. exists p. split_and!; [done..|by apply Z.ltb_lt].
    + intros [H|(p & Hin & <- & Hp)]; [by right|]. left. exists p. split; [done|].
      apply list_elem_of_filter. split; [by apply Z.ltb_lt|done].
Qed.

(** C39: replies go home. In every state the relay can reach, each sender has one
    path and each path its own connection; a datagram that is handed to the guest
    goes through a connection whose replies go back to that very sender; and a reaper
    tick keeps exactly the paths used within the last thirty seconds and closes exactly
    the connections of the others: the connection of a path that is kept is closed after
    the tick only if it was before. *)
Theorem replies_go_home evs st outs :
  udpRun evs noPaths = Some (st, outs) ->
  (forall p q, p ∈ paths st -> q ∈ paths st ->
     (sameSrc (src p) (src q) = true -> p = q) /\ (guest p = guest q -> p = q)) /\
  (forall now from data epErr ok st' c d,
     udpStep (HostDatagram now from data epErr ok) st = Some (st', [ToGuest c d]) ->
     d = data /\ forall reply, exists dst,
       udpStep (GuestDatagram c reply true) st' = Some (st', [ToHost dst reply]) /\
       sameSrc dst from = true) /\
  (forall now st', udpStep (ReapTick now) st = Some (st', []) ->
     (forall p, p ∈ paths st' <-> p ∈ paths st /\ now - last_seen p <= 30 * 10 ^ 9) /\
     (forall c, c ∈ closed st' <->
        c ∈ closed st \/ exists p, p ∈ paths st /\ guest p = c /\ 30 * 10 ^ 9 < now - last_seen p) /\
     (forall p, p ∈ paths st' -> guest p ∈ closed st' <-> guest p ∈ closed st)).
Proof.
  intros Hrun. pose proof (udpRun_ok _ _ _ _ relay_ok_noPaths Hrun) as Hok. split_and!.
  - intros p q Hp Hq. split; [by apply (ro_srcs st Hok)|]. intros E.
    apply list_elem_of_lookup in Hp as [i Hi]. apply list_elem_of_lookup in Hq as [j Hj].
    assert (i = j) as ->; [|congruence]. apply (NoDup_lookup _ _ _ (guest p) (ro_conns st Hok)).
    + by rewrite list_lookup_fmap, Hi.
    + by rewrite list_lookup_fmap, Hj, E.
  - intros now from data epErr ok st' c d. cbn [udpStep].
    destruct (pathFor epErr from st) as [[c1 st1]|] eqn:Hp; [|done].
    destruct (pathFor_spec _ _ _ _ _ Hok Hp) as (Hok1 & _ & p & Hin & Hg & Hs).
    destruct ok; [|done]. cbn [andb]. case_bool_decide as Hcl; [done|]. cbn [negb].
    intros [= <- <- <-]. split; [done|]. intros reply. exists (src p). split; [|done].
    cbn [readers touch closed] in *. destruct (ro_reader st1 Hok1 p Hin) as [Hr|[_ Hr]];
      rewrite Hg in Hr; [|done]. by rewrite Hr, bool_decide_eq_false_2.
  - intros now st' [= <-]. destruct (reap_spec now st) as [Hkeep Hclosed].
    split; [done|]. split; [done|]. intros p [Hp Hlive]%Hkeep. rewrite Hclosed. split; [|by left].
    intros [|(q & Hq & E & Hidle)]; [done|]. assert (q = p); [|subst; lia].
    apply list_elem_of_lookup in Hp as [i Hi]. apply list_elem_of_lookup in Hq as [j Hj].
    assert (i = j) as ->; [|congruence]. apply (NoDup_lookup _ _ _ (guest p) (ro_conns st Hok)).
    + by rewrite list_lookup_fmap, Hi.
    + by rewrite list_lookup_fmap, Hj, <- E.
Qed.

(** A sender whose path broke is lost as long as it keeps sending: when the write
    of a reply to the host fails, the reader goroutine closes the connection and
    ends without taking the path out of the table. Every later datagram finds that
    path, is written to the closed connection, and refreshes its time, so the
    reaper never removes it. *)
Definition brokenPath (now : Z) (from : udpAddr) : relay :=
  mkRelay [mkPath 0 from now] {[0%nat]} ∅ 1.

Fixpoint keepSending (n : nat) (now : Z) (from : udpAddr) (data : bytes) : list udpEvent :=
  match n with
  | O => []
  | S n => HostDatagram (now + 20 * 10 ^ 9) from data false true :: ReapTick (now + 30 * 10 ^ 9) ::
      keepSending n (now + 20 * 10 ^ 9) from data
  end.

Lemma broken_path_stays n : forall now from data, exists t,
  udpRun (keepSending n now from data) (brokenPath now from) = Some (brokenPath t from, []).
Proof.
  induction n as [|n IH]; intros now from data; [by exists now|].
  destruct (IH (now + 20 * 10 ^ 9) from data) as [t Ht]. exists t.
  cbn [keepSending udpRun udpStep]. unfold pathFor. cbn [brokenPath paths find src].
  rewrite sameSrc_refl. cbn [guest touch paths closed readers conns fmap list_fmap Nat.eqb andb src].
  rewrite bool_decide_eq_true_2 by set_solver. cbn [negb mbind option_bind].
  assert (E : reap (now + 30 * 10 ^ 9)
      (closeConn 0 (touch (now + 20 * 10 ^ 9) 0 (brokenPath now from)))
    = brokenPath (now + 20 * 10 ^ 9) from).
  { unfold reap, closeConn, touch, brokenPath.
    cbn [paths closed readers conns fmap list_fmap guest src Nat.eqb].
    rewrite filter_cons_True by (cbn [last_seen]; apply Z.ltb_ge; lia).
    rewrite (filter_cons_False (fun p => _ = true)) by
      (cbn [last_seen]; rewrite not_true_iff_false; apply Z.ltb_ge; lia).
    f_equal. }
  rewrite E, Ht. done.
Qed.

(** a broken UDP path black-holes its sender for good. After one failed write
    of a reply, a client that sends at least every twenty seconds never reaches the
    guest again, however long it goes on and however often the reaper runs. *)
Theorem broken_path_black_hole n from data reply :
  exists st, udpRun (HostDatagram 0 from data false true :: GuestDatagram 0 reply false ::
      keepSending n 0 from data) noPaths = Some (st, [ToGuest 0 data]).
Proof.
  destruct (broken_path_stays n 0 from data) as [t Ht]. exists (brokenPath t from).
  cbn [udpRun].
  change (udpStep (HostDatagram 0 from data false true) noPaths) with
    (Some (mkRelay [mkPath 0 from 0] ∅ {[0%nat := from]} 1, [ToGuest 0 data])).
  cbn [mbind option_bind].
  change (udpStep (GuestDatagram 0 reply false) _) with (Some (brokenPath 0 from, @nil output)).
  cbn [mbind option_bind]. by rewrite Ht.
Qed.

(** ** Evaluations *)

Definition demoRules : Config := 
  mkConfig true false None "" "" 0 "slirp" "10.0.2.0/24" "10.0.2.2" "10.0.2.3" "10.0.2.15" "" 0
           true ["2222:22"; "udp .7:5300:53"; "10.0.2.9:80:8080"]%string "" 16.

Definition demoFallback : bytes := v4Prefix ++ [10; 0; 2; 15].

(** All three rules open. *)
Definition listenAll (i : nat) (udp : bool) (addr : string) : result nat := Ok (100 + i)%nat.
(** The third port is taken. *)
Definition listenTwo (i : nat) (udp : bool) (addr : string) : result nat :=
  if (i <? 2)%nat then Ok (100 + i)%nat else Err "in use".

Theorem Start_all_or_nothing_witness :
  closes (Start listenTwo demoRules demoFallback).1 = [100%nat; 101%nat] /\
  exists ss, (Start listenAll demoRules demoFallback).2 = Ok ss /\
    (fun s => guestDst (svc_guest s) (svc_port s)) <$> ss =
      [Done ([10;0;2;15], 22); Done ([10;0;2;7], 53); Done ([10;0;2;9], 8080)].
Proof.
  assert (Hfb : wf_bytes demoFallback) by (unfold demoFallback; repeat constructor; done).
  pose proof (Start_all_or_nothing listenTwo demoRules demoFallback Hfb) as H2.
  pose proof (Start_all_or_nothing listenAll demoRules demoFallback Hfb) as H3.
  split.
  - destruct (Start listenTwo demoRules demoFallback) as [tr [ss|e]] eqn:E; cbn [fst].
    + vm_compute in E. discriminate.
    + rewrite H2. vm_compute in E. injection E as <- _. reflexivity.
  - destruct (Start listenAll demoRules demoFallback) as [tr [ss|e]] eqn:E; cbn [snd].
    + exists ss. split; [reflexivity|]. destruct H3 as (rules & Hr & _ & _ & _ & _ & Hf).
      vm_compute in Hr. injection Hr as <-.
      inversion_clear Hf as [|? s1 ? ? [_ E1] Hf1]. inversion_clear Hf1 as [|? s2 ? ? [_ E2] Hf2].
      inversion_clear Hf2 as [|? s3 ? ? [_ E3] Hf3]. inversion_clear Hf3.
      cbn [fmap list_fmap]. rewrite E1, E2, E3. reflexivity.
    + vm_compute in E. discriminate.
Defined.

Definition demoSrc : udpAddr := ([192; 168; 1; 9], 40000).

Theorem replies_go_home_witness :
  exists st, udpRun [HostDatagram 0 demoSrc [1; 2] false true] noPaths = Some (st, [ToGuest 0 [1; 2]]) /\
    forall p q, p ∈ paths st -> q ∈ paths st -> guest p = guest q -> p = q.
Proof.
  eexists. split; [reflexivity|]. intros p q Hp Hq.
  apply (proj1 (replies_go_home [HostDatagram 0 demoSrc [1; 2] false true] _ _ eq_refl) p q Hp Hq).
Defined.
