(* ===== verification/Pipe.v ===== *)
(** * Pipe: the TCP relays of internal/portfwd and internal/nat

    The accept loop of a forwarded TCP port ([serveTCP]) and the two copies between a host
    and a guest connection: [pipe] of portfwd.go, and the pair of [pump]s of nat.go, which both end
    with the first copy that ends. A chunk is what one read of [io.Copy] returns. *)
From S2P Require Import Prelude.
From S2P Require PortFwd.

(** ** The copies *)

Inductive side := HostSide | GuestSide.

(** What the two copying goroutines do next, each event naming the side it reads: pass on
    a chunk, unless the write fails, or reach the end of its source. *)
Inductive copyEvent :=
| Chunk (src : side) (data : bytes) (writeOk : bool)
| Ends (src : side).

(** What was passed on, and whether both connections are closed. *)
Record pair := mkPair { toGuest : list bytes; toHost : list bytes; closedBoth : bool }.

Definition newPair : pair := mkPair [] [] false.

(** One step of the two copies; the first that returns closes both connections ([done] of
    nat.go, the deferred calls after [<-done] in portfwd.go). *)
Definition pairStep (st : pair) (ev : copyEvent) : option pair :=
  if closedBoth st then None else
  match ev with
  | Chunk HostSide d true => Some (mkPair (toGuest st ++ [d]) (toHost st) false)
  | Chunk GuestSide d true => Some (mkPair (toGuest st) (toHost st ++ [d]) false)
  | Chunk _ _ false | Ends _ => Some (mkPair (toGuest st) (toHost st) true)
  end.

Fixpoint pairRun (st : pair) (evs : list copyEvent) : option pair :=
  match evs with
  | [] => Some st
  | ev :: evs => st ← pairStep st ev; pairRun st evs
  end.

(** ** The accept loop of a forwarded port *)

Inductive served := Piped (conn : nat) | Refused (conn : nat).

(** [serveTCP]: the guest's address is read once, in front of the loop; a connection the guest
    does not take is closed. The loop ends at the first failed accept. *)
Fixpoint serveConns (accepts : list (option nat)) (dialOk : nat -> bool) : list served * bool :=
  match accepts with
  | [] => ([], false)
  | None :: _ => ([], true)
  | Some c :: accepts =>
      let '(l, ended) := serveConns accepts dialOk in
      ((if dialOk c then Piped c else Refused c) :: l, ended)
  end.

Definition serveTCP (guestIP : string) (guestPort : Z) (accepts : list (option nat))
    (dialOk : bytes * Z -> nat -> bool) : go (list served * bool) :=
  dst ← PortFwd.guestDst guestIP guestPort;
  Done (serveConns accepts (dialOk dst)).

(** ** Theorems *)

Definition chunkOf (src : side) (ev : copyEvent) : option bytes :=
  match ev with
  | Chunk s d true => match src, s with HostSide, HostSide | GuestSide, GuestSide => Some d | _, _ => None end
  | _ => None
  end.

(** The copies of a run: everything read before the end, in order, in both directions. *)
Theorem pairRun_copies evs : forall st st',
  pairRun st evs = Some st' ->
  toGuest st' = toGuest st ++ omap (chunkOf HostSide) evs /\
  toHost st' = toHost st ++ omap (chunkOf GuestSide) evs.
Proof.
  induction evs as [|ev evs IH]; intros st st'; cbn [pairRun].
  { intros [= <-]. by rewrite !app_nil_r. }
  destruct (pairStep st ev) as [st1|] eqn:E; [|done]. cbn [mbind option_bind]. intros H.
  destruct (IH _ _ H) as [-> ->]. unfold pairStep in E. destruct (closedBoth st); [done|].
  destruct ev as [[] d []|[]]; injection E as <-; cbn; by rewrite <- ?app_assoc.
Qed.

(** Once one direction has ended nothing passes in the other: the answer to a client that
    closes its sending side after the request is lost. *)
Theorem half_close_loses_answer request answer :
  exists st, pairRun newPair [Chunk HostSide request true; Ends HostSide] = Some st /\
    toGuest st = [request] /\ pairStep st (Chunk GuestSide answer true) = None /\ toHost st = [].
Proof. eexists. split; [reflexivity|]. by cbn. Qed.

(** Every connection accepted before the first failure is piped or closed, in order. *)
Theorem serveConns_all conns rest dialOk :
  serveConns ((Some <$> conns) ++ None :: rest) dialOk =
    ((fun c => if dialOk c then Piped c else Refused c) <$> conns, true).
Proof. induction conns as [|c l IH]; [done|]. cbn [fmap list_fmap app serveConns]. cbn in IH. by rewrite IH. Qed.
