(* ===== verification/Nat.v ===== *)
(** * Nat: internal/nat/nat.go

    The NAT's own decisions: the addresses it owns on the guest's segment, the
    routes, the host's resolvers, and where each TCP connection and UDP flow of the
    guest is dialed. gVisor's address and subnet types are the class [Tcpip]; the
    stack's and the host's answers to each call are arguments. *)
From S2P Require Import Prelude.
From S2P Require Import GoStd.
From S2P Require Import GoText.

(** ** gVisor's tcpip package *)

Class Tcpip := {
  Subnet : Type;
  Contains : Subnet -> bytes -> bool;
  AddrString : bytes -> string;              (* Address.String *)
  AddrTo4 : bytes -> bytes;                  (* Address.To4; no address is [] *)
  NewSubnet : bytes -> bytes -> result Subnet;
  PrefixSubnet : bytes -> Z -> Subnet;       (* AddressWithPrefix.Subnet *)
}.

Class TcpipLaws (T : Tcpip) : Prop := {
  AddrString_v4 ip : wf_ip4 ip -> AddrString ip = v4String ip;
  AddrTo4_mapped ip : length ip = 4%nat -> AddrTo4 (v4Prefix ++ ip) = ip;
  NewSubnet_spec a m : length a = length m -> maskBytes a m = a ->
    exists s, NewSubnet a m = Ok s /\
      forall b, length b = length a -> Contains s b = bool_decide (maskBytes b m = a);
  (** A prefix longer than the address covers the address alone, like the longest. *)
  PrefixSubnet_spec a n b : 0 <= n ->
    let m := CIDRMask n (length a) in
    Contains (PrefixSubnet a n) b =
      (length b =? length a)%nat && bool_decide (maskBytes b m = maskBytes a m);
}.

(** ** The NAT *)

Record Options := mkOptions {
  GatewayIP : string; Nameserver : string; Network : string; IPv6 : bool }.

Definition nicID : Z := 1.

Record NAT `{Tcpip} := mkNAT {
  resolvers_of : list string;
  localAddrs : gset string;
  dnsAddrs : gset string;
  TunnelSubnets : list Subnet;
  routes : list (Subnet * Z);
}.

(** [resolvers] on the contents of /etc/resolv.conf, if it could be read. *)
Definition resolvers (file : option string) : list string :=
  match file with
  | None => []
  | Some data =>
      omap (fun line => match Fields line with
                        | [k; server] => if String.eqb k "nameserver" then Some server else None
                        | _ => None
                        end) (Split "010" data)
  end.

Definition as16 (ip : bytes) : bytes :=
  let ip := To16 ip in take 16 (ip ++ zeros 16).

Section NAT.
Context `{T : Tcpip}.

Definition SetTunnelSubnets (subs : list Subnet) (n : NAT) : NAT :=
  mkNAT T (resolvers_of n) (localAddrs n) (dnsAddrs n) subs (routes n).

Definition AddRoute (r : Subnet * Z) (n : NAT) : NAT :=
  mkNAT T (resolvers_of n) (localAddrs n) (dnsAddrs n) (TunnelSubnets n) (routes n ++ [r]).

Definition dialsTunnel (dst : bytes) (n : NAT) : bool :=
  existsb (fun s => Contains s dst) (TunnelSubnets n).

Definition subnetOf (cidr : string) : result Subnet :=
  match ParseCIDR cidr with
  | None => Err "network: invalid CIDR address"
  | Some ipnet =>
      match To4 (ipnet_IP ipnet) with
      | [] => Err "network: not IPv4"
      | ip4 => NewSubnet ip4 (ipnet_Mask ipnet)
      end
  end.

(** [addErr a] is the error of [AddProtocolAddress] for address [a]. *)
Variable addErr : bytes -> option string.

(** The loop over the gateway and the name server. *)
Fixpoint addLocals (addrs : list string) (nameserver : string) (local dns : gset string)
  : result (gset string * gset string) :=
  match addrs with
  | [] => Ok (local, dns)
  | addr :: addrs =>
      match To4 (ParseIP addr) with
      | [] => Err "nat: not a valid IPv4 address"
      | ip4 =>
          match addErr ip4 with
          | Some e => Err e
          | None =>
              addLocals addrs nameserver ({[addr]} ∪ local)
                (if String.eqb addr nameserver then {[addr]} ∪ dns else dns)
          end
      end
  end.

(** The loop over the two IPv6 addresses. *)
Fixpoint addLocals6 (addrs : list string) (local dns : gset string)
  : result (gset string * gset string) :=
  match addrs with
  | [] => Ok (local, dns)
  | a :: addrs =>
      match addErr (as16 (ParseIP a)) with
      | Some e => Err e
      | None =>
          addLocals6 addrs ({[a]} ∪ local) (if String.eqb a "fec0::3" then {[a]} ∪ dns else dns)
      end
  end.

Definition New (nicErr : option string) (resolv : option string) (opts : Options) : result NAT :=
  match nicErr with
  | Some e => Err e
  | None =>
      '(local, dns) ← addLocals [GatewayIP opts; Nameserver opts] (Nameserver opts) ∅ ∅;
      sub ← subnetOf (Network opts);
      if IPv6 opts then
        '(local, dns) ← addLocals6 ["fec0::2"; "fec0::3"]%string local dns;
        Ok (mkNAT T (resolvers resolv) local dns []
              [(sub, nicID); (PrefixSubnet (as16 (ParseIP "fec0::")) 64, nicID)])
      else Ok (mkNAT T (resolvers resolv) local dns [] [(sub, nicID)])
  end.

(** [NIC]: the guest-facing NIC, which a tunnel is attached next to. *)
Definition NIC (n : NAT) : Z := nicID.

(** ** Dialing *)

Inductive dial :=
| DialHost (proto addr : string)            (* net.Dial *)
| DialTunnel (proto : string) (ipVersion : Z) (addr : bytes) (port : Z).  (* gonet *)

(** What [tcpHandler] dials for a connection to [dst]. *)
Definition tcpDial (n : NAT) (dstAddr : bytes) (port : Z) : dial :=
  let dst := AddrString dstAddr in
  if bool_decide (dst ∈ localAddrs n) then DialHost "tcp" (JoinHostPort "127.0.0.1" port)
  else if dialsTunnel dstAddr n
       then DialTunnel "tcp" (if len dstAddr =? 16 then 6 else 4) dstAddr port
       else DialHost "tcp" (JoinHostPort dst port).

(** How a connection ends up: refused with a reset, dropped (the host side is
    closed again), or relayed by a pair of pumps. *)
Inductive tcpOutcome := Reset | Dropped | Pumping.

Definition tcpHandler (n : NAT) (dstAddr : bytes) (port : Z) (dialOk : dial -> bool) (endpointOk : bool)
  : dial * tcpOutcome :=
  let d := tcpDial n dstAddr port in
  (d, if negb (dialOk d) then Reset else if endpointOk then Pumping else Dropped).

(** [dialUDP] for a flow: every dial it tries, and whether the last one holds. *)
Fixpoint dialResolvers (servers : list string) (dialOk : dial -> bool) : list dial * bool :=
  match servers with
  | [] => ([], false)
  | server :: servers =>
      let d := DialHost "udp" (JoinHostPort server 53) in
      if dialOk d then ([d], true)
      else let '(ds, ok) := dialResolvers servers dialOk in (d :: ds, ok)
  end.

Definition dialUDP (n : NAT) (dstIP : string) (dstPort : Z) (dialOk : dial -> bool)
  : list dial * bool :=
  if (dstPort =? 53) && bool_decide (dstIP ∈ dnsAddrs n) then dialResolvers (resolvers_of n) dialOk
  else
    let dstIP := if bool_decide (dstIP ∈ localAddrs n) then "127.0.0.1"%string else dstIP in
    let dst := as16 (ParseIP dstIP) in
    let dst := if len (AddrTo4 dst) =? 4 then AddrTo4 dst else dst in
    let d :=
      if dialsTunnel dst n then DialTunnel "udp" (if len dst =? 4 then 4 else 6) dst dstPort
      else DialHost "udp" (JoinHostPort dstIP dstPort) in
    ([d], dialOk d).

(** [udpHandler]: the flow's destination is the local side of its 4-tuple. *)
Definition udpHandler (n : NAT) (dstAddr : bytes) (port : Z) (dialOk : dial -> bool) (endpointOk : bool)
  : list dial * bool :=
  let '(ds, ok) := dialUDP n (AddrString dstAddr) port dialOk in (ds, ok && endpointOk).

End NAT.

(** ** The UDP relay of one flow *)

(** One turn of [relayUDP]: the guest's datagram (or the 30 s timeout), whether
    the host took it, the host's answer (or the 5 s timeout), whether the guest
    took that. *)
Record relayTurn := mkTurn {
  fromGuest : result bytes; hostTook : bool; fromHost : result bytes; guestTook : bool }.

(** What reaches the host and the guest before the flow ends; [true]: it is still
    open. *)
Fixpoint relayUDP (turns : list relayTurn) : list bytes * list bytes * bool :=
  match turns with
  | [] => ([], [], true)
  | t :: turns =>
      match fromGuest t with
      | Err _ => ([], [], false)
      | Ok q =>
          if negb (hostTook t) then ([], [], false) else
          match fromHost t with
          | Err _ => ([q], [], false)
          | Ok a =>
              if negb (guestTook t) then ([q], [], false) else
              let '(qs, answers, open) := relayUDP turns in (q :: qs, a :: answers, open)
          end
      end
  end.

(** ** Theorems *)

Section Theorems.
Context `{TL : TcpipLaws}.

Lemma v4String_inj a b : wf_ip4 a -> wf_ip4 b -> v4String a = v4String b -> a = b.
Proof.
  intros Ha Hb E. apply (f_equal (fun s => To4 (ParseIP s))) in E.
  by rewrite !ParseIP_v4String in E.
Qed.

Lemma v4String_no_colon a : wf_ip4 a -> containsByte ":" (v4String a) = false.
Proof. by apply v4String_free. Qed.

Lemma JoinHostPort_v4 a port :
  wf_ip4 a -> JoinHostPort (v4String a) port = (v4String a +:+ ":" +:+ Itoa port)%string.
Proof. intros Ha. unfold JoinHostPort. by rewrite v4String_no_colon. Qed.

(** The address tables of a NAT whose gateway and name server are IPv4. *)
Lemma New_tables addErr nicErr resolv opts gw ns n :
  wf_ip4 gw -> wf_ip4 ns -> GatewayIP opts = v4String gw -> Nameserver opts = v4String ns ->
  New addErr nicErr resolv opts = Ok n ->
  (forall a, wf_ip4 a -> v4String a ∈ localAddrs n <-> a = gw \/ a = ns) /\
  (forall a, wf_ip4 a -> v4String a ∈ dnsAddrs n <-> a = ns) /\
  resolvers_of n = resolvers resolv /\ TunnelSubnets n = [].
Proof.
  intros Hgw Hns Hg Hn. unfold New. destruct nicErr; [done|]. rewrite Hg, Hn. cbn [addLocals].
  rewrite !ParseIP_v4String by done.
  destruct gw as [|g0 gw']; [by destruct Hgw|]. destruct ns as [|s0 ns']; [by destruct Hns|].
  set (gw := g0 :: gw') in *. set (ns := s0 :: ns') in *.
  destruct (addErr gw); [done|]. destruct (addErr ns); [done|]. rewrite String.eqb_refl.
  cbn [mbind result_bind]. destruct (subnetOf (Network opts)) as [sub|]; [|done].
  cbn [mbind result_bind].
  set (local := {[v4String ns]} ∪ ({[v4String gw]} ∪ ∅) : gset string).
  set (dns := {[v4String ns]} ∪ (if String.eqb (v4String gw) (v4String ns) then {[v4String gw]} ∪ ∅ else ∅)
              : gset string).
  assert (Hl : forall a, wf_ip4 a -> v4String a ∈ local <-> a = gw \/ a = ns).
  { intros a Ha. unfold local. rewrite !elem_of_union, !elem_of_singleton, elem_of_empty.
    split; [|intros [-> | ->]; auto].
    intros [E|[E|[]]]; [right|left]; by apply v4String_inj. }
  assert (Hd : forall a, wf_ip4 a -> v4String a ∈ dns <-> a = ns).
  { intros a Ha. unfold dns. rewrite elem_of_union, elem_of_singleton.
    split; [|intros ->; by left]. intros [E|E]; [by apply v4String_inj|].
    destruct (String.eqb_spec (v4String gw) (v4String ns)) as [E'|]; [|set_solver].
    apply elem_of_union in E as [E|E]; [|set_solver]. apply elem_of_singleton in E.
    apply v4String_inj; [done..|congruence]. }
  destruct (IPv6 opts); [|intros [= <-]; split_and!; done].
  cbn [addLocals6]. destruct (addErr _); [done|]. destruct (addErr _); [done|].
  change (String.eqb "fec0::2" "fec0::3") with false. rewrite String.eqb_refl.
  cbn [mbind result_bind]. intros [= <-].
  assert (H6 : forall a s, wf_ip4 a -> containsByte ":" s = true -> v4String a <> s).
  { intros a s Ha Hs E. rewrite <- E, v4String_no_colon in Hs by done. done. }
  cbn [localAddrs dnsAddrs resolvers_of TunnelSubnets]. split_and!; try done.
  - intros a Ha. rewrite !elem_of_union, !elem_of_singleton, Hl by done.
    split; [|by auto]. intros [E|[E|?]]; [by apply H6 in E|by apply H6 in E|done].
  - intros a Ha. rewrite !elem_of_union, !elem_of_singleton, Hd by done.
    split; [|by auto]. intros [E|?]; [by apply H6 in E|done].
Qed.

Definition localhost : bytes := [127; 0; 0; 1].

(** Where a flow to an address goes that has no special meaning (any more). *)
Definition plainDial (proto : string) (n : NAT) (dst : bytes) (port : Z) : dial :=
  if dialsTunnel dst n then DialTunnel proto 4 dst port
  else DialHost proto (v4String dst +:+ ":" +:+ Itoa port)%string.

Lemma udpTarget_v4 a :
  wf_ip4 a ->
  (if len (AddrTo4 (as16 (ParseIP (v4String a)))) =? 4 then AddrTo4 (as16 (ParseIP (v4String a)))
   else as16 (ParseIP (v4String a))) = a.
Proof.
  intros Ha. assert (E : as16 (ParseIP (v4String a)) = v4Prefix ++ a).
  { unfold ParseIP. rewrite ParseAddr_v4String by done. destruct Ha as [Hl _].
    by destruct (length_4_inv _ Hl) as (x & y & z & w & ->). }
  rewrite E, AddrTo4_mapped by apply Ha. unfold len. by rewrite (proj1 Ha).
Qed.

(** The part of [dialUDP] after the tables, on the text of an IPv4 address. *)
Lemma udp_plain n a port :
  wf_ip4 a ->
  let dst := as16 (ParseIP (v4String a)) in
  let dst := if len (AddrTo4 dst) =? 4 then AddrTo4 dst else dst in
  (if dialsTunnel dst n then DialTunnel "udp" (if len dst =? 4 then 4 else 6) dst port
   else DialHost "udp" (JoinHostPort (v4String a) port)) = plainDial "udp" n a port.
Proof.
  intros Ha. cbv zeta. rewrite !udpTarget_v4 by done. unfold plainDial, len. rewrite (proj1 Ha).
  cbn [Z.of_nat Z.eqb]. by rewrite JoinHostPort_v4.
Qed.

Lemma tcp_plain n a port :
  wf_ip4 a ->
  (if dialsTunnel a n then DialTunnel "tcp" (if len a =? 16 then 6 else 4) a port
   else DialHost "tcp" (JoinHostPort (v4String a) port)) = plainDial "tcp" n a port.
Proof.
  intros Ha. unfold plainDial, len. rewrite (proj1 Ha). cbn [Z.of_nat Z.eqb].
  by rewrite JoinHostPort_v4.
Qed.

(** C37: where the guest's traffic goes. For a NAT set up with an IPv4 gateway and
    name server, and any tunnel subnets installed later: a TCP connection to one of
    our two addresses goes to the host's loopback, one the tunnel covers into the
    tunnel, every other one to the host's network as it is. A UDP flow to port 53 of
    the name server goes to the host's resolvers; the other flows follow the same
    rule, except that a flow to one of our own addresses is looked up in the tunnel
    subnets as 127.0.0.1, so a tunnel that covers everything swallows it. *)
Theorem nat_dispatch addErr nicErr resolv opts gw ns n0 subs dst port dialOk :
  wf_ip4 gw -> wf_ip4 ns -> GatewayIP opts = v4String gw -> Nameserver opts = v4String ns ->
  New addErr nicErr resolv opts = Ok n0 -> wf_ip4 dst ->
  let n := SetTunnelSubnets subs n0 in
  tcpDial n dst port =
    (if decide (dst = gw \/ dst = ns) then DialHost "tcp" ("127.0.0.1:" +:+ Itoa port)%string
     else plainDial "tcp" n dst port) /\
  dialUDP n (AddrString dst) port dialOk =
    (if decide (port = 53 /\ dst = ns) then dialResolvers (resolvers resolv) dialOk
     else let d := plainDial "udp" n (if decide (dst = gw \/ dst = ns) then localhost else dst) port in
          ([d], dialOk d)).
Proof.
  intros Hgw Hns Hg Hn HNew Hdst n.
  destruct (New_tables _ _ _ _ _ _ _ Hgw Hns Hg Hn HNew) as (Hl & Hd & Hr & _).
  assert (Hlh : wf_ip4 localhost) by (split; [done|repeat constructor; done]).
  assert (Hlocal : bool_decide (v4String dst ∈ localAddrs n0) = bool_decide (dst = gw \/ dst = ns))
    by by apply bool_decide_ext, Hl.
  assert (Hdns : bool_decide (v4String dst ∈ dnsAddrs n0) = bool_decide (dst = ns))
    by by apply bool_decide_ext, Hd.
  split.
  - unfold tcpDial. rewrite AddrString_v4 by done. cbn [localAddrs n SetTunnelSubnets].
    rewrite Hlocal. destruct (decide (dst = gw \/ dst = ns)) as [Ho|Ho];
      [rewrite bool_decide_eq_true_2 by done; reflexivity|].
    rewrite bool_decide_eq_false_2 by done. by apply tcp_plain.
  - unfold dialUDP. rewrite AddrString_v4 by done.
    cbn [localAddrs dnsAddrs resolvers_of n SetTunnelSubnets]. rewrite Hlocal, Hdns, Hr.
    assert (E : (port =? 53) && bool_decide (dst = ns) = bool_decide (port = 53 /\ dst = ns)).
    { rewrite bool_decide_and. f_equal. destruct (Z.eqb_spec port 53);
      [by rewrite bool_decide_eq_true_2|by rewrite bool_decide_eq_false_2]. }
    rewrite E. destruct (decide (port = 53 /\ dst = ns)) as [Hq|Hq];
      [by rewrite bool_decide_eq_true_2|rewrite bool_decide_eq_false_2 by done].
    change "127.0.0.1"%string with (v4String localhost).
    pose proof (udp_plain n localhost port Hlh) as H1. pose proof (udp_plain n dst port Hdst) as H2.
    cbv zeta in H1, H2 |- *. destruct (decide (dst = gw \/ dst = ns)) as [Ho|Ho];
      [rewrite bool_decide_eq_true_2 by done; by rewrite H1
      |rewrite bool_decide_eq_false_2 by done; by rewrite H2].
Qed.

(** ** The guest's route *)

Lemma maskBytes_idem a m : maskBytes (maskBytes a m) m = maskBytes a m.
Proof.
  revert m. induction a as [|x a IH]; intros [|y m]; try done. unfold maskBytes in *. cbn.
  f_equal; [|apply IH]. by rewrite <- Z.land_assoc, Z.land_diag.
Qed.

Lemma addr32_inj a b : wf_ip4 a -> wf_ip4 b -> addr32 a = addr32 b -> a = b.
Proof. intros Ha Hb E. by rewrite <- (put32_addr32 a), <- (put32_addr32 b), E. Qed.

(** the connected route covers the guest's network and nothing else. For the
    text of an IPv4 prefix [subnetOf] succeeds, and the subnet contains exactly the
    addresses of that prefix. *)
Theorem subnetOf_covers ip n :
  wf_ip4 ip -> 0 <= n <= 32 ->
  exists s, subnetOf (v4String ip +:+ String "/" (Itoa n))%string = Ok s /\
    forall a, wf_ip4 a ->
      Contains s a = true <-> netOf (addr32 ip) n <= addr32 a <= bcastOf (addr32 ip) n.
Proof.
  intros Hip Hn. unfold subnetOf. rewrite ParseCIDR_v4 by done. cbn [ipnet_IP ipnet_Mask].
  destruct (maskBytes_val ip n Hip Hn) as [Hm Em]. destruct (CIDRMask_val n Hn) as [Hc _].
  assert (E : To4 (maskBytes ip (CIDRMask n 4)) = maskBytes ip (CIDRMask n 4)).
  { unfold To4. by rewrite (proj1 Hm). }
  rewrite E. destruct (NewSubnet_spec (maskBytes ip (CIDRMask n 4)) (CIDRMask n 4)) as (s & Hs & Hco).
  { rewrite (proj1 Hm), (proj1 Hc). done. }
  { apply maskBytes_idem. }
  exists s. split.
  { destruct (maskBytes ip (CIDRMask n 4)); [by destruct Hm|exact Hs]. }
  intros a Ha. rewrite Hco by by rewrite (proj1 Ha), (proj1 Hm).
  rewrite bool_decide_eq_true. destruct (maskBytes_val a n Ha Hn) as [Hma Ema].
  pose proof (Z.pow_pos_nonneg 2 (32 - n)).
  assert (Hrange : netOf (addr32 a) n <= addr32 a < netOf (addr32 a) n + 2 ^ (32 - n)).
  { unfold netOf. pose proof (Z.div_mod (addr32 a) (2 ^ (32 - n))).
    pose proof (Z.mod_pos_bound (addr32 a) (2 ^ (32 - n))). lia. }
  split.
  - intros Eq. assert (En : netOf (addr32 a) n = netOf (addr32 ip) n) by (rewrite <- Ema, <- Em; congruence).
    unfold bcastOf. lia.
  - intros Hb. apply addr32_inj; [done..|]. rewrite Ema, Em.
    unfold bcastOf, netOf in *. f_equal. symmetry.
    apply (Z.div_unique_pos _ _ _ (addr32 a - addr32 ip / 2 ^ (32 - n) * 2 ^ (32 - n))); lia.
Qed.

End Theorems.

(** ** The relay of a flow *)

(** One answer per question: the host gets a prefix of the guest's datagrams and
    the guest the host's answers to them, in order, of which only the last may be
    missing - and then the flow is over. *)
Lemma relayUDP_pairs turns qs answers (open : bool) :
  relayUDP turns = (qs, answers, open) ->
  (Ok <$> qs) `prefix_of` (fromGuest <$> turns) /\
  (Ok <$> answers) `prefix_of` (fromHost <$> turns) /\
  (length answers <= length qs <= S (length answers))%nat /\
  (open = true -> length answers = length turns).
Proof.
  revert qs answers open. induction turns as [|[g t1 h t2] turns IH]; intros qs answers open;
    cbn [relayUDP fromGuest hostTook fromHost guestTook].
  { intros [= <- <- <-]. split_and!; try apply prefix_nil; cbn; auto. }
  destruct g as [q|e]; [|intros [= <- <- <-]; split_and!; try apply prefix_nil; cbn; auto; done].
  destruct t1; cbn [negb]; [|intros [= <- <- <-]; split_and!; try apply prefix_nil; cbn; auto; done].
  assert (Hlast : (Ok <$> [q]) `prefix_of` (fromGuest <$> mkTurn (Ok q) true h t2 :: turns)).
  { apply prefix_cons, prefix_nil. }
  destruct h as [a|e]; [|intros [= <- <- <-]; split_and!; [done|apply prefix_nil|cbn; lia..|done]].
  destruct t2; cbn [negb]; [|intros [= <- <- <-]; split_and!; [done|apply prefix_nil|cbn; lia..|done]].
  destruct (relayUDP turns) as [[qs0 as0] o]. intros [= <- <- <-].
  destruct (IH qs0 as0 o eq_refl) as (Hq & Ha & Hl & Ho).
  split_and!; [by apply prefix_cons|by apply prefix_cons|cbn; lia..|]. intros ->. cbn. by rewrite Ho.
Qed.

(** ** A concrete tcpip package, and evaluations *)

#[export] Instance RefTcpip : Tcpip := {
  Subnet := bytes * bytes;
  Contains s b := (length b =? length s.1)%nat && bool_decide (maskBytes b s.2 = s.1);
  AddrString a := if (length a =? 4)%nat then v4String a else ""%string;
  AddrTo4 := To4;
  NewSubnet a m :=
    if (length a =? length m)%nat && bool_decide (maskBytes a m = a) then Ok (a, m)
    else Err "subnet address has bits outside the mask";
  PrefixSubnet a n := (maskBytes a (CIDRMask n (length a)), CIDRMask n (length a));
}.

#[export] Instance RefTcpipLaws : TcpipLaws RefTcpip.
Proof.
  split.
  - intros ip [Hl _]. cbn. by rewrite Hl.
  - intros ip Hl. by apply To4_v4.
  - intros a m Hl Hm. exists (a, m). cbn. rewrite Hl, Nat.eqb_refl, bool_decide_eq_true_2 by done.
    split; [done|]. intros b Hb. by rewrite Hb, Nat.eqb_refl.
  - intros a n b Hn m. cbn. unfold maskBytes. rewrite length_zip_with, length_CIDRMask, Nat.min_id.
    done.
Qed.

Definition demoOpts : Options := mkOptions "10.0.2.2" "10.0.2.3" "10.0.2.0/24" true.
Definition demoResolv : string := "# hosts
nameserver 9.9.9.9
search example.org
 nameserver  1.1.1.1".

Lemma resolvers_demo : resolvers (Some demoResolv) = ["9.9.9.9"; "1.1.1.1"]%string.
Proof. by vm_compute. Qed.

Definition demoNat : NAT :=
  match New (fun _ => None) None (Some demoResolv) demoOpts with
  | Ok n => n
  | Err _ => mkNAT RefTcpip [] ∅ ∅ [] []
  end.

Lemma demoNat_ok : New (fun _ => None) None (Some demoResolv) demoOpts = Ok demoNat.
Proof.
  unfold demoNat.
  assert (H : match New (fun _ => None) None (Some demoResolv) demoOpts with
              | Ok _ => true | Err _ => false end = true) by (vm_compute; reflexivity).
  by destruct (New _ _ _ _).
Qed.

(** A tunnel that covers all of IPv4. *)
Definition fullTunnel : list Subnet := [PrefixSubnet (zeros 4) 0].

Lemma wf_gw : wf_ip4 [10;0;2;2].
Proof. split; [done|repeat constructor; done]. Qed.
Lemma wf_ns : wf_ip4 [10;0;2;3].
Proof. split; [done|repeat constructor; done]. Qed.

(** With a full tunnel a TCP connection to the gateway still reaches the host's
    loopback, a UDP flow to it leaves through the tunnel. *)
Theorem nat_dispatch_witness :
  let n := SetTunnelSubnets fullTunnel demoNat in
  tcpDial n [10;0;2;2] 8080 = DialHost "tcp" "127.0.0.1:8080" /\
  dialUDP n (AddrString [10;0;2;2]) 8080 (fun _ => true) =
    ([DialTunnel "udp" 4 [127;0;0;1] 8080], true).
Proof.
  destruct (nat_dispatch (fun _ => None) None (Some demoResolv) demoOpts [10;0;2;2] [10;0;2;3]
    demoNat fullTunnel [10;0;2;2] 8080 (fun _ => true)) as [H1 H2].
  - exact wf_gw.
  - exact wf_ns.
  - reflexivity.
  - reflexivity.
  - exact demoNat_ok.
  - exact wf_gw.
  - split; [exact H1|exact H2].
Defined.

Theorem subnetOf_covers_witness :
  exists s : Subnet, subnetOf "10.0.2.0/24" = Ok s /\ Contains s [10;0;2;200] = true.
Proof.
  destruct (subnetOf_covers [10;0;2;0] 24) as (s & Hs & Hc).
  - split; [done|repeat constructor; done].
  - done.
  - exists s. split; [exact Hs|]. apply Hc; [split; [done|repeat constructor; done]|].
    split; vm_compute; discriminate.
Defined.
