(* ===== verification/Tunnel.v ===== *)
(** * Tunnel: internal/wgup/tunnel.go

    The tunnel set-up ([Attach]) as the trace of the calls it makes into netstack and
    wireguard-go, the device's configuration text ([deviceConfig]), the bridge
    between the two ([Read], [Write]), the handshake watch, and the part of
    [runInstance] that starts a tunnel. The answers of each call are arguments;
    gVisor's addresses and subnets are the class [Tcpip] of Nat.v. *)
From S2P Require Import Prelude.
From S2P Require Import GoStd.
From S2P Require Import GoText.
From S2P Require Transport.
From S2P Require Import Wg.
From S2P Require Import Nat.

Inductive Mode := ModeStandalone | ModeSwitch.
#[export] Instance Mode_eq_dec : EqDecision Mode.
Proof. solve_decision. Defined.

Definition wgNIC : Z := 2.
Definition wgDefaultMTU : Z := 1420.
Definition wgUpTimeout : Z := 15 * 10 ^ 9.

(** gVisor's protocol numbers. *)
Definition ipv4ProtocolNumber : Z := 0x0800.
Definition ipv6ProtocolNumber : Z := 0x86DD.

(** ** Small helpers *)

Definition as16 (ip : bytes) : bytes := copy_at 0 (To16 ip) (zeros 16).

Definition protoAddr (ipnet : IPNet) : result (Z * bytes) :=
  match To4 (ipnet_IP ipnet) with
  | [] =>
      match To16 (ipnet_IP ipnet) with
      | [] => Err "not an IP"
      | _ => Ok (ipv6ProtocolNumber, as16 (ipnet_IP ipnet))
      end
  | ip4 => Ok (ipv4ProtocolNumber, ip4)
  end.

Definition hasFamily (cidrs : list IPNet) (family : Z) : bool :=
  existsb (fun c => Bool.eqb (negb (bool_decide (To4 (ipnet_IP c) = []))) (family =? 4)) cidrs.

Definition cidrStrings (cidrs : list IPNet) : list string := IPNetString <$> cidrs.

Definition modeName (m : Mode) : string :=
  match m with ModeSwitch => "switch" | ModeStandalone => "standalone" end.

Definition cut (s prefix : string) : string * bool :=
  match CutPrefix s prefix with Some rest => (rest, true) | None => (s, false) end.

(** ** The device's configuration *)

Definition line (key value : string) : string := (key +:+ "=" +:+ value)%string.

(** The lines [deviceConfig] writes, each with its line break. *)
Definition configLines (conf : Conf) (endpoint : string) : list string :=
  [line "private_key" (hexText (PrivateKey conf)); line "public_key" (hexText (PeerKey conf))] ++
  (match PresharedKey conf with [] => [] | k => [line "preshared_key" (hexText k)] end) ++
  [line "endpoint" endpoint] ++
  ((fun a => line "allowed_ip" (IPNetString a)) <$> AllowedIPs conf) ++
  (if 0 <? Keepalive conf then [line "persistent_keepalive_interval" (Itoa (Keepalive conf))] else []).

Definition deviceConfig (conf : Conf) (endpoint : string) : string :=
  fileText (configLines conf endpoint).

Section Attach.
Context `{T : Tcpip}.

Definition subnetOf (ipnet : IPNet) : Subnet :=
  let bits := (MaskSize (ipnet_Mask ipnet)).1 in
  match To4 (ipnet_IP ipnet) with
  | [] => PrefixSubnet (as16 (ipnet_IP ipnet)) bits
  | ip4 => PrefixSubnet ip4 bits
  end.

(** ** Attach *)

(** The calls that change netstack or the device. *)
Inductive call :=
| CreateNIC (nic mtu : Z)
| DadOff (nic : Z)
| AddProtocolAddress (nic proto : Z) (addr : bytes)
| SetPromiscuousMode (nic : Z) (on : bool)
| SetForwarding (proto : Z) (on : bool)
| AddRouteTo (subnet : Subnet) (nic : Z)
| NewDevice (mtu : Z)
| IpcSet (config : string)
| CloseDevice
| EventUp
| WatchHandshake.

(** What the calls answer. *)
Record env := mkEnv {
  nicErr : option string;                       (* CreateNIC *)
  addressErr : bytes -> option string;          (* AddProtocolAddress *)
  ResolveUDPAddr : string -> option string;     (* the resolved address's text *)
  ipcErr : string -> option string;             (* IpcSet *)
}.

(** The loop of switch mode over the addresses ([addAddress]). *)
Fixpoint addAddresses (e : env) (addrs : list IPNet) : list call * option string :=
  match addrs with
  | [] => ([], None)
  | a :: addrs =>
      match protoAddr a with
      | Err x => ([], Some x)
      | Ok (proto, addr) =>
          let c := AddProtocolAddress wgNIC proto addr in
          match addressErr e addr with
          | Some x => ([c], Some x)
          | None => let '(cs, r) := addAddresses e addrs in (c :: cs, r)
          end
      end
  end.

(** The [switch] on the mode. *)
Definition modeCalls (e : env) (guestNIC : Z) (conf : Conf) (mode : Mode) : list call * option string :=
  match mode with
  | ModeSwitch => addAddresses e (Addresses conf)
  | ModeStandalone =>
      (SetPromiscuousMode guestNIC false ::
       ((fun a => AddRouteTo (subnetOf a) guestNIC) <$> Addresses conf) ++
       (if hasFamily (AllowedIPs conf) 4 then [SetForwarding ipv4ProtocolNumber true] else []) ++
       (if hasFamily (AllowedIPs conf) 6 then [SetForwarding ipv6ProtocolNumber true] else []), None)
  end.

Definition tunnelMTU (conf : Conf) : Z := if MTU conf <=? 0 then wgDefaultMTU else MTU conf.

Definition resolvedEndpoint (e : env) (conf : Conf) : string :=
  default (Endpoint conf) (ResolveUDPAddr e (Endpoint conf)).

(** The calls of [Attach] in order, and its error. *)
Definition Attach (e : env) (guestNIC : Z) (conf : Conf) (mode : Mode) : list call * option string :=
  let mtu := tunnelMTU conf in
  let create := CreateNIC wgNIC (u32 mtu) in
  match nicErr e with
  | Some x => ([create], Some x)
  | None =>
      let '(modeCs, r) := modeCalls e guestNIC conf mode in
      let pre := create :: DadOff wgNIC :: modeCs in
      match r with
      | Some x => (pre, Some x)
      | None =>
          let routes := (fun a => AddRouteTo (subnetOf a) wgNIC) <$> AllowedIPs conf in
          let config := deviceConfig conf (resolvedEndpoint e conf) in
          let pre := pre ++ routes ++ [NewDevice mtu; IpcSet config] in
          match ipcErr e config with
          | Some x => (pre ++ [CloseDevice], Some x)
          | None => (pre ++ [EventUp; WatchHandshake], None)
          end
      end
  end.

(** ** Starting a tunnel (runInstance) *)

(** The tunnel part of [runInstance]: the error is its [fatalf]; a tunnel that does not
    attach is skipped. The result is the calls and the NAT to go on with. *)
Definition startTunnel (e : env) (guestNIC : Z) (confPath : result string)
    (load : string -> result Conf) (switchEnabled : bool) (n : NAT) : result (list call * NAT) :=
  let mode := if switchEnabled then ModeSwitch else ModeStandalone in
  path ← confPath; conf ← load path;
  let '(cs, err) := Attach e guestNIC conf mode in
  let n := foldl (fun n c => match c with AddRouteTo s nic => AddRoute (s, nic) n | _ => n end) n cs in
  match err with
  | Some _ => Ok (cs, n)
  | None =>
      Ok (cs, if decide (mode = ModeSwitch) then SetTunnelSubnets (subnetOf <$> AllowedIPs conf) n else n)
  end.

End Attach.

(** ** The bridge between the device and netstack *)

Definition setBuf (b : bytes) (bufs : list bytes) : list bytes :=
  match bufs with [] => [] | _ :: rest => b :: rest end.

(** [bridge.Read]: [pkt] is the next packet netstack routed to the tunnel, none when the
    endpoint is closed. The result is the buffers, the sizes and the packet count. *)
Definition Read (pkt : option bytes) (bufs : list bytes) (sizes : list Z) (offset : Z)
  : go (result (list bytes * list Z * Z)) :=
  match pkt with
  | None => Done (Err "wireguard link closed")
  | Some view =>
      buf0 ← idx bufs 0;
      buf ← slice_from buf0 offset;
      if len buf <? len view then Done (Err "io.ErrShortBuffer") else
      _ ← idx sizes 0;
      Done (Ok (setBuf (copy_at (Z.to_nat offset) view buf0) bufs,
                match sizes with [] => [] | _ :: rest => len view :: rest end, 1))
  end.

(** [bridge.Write]: the packets injected into netstack, with their protocol, and the
    count it returns. *)
Fixpoint Write (bufs : list bytes) (offset : Z) : go (list (Z * bytes) * Z) :=
  match bufs with
  | [] => Done ([], 0)
  | buf :: bufs =>
      p ← slice_from buf offset;
      match p with
      | [] => Write bufs offset
      | p0 :: _ =>
          let v := Z.shiftr p0 4 in
          if v =? 4 then
            '(pkts, n) ← Write bufs offset; Done ((ipv4ProtocolNumber, p) :: pkts, n + 1)
          else if v =? 6 then
            '(pkts, n) ← Write bufs offset; Done ((ipv6ProtocolNumber, p) :: pkts, n + 1)
          else Write bufs offset
      end
  end.

(** What the device asks the bridge besides packets: the bridge's own state, its link size,
    its name and the number of buffers a [Read] gets. *)
Record bridge := mkBridge { br_mtu : Z; br_once : bool }.
Definition newBridge (mtu : Z) : bridge := mkBridge mtu false.
Definition bridgeMTU (b : bridge) : result Z := Ok (br_mtu b).
Definition bridgeName : result string := Ok "wg0"%string.
Definition BatchSize : Z := 1.

(** ** The handshake watch *)

(** [strconv.ParseInt(s, 10, 64)] with its error dropped: 0 for a syntax error, the
    nearest bound for a number out of range. *)
Definition ParseInt (s : string) : Z :=
  let number t := match t with EmptyString => None | _ => parseDigits 0 t end in
  match s with
  | EmptyString => 0
  | String c s' =>
      if Ascii.eqb c "-" then
        match number s' with Some v => Z.max (- v) (- 2 ^ 63) | None => 0 end
      else
        match number (if Ascii.eqb c "+" then s' else s) with
        | Some v => Z.min v (2 ^ 63 - 1) | None => 0 end
  end.

Fixpoint scanHandshake (lines : list string) (secs nsecs : Z) : Z * Z :=
  match lines with
  | [] => (secs, nsecs)
  | l :: lines =>
      match cut l "last_handshake_time_sec=" with
      | (rest, true) => scanHandshake lines (ParseInt rest) nsecs
      | _ =>
          match cut l "last_handshake_time_nsec=" with
          | (rest, true) => scanHandshake lines secs (ParseInt rest)
          | _ => scanHandshake lines secs nsecs
          end
      end
  end.

(** [handshakeTime] of what [IpcGet] returns: seconds and nanoseconds. *)
Definition handshakeTime (out : result string) : option (Z * Z) :=
  match out with
  | Err _ => None
  | Ok out =>
      let '(secs, nsecs) := scanHandshake (Split "010" out) 0 0 in
      if secs =? 0 then None else Some (secs, nsecs)
  end.

(** [time.Unix(secs, nsecs).IsZero()]: the first second of year 1. *)
Definition unixIsZero (t : Z * Z) : bool :=
  (t.1 + t.2 / 10 ^ 9 =? -62135596800) && (t.2 mod 10 ^ 9 =? 0).

Inductive report := Completed | NoHandshake.
#[export] Instance report_eq_dec : EqDecision report.
Proof. solve_decision. Defined.

(** One turn of the loop of [watchHandshake]: whether [t.done] was closed, what IpcGet
    returned, and the time. *)
Record tick := mkTick { t_done : bool; t_ipc : result string; t_now : Z }.

Definition sawHandshake (t : tick) : bool :=
  match handshakeTime (t_ipc t) with Some hs => negb (unixIsZero hs) | None => false end.

(** What [watchHandshake] reports, and whether it has returned. *)
Fixpoint watchLoop (deadline : Z) (ticks : list tick) (warned : bool) : list report * bool :=
  match ticks with
  | [] => ([], false)
  | t :: ticks =>
      if t_done t then ([], true)
      else if sawHandshake t then ([Completed], true)
      else if negb warned && (deadline <? t_now t) then
        let '(rs, ended) := watchLoop deadline ticks true in (NoHandshake :: rs, ended)
      else watchLoop deadline ticks warned
  end.

Definition watchHandshake (start : Z) (ticks : list tick) : list report * bool :=
  watchLoop (start + wgUpTimeout) ticks false.

(** ** Closing *)

Inductive closing := CancelContext | DeviceClose | EndpointClose | EventsClose.

(** [Tunnel.Close]; it does not close [t.done]. *)
Definition Close : list closing := [CancelContext; DeviceClose; EndpointClose].

(** [bridge.Close]: whether its [once] has run, before and after. *)
Definition bridgeClose (once : bool) : list closing * bool :=
  ((if once then [] else [EventsClose]) ++ [EndpointClose], true).

Fixpoint bridgeCloses (n : nat) (once : bool) : list closing :=
  match n with
  | O => []
  | S n => let '(cs, once) := bridgeClose once in cs ++ bridgeCloses n once
  end.

(** ** Theorems: IPv4 networks *)

(** The IPv4 network a configuration's entry denotes: its address and mask. *)
Definition v4net (a : IPNet) (ip : bytes) (k : Z) : Prop :=
  wf_ip4 ip /\ 0 <= k <= 32 /\ To4 (ipnet_IP a) = ip /\ ipnet_Mask a = CIDRMask k 4.

Lemma wf_net_v4 a : wf_net a -> length (ipnet_Mask a) = 4%nat -> exists ip k, v4net a ip k.
Proof.
  intros ([_ Hw] & (k & Hk & Hm) & Hl) H4. unfold len in Hk. rewrite H4 in Hk, Hm.
  assert (Hl4 : length (To4 (ipnet_IP a)) = 4%nat).
  { destruct Hl as [Hl|[_ Hl]]; [|done]. unfold To4. rewrite <- Hl, H4. cbn. lia. }
  exists (To4 (ipnet_IP a)), k. split_and!; [split; [done|]|lia..|done|done].
  unfold To4. destruct (_ =? 4)%nat; [done|]. destruct (_ && _); [|constructor].
  by apply wf_bytes_drop.
Qed.

Lemma mask_v4 k :
  0 <= k <= 32 -> maskOnes (CIDRMask k 4) = Some k /\ MaskSize (CIDRMask k 4) = (k, 32).
Proof.
  revert k. apply prefix_cases. refine (bool_decide_unpack _ _). vm_compute. exact I.
Qed.

Lemma v4net_text a ip k :
  v4net a ip k -> IPNetString a = (v4String ip +:+ String "/" (Itoa k))%string.
Proof.
  intros (Hip & Hk & H4 & Hm). unfold IPNetString.
  assert (E : match To4 (ipnet_IP a) with [] => ipnet_IP a | ip4 => ip4 end = ip).
  { rewrite H4. destruct ip; [by destruct Hip|done]. }
  rewrite E, Hm, length_CIDRMask, (proj1 Hip). cbn [Nat.eqb andb orb length].
  rewrite length_CIDRMask. cbn [Nat.eqb]. rewrite (proj1 (mask_v4 k Hk)).
  assert (Es : IPString ip = v4String ip).
  { unfold IPString, To4. destruct ip as [|x ip]; [by destruct Hip|].
    by rewrite (proj1 Hip). }
  by rewrite Es.
Qed.

Lemma Contains_subnetOf `{TL : TcpipLaws} a ip k dst :
  v4net a ip k -> wf_ip4 dst ->
  Contains (subnetOf a) dst = bool_decide (maskBytes dst (CIDRMask k 4) = maskBytes ip (CIDRMask k 4)).
Proof.
  intros (Hip & Hk & H4 & Hm) Hdst. unfold subnetOf. rewrite Hm, (proj2 (mask_v4 k Hk)), H4.
  cbn [fst]. destruct ip as [|x ip]; [by destruct Hip|]. rewrite PrefixSubnet_spec by lia. cbv zeta. rewrite (proj1 Hip), (proj1 Hdst). done.
Qed.

(** ** The device's text *)

Lemma hexText_free c b :
  containsByte c "0123456789abcdef" = false -> wf_bytes b ->
  containsByte c (hexText b) = false.
Proof.
  intros Hc Hb. unfold hexText.
  assert (Ho : forall x, is_byte x -> containsByte c (hexOctet x) = false).
  { intros x Hx. assert (Hd : forall d, 0 <= d < 16 -> Ascii.eqb (hexDigit d) c = false).
    { intros d Hd. destruct (Ascii.eqb_spec (hexDigit d) c) as [<-|]; [|done]. exfalso.
      assert (H : Forall (fun d => containsByte (hexDigit d) "0123456789abcdef" = true) (seqZ 0 16))
        by (refine (bool_decide_unpack _ _); vm_compute; exact I).
      rewrite Forall_forall in H. rewrite H in Hc by (apply elem_of_seqZ; lia). done. }
    unfold is_byte in Hx. unfold hexOctet. cbn [containsByte].
    rewrite !Hd; [done|apply Z.mod_pos_bound; lia|].
    split; [apply Z.div_pos; lia|apply Z.div_lt_upper_bound; lia]. }
  induction Hb as [|x b Hx _ IH]; [done|]. destruct b as [|y b]; [by apply Ho|].
  change (String.concat "" (hexOctet <$> x :: y :: b)) with
    (hexOctet x +:+ "" +:+ String.concat "" (hexOctet <$> y :: b))%string.
  by rewrite !containsByte_app, Ho, IH.
Qed.

Lemma configLines_free conf endpoint :
  wf_conf conf -> Forall (fun a => containsByte "010" (IPNetString a) = false) (AllowedIPs conf) ->
  containsByte "010" endpoint = false ->
  Forall (fun l => containsByte "010" l = false) (configLines conf endpoint).
Proof.
  intros (Hf & [_ Hp] & [_ Hq] & _ & _) Ha He.
  assert (Hl : forall k v, containsByte "010" k = false -> containsByte "010" v = false ->
    containsByte "010" (line k v) = false).
  { intros k v Hk Hv. unfold line. by rewrite !containsByte_app, Hk, Hv. }
  unfold configLines. repeat first [apply Forall_cons; split | apply Forall_app; split | apply Forall_nil; exact I].
  - apply Hl; [done|]. by apply hexText_free.
  - apply Hl; [done|]. by apply hexText_free.
  - destruct (wf_psk _ Hf) as [-> | [Hk Hw]]; [constructor|]. destruct (PresharedKey conf) as [|x k] eqn:Ek; [constructor|].
    constructor; [|constructor]. apply Hl; [done|]. by apply hexText_free.
  - by apply Hl.
  - apply Forall_fmap. eapply Forall_impl; [exact Ha|]. intros a Hna. by apply Hl.
  - destruct (0 <? Keepalive conf); constructor; [|constructor]. apply Hl; [done|].
    apply digits_free; [done|]. apply digits_Itoa. pose proof (wf_keepalive _ Hf). lia.
Qed.


(** How the device reads its configuration: the texts of its allowed networks, and
    whether one of them covers a destination. *)
Definition deviceNets (config : string) : list string :=
  omap (fun l => match cut l "allowed_ip=" with (t, true) => Some t | _ => None end)
       (Split "010" config).
Definition deviceAllows (config : string) (dst : bytes) : Prop :=
  exists t net, t ∈ deviceNets config /\ ParseCIDR t = Some net /\
    maskBytes dst (ipnet_Mask net) = ipnet_IP net.

Lemma deviceNets_config conf endpoint :
  wf_conf conf -> Forall (fun a => containsByte "010" (IPNetString a) = false) (AllowedIPs conf) ->
  containsByte "010" endpoint = false ->
  deviceNets (deviceConfig conf endpoint) = IPNetString <$> AllowedIPs conf.
Proof.
  intros Hc Ha He. unfold deviceNets, deviceConfig.
  rewrite fileText_lines by by apply configLines_free.
  unfold configLines. rewrite !omap_app.
  assert (E : forall l : list IPNet, omap (fun l => match cut l "allowed_ip=" with (t, true) => Some t | _ => None end)
      ((fun a => line "allowed_ip" (IPNetString a)) <$> l) = IPNetString <$> l).
  { induction l as [|a l IH]; [done|]. cbn [fmap list_fmap omap list_omap]. unfold cut, line at 1.
    rewrite (CutPrefix_same "allowed_ip=" (IPNetString a) :
      CutPrefix ("allowed_ip" +:+ "=" +:+ IPNetString a) "allowed_ip=" = _).
    f_equal. exact IH. }
  rewrite E. destruct (PresharedKey conf), (0 <? Keepalive conf); cbn; by rewrite ?app_nil_r.
Qed.

Lemma v4net_free a ip k : v4net a ip k -> containsByte "010" (IPNetString a) = false.
Proof.
  intros H. rewrite (v4net_text a ip k H). destruct H as (Hip & Hk & _).
  rewrite containsByte_app, v4String_free by done.
  change (containsByte "010" (Itoa k) = false). apply digits_free; [done|apply digits_Itoa; lia].
Qed.

(** ** The calls of Attach *)

Definition configsOf `{Tcpip} (cs : list call) : list string :=
  omap (fun c => match c with IpcSet x => Some x | _ => None end) cs.

Section Calls.
Context `{T : Tcpip}.

(** What each call may be, by mode. *)
Definition callOk (nic : Z) (conf : Conf) (mode : Mode) (c : call) : Prop :=
  match c with
  | AddProtocolAddress n _ _ => mode = ModeSwitch /\ n = wgNIC
  | SetPromiscuousMode n on => mode = ModeStandalone /\ n = nic /\ on = false
  | SetForwarding p on => mode = ModeStandalone /\ on = true /\
      ((p = ipv4ProtocolNumber /\ hasFamily (AllowedIPs conf) 4 = true) \/
       (p = ipv6ProtocolNumber /\ hasFamily (AllowedIPs conf) 6 = true))
  | AddRouteTo s n =>
      (n = wgNIC /\ exists a, a ∈ AllowedIPs conf /\ s = subnetOf a) \/
      (mode = ModeStandalone /\ n = nic /\ exists a, a ∈ Addresses conf /\ s = subnetOf a)
  | _ => True
  end.

Lemma addAddresses_calls e addrs :
  Forall (fun c => exists p a, c = AddProtocolAddress wgNIC p a) (addAddresses e addrs).1.
Proof.
  induction addrs as [|a addrs IH]; cbn [addAddresses]; [constructor|].
  destruct (protoAddr a) as [[p ad]|]; [|constructor].
  destruct (addressErr e ad); [repeat constructor; eauto|].
  destruct (addAddresses e addrs) as [cs r]. constructor; eauto.
Qed.

Lemma modeCalls_ok e nic conf mode : Forall (callOk nic conf mode) (modeCalls e nic conf mode).1.
Proof.
  destruct mode; cbn [modeCalls fst].
  - constructor; [done|]. apply Forall_app; split; [|apply Forall_app; split].
    + apply Forall_fmap, Forall_forall. intros a Ha. right. eauto.
    + destruct (hasFamily _ 4) eqn:E; [|constructor]. apply Forall_singleton. split_and!; auto.
    + destruct (hasFamily _ 6) eqn:E; [|constructor]. apply Forall_singleton. split_and!; auto.
  - eapply Forall_impl; [apply addAddresses_calls|]. by intros c (p & a & ->).
Qed.

Lemma configsOf_mode e nic conf mode : configsOf (modeCalls e nic conf mode).1 = [].
Proof.
  destruct mode; cbn [modeCalls fst].
  - unfold configsOf. cbn [omap list_omap]. rewrite !omap_app.
    assert (E : forall l : list IPNet, omap (fun c => match c with IpcSet x => Some x | _ => None end)
      ((fun a => AddRouteTo (subnetOf a) nic) <$> l) = []) by (by induction l).
    rewrite E. by destruct (hasFamily _ 4), (hasFamily _ 6).
  - pose proof (addAddresses_calls e (Addresses conf)) as H.
    induction H as [|c cs (p & a & ->) _ IH]; [done|exact IH].
Qed.

Lemma Attach_calls e nic conf mode : Forall (callOk nic conf mode) (Attach e nic conf mode).1.
Proof.
  unfold Attach. cbv zeta. pose proof (modeCalls_ok e nic conf mode) as Hm.
  destruct (nicErr e); [by repeat constructor|].
  destruct (modeCalls e nic conf mode) as [mcs r]. cbn [fst] in Hm.
  assert (Hr : Forall (callOk nic conf mode) ((fun a => AddRouteTo (subnetOf a) wgNIC) <$> AllowedIPs conf)).
  { apply Forall_fmap, Forall_forall. intros a Ha. left. eauto. }
  destruct r; [by repeat constructor|].
  destruct (ipcErr e _); cbn [fst app];
    repeat first [apply Forall_cons; split | apply Forall_app; split | done].
Qed.

End Calls.

Section Theorems.
Context `{TL : TcpipLaws}.

(** Adding routes changes the route table only. *)
Lemma addRoutes_tables (cs : list call) (n : NAT) :
  let n' := foldl (fun n c => match c with AddRouteTo s nic => AddRoute (s, nic) n | _ => n end) n cs in
  TunnelSubnets n' = TunnelSubnets n /\
  routes n' = routes n ++ omap (fun c => match c with AddRouteTo s nic => Some (s, nic) | _ => None end) cs.
Proof.
  revert n. induction cs as [|c cs IH]; intros n; cbn [foldl omap list_omap]; [by rewrite app_nil_r|].
  destruct (IH (match c with AddRouteTo s nic => AddRoute (s, nic) n | _ => n end)) as [E1 E2].
  rewrite E1, E2. destruct c; try done. cbn [routes AddRoute TunnelSubnets]. by rewrite <- app_assoc.
Qed.

Lemma addRoutes_own (cs : list call) (n : NAT) :
  let n' := foldl (fun n c => match c with AddRouteTo s nic => AddRoute (s, nic) n | _ => n end) n cs in
  localAddrs n' = localAddrs n /\ dnsAddrs n' = dnsAddrs n.
Proof.
  revert n. induction cs as [|c cs IH]; intros n; cbn [foldl]; [done|].
  destruct (IH (match c with AddRouteTo s nic => AddRoute (s, nic) n | _ => n end)) as [E1 E2].
  rewrite E1, E2. by destruct c.
Qed.

Lemma Attach_config e nic conf mode cs :
  Attach e nic conf mode = (cs, None) -> configsOf cs = [deviceConfig conf (resolvedEndpoint e conf)].
Proof.
  unfold Attach. cbv zeta. destruct (nicErr e); [done|].
  pose proof (configsOf_mode e nic conf mode) as Hm.
  destruct (modeCalls e nic conf mode) as [mcs r]. cbn [fst] in Hm.
  destruct r; [done|]. destruct (ipcErr e _); [done|]. intros E. apply (f_equal fst) in E. cbn [fst] in E. subst cs. unfold configsOf in *.
  rewrite !omap_app. cbn [omap list_omap]. rewrite Hm. cbn [app].
  assert (E : forall l : list IPNet, omap (fun c => match c with IpcSet x => Some x | _ => None end)
    ((fun a => AddRouteTo (subnetOf a) wgNIC) <$> l) = []) by (by induction l).
  by rewrite E.
Qed.

(** What goes into the tunnel after it has attached in switch mode: for an IPv4 destination
    [dialsTunnel] is the device's own answer, and the NAT's other tables are unchanged. *)
Lemma tunnel_dials data path c e nic n cs n' :
  Parse data path = Ok c ->
  Forall (fun a => length (ipnet_Mask a) = 4%nat) (AllowedIPs c) ->
  containsByte "010" (resolvedEndpoint e c) = false ->
  startTunnel e nic (Ok path) (fun _ => Ok c) true n = Ok (cs, n') ->
  (Attach e nic c ModeSwitch).2 = None ->
  exists config, configsOf cs = [config] /\
    (localAddrs n' = localAddrs n /\ dnsAddrs n' = dnsAddrs n) /\
    forall dst, wf_ip4 dst -> dialsTunnel dst n' = true <-> deviceAllows config dst.
Proof.
  intros Hp H4 He Hs Ha.
  assert (Hwf : wf_conf c) by (apply Parse_fields in Hp as [? ?]; by apply complete_wf).
  assert (Hnets : Forall (fun a => exists ip k, v4net a ip k) (AllowedIPs c)).
  { pose proof (wf_allowed _ (proj1 Hwf)) as Hall. rewrite Forall_forall in Hall, H4 |- *.
    intros a Hin. apply wf_net_v4; auto. }
  unfold startTunnel in Hs. cbn [mbind result_bind] in Hs.
  destruct (Attach e nic c ModeSwitch) as [cs0 err] eqn:EA. cbn [snd] in Ha. subst err.
  rewrite decide_True in Hs by done. cbn iota in Hs.
  assert (cs0 = cs) as -> by congruence.
  assert (n' = SetTunnelSubnets (subnetOf <$> AllowedIPs c) (foldl (fun n c =>
    match c with AddRouteTo s nic => AddRoute (s, nic) n | _ => n end) n cs)) as -> by congruence.
  exists (deviceConfig c (resolvedEndpoint e c)). split; [by eapply Attach_config|]. split.
  { apply addRoutes_own. }
  intros dst Hdst.
  unfold deviceAllows. rewrite deviceNets_config; [|done| |done].
  2:{ eapply Forall_impl; [exact Hnets|]. intros a (ip & k & Hv). by eapply v4net_free. }
  unfold dialsTunnel. cbn [TunnelSubnets SetTunnelSubnets].
  rewrite existsb_exists. split.
  - intros (s & Hs' & Hc). apply list_elem_of_In, list_elem_of_fmap in Hs' as (a & -> & Hin).
    rewrite Forall_forall in Hnets. destruct (Hnets a Hin) as (ip & k & Hv).
    rewrite (Contains_subnetOf a ip k dst Hv Hdst), bool_decide_eq_true in Hc.
    exists (IPNetString a), (mkIPNet (maskBytes ip (CIDRMask k 4)) (CIDRMask k 4)).
    split; [by apply list_elem_of_fmap_2|]. rewrite (v4net_text a ip k Hv).
    split; [by apply ParseCIDR_v4; apply Hv|exact Hc].
  - intros (t & net & (a & -> & Hin)%list_elem_of_fmap & Hn & Hc).
    rewrite Forall_forall in Hnets. destruct (Hnets a Hin) as (ip & k & Hv).
    rewrite (v4net_text a ip k Hv), ParseCIDR_v4 in Hn by apply Hv.
    assert (net = mkIPNet (maskBytes ip (CIDRMask k 4)) (CIDRMask k 4)) as -> by congruence.
    exists (subnetOf a). split; [apply list_elem_of_In; by apply list_elem_of_fmap_2|].
    rewrite (Contains_subnetOf a ip k dst Hv Hdst). by apply bool_decide_eq_true.
Qed.

(** Where the NAT sends a flow to [dst] that is not for its name server: one to its own
    addresses to the host's loopback. *)
Definition udpTarget (n : NAT) (dst : bytes) : bytes :=
  if bool_decide (AddrString dst ∈ localAddrs n) then localhost else dst.

(** C14: the NAT, netstack and the device agree on what goes into the tunnel. For every
    accepted configuration whose allowed networks are IPv4 (with a 4-byte mask) that
    attaches in switch mode, and every IPv4 destination: a guest's TCP connection is dialed
    into the tunnel exactly when the device's configuration, read back from its text, allows
    the destination for the peer and it is none of the NAT's own addresses; a UDP flow, other than
    to the name server's port 53, exactly when the text allows the address it is sent to,
    which is the destination itself, or 127.0.0.1 for the NAT's own addresses. The text
    carries these networks only, because nothing in the file can smuggle a line into it. *)
Theorem tunnel_agreement data path c e nic n cs n' dst port :
  Parse data path = Ok c ->
  Forall (fun a => length (ipnet_Mask a) = 4%nat) (AllowedIPs c) ->
  containsByte "010" (resolvedEndpoint e c) = false ->
  startTunnel e nic (Ok path) (fun _ => Ok c) true n = Ok (cs, n') ->
  (Attach e nic c ModeSwitch).2 = None ->
  wf_ip4 dst ->
  exists config, configsOf cs = [config] /\
    (tcpDial n' dst port = DialTunnel "tcp" 4 dst port <->
       AddrString dst ∉ localAddrs n /\ deviceAllows config dst) /\
    (~ (port = 53 /\ AddrString dst ∈ dnsAddrs n) -> forall dialOk,
       (dialUDP n' (AddrString dst) port dialOk).1 = [DialTunnel "udp" 4 (udpTarget n dst) port] <->
       deviceAllows config (udpTarget n dst)).
Proof.
  intros Hp H4 He Hs Ha Hdst.
  destruct (tunnel_dials data path c e nic n cs n' Hp H4 He Hs Ha) as (config & Hc & [El Ed] & Hall).
  exists config. split; [done|]. split.
  - unfold tcpDial. rewrite El. case_bool_decide as Hl; [by split; [|intros [? _]]|].
    rewrite <- (Hall dst Hdst). unfold len. rewrite (proj1 Hdst). destruct (dialsTunnel dst n'); [|by split; [|intros [_ ?]]].
    by split.
  - intros Hdns dialOk. assert (Hlh : wf_ip4 localhost) by (split; [done|repeat constructor; done]).
    assert (Ht : wf_ip4 (udpTarget n dst)) by (unfold udpTarget; by case_bool_decide).
    rewrite <- (Hall _ Ht). unfold dialUDP. rewrite Ed.
    assert ((port =? 53) && bool_decide (AddrString dst ∈ dnsAddrs n) = false) as ->.
    { destruct (Z.eqb_spec port 53); [|done]. case_bool_decide; [by destruct Hdns|done]. }
    assert ((if bool_decide (AddrString dst ∈ localAddrs n') then "127.0.0.1"%string else AddrString dst) =
      v4String (udpTarget n dst)) as ->.
    { rewrite El. unfold udpTarget. case_bool_decide; [done|by apply AddrString_v4]. }
    pose proof (udp_plain n' (udpTarget n dst) port Ht) as E. cbv zeta in E |- *. cbn [fst]. rewrite E.
    unfold plainDial. by destruct (dialsTunnel (udpTarget n dst) n').
Qed.

Lemma addAddresses_ok e addrs cs :
  addAddresses e addrs = (cs, None) ->
  Forall2 (fun a c => exists p ad, protoAddr a = Ok (p, ad) /\ c = AddProtocolAddress wgNIC p ad) addrs cs.
Proof.
  revert cs. induction addrs as [|a addrs IH]; intros cs; cbn [addAddresses]; [by intros [= <-]|].
  destruct (protoAddr a) as [[p ad]|] eqn:Ep; [|done]. destruct (addressErr e ad); [done|].
  destruct (addAddresses e addrs) as [cs' r]. intros [= <- ->]. constructor; [eauto|by apply IH].
Qed.

(** What an attempt has done to the stack: the addresses it gave out, each with the NIC
    that got it, the families it forwards, whether promiscuous mode went off, its routes. *)
Definition assigned (cs : list call) : list (Z * (Z * bytes)) :=
  omap (fun c => match c with AddProtocolAddress nic p a => Some (nic, (p, a)) | _ => None end) cs.
Definition routed (cs : list call) : list (Subnet * Z) :=
  omap (fun c => match c with AddRouteTo s nic => Some (s, nic) | _ => None end) cs.

Lemma routed_app a b : routed (a ++ b) = routed a ++ routed b.
Proof. apply omap_app. Qed.
Lemma routed_nets l nic : routed ((fun a => AddRouteTo (subnetOf a) nic) <$> l) =
  (fun a => (subnetOf a, nic)) <$> l.
Proof. induction l as [|a l IH]; [done|]. cbn. by f_equal. Qed.

Lemma hasFamily_spec l f :
  f = 4 \/ f = 6 ->
  hasFamily l f = true <-> exists a, a ∈ l /\ if decide (f = 4) then To4 (ipnet_IP a) <> [] else To4 (ipnet_IP a) = [].
Proof.
  intros Hf. unfold hasFamily. rewrite existsb_exists. split; intros (a & Ha & E); exists a; rewrite list_elem_of_In in *;
    (split; [done|]); destruct Hf as [-> | ->]; cbn in *; case_bool_decide; done.
Qed.

(** An attempt that succeeded, taken apart. *)
Lemma Attach_ok e nic conf mode cs :
  Attach e nic conf mode = (cs, None) ->
  exists mcs, modeCalls e nic conf mode = (mcs, None) /\
    cs = CreateNIC wgNIC (u32 (tunnelMTU conf)) :: DadOff wgNIC ::
      (mcs ++ ((fun a => AddRouteTo (subnetOf a) wgNIC) <$> AllowedIPs conf) ++
       [NewDevice (tunnelMTU conf); IpcSet (deviceConfig conf (resolvedEndpoint e conf))]) ++
      [EventUp; WatchHandshake].
Proof.
  unfold Attach. cbv zeta. destruct (nicErr e); [done|].
  destruct (modeCalls e nic conf mode) as [mcs [x|]]; [done|]. destruct (ipcErr e _); [done|].
  intros E. apply (f_equal fst) in E. cbn [fst] in E. subst cs. by exists mcs.
Qed.

(** Whatever comes of it, an attempt that got its NIC and its addresses has made all the
    calls of its mode. *)
Lemma Attach_mode_calls e nic conf mode mcs :
  nicErr e = None -> modeCalls e nic conf mode = (mcs, None) ->
  forall c, c ∈ mcs -> c ∈ (Attach e nic conf mode).1.
Proof.
  intros Hn Hm c Hc. unfold Attach. cbv zeta. rewrite Hn, Hm.
  destruct (ipcErr e _); cbn [fst app]; rewrite !elem_of_cons, !elem_of_app; auto.
Qed.

Lemma assigned_mode addrs cs :
  Forall2 (fun a c => exists p ad, protoAddr a = Ok (p, ad) /\ c = AddProtocolAddress wgNIC p ad) addrs cs ->
  Forall2 (fun a x => x.1 = wgNIC /\ protoAddr a = Ok x.2) addrs (assigned cs).
Proof.
  induction 1 as [|a c addrs cs (p & ad & E & ->) _ IH]; [constructor|]. by constructor.
Qed.

Lemma assigned_nets l nic : assigned ((fun a => AddRouteTo (subnetOf a) nic) <$> l) = [].
Proof. by induction l. Qed.

Lemma switch_assigned e nic conf cs :
  Attach e nic conf ModeSwitch = (cs, None) ->
  Forall2 (fun a x => x.1 = wgNIC /\ protoAddr a = Ok x.2) (Addresses conf) (assigned cs).
Proof.
  intros H. destruct (Attach_ok _ _ _ _ _ H) as (mcs & Hm & ->).
  apply addAddresses_ok, assigned_mode in Hm. unfold assigned in *. cbn [omap list_omap].
  rewrite !omap_app. change (omap _ ((fun a => AddRouteTo (subnetOf a) wgNIC) <$> AllowedIPs conf))
    with (assigned ((fun a => AddRouteTo (subnetOf a) wgNIC) <$> AllowedIPs conf)).
  rewrite assigned_nets. cbn. by rewrite !app_nil_r.
Qed.

(** C34: the two modes. A standalone attempt never gives an address to netstack: it turns
    promiscuous mode off on the guest's NIC and forwards exactly the families the allowed
    networks have. In switch mode nothing is forwarded, promiscuous mode is left
    alone and no NIC but the tunnel's gets an address; success means that the tunnel's NIC
    got, in order, every address of the configuration - as the parser left it, which is the
    network's address ([switch_address_loses_host]). In
    both, the routes of a tunnel that is up are the allowed networks into the tunnel and,
    standalone, the tunnel's addresses back to the guest. *)
Theorem Attach_modes e nic conf mode cs r :
  Attach e nic conf mode = (cs, r) ->
  match mode with
  | ModeStandalone =>
      assigned cs = [] /\
      (nicErr e = None -> SetPromiscuousMode nic false ∈ cs /\
        forall f p, (f = 4 /\ p = ipv4ProtocolNumber) \/ (f = 6 /\ p = ipv6ProtocolNumber) ->
          SetForwarding p true ∈ cs <-> hasFamily (AllowedIPs conf) f = true)
  | ModeSwitch =>
      (forall p on, SetForwarding p on ∉ cs) /\ (forall n on, SetPromiscuousMode n on ∉ cs) /\
      (forall x, x ∈ assigned cs -> x.1 = wgNIC) /\
      (r = None -> Forall2 (fun a x => x.1 = wgNIC /\ protoAddr a = Ok x.2) (Addresses conf) (assigned cs))
  end /\
  (r = None -> routed cs =
    (if decide (mode = ModeStandalone) then (fun a => (subnetOf a, nic)) <$> Addresses conf else []) ++
    ((fun a => (subnetOf a, wgNIC)) <$> AllowedIPs conf)).
Proof.
  intros H. pose proof (Attach_calls e nic conf mode) as Hc. rewrite H in Hc. cbn [fst] in Hc.
  rewrite Forall_forall in Hc. split; [destruct mode; split_and!|].
  - apply elem_of_nil_inv. intros x (c & Hin & E)%list_elem_of_omap. specialize (Hc c Hin).
    by destruct c; try done; destruct Hc.
  - intros Hnic. assert (Hall := Attach_mode_calls e nic conf ModeStandalone _ Hnic eq_refl).
    rewrite H in Hall. cbn [fst] in Hall. split; [apply Hall; by left|].
    intros f p Hfp. split.
    + intros Hin. destruct (Hc _ Hin) as (_ & _ & [[-> E]|[-> E]]);
        destruct Hfp as [[-> Hp]|[-> Hp]]; done.
    + intros E. apply Hall. rewrite elem_of_cons, !elem_of_app. right. right.
      destruct Hfp as [[-> ->]|[-> ->]]; [left|right]; rewrite E; by left.
  - intros p on Hin. by destruct (Hc _ Hin).
  - intros n on Hin. by destruct (Hc _ Hin).
  - intros x (c & Hin & E)%list_elem_of_omap. pose proof (Hc c Hin) as Hok. destruct c; try done.
    injection E as <-. apply Hok.
  - intros ->. by eapply switch_assigned.
  - intros ->. destruct (Attach_ok _ _ _ _ _ H) as (mcs & Hm & ->).
    change (routed (?a :: ?b :: ?l)) with (routed ([a; b] ++ l)).
    rewrite !routed_app, routed_nets. cbn [routed omap list_omap app]. rewrite !app_nil_r. f_equal.
    destruct mode; cbn [modeCalls] in Hm.
    + rewrite decide_True by done. injection Hm as <-.
      change (routed (?a :: ?l)) with (routed ([a] ++ l)). rewrite !routed_app, routed_nets.
      destruct (hasFamily _ 4), (hasFamily _ 6); cbn; by rewrite app_nil_r.
    + rewrite decide_False by done. pose proof (addAddresses_calls e (Addresses conf)) as Hall.
      rewrite Hm in Hall. clear -Hall. cbn [fst] in Hall.
      by induction Hall as [|c l (p & a & ->) _ IH].
Qed.

(** The handshake watch is the last step of an attempt that succeeds, and of no other. *)
Lemma Attach_watch e nic conf mode cs r :
  Attach e nic conf mode = (cs, r) ->
  match r with None => last cs = Some WatchHandshake | Some _ => WatchHandshake ∉ cs end.
Proof.
  assert (Hm : WatchHandshake ∉ (modeCalls e nic conf mode).1).
  { intros Hin. destruct mode; cbn in Hin.
    - apply elem_of_cons in Hin as [?|Hin]; [done|]. rewrite !elem_of_app in Hin.
      destruct Hin as [(a & ? & _)%list_elem_of_fmap|[Hin|Hin]]; [done| |];
        destruct (hasFamily _ _); try (by apply list_elem_of_singleton in Hin); by apply elem_of_nil in Hin.
    - pose proof (addAddresses_calls e (Addresses conf)) as Hall. rewrite Forall_forall in Hall.
      destruct (Hall _ Hin) as (p & a & [=]). }
  unfold Attach. cbv zeta. destruct (nicErr e) as [x|].
  { intros [= <- <-]. by intros H%list_elem_of_singleton. }
  destruct (modeCalls e nic conf mode) as [ms rm]. cbn [fst] in Hm.
  assert (Hp : WatchHandshake ∉ CreateNIC wgNIC (u32 (tunnelMTU conf)) :: DadOff wgNIC :: ms)
    by (rewrite !elem_of_cons; intros [?|[?|?]]; done).
  destruct rm as [x|]; [intros [= <- <-]; exact Hp|].
  destruct (ipcErr e _) as [x|]; intros E; apply pair_eq in E as [<- <-].
  - rewrite !elem_of_app. intros [[Hin|[(a & ? & _)%list_elem_of_fmap|Hin]]|Hin]; try done.
    + rewrite !elem_of_cons in Hin. destruct Hin as [?|[?|Hin]]; [done..|by apply elem_of_nil in Hin].
    + by apply list_elem_of_singleton in Hin.
  - change [EventUp; WatchHandshake] with ([EventUp] ++ [WatchHandshake]). rewrite app_assoc. apply last_snoc.
Qed.

(** a failed attempt is not undone. Standalone, when the device refuses its
    configuration, the instance goes on without the tunnel - but promiscuous mode, which
    the NAT path needs, stays off on the guest's NIC, and the routes into the dead
    tunnel stay in the table. *)
Theorem attach_failure_not_undone e nic conf path n x :
  nicErr e = None -> ipcErr e (deviceConfig conf (resolvedEndpoint e conf)) = Some x ->
  exists cs n', startTunnel e nic (Ok path) (fun _ => Ok conf) false n = Ok (cs, n') /\
    SetPromiscuousMode nic false ∈ cs /\ (forall m, SetPromiscuousMode m true ∉ cs) /\
    (forall a, a ∈ AllowedIPs conf -> (subnetOf a, wgNIC) ∈ routes n') /\
    TunnelSubnets n' = TunnelSubnets n.
Proof.
  intros Hn Hx. unfold startTunnel. cbn [mbind result_bind].
  pose proof (Attach_calls e nic conf ModeStandalone) as Hc.
  assert (Hall := Attach_mode_calls e nic conf ModeStandalone _ Hn eq_refl).
  assert (Hr : (Attach e nic conf ModeStandalone).2 = Some x /\
    forall a, a ∈ AllowedIPs conf -> AddRouteTo (subnetOf a) wgNIC ∈ (Attach e nic conf ModeStandalone).1).
  { unfold Attach. cbv zeta. rewrite Hn. cbn [modeCalls]. rewrite Hx. split; [done|].
    intros a Ha. cbn [fst app]. rewrite !elem_of_cons, !elem_of_app. do 3 right. left. right. left.
    by apply list_elem_of_fmap_2 with (f := fun a => AddRouteTo (subnetOf a) wgNIC). }
  destruct (Attach e nic conf ModeStandalone) as [cs err]. cbn [fst snd] in *. destruct Hr as [-> Hr].
  eexists cs, _. split; [reflexivity|].
  destruct (addRoutes_tables cs n) as [Et Er]. split_and!.
  - apply Hall. by left.
  - intros m Hin. rewrite Forall_forall in Hc. destruct (Hc _ Hin) as (_ & _ & [=]).
  - intros a Ha. rewrite Er. apply elem_of_app. right. apply list_elem_of_omap.
    by exists (AddRouteTo (subnetOf a) wgNIC); auto.
  - exact Et.
Qed.

(** the two packages agree on subnets. For the text of an IPv4 prefix, the subnet
    internal/nat derives from it and the subnet internal/wgup derives from the network
    it parses contain the same IPv4 addresses. *)
Theorem subnetOf_equiv ip k :
  wf_ip4 ip -> 0 <= k <= 32 ->
  let text := (v4String ip +:+ String "/" (Itoa k))%string in
  exists s net, Nat.subnetOf text = Ok s /\ parseCIDRs text = Ok [net] /\
    forall dst, wf_ip4 dst -> Contains (subnetOf net) dst = Contains s dst.
Proof.
  intros Hip Hk text. set (m := CIDRMask k 4). set (net := mkIPNet (maskBytes ip m) m).
  destruct (maskBytes_val ip k Hip Hk) as [Hm _]. destruct (CIDRMask_val k Hk) as [Hc _].
  fold m in Hm, Hc.
  assert (E4 : To4 (maskBytes ip m) = maskBytes ip m) by (unfold To4; by rewrite (proj1 Hm)).
  destruct (NewSubnet_spec (maskBytes ip m) m) as (s & Hs & Hco);
    [by rewrite (proj1 Hm), (proj1 Hc)|apply maskBytes_idem|].
  exists s, net. split_and!.
  - unfold Nat.subnetOf, text. rewrite ParseCIDR_v4 by done. cbn [ipnet_IP ipnet_Mask]. fold m.
    rewrite E4. destruct (maskBytes ip m); [by destruct Hm|exact Hs].
  - apply (parseCIDRs_list [text] [net]); [done|]. constructor; [by apply isNet_v4|constructor].
  - intros dst Hdst. rewrite (Contains_subnetOf net (maskBytes ip m) k dst) by done.
    fold m. rewrite maskBytes_idem, Hco by by rewrite (proj1 Hdst), (proj1 Hm). done.
Qed.

(** in switch mode the tunnel NIC gets the network's address, not the host's: of
    Address = IP/K only the masked IP survives the parser. *)
Theorem switch_address_loses_host e nic conf cs ip k :
  wf_ip4 ip -> 0 <= k <= 32 ->
  parseCIDRs (v4String ip +:+ String "/" (Itoa k)) = Ok (Addresses conf) ->
  Attach e nic conf ModeSwitch = (cs, None) ->
  assigned cs = [(wgNIC, (ipv4ProtocolNumber, maskBytes ip (CIDRMask k 4)))].
Proof.
  intros Hip Hk Hp H. destruct (maskBytes_val ip k Hip Hk) as [Hm _].
  set (net := mkIPNet (maskBytes ip (CIDRMask k 4)) (CIDRMask k 4)).
  assert (Ha : Addresses conf = [net]).
  { assert (E : parseCIDRs (v4String ip +:+ String "/" (Itoa k)) = Ok [net]); [|congruence].
    apply (parseCIDRs_list [_] [net]); [done|]. constructor; [by apply isNet_v4|constructor]. }
  assert (E4 : protoAddr net = Ok (ipv4ProtocolNumber, maskBytes ip (CIDRMask k 4))).
  { unfold protoAddr, To4. cbn [ipnet_IP net]. rewrite (proj1 Hm).
    destruct (maskBytes ip (CIDRMask k 4)); [by destruct Hm|done]. }
  apply switch_assigned in H. rewrite Ha in H. apply Forall2_cons_inv_l in H as ([n pa] & l & [Hn Hpa] & Hl & ->).
  apply Forall2_nil_inv_l in Hl as ->. cbn [fst snd] in *. congruence.
Qed.

(** An AllowedIPs entry in the mapped form: the device is told 10.0.0.0/8, while the
    route into the tunnel and the tunnel's subnet are 10.0.0.0 alone. *)
Theorem mapped_prefix_disagrees :
  exists net, parseCIDRs "::ffff:10.0.0.0/104" = Ok [net] /\ IPNetString net = "10.0.0.0/8"%string /\
    Contains (subnetOf net) [10;0;0;0] = true /\ Contains (subnetOf net) [10;1;2;3] = false.
Proof.
  exists (mkIPNet (v4Prefix ++ [10;0;0;0]) (CIDRMask 104 16)).
  split; [vm_compute; reflexivity|]. split; [vm_compute; reflexivity|].
  assert (E : subnetOf (mkIPNet (v4Prefix ++ [10;0;0;0]) (CIDRMask 104 16)) = PrefixSubnet [10;0;0;0] 104)
    by reflexivity.
  rewrite E. split; rewrite PrefixSubnet_spec by lia; vm_compute; reflexivity.
Qed.

End Theorems.

(** ** Theorems: packets through the bridge *)

(** The protocol of an IP packet by its version field. *)
Definition ipProto (p : bytes) : option Z :=
  match p with
  | [] => None
  | p0 :: _ => if Z.shiftr p0 4 =? 4 then Some ipv4ProtocolNumber
               else if Z.shiftr p0 4 =? 6 then Some ipv6ProtocolNumber else None
  end.

Lemma Read_fits view buf0 off :
  0 <= off -> off + len view <= len buf0 ->
  Read (Some view) [buf0] [0] off =
    Done (Ok ([copy_at (Z.to_nat off) view buf0], [len view], 1)).
Proof.
  intros H0 Hl. pose proof (len_nonneg view). unfold Read. change (idx [buf0] 0) with (Done buf0).
  cbn [mbind go_bind]. rewrite slice_from_eq by lia. cbn [mbind go_bind].
  rewrite len_drop by lia. destruct (Z.ltb_spec (len buf0 - Z.of_nat (Z.to_nat off)) (len view)); [lia|].
  done.
Qed.

(** what the bridge tells the device is enough for it: with as many buffers and sizes as
    [BatchSize] names and room for a packet of the link size behind the offset, [Read]
    neither panics nor refuses a packet that fits the link, and fills all of them. *)
Theorem bridge_batch b view bufs sizes off mtu :
  bridgeMTU b = Ok mtu -> len bufs = BatchSize -> len sizes = BatchSize ->
  0 <= off -> Forall (fun buf => off + mtu <= len buf) bufs -> len view <= mtu ->
  exists buf, bufs = [buf] /\ Read (Some view) bufs sizes off =
    Done (Ok ([copy_at (Z.to_nat off) view buf], [len view], BatchSize)).
Proof.
  unfold BatchSize. intros _ Hb Hs H0 Hroom Hv.
  destruct bufs as [|buf [|buf2 l]]; [done| |rewrite !len_cons in Hb; pose proof (len_nonneg l); lia].
  destruct sizes as [|n [|n2 l]]; [done| |rewrite !len_cons in Hs; pose proof (len_nonneg l); lia].
  exists buf. split; [done|]. apply Forall_inv in Hroom. by apply (Read_fits view buf off); [|lia].
Qed.

(** The bytes a packet occupies after its [Read]. *)
Definition readInto (off : Z) (view buf0 : bytes) : bytes :=
  match Read (Some view) [buf0] [0] off with
  | Done (Ok ([b], [n], _)) => take (Z.to_nat (off + n)) b
  | _ => []
  end.

Lemma readInto_from off view buf0 :
  0 <= off -> off + len view <= len buf0 -> slice_from (readInto off view buf0) off = Done view.
Proof.
  intros H0 Hl. unfold readInto. rewrite Read_fits by done. unfold copy_at.
  pose proof (len_nonneg view). unfold len in *.
  rewrite (take_ge view) by lia. rewrite app_assoc, take_app_eq.
  - apply slice_from_app. unfold len. rewrite length_take. lia.
  - rewrite length_app, length_take. lia.
Qed.

(** the bridge carries packets unchanged and in order. IP packets that [Read] placed
    in buffers with room for them are, when the buffers are written back at the same
    offset, injected into netstack as they were, each with the protocol number of
    its version, and all of them are counted. *)
Theorem bridge_roundtrip off views bufs :
  0 <= off ->
  Forall2 (fun view buf => off + len view <= len buf) views bufs ->
  Forall (fun view => is_Some (ipProto view)) views ->
  Write (zip_with (readInto off) views bufs) off =
    Done ((fun view => (default 0 (ipProto view), view)) <$> views, len views).
Proof.
  intros H0 H. induction H as [|view buf views bufs Hl _ IH]; intros Hip; [done|].
  apply Forall_cons in Hip as [[p Hp] Hip]. cbn [zip_with Write fmap list_fmap].
  rewrite readInto_from by done. cbn [mbind go_bind]. rewrite (IH Hip), len_cons.
  destruct view as [|p0 view]; [done|]. unfold ipProto in Hp |- *.
  destruct (Z.shiftr p0 4 =? 4); [done|]. destruct (Z.shiftr p0 4 =? 6); done.
Qed.

(** A packet that does not fit is refused whole, and the buffers are not touched. *)
Lemma Read_short view buf0 rest sizes off :
  0 <= off <= len buf0 -> len buf0 < off + len view ->
  Read (Some view) (buf0 :: rest) sizes off = Done (Err "io.ErrShortBuffer").
Proof.
  intros H0 Hl. unfold Read. change (idx (buf0 :: rest) 0) with (Done buf0).
  cbn [mbind go_bind]. rewrite slice_from_eq by lia. cbn [mbind go_bind].
  rewrite len_drop by lia. by destruct (Z.ltb_spec (len buf0 - Z.of_nat (Z.to_nat off)) (len view)); [|lia].
Qed.

(** ** Theorems: the handshake watch *)

(** A turn that neither ends the watch nor completes it. *)
Definition idle (t : tick) : Prop := t_done t = false /\ sawHandshake t = false.

Definition late (deadline : Z) (ticks : list tick) : bool :=
  existsb (fun t => deadline <? t_now t) ticks.

(** Idle turns only decide whether the operator is warned. *)
Lemma watchLoop_idle deadline pre rest : forall warned,
  Forall idle pre ->
  watchLoop deadline (pre ++ rest) warned =
    let '(rs, ended) := watchLoop deadline rest (warned || late deadline pre) in
    ((if negb warned && late deadline pre then [NoHandshake] else []) ++ rs, ended).
Proof.
  induction pre as [|t pre IH]; intros warned H.
  { cbn [app late existsb]. rewrite orb_false_r, andb_false_r. by destruct (watchLoop _ _ _). }
  apply Forall_cons in H as [[Hd Hs] H]. cbn [app watchLoop late existsb]. rewrite Hd, Hs.
  destruct warned; cbn [negb andb orb].
  - rewrite IH by done. cbn [negb andb orb]. by destruct (watchLoop _ _ _).
  - destruct (deadline <? t_now t); cbn [andb orb]; rewrite IH by done; cbn [negb andb orb]; [|done].
    by destruct (watchLoop _ _ _).
Qed.

(** the operator hears of the tunnel. While no turn shows a handshake the watch goes
    on, and warns once, and only after 15 seconds; the first turn that shows one ends it
    with the good news, after the warning if there was one. Nothing else is
    reported, whatever the device answers. *)
Theorem watchHandshake_reports start pre t post :
  Forall idle pre ->
  let warning := if late (start + 15 * 10 ^ 9) pre then [NoHandshake] else [] in
  watchHandshake start pre = (warning, false) /\
  (t_done t = false -> sawHandshake t = true ->
   watchHandshake start (pre ++ t :: post) = (warning ++ [Completed], true)) /\
  (t_done t = true -> watchHandshake start (pre ++ t :: post) = (warning, true)).
Proof.
  intros H warning. unfold watchHandshake, wgUpTimeout. split_and!.
  - rewrite <- (app_nil_r pre) at 1. rewrite watchLoop_idle by done. cbn. by rewrite app_nil_r.
  - intros Hd Hs. rewrite watchLoop_idle by done. cbn [watchLoop]. by rewrite Hd, Hs.
  - intros Hd. rewrite watchLoop_idle by done. cbn [watchLoop]. rewrite Hd. by rewrite app_nil_r.
Qed.

(** Closing the bridge again closes its events channel only once (a second close of a
    channel panics). *)
Theorem bridgeCloses_once n :
  bridgeCloses (S n) false = EventsClose :: replicate (S n) EndpointClose.
Proof.
  assert (H : forall k, bridgeCloses k true = replicate k EndpointClose)
    by (intros k; induction k as [|k IH]; cbn; congruence).
  cbn [bridgeCloses bridgeClose]. by rewrite H.
Qed.

(** ** Evaluations *)

Definition demoEnv : env :=
  mkEnv None (fun _ => None) (fun _ => Some "198.51.100.7:51820"%string) (fun _ => None).
Definition refusingEnv : env :=
  mkEnv None (fun _ => None) (fun _ => None) (fun _ => Some "invalid UAPI endpoint"%string).

Definition demoCalls : list call := (Attach demoEnv 1 demoConf ModeSwitch).1.

Lemma demoTunnel_ok : Attach demoEnv 1 demoConf ModeSwitch = (demoCalls, None).
Proof.
  assert (E : (Attach demoEnv 1 demoConf ModeSwitch).2 = None).
  { assert (H : match (Attach demoEnv 1 demoConf ModeSwitch).2 with None => true | _ => false end = true)
      by (vm_compute; reflexivity).
    by destruct ((Attach demoEnv 1 demoConf ModeSwitch).2). }
  unfold demoCalls. rewrite <- E. by destruct (Attach demoEnv 1 demoConf ModeSwitch).
Qed.

Definition demoTunnelNat : NAT :=
  SetTunnelSubnets (subnetOf <$> AllowedIPs demoConf)
    (foldl (fun n c => match c with AddRouteTo s nic => AddRoute (s, nic) n | _ => n end) demoNat demoCalls).

(** The addresses of the office network go into the tunnel, others do not. *)
Theorem tunnel_agreement_witness :
  exists config, configsOf demoCalls = [config] /\
    (tcpDial demoTunnelNat [10;1;2;3] 443 = DialTunnel "tcp" 4 [10;1;2;3] 443 <->
       AddrString [10;1;2;3] ∉ localAddrs demoNat /\ deviceAllows config [10;1;2;3]) /\
    (~ (443 = 53 /\ AddrString [10;1;2;3] ∈ dnsAddrs demoNat) -> forall dialOk,
       (dialUDP demoTunnelNat (AddrString [10;1;2;3]) 443 dialOk).1 =
         [DialTunnel "udp" 4 (udpTarget demoNat [10;1;2;3]) 443] <->
       deviceAllows config (udpTarget demoNat [10;1;2;3])).
Proof.
  apply (tunnel_agreement demoText "wg0.conf" demoConf demoEnv 1 demoNat demoCalls demoTunnelNat [10;1;2;3] 443).
  - exact demoText_parses.
  - repeat constructor.
  - reflexivity.
  - unfold startTunnel. cbn [mbind result_bind]. rewrite demoTunnel_ok. reflexivity.
  - rewrite demoTunnel_ok. reflexivity.
  - split; [done|repeat constructor; done].
Defined.

Theorem Attach_modes_witness :
  Forall2 (fun a x => x.1 = wgNIC /\ protoAddr a = Ok x.2) (Addresses demoConf) (assigned demoCalls).
Proof.
  destruct (Attach_modes demoEnv 1 demoConf ModeSwitch demoCalls None demoTunnel_ok) as [(_ & _ & _ & H) _].
  exact (H eq_refl).
Defined.

Theorem attach_failure_not_undone_witness :
  exists cs n', startTunnel refusingEnv 1 (Ok "wg0.conf"%string) (fun _ => Ok demoConf) false demoNat = Ok (cs, n') /\
    SetPromiscuousMode 1 false ∈ cs.
Proof.
  destruct (attach_failure_not_undone refusingEnv 1 demoConf "wg0.conf" demoNat "invalid UAPI endpoint"
    eq_refl eq_refl) as (cs & n' & H1 & H2 & _).
  exists cs, n'. split; [exact H1|exact H2].
Defined.

Theorem subnetOf_equiv_witness :
  exists (s : Subnet) net, Nat.subnetOf "10.8.0.2/24" = Ok s /\ Contains (subnetOf net) [10;8;0;77] = Contains s [10;8;0;77].
Proof.
  destruct (subnetOf_equiv [10;8;0;2] 24) as (s & net & H1 & _ & H3).
  - split; [done|repeat constructor; done].
  - lia.
  - exists s, net. split; [exact H1|]. apply H3. split; [done|repeat constructor; done].
Defined.

Theorem switch_address_loses_host_witness :
  assigned demoCalls = [(wgNIC, (ipv4ProtocolNumber, [10;8;0;0]))].
Proof.
  refine (switch_address_loses_host demoEnv 1 demoConf demoCalls [10;8;0;2] 24 _ _ _ demoTunnel_ok).
  - split; [done|repeat constructor; done].
  - lia.
  - vm_compute. reflexivity.
Defined.

Definition ping4 : bytes := 0x45 :: zeros 19.
Definition ping6 : bytes := 0x60 :: zeros 39.

Theorem bridge_roundtrip_witness :
  Write (zip_with (readInto 16) [ping4; ping6] [zeros 64; zeros 56]) 16 =
    Done ([(ipv4ProtocolNumber, ping4); (ipv6ProtocolNumber, ping6)], 2).
Proof.
  apply (bridge_roundtrip 16 [ping4; ping6] [zeros 64; zeros 56]).
  - lia.
  - repeat constructor; vm_compute; discriminate.
  - repeat constructor; by eexists.
Defined.

Definition silent (now : Z) : tick := mkTick false (Ok "private_key=00"%string) now.
Definition shaken (now : Z) : tick :=
  mkTick false (Ok ("public_key=00" +:+ String "010" ("last_handshake_time_sec=1700000000" +:+
    String "010" "last_handshake_time_nsec=5"))%string) now.

Theorem watchHandshake_reports_witness :
  watchHandshake 0 [silent (2 * 10 ^ 9); silent (16 * 10 ^ 9); silent (18 * 10 ^ 9); shaken (20 * 10 ^ 9)] =
    ([NoHandshake; Completed], true).
Proof.
  destruct (watchHandshake_reports 0 [silent (2 * 10 ^ 9); silent (16 * 10 ^ 9); silent (18 * 10 ^ 9)]
    (shaken (20 * 10 ^ 9)) []) as (_ & H & _).
  - repeat constructor.
  - refine (eq_trans (H _ _) _); reflexivity.
Defined.
