(* ===== verification/Tap.v ===== *)
(** * Tap: internal/tap/tap.go

    The host tap device: opening it, the request handed to the kernel, and the frame
    operations as functions of what the file's reads and writes return. The
    descriptor table is the set of open descriptors; what the kernel answers to the
    ioctl is a parameter. *)
From S2P Require Import Prelude.
From S2P Require Import GoStd.
From S2P Require Import GoText.

Definition iffTap : Z := 0x0002.
Definition iffNoPI : Z := 0x1000.
Definition tunSetIFF : Z := 0x400454ca.

Record Device := mkDevice { d_f : nat; d_name : string }.

(** [ifreq]: the name is a 16-byte array. *)
Record ifreq := mkIfreq { ifr_Name : bytes; ifr_Flags : Z }.

Definition stringBytes (s : string) : bytes := code <$> list_ascii_of_string s.

(** The kernel's answers: whether /dev/net/tun opens, and what TUNSETIFF does to the
    request. *)
Record kernel := mkKernel {
  tunOpens : bool;
  setIFF : Z -> ifreq -> result ifreq;
}.

Definition request (name : string) : ifreq :=
  mkIfreq (copy_at 0 (stringBytes name) (zeros 16)) (Z.lor iffTap iffNoPI).

Definition Open (k : kernel) (name : string) (fds : gset nat) : result Device * gset nat :=
  if Nat.ltb 15 (String.length name) then (Err "tap name longer than 15 chars", fds)
  else if negb (tunOpens k) then (Err "open /dev/net/tun", fds)
  else
    let fd := fresh fds in
    let fds' := {[fd]} ∪ fds in
    match setIFF k tunSetIFF (request name) with
    | Err e => (Err e, fds' ∖ {[fd]})
    | Ok req =>
        (Ok (mkDevice fd (TrimRight (string_of_bytes (ifr_Name req)) (String (chr 0) ""))), fds')
    end.

Definition Name (d : Device) : string := d_name d.

(** [SendFrame] of what the write returns. *)
Definition SendFrame (write : bytes -> Z * option string) (frame : bytes) : option string := (write frame).2.

(** [RecvFrame]: an interrupted read is repeated; [None] while it blocks. *)
Fixpoint RecvFrame (reads : list (Z * option string)) : option (Z * option string) :=
  match reads with
  | [] => None
  | (n, err) :: reads => if bool_decide (err = Some "EINTR"%string) then RecvFrame reads else Some (n, err)
  end.

Definition Close (d : Device) (fds : gset nat) : gset nat := fds ∖ {[d_f d]}.

(** ** Theorems *)

Lemma stringBytes_length s : length (stringBytes s) = String.length s.
Proof. unfold stringBytes. rewrite length_fmap. induction s as [|c s IH]; cbn; congruence. Qed.

Lemma string_of_stringBytes s : string_of_bytes (stringBytes s) = s.
Proof.
  unfold string_of_bytes, stringBytes. induction s as [|c s IH]; [done|]. cbn.
  rewrite chr_code. by f_equal.
Qed.

Lemma string_of_bytes_app a b : string_of_bytes (a ++ b) = (string_of_bytes a +:+ string_of_bytes b)%string.
Proof.
  unfold string_of_bytes. induction a as [|x a IH]; [done|].
  change (string_of_list_ascii (chr <$> (x :: a) ++ b)) with (String (chr x) (string_of_list_ascii (chr <$> a ++ b))).
  by rewrite IH.
Qed.

Definition NUL : string := String (chr 0) "".

(** Trailing zero bytes are trimmed, down to the last other byte. *)
Lemma TrimRight_zeros s n :
  containsByte (chr 0) s = false -> TrimRight (s +:+ string_of_bytes (zeros n)) NUL = s.
Proof.
  intros Hs. unfold TrimRight. rewrite rev_string_app.
  assert (Hz : forall acc, TrimLeft (rev_string (string_of_bytes (zeros n)) acc) NUL = TrimLeft acc NUL).
  { induction n as [|n IH]; intros acc; [done|]. cbn. unfold zeros in IH. by rewrite IH. }
  rewrite Hz. assert (Hr : containsByte (chr 0) (rev_string s "") = false) by (rewrite rev_string_free, Hs; done).
  assert (E : TrimLeft (rev_string s "") NUL = rev_string s "").
  { destruct (rev_string s "") as [|c r]; [done|]. cbn [TrimLeft]. unfold NUL. cbn [containsByte] in *.
    apply orb_false_iff in Hr as [Hc _]. by rewrite orb_false_r, (Ascii.eqb_sym (chr 0) c), Hc. }
  by rewrite E, rev_string_involutive.
Qed.

(** The request the kernel reads: 16 bytes, the name in front, zeros behind it, and so at
    least one of them. *)
Lemma request_name name :
  (String.length name <= 15)%nat ->
  ifr_Name (request name) = stringBytes name ++ zeros (16 - String.length name) /\
  length (ifr_Name (request name)) = 16%nat /\ ifr_Name (request name) !! 15%nat = Some 0.
Proof.
  intros Hn. pose proof (stringBytes_length name) as Hl.
  assert (E : ifr_Name (request name) = stringBytes name ++ zeros (16 - String.length name)).
  { unfold request, copy_at. cbn [ifr_Name]. change (take 0 _) with (@nil Z). rewrite length_zeros, take_ge by lia.
    cbn [app Nat.add]. f_equal. unfold zeros. rewrite drop_replicate. by rewrite Hl. }
  rewrite E. split_and!; [done|rewrite length_app, length_zeros; lia|].
  rewrite lookup_app_r by lia. unfold zeros. apply lookup_replicate_2. lia.
Qed.

(** opening a tap. A name too long for the kernel is refused before anything is
    opened; a failure leaves no descriptor behind; a success adds one, which closing the
    device removes again. The kernel gets a NUL-terminated name in its 16 bytes and the flags of
    a raw tap; when it keeps the name, the device has exactly the name asked for. *)
Theorem Open_contract k name fds :
  let '(r, fds') := Open k name fds in
  match r with
  | Err _ => fds' = fds
  | Ok d => d_f d ∉ fds /\ fds' = {[d_f d]} ∪ fds /\ Close d fds' = fds /\
      (String.length name <= 15)%nat /\
      exists req, setIFF k tunSetIFF (request name) = Ok req /\
        (ifr_Name req = ifr_Name (request name) -> containsByte (chr 0) name = false -> Name d = name)
  end /\
  ((15 < String.length name)%nat -> ~ is_Ok r) /\
  ((String.length name <= 15)%nat ->
     ifr_Flags (request name) = 0x1002 /\ ifr_Name (request name) !! 15%nat = Some 0).
Proof.
  unfold Open. pose proof (is_fresh fds) as Hfr. destruct (Nat.ltb_spec 15 (String.length name)) as [Hn|Hn].
  { split_and!; [done|by intros _ [? ?]|lia]. }
  assert (H3 : (String.length name <= 15)%nat ->
     ifr_Flags (request name) = 0x1002 /\ ifr_Name (request name) !! 15%nat = Some 0)
    by (intros; split; [done|by apply request_name]).
  destruct (tunOpens k); cbn [negb]; [|split_and!; [done|lia|done]].
  destruct (setIFF k tunSetIFF (request name)) as [req|e]; [|split_and!; [set_solver|lia|done]].
  split_and!; [|set_solver|by cbn; unfold Close; set_solver|done| |lia|done].
  - done.
  - exists req. split; [done|]. intros E Hz. unfold Name. cbn [d_name]. rewrite E.
    destruct (request_name name Hn) as [-> _]. rewrite string_of_bytes_app, string_of_stringBytes.
    by apply TrimRight_zeros.
Qed.

(** A read that is not interrupted is returned as it is; without one it blocks. *)
Theorem RecvFrame_first ns n err rest :
  err <> Some "EINTR"%string ->
  RecvFrame (((fun n => (n, Some "EINTR"%string)) <$> ns) ++ (n, err) :: rest) = Some (n, err).
Proof.
  intros He. induction ns as [|m ns IH]; cbn [fmap list_fmap app RecvFrame]; [by rewrite bool_decide_false|].
  by rewrite bool_decide_true.
Qed.
