(* ===== verification/FakeGuest.v ===== *)
(** * FakeGuest: helpers/fakeguest/main.go

    The stand-in for a guest: a NIC that answers ARP and ICMP echo ([serveNIC]) and a
    pinger ([runPing]). Frames are byte lists; a loop is a function of the results of
    its blocking calls (frames and timeouts); the frames it writes are returned. *)
From S2P Require Import Prelude.
From S2P Require Import GoStd.
From S2P Require Import GoText.
From S2P Require Import NetLib.
From S2P Require Import Icmp.

(** ** Arguments: [None] is [log.Fatalf] *)

Definition mustMAC (s : string) : option bytes :=
  hw ← ParseMAC s; if len hw =? 6 then Some hw else None.

Definition mustIP (s : string) : option bytes :=
  match To4 (ParseIP s) with [] => None | v => Some v end.

(** The helper's command line. *)
Definition helperArgs (sock : string) : list string :=
  let vnl := if String.eqb sock "" then "slirp://"%string else ("slirp://" +:+ "socket=" +:+ sock)%string in
  ["--descr"; "fakeguest"; "seqpacket://3"; vnl]%string.

(** A hardware address and an IP as the helper prints them. *)
Definition macStr (m : bytes) : string := macString m.
Definition ipStr (b : bytes) : string := v4String b.

(** [main], up to the loop it ends in: the calls it makes, each of which may fail. The
    parent keeps one end of the pair ([NIC]) and gives the other to the helper as
    descriptor 3. *)
Inductive guestAct :=
| Socketpair | Spawn (bin : string) (args : list string) | CloseWire | ServeNIC | RunPing | FatalExit
| KillHelper | CloseWireAgain.

Definition main (mac ip sock ping bin : string) (pairOk startOk : bool) : list guestAct :=
  match mustMAC mac, mustIP ip with
  | Some _, Some _ =>
      Socketpair ::
      (if negb pairOk then [FatalExit] else
       Spawn bin (helperArgs sock) ::
       (if negb startOk then [FatalExit] else
        CloseWire ::
        (if String.eqb ping "" then [ServeNIC]   (* only [log.Fatalf] leaves it *)
         else [RunPing; KillHelper; CloseWireAgain])))
  | _, _ => [FatalExit]
  end.

(** The reader goroutine of [runPing]: the frames it puts on [entries], and whether it
    ended the process. *)
Fixpoint readFrames (reads : list (result bytes)) : list bytes * bool :=
  match reads with
  | [] => ([], false)
  | Err _ :: _ => ([], true)
  | Ok f :: reads =>
      let '(fs, fatal) := readFrames reads in
      (if 0 <? len f then f :: fs else fs, fatal)
  end.

(** ** Checksums *)

(** The summing loop: [i] is its index. *)
Fixpoint sumLoop (fuel : nat) (b : bytes) (i sum : Z) : go Z :=
  match fuel with
  | O => Done sum
  | S fuel =>
      if i + 1 <? len b then
        x ← idx b i; y ← idx b (i + 1);
        sumLoop fuel b (i + 2) (u32 (sum + Z.lor (u32 (Z.shiftl x 8)) y))
      else Done sum
  end.

(** One turn of the folding loop, and its runs: [foldRun n sum r] when the loop leaves
    with [r] after [n] turns. *)
Definition foldTurn (sum : Z) : Z := u32 (Z.shiftr sum 16 + Z.land sum 0xffff).
Inductive foldRun : nat -> Z -> Z -> Prop :=
| fold_stop sum : Z.shiftr sum 16 = 0 -> foldRun 0 sum sum
| fold_turn n sum r : Z.shiftr sum 16 <> 0 -> foldRun n (foldTurn sum) r -> foldRun (S n) sum r.

Fixpoint fold (fuel : nat) (sum : Z) : Z :=
  match fuel with
  | O => sum
  | S fuel => if Z.shiftr sum 16 =? 0 then sum else fold fuel (foldTurn sum)
  end.

(** The body [checksum] and [ipChecksum] share. *)
Definition checksum (b : bytes) : go Z :=
  sum ← sumLoop (length b) b 0 0;
  sum ← (if Z.odd (len b) then x ← idx b (len b - 1); Done (u32 (sum + u32 (Z.shiftl x 8)))
         else Done sum);
  Done (not16 (u16 (fold 2 sum))).
Definition ipChecksum (b : bytes) : go Z := checksum b.

(** [icmpChecksum] clears the field in the caller's packet: it returns that, too. *)
Definition icmpChecksum (b : bytes) : go (Z * bytes) :=
  _ ← idx b 2; _ ← idx b 3;
  let b := copy_at 2 [0; 0] b in
  c ← ipChecksum b; Done (c, b).

(** ** Frames *)

Definition arpFrame (op : Z) (sha spa tha tpa : bytes) : bytes :=
  let f := zeros 42 in
  let f := copy_at 0 tha f in
  let f := copy_at 6 sha f in
  let f := copy_at 12 (put16 0x0806) f in
  let f := copy_at 14 (put16 1) f in
  let f := copy_at 16 (put16 0x0800) f in
  let f := copy_at 18 [6] f in
  let f := copy_at 19 [4] f in
  let f := copy_at 20 (put16 op) f in
  let f := copy_at 22 sha f in
  let f := copy_at 28 spa f in
  let f := copy_at 32 tha f in
  copy_at 38 tpa f.

(** [icmpEcho]; [ip] and [icmp] are slices of the frame, so a write through them is a
    write into it. *)
Definition icmpEcho (srcMAC dstMAC srcIP dstIP : bytes) (seq : Z) : go bytes :=
  let f := zeros (14 + 20 + 8 + 56) in
  let f := copy_at 0 dstMAC f in
  let f := copy_at 6 srcMAC f in
  let f := copy_at 12 (put16 0x0800) f in
  let f := copy_at 14 [0x45] f in
  let f := copy_at 15 [0] f in
  let f := copy_at 16 (put16 (20 + 8 + 56)) f in
  let f := copy_at 22 [64] f in
  let f := copy_at 23 [1] f in
  let f := copy_at 26 srcIP f in
  let f := copy_at 30 dstIP f in
  ip ← slice f 14 34; c ← checksum ip;
  let f := copy_at 24 (put16 c) f in
  let f := copy_at 34 [8] f in
  let f := copy_at 38 (put16 1) f in
  let f := copy_at 40 (put16 seq) f in
  let f := copy_at 42 ((fun i => 97 + i mod 23) <$> seqZ 8 56) f in
  icmp ← slice_from f 34; c ← checksum icmp;
  Done (copy_at 36 (put16 c) f).

(** ** serveNIC *)

(** The echo branch: [buf] is the read buffer, of which the frame is the first [n] bytes.
    First the copy with its addresses swapped, *)
Definition swapAddrs (buf : bytes) (n : Z) : go bytes :=
  frame ← slice buf 0 n;
  let reply := copy_at 0 frame (zeros (Z.to_nat n)) in
  d ← slice buf 6 12; let reply := copy_at 0 d reply in
  s ← slice buf 0 6; let reply := copy_at 6 s reply in
  t ← slice buf 12 14; let reply := copy_at 12 t reply in
  a ← slice buf 30 34; _ ← slice reply 26 30; let reply := copy_at 26 a reply in
  a ← slice buf 26 30; _ ← slice reply 30 34; Done (copy_at 30 a reply).

(** then the type and the two checksums. *)
Definition finishReply (reply : bytes) (ihl : Z) : go bytes :=
  _ ← idx reply (14 + ihl); let reply := copy_at (Z.to_nat (14 + ihl)) [0] reply in
  _ ← idx reply 24; _ ← idx reply 25; let reply := copy_at 24 [0; 0] reply in
  h ← slice reply 14 (14 + ihl); c ← ipChecksum h;
  let reply := copy_at 24 (put16 c) reply in
  icmpPart ← slice_from reply (14 + ihl);
  _ ← idx icmpPart 0;
  let icmpPart := copy_at 0 [0] icmpPart in
  '(c, icmpPart) ← icmpChecksum icmpPart;
  _ ← slice icmpPart 2 4;
  let icmpPart := copy_at 2 (put16 c) icmpPart in
  _ ← slice icmpPart 4 6; _ ← slice icmpPart 6 8;
  Done (copy_at (Z.to_nat (14 + ihl)) icmpPart reply).

(** One turn of [serveNIC]: the frame it writes, if any. *)
Definition serveNIC (myMAC myIP buf : bytes) (n : Z) : go (option bytes) :=
  if n <? 14 then Done None else
  et ← (s ← slice buf 12 14; be16 s);
  if et =? 0x0806 then
    if n <? 42 then Done None else
    op ← (s ← slice buf 20 22; be16 s);
    if negb (op =? 1) then Done None else
    tpa ← slice buf 38 42;
    if negb (bool_decide (tpa = myIP)) then Done None else
    sha ← slice buf 22 28; spa ← slice buf 28 32;
    Done (Some (arpFrame 2 myMAC myIP sha spa))
  else if et =? 0x0800 then
    if n <? 38 then Done None else
    p ← idx buf 23;
    if negb (p =? 1) then Done None else
    _ ← slice buf 14 34;
    b0 ← idx buf 14;
    let ihl := Z.land b0 0xf * 4 in
    if n <? 14 + ihl + 8 then Done None else
    ty ← idx buf (14 + ihl);
    if negb (ty =? 8) then Done None else
    reply ← swapAddrs buf n; reply ← finishReply reply ihl; Done (Some reply)
  else Done None.

(** ** runPing *)

(** What the pinger waits for: a frame, or its timer. *)
Inductive event := Frame (f : bytes) | Timeout.

(** The test of the ARP phase: the sender of a reply from the target. *)
Definition arpAnswer (target f : bytes) : go (option bytes) :=
  if len f <? 42 then Done None else
  et ← (s ← slice f 12 14; be16 s);
  if negb (et =? 0x0806) then Done None else
  op ← (s ← slice f 20 22; be16 s);
  if negb (op =? 2) then Done None else
  spa ← slice f 28 32;
  if negb (bool_decide (spa = target)) then Done None else
  mac ← slice f 6 12; Done (Some mac).

(** The loop until the deadline: an event per turn. The number of requests written, and
    the address found (zeros when there was none). *)
Fixpoint arpLoop (target : bytes) (turns : list event) (dstMAC : bytes) : go (Z * bytes) :=
  match turns with
  | [] => Done (0, dstMAC)
  | ev :: turns =>
      m ← (match ev with
           | Frame f => a ← arpAnswer target f; Done (default dstMAC a)
           | Timeout => Done dstMAC
           end : go bytes);
      if negb (bool_decide (m = zeros 6)) then Done (1, m)
      else '(k, m) ← arpLoop target turns m; Done (k + 1, m)
  end.

(** The test of the echo phase; the index of the ICMP type is not checked. *)
Definition echoAnswer (target f : bytes) : go bool :=
  if len f <? 38 then Done false else
  et ← (s ← slice f 12 14; be16 s);
  if negb (et =? 0x0800) then Done false else
  src ← slice f 26 30;
  if negb (bool_decide (src = target)) then Done false else
  b0 ← idx f 14;
  ty ← idx f (14 + Z.land b0 0xf * 4);
  Done (ty =? 0).

(** The wait for one echo: whether it was answered, and what is left to read; [None]
    while it still waits. *)
Fixpoint awaitEcho (target : bytes) (evs : list event) : go (option (bool * list event)) :=
  match evs with
  | [] => Done None
  | Timeout :: evs => Done (Some (false, evs))
  | Frame f :: evs =>
      ok ← echoAnswer target f;
      if (ok : bool) then Done (Some (true, evs)) else awaitEcho target evs
  end.

(** The loop over the sequence numbers: the numbers written so far, and how many of
    them were lost; [true] at the end when all are decided. *)
Fixpoint pingLoop (target : bytes) (n : nat) (seq : Z) (evs : list event) : go (list Z * Z * bool) :=
  match n with
  | O => Done ([], 0, true)
  | S n =>
      r ← awaitEcho target evs;
      match r with
      | None => Done ([u16 seq], 0, false)
      | Some (got, evs) =>
          '(sent, lost, fin) ← pingLoop target n (seq + 1) evs;
          Done (u16 seq :: sent, (if got : bool then lost else lost + 1), fin)
      end
  end.

Definition lossPercent (lost nPings : Z) : Z := Z.quot (lost * 100) (if 1 <? nPings then nPings else 1).

(** ** Theorems: the checksum *)

Lemma fold_small n x : 0 <= x <= 65535 -> fold n x = x /\ foldRun 0 x x.
Proof.
  intros Hx. assert (E : Z.shiftr x 16 = 0) by (rewrite Z.shiftr_div_pow2 by lia; apply Z.div_small; lia).
  split; [|by constructor]. destruct n; cbn [fold]; [done|]. by rewrite E.
Qed.

Lemma foldTurn_add x : 0 <= x < 2 ^ 32 -> foldTurn x = x / 65536 + x mod 65536.
Proof. apply fold_step. Qed.

(** The loop's runs are what the bounded function computes. *)
Lemma foldRun_fold x :
  0 <= x < 2 ^ 32 ->
  exists n, (n <= 2)%nat /\ foldRun n x (fold 2 x) /\ 0 <= fold 2 x <= 65535.
Proof.
  intros Hx. cbn [fold].
  assert (Hs : forall y, 0 <= y -> (Z.shiftr y 16 = 0 <-> y <= 65535)).
  { intros y Hy. rewrite Z.shiftr_div_pow2 by lia. change (2 ^ 16) with 65536.
    Z.to_euclidean_division_equations; lia. }
  destruct (Z.eqb_spec (Z.shiftr x 16) 0) as [E|E].
  { exists 0%nat. split; [lia|]. split; [by constructor|]. apply Hs in E; lia. }
  assert (Hy : 0 <= foldTurn x <= 131070)
    by (rewrite foldTurn_add by done; Z.to_euclidean_division_equations; lia).
  destruct (Z.eqb_spec (Z.shiftr (foldTurn x) 16) 0) as [E1|E1].
  { exists 1%nat. split; [lia|]. split; [|apply Hs in E1; lia].
    apply fold_turn; [done|by apply fold_stop]. }
  assert (Hz : 0 <= foldTurn (foldTurn x) <= 65535).
  { set (y := foldTurn x) in *. clearbody y. rewrite foldTurn_add by lia.
    Z.to_euclidean_division_equations; lia. }
  exists 2%nat. split; [lia|]. split; [|done]. do 2 (apply fold_turn; [done|]). by apply (fold_small 0).
Qed.

Lemma foldRun_det n x r : foldRun n x r -> forall m s, foldRun m x s -> m = n /\ s = r.
Proof.
  induction 1 as [x E|n x r E _ IH]; intros m s H; inversion H; subst; try done.
  by destruct (IH _ _ ltac:(eassumption)) as [-> ->].
Qed.

(** C35: the folding loop terminates. From every 32-bit sum the loop [for sum>>16 != 0]
    ends after two turns at most, in one way only, with a 16-bit value; so the two turns of
    the executable definition are all of it. *)
Theorem checksum_terminates sum :
  0 <= sum < 2 ^ 32 ->
  exists n r, (n <= 2)%nat /\ foldRun n sum r /\ 0 <= r <= 65535 /\ r = fold 2 sum /\
    forall m s, foldRun m sum s -> m = n /\ s = r.
Proof.
  intros Hx. destruct (foldRun_fold sum Hx) as (n & Hn & Hr & Hb).
  exists n, (fold 2 sum). split_and!; try done; try lia. by apply foldRun_det.
Qed.

(** The largest sum takes both turns. *)
Theorem checksum_terminates_witness :
  exists n r, (n <= 2)%nat /\ foldRun n (2 ^ 32 - 1) r /\ r = fold 2 (2 ^ 32 - 1).
Proof.
  destruct (checksum_terminates (2 ^ 32 - 1)) as (n & r & H1 & H2 & _ & H4 & _); [lia|].
  exists n, r. split; [exact H1|]. split; [exact H2|exact H4].
Defined.

Lemma foldRun_fuel n x r k : foldRun n x r -> (n <= k)%nat -> fold k x = r.
Proof.
  intros H. revert k. induction H as [x E|n x r E _ IH]; intros k Hk.
  - destruct k; [done|]. cbn [fold]. by rewrite E.
  - destruct k as [|k]; [lia|]. cbn [fold].
    destruct (Z.eqb_spec (Z.shiftr x 16) 0); [done|]. apply IH. lia.
Qed.

Lemma foldLoop_fold k x : foldLoop k x = fold k x.
Proof. revert x. induction k as [|k IH]; intros x; [done|]. cbn [foldLoop fold]. by rewrite IH. Qed.

Lemma csumLoop_range b s : 0 <= s < 2 ^ 32 -> 0 <= csumLoop b s < 2 ^ 32.
Proof.
  assert (Hu : forall x, 0 <= u32 x < 2 ^ 32) by (intros; apply Z.mod_pos_bound; lia).
  revert s. induction b as [|x|x y b IH] using pair_ind; intros s Hs; cbn [csumLoop]; auto.
Qed.

(** The indexed loop with its odd tail is the loop over pairs. *)
Lemma sumLoop_csum rest : forall pre fuel s,
  wf_bytes rest -> (length rest <= fuel)%nat ->
  (sum ← sumLoop fuel (pre ++ rest) (len pre) s;
   if Z.odd (len rest)
   then x ← idx (pre ++ rest) (len (pre ++ rest) - 1); Done (u32 (sum + u32 (Z.shiftl x 8)))
   else Done sum) = Done (csumLoop rest s).
Proof.
  induction rest as [|x|x y rest IH] using pair_ind; intros pre fuel s Hwf Hf.
  - assert (E : sumLoop fuel (pre ++ []) (len pre) s = Done s).
    { destruct fuel; [done|]. cbn [sumLoop]. rewrite app_nil_r.
      by destruct (Z.ltb_spec (len pre + 1) (len pre)); [lia|]. }
    rewrite E. done.
  - assert (E : sumLoop fuel (pre ++ [x]) (len pre) s = Done s).
    { destruct fuel; [done|]. cbn [sumLoop]. rewrite len_app. change (len [x]) with 1.
      by destruct (Z.ltb_spec (len pre + 1) (len pre + 1)); [lia|]. }
    rewrite E. cbn [mbind go_bind]. change (Z.odd (len [x])) with true. cbn iota.
    rewrite len_app. change (len [x]) with 1. pose proof (len_nonneg pre).
    rewrite (idx_lookup _ _ x); [done|lia|].
    rewrite lookup_app_r by (unfold len in *; lia). by replace (_ - _)%nat with 0%nat by (unfold len in *; lia).
  - destruct fuel as [|fuel]; [cbn in Hf; lia|]. cbn [sumLoop].
    apply Forall_cons in Hwf as [Hx Hwf]. apply Forall_cons in Hwf as [Hy Hwf].
    pose proof (len_nonneg pre). pose proof (len_nonneg rest).
    assert (El : len (pre ++ x :: y :: rest) = len pre + (len rest + 2)) by (rewrite len_app, !len_cons; lia).
    rewrite El. destruct (Z.ltb_spec (len pre + 1) (len pre + (len rest + 2))); [|lia].
    rewrite (idx_lookup _ (len pre) x), (idx_lookup _ (len pre + 1) y); [|lia| |lia|].
    2:{ rewrite lookup_app_r by (unfold len in *; lia). by replace (_ - _)%nat with 1%nat by (unfold len in *; lia). }
    2:{ rewrite lookup_app_r by (unfold len in *; lia). by replace (_ - _)%nat with 0%nat by (unfold len in *; lia). }
    cbn [mbind go_bind csumLoop].
    assert (Eu : u32 (Z.shiftl x 8) = Z.shiftl x 8).
    { unfold is_byte in Hx. rewrite Z.shiftl_mul_pow2 by lia. apply Z.mod_small. lia. }
    rewrite Eu, Z.lor_comm.
    specialize (IH (pre ++ [x; y]) fuel (u32 (s + Z.lor y (Z.shiftl x 8))) Hwf ltac:(cbn in Hf; lia)).
    rewrite <- app_assoc in IH. cbn [app] in IH. rewrite (len_app pre [x; y]) in IH. change (len [x; y]) with 2 in IH.
    rewrite El in IH. rewrite <- IH.
    assert (Eo : Z.odd (len (x :: y :: rest)) = Z.odd (len rest)).
    { rewrite !len_cons. replace (len rest + 1 + 1) with (len rest + 2 * 1) by lia.
      apply Z.odd_add_mul_2. }
    by rewrite Eo.
Qed.

Lemma checksum_eq b : wf_bytes b -> checksum b = Done (Icmp.icmpChecksum b).
Proof.
  intros Hwf. unfold checksum. pose proof (sumLoop_csum b [] (length b) 0 Hwf (le_n _)) as H.
  cbn [app] in H. change (len (@nil Z)) with 0 in H.
  destruct (sumLoop (length b) b 0 0) as [s|]; [|done]. cbn [mbind go_bind] in H |- *.
  rewrite H. cbn [mbind go_bind]. unfold Icmp.icmpChecksum.
  destruct (foldRun_fold (csumLoop b 0)) as (n & Hn & Hr & _); [apply csumLoop_range; lia|].
  by rewrite (foldLoop_fold 3 (csumLoop b 0)), (foldRun_fuel n _ _ 3 Hr) by lia.
Qed.

(** two checksums, one function. On every packet the helper's [checksum] and
    [ipChecksum], indexed loop and odd tail, do not panic and are the relay's
    [icmpChecksum] of internal/nat. *)
Theorem checksum_equiv b :
  wf_bytes b -> checksum b = Done (Icmp.icmpChecksum b) /\ ipChecksum b = Done (Icmp.icmpChecksum b).
Proof. intros Hwf. unfold ipChecksum. by rewrite checksum_eq. Qed.

Theorem checksum_equiv_witness : checksum [69; 0; 0; 84; 1] = Done (Icmp.icmpChecksum [69; 0; 0; 84; 1]).
Proof. refine (proj1 (checksum_equiv [69; 0; 0; 84; 1] _)). repeat constructor; done. Defined.

(** ** Theorems: a ping answered *)

Lemma sum16_app a b : Z.odd (len a) = false -> sum16 (a ++ b) = sum16 a + sum16 b.
Proof.
  induction a as [|x|x y a IH] using pair_ind; intros H; [done|done|].
  cbn [app sum16]. rewrite IH; [lia|]. rewrite !len_cons in H.
  replace (len a + 1 + 1) with (len a + 2 * 1) in H by lia. by rewrite Z.odd_add_mul_2 in H.
Qed.

Lemma sum16_pos l x : wf_bytes l -> x ∈ l -> 0 < x -> 0 < sum16 l.
Proof.
  intros Hl Hx Hx0. induction l as [|y|y z p IH] using pair_ind; [by apply elem_of_nil in Hx| |].
  - apply list_elem_of_singleton in Hx as ->. cbn [sum16]. lia.
  - apply Forall_cons in Hl as [Hy Hl]. apply Forall_cons in Hl as [Hz Hl].
    pose proof (sum16_bound p Hl). unfold is_byte in *. cbn [sum16].
    apply elem_of_cons in Hx as [->|Hx]; [lia|]. apply elem_of_cons in Hx as [->|Hx]; [lia|].
    specialize (IH Hl Hx). lia.
Qed.

(** Filling the checksum field, wherever it is aligned, makes the packet verify. *)
Lemma checksum_fills p rest :
  wf_bytes (p ++ rest) -> Z.odd (len p) = false -> len p + len rest <= 65535 ->
  (exists x, x ∈ p ++ rest /\ 0 < x) ->
  let ck := Icmp.icmpChecksum (p ++ [0; 0] ++ rest) in
  0 <= ck < 65536 /\ Icmp.icmpChecksum (p ++ put16 ck ++ rest) = 0.
Proof.
  intros [Hp Hr]%Forall_app Ho Hl Hpos ck.
  assert (H00 : wf_bytes [0; 0]) by (repeat constructor; unfold is_byte; lia).
  assert (Hwf0 : wf_bytes (p ++ [0; 0] ++ rest)) by auto with gosem.
  assert (Hwf1 : wf_bytes (p ++ put16 ck ++ rest)) by auto with gosem.
  pose proof (len_nonneg p). pose proof (len_nonneg rest).
  destruct (icmpChecksum_sum _ Hwf0) as (k & Hk & E & Hrg & Hnz).
  { rewrite !len_app. change (len [0; 0]) with 2. lia. }
  fold ck in E, Hrg, Hnz. split; [lia|].
  destruct (icmpChecksum_sum _ Hwf1) as (k1 & Hk1 & E1 & Hr1 & Hnz1).
  { rewrite !len_app, len_put16. lia. }
  assert (Hs : sum16 (p ++ put16 ck ++ rest) = sum16 (p ++ [0; 0] ++ rest) + ck).
  { rewrite !sum16_app by done. pose proof (sum16_put16 0 0 ck rest ltac:(lia)) as H'.
    cbn [app sum16] in H'. cbn [app sum16]. unfold put16 in *. cbn [app sum16] in *. lia. }
  assert (Hnonzero : 0 < sum16 (p ++ [0; 0] ++ rest)).
  { destruct Hpos as (x & Hx & Hx0). pose proof (sum16_pos (p ++ rest) x ltac:(auto with gosem) Hx Hx0) as H'.
    rewrite sum16_app in * by done. cbn [app sum16]. lia. }
  rewrite Hs in *. lia.
Qed.

(** The parts of an echo frame without IP options. *)
Definition echoParts (d s p1 ck sa da : bytes) (ty code : Z) (ck2 rest : bytes) : bytes :=
  d ++ s ++ [8; 0] ++ ([0x45] ++ p1 ++ [1] ++ ck ++ sa ++ da) ++ ([ty; code] ++ ck2 ++ rest).

Lemma copy_all (src : bytes) n : n = length src -> copy_at 0 src (zeros n) = src.
Proof.
  intros ->. unfold copy_at. change (take 0 _) with (@nil Z). rewrite length_zeros, (take_ge src) by lia.
  rewrite drop_ge by (rewrite length_zeros; lia). apply app_nil_r.
Qed.

(** Reads inside a literal prefix. *)
Ltac read_lit :=
  first [rewrite slice_eq by (rewrite ?len_cons; lia)
        |rewrite slice_from_eq by (rewrite ?len_cons; lia)
        |erewrite idx_lookup; [|lia|reflexivity]];
  cbn [mbind go_bind].

(** One bind whose left-hand side is a value. *)
Lemma bind_done {A B} (a : A) (f : A -> go B) : (Done a ≫= f) = f a.
Proof. done. Qed.
Ltac run := repeat (rewrite bind_done; cbv beta).

(** Replace a term by its value. *)
Ltac eval_to x y := let E := fresh in assert (E : x = y) by reflexivity; rewrite E; clear E.

Section Echo.
(** The bytes of an echo request without IP options, behind it the rest of the buffer. *)
Context (d0 d1 d2 d3 d4 d5 s0 s1 s2 s3 s4 s5 t0 t1 t2 t3 t4 t5 t6 t7 k0 k1 a0 a1 a2 a3 b0 b1 b2 b3
  code q0 q1 : Z) (rest stale : bytes).
Context (Hrest : 4 <= len rest).
Context (Hwf : wf_bytes [t0; t1; t2; t3; t4; t5; t6; t7] /\ wf_bytes [a0; a1; a2; a3] /\
  wf_bytes [b0; b1; b2; b3] /\ is_byte code /\ wf_bytes rest).

Let frame : bytes :=
  d0 :: d1 :: d2 :: d3 :: d4 :: d5 :: s0 :: s1 :: s2 :: s3 :: s4 :: s5 :: 8 :: 0 :: 0x45 ::
  t0 :: t1 :: t2 :: t3 :: t4 :: t5 :: t6 :: t7 :: 1 :: k0 :: k1 :: a0 :: a1 :: a2 :: a3 ::
  b0 :: b1 :: b2 :: b3 :: 8 :: code :: q0 :: q1 :: rest.
Let reply (x0 x1 u0 u1 u2 u3 w0 w1 w2 w3 ty : Z) : bytes :=
  s0 :: s1 :: s2 :: s3 :: s4 :: s5 :: d0 :: d1 :: d2 :: d3 :: d4 :: d5 :: 8 :: 0 :: 0x45 ::
  t0 :: t1 :: t2 :: t3 :: t4 :: t5 :: t6 :: t7 :: 1 :: x0 :: x1 :: u0 :: u1 :: u2 :: u3 ::
  w0 :: w1 :: w2 :: w3 :: ty :: code :: q0 :: q1 :: rest.
Let c1 : Z := Icmp.icmpChecksum
  ([0x45] ++ [t0; t1; t2; t3; t4; t5; t6; t7] ++ [1] ++ [0; 0] ++ [b0; b1; b2; b3] ++ [a0; a1; a2; a3]).
Let c2 : Z := Icmp.icmpChecksum ([0; code] ++ [0; 0] ++ rest).

Lemma frame_len : len frame = 38 + len rest.
Proof. unfold frame. rewrite !len_cons. lia. Qed.
Lemma reply_len x0 x1 u0 u1 u2 u3 w0 w1 w2 w3 ty :
  len (reply x0 x1 u0 u1 u2 u3 w0 w1 w2 w3 ty) = 38 + len rest.
Proof. unfold reply. rewrite !len_cons. lia. Qed.
Lemma frame_slice lo hi x :
  0 <= lo <= hi -> hi <= 42 -> take (Z.to_nat (hi - lo)) (drop (Z.to_nat lo) frame) = x ->
  slice (frame ++ stale) lo hi = Done x.
Proof. intros H1 H2 <-. pose proof frame_len. rewrite slice_prefix by lia. apply slice_eq; lia. Qed.
Lemma frame_idx i x :
  0 <= i < 42 -> frame !! Z.to_nat i = Some x -> idx (frame ++ stale) i = Done x.
Proof. intros Hi Hx. pose proof frame_len. rewrite idx_prefix by lia. apply idx_lookup; [lia|done]. Qed.

Lemma swapAddrs_echo :
  swapAddrs (frame ++ stale) (38 + len rest) = Done (reply k0 k1 b0 b1 b2 b3 a0 a1 a2 a3 8).
Proof.
  pose proof frame_len as Hl. unfold swapAddrs.
  rewrite (slice_app_start frame stale (38 + len rest)) by lia. run.
  rewrite copy_all by (unfold len in *; lia).
  rewrite (frame_slice 6 12 [s0; s1; s2; s3; s4; s5]) by (lia || done). run.
  rewrite (frame_slice 0 6 [d0; d1; d2; d3; d4; d5]) by (lia || done). run.
  rewrite (frame_slice 12 14 [8; 0]) by (lia || done). run.
  rewrite (frame_slice 30 34 [b0; b1; b2; b3]) by (lia || done). run.
  rewrite (frame_slice 26 30 [a0; a1; a2; a3]) by (lia || done).
  match goal with |- context [slice ?r 26 30] => eval_to r (reply k0 k1 a0 a1 a2 a3 b0 b1 b2 b3 8) end.
  rewrite (slice_eq _ 26 30) by (rewrite ?reply_len; lia). run.
  match goal with |- context [slice ?r 30 34] => eval_to r (reply k0 k1 b0 b1 b2 b3 b0 b1 b2 b3 8) end.
  rewrite (slice_eq _ 30 34) by (rewrite ?reply_len; lia). run. reflexivity.
Qed.

Lemma finishReply_echo :
  finishReply (reply k0 k1 b0 b1 b2 b3 a0 a1 a2 a3 8) 20 =
    Done (take 34 (reply (Z.land (Z.shiftr c1 8) 255) (Z.land c1 255) b0 b1 b2 b3 a0 a1 a2 a3 0) ++
          [0; code] ++ put16 c2 ++ rest).
Proof.
  destruct Hwf as (B1 & B2 & B3 & B4 & B5).
  assert (Hlits : wf_bytes [0; 0] /\ wf_bytes [0x45] /\ wf_bytes [1] /\ wf_bytes [0; code]).
  { unfold wf_bytes. rewrite !Forall_cons. unfold is_byte in *. split_and!; try done; lia. }
  destruct Hlits as (L1 & L2 & L3 & L4). unfold finishReply.
  rewrite (idx_lookup _ (14 + 20) 8) by done. run.
  match goal with |- context [idx ?r 24] => eval_to r (reply k0 k1 b0 b1 b2 b3 a0 a1 a2 a3 0) end.
  rewrite (idx_lookup _ 24 k0), (idx_lookup _ 25 k1) by done. run.
  match goal with |- context [slice ?r 14 (14 + 20)] => eval_to r (reply 0 0 b0 b1 b2 b3 a0 a1 a2 a3 0) end.
  rewrite slice_eq by (rewrite ?reply_len; lia). run.
  match goal with |- context [take ?n ?l] => eval_to (take n l) ([0x45] ++ [t0; t1; t2; t3; t4; t5; t6; t7] ++
    [1] ++ [0; 0] ++ [b0; b1; b2; b3] ++ [a0; a1; a2; a3]) end.
  unfold ipChecksum. rewrite checksum_eq by auto 10 with gosem. run. fold c1.
  match goal with |- context [slice_from ?r (14 + 20)] =>
    eval_to r (reply (Z.land (Z.shiftr c1 8) 255) (Z.land c1 255) b0 b1 b2 b3 a0 a1 a2 a3 0) end.
  rewrite slice_from_eq by (rewrite reply_len; lia). run.
  match goal with |- context [drop ?n ?l] => eval_to (drop n l) (0 :: code :: q0 :: q1 :: rest) end.
  eval_to (idx (0 :: code :: q0 :: q1 :: rest) 0) (Done 0). run.
  eval_to (copy_at 0 [0] (0 :: code :: q0 :: q1 :: rest)) (0 :: code :: q0 :: q1 :: rest).
  unfold icmpChecksum. eval_to (idx (0 :: code :: q0 :: q1 :: rest) 2) (Done q0).
  eval_to (idx (0 :: code :: q0 :: q1 :: rest) 3) (Done q1). run.
  pose proof (copy_at_mid [0; code] [q0; q1] rest [0; 0] 2 eq_refl eq_refl) as E. cbn [app] in E.
  rewrite E. clear E. eval_to (0 :: code :: 0 :: 0 :: rest) ([0; code] ++ [0; 0] ++ rest).
  unfold ipChecksum. rewrite checksum_eq by auto 10 with gosem. run. fold c2.
  rewrite (slice_app [0; code] [0; 0] rest 2 4) by done. run.
  rewrite (copy_at_mid [0; code] [0; 0] rest (put16 c2) 2) by done.
  assert (Hpart : len ([0; code] ++ put16 c2 ++ rest) = 4 + len rest)
    by (rewrite !len_app, len_put16; change (len [0; code]) with 2; lia).
  rewrite (slice_eq _ 4 6), (slice_eq _ 6 8) by lia. run. f_equal.
  set (r := reply _ _ _ _ _ _ _ _ _ _ _).
  pose proof (copy_at_mid (take 34 r) (drop 34 r) [] ([0; code] ++ put16 c2 ++ rest) 34 eq_refl eq_refl) as E.
  by rewrite !app_nil_r, take_drop in E.
Qed.

Lemma serveNIC_echoes myMAC myIP :
  serveNIC myMAC myIP (frame ++ stale) (len frame) =
    Done (Some (take 34 (reply (Z.land (Z.shiftr c1 8) 255) (Z.land c1 255) b0 b1 b2 b3 a0 a1 a2 a3 0) ++
      [0; code] ++ put16 c2 ++ rest)).
Proof.
  unfold serveNIC. rewrite frame_len. destruct (Z.ltb_spec (38 + len rest) 14); [lia|].
  rewrite (frame_slice 12 14 [8; 0]) by (lia || done). run. eval_to (be16 [8; 0]) (Done 2048). run.
  eval_to (2048 =? 0x0806) false. eval_to (2048 =? 0x0800) true.
  destruct (Z.ltb_spec (38 + len rest) 38); [lia|].
  rewrite (frame_idx 23 1) by (lia || done). run. eval_to (negb (1 =? 1)) false.
  rewrite (frame_slice 14 34 (take 20 (drop 14 frame))) by (lia || done). run.
  rewrite (frame_idx 14 69) by (lia || done). run. eval_to (Z.land 69 15 * 4) 20. cbv zeta.
  destruct (Z.ltb_spec (38 + len rest) (14 + 20 + 8)); [lia|].
  rewrite (frame_idx (14 + 20) 8) by (lia || done). run. eval_to (negb (8 =? 8)) false.
  rewrite swapAddrs_echo. run. rewrite finishReply_echo. run. reflexivity.
Qed.
End Echo.

Ltac explode l := repeat (destruct l as [|? l]; try done).

(** The same on byte lists. *)
Lemma serveNIC_echo_parts d s p1 k a b code q rest stale myMAC myIP n :
  length d = 6%nat -> length s = 6%nat -> length p1 = 8%nat -> length k = 2%nat ->
  length a = 4%nat -> length b = 4%nat -> length q = 2%nat -> 4 <= len rest ->
  wf_bytes p1 -> wf_bytes a -> wf_bytes b -> is_byte code -> wf_bytes rest ->
  n = 38 + len rest ->
  serveNIC myMAC myIP (echoParts d s p1 k a b 8 code q rest ++ stale) n =
    Done (Some (echoParts s d p1
      (put16 (Icmp.icmpChecksum ([0x45] ++ p1 ++ [1] ++ [0; 0] ++ b ++ a))) b a 0 code
      (put16 (Icmp.icmpChecksum ([0; code] ++ [0; 0] ++ rest))) rest)).
Proof.
  intros Hd Hs Hp Hk Ha Hb Hq Hr W1 W2 W3 W4 W5 ->.
  explode d; explode s; explode p1; explode k; explode a; explode b; explode q.
  match goal with |- serveNIC _ _ (echoParts [?d0; ?d1; ?d2; ?d3; ?d4; ?d5] [?s0; ?s1; ?s2; ?s3; ?s4; ?s5]
      [?t0; ?t1; ?t2; ?t3; ?t4; ?t5; ?t6; ?t7] [?k0; ?k1] [?a0; ?a1; ?a2; ?a3] [?b0; ?b1; ?b2; ?b3]
      8 code [?q0; ?q1] rest ++ stale) _ = _ =>
    pose proof (serveNIC_echoes d0 d1 d2 d3 d4 d5 s0 s1 s2 s3 s4 s5 t0 t1 t2 t3 t4 t5 t6 t7 k0 k1
      a0 a1 a2 a3 b0 b1 b2 b3 code q0 q1 rest stale Hr (conj W1 (conj W2 (conj W3 (conj W4 W5))))
      myMAC myIP) as E end.
  cbv zeta in E. rewrite frame_len in E. exact E.
Qed.

Lemma arpFrame_bytes op sha spa tha tpa :
  length sha = 6%nat -> length spa = 4%nat -> length tha = 6%nat -> length tpa = 4%nat ->
  arpFrame op sha spa tha tpa =
    tha ++ sha ++ [8; 6] ++ [0; 1; 8; 0; 6; 4] ++ put16 op ++ sha ++ spa ++ tha ++ tpa.
Proof. intros H1 H2 H3 H4. explode sha; explode spa; explode tha; explode tpa. Qed.

Definition pingPayload : bytes := (fun i => 97 + i mod 23) <$> seqZ 8 56.
Definition pingTail (seq : Z) : bytes := put16 1 ++ put16 seq ++ pingPayload.

Lemma pingTail_ok seq : wf_bytes (pingTail seq) /\ len (pingTail seq) = 60.
Proof.
  split; [|done]. apply Forall_app. split; [apply wf_put16|]. apply Forall_app. split; [apply wf_put16|].
  unfold pingPayload. apply Forall_fmap, Forall_forall. intros i _. unfold compose, is_byte.
  pose proof (Z.mod_pos_bound i 23 ltac:(lia)). lia.
Qed.

Lemma icmpEcho_bytes s d a b seq :
  length s = 6%nat -> length d = 6%nat -> length a = 4%nat -> length b = 4%nat ->
  wf_bytes a -> wf_bytes b ->
  icmpEcho s d a b seq =
    Done (echoParts d s [0; 0; 84; 0; 0; 0; 0; 64]
      (put16 (Icmp.icmpChecksum ([0x45] ++ [0; 0; 84; 0; 0; 0; 0; 64] ++ [1] ++ [0; 0] ++ a ++ b)))
      a b 8 0 (put16 (Icmp.icmpChecksum ([8; 0] ++ [0; 0] ++ pingTail seq))) (pingTail seq)).
Proof.
  intros Hs Hd Ha Hb Wa Wb.
  assert (W1 : wf_bytes ([0x45] ++ [0; 0; 84; 0; 0; 0; 0; 64] ++ [1] ++ [0; 0] ++ a ++ b)).
  { rewrite !app_assoc. repeat (apply Forall_app; split); try done; repeat constructor; unfold is_byte; lia. }
  assert (W2 : wf_bytes ([8; 0] ++ [0; 0] ++ pingTail seq)).
  { apply Forall_app; split; [|apply Forall_app; split; [|apply pingTail_ok]];
      repeat constructor; unfold is_byte; lia. }
  pose proof (checksum_eq _ W1) as E1. pose proof (checksum_eq _ W2) as E2. clear W1 W2.
  explode s; explode d; explode a; explode b. unfold icmpEcho.
  match goal with |- context [slice ?f 14 34] =>
    match type of E1 with checksum ?h = _ => eval_to (slice f 14 34) (Done h) end end.
  run. rewrite E1. run. clear E1.
  set (c1 := Icmp.icmpChecksum _). change (Icmp.icmpChecksum ([69] ++ _)) with c1. clearbody c1.
  match goal with |- context [slice_from ?f 34] =>
    eval_to (slice_from f 34) (Done ([8; 0] ++ [0; 0] ++ pingTail seq)) end.
  run. rewrite E2. run. clear E2. set (c2 := Icmp.icmpChecksum _). clearbody c2. reflexivity.
Qed.

(** ARP is answered with the NIC's own address. *)
Lemma serveNIC_arp myMAC myIP sha spa tha stale :
  length myIP = 4%nat -> length sha = 6%nat -> length spa = 4%nat -> length tha = 6%nat ->
  serveNIC myMAC myIP (arpFrame 1 sha spa tha myIP ++ stale) 42 = Done (Some (arpFrame 2 myMAC myIP sha spa)).
Proof.
  intros H1 H2 H3 H4. rewrite arpFrame_bytes by done.
  explode sha; explode spa; explode tha; explode myIP. unfold serveNIC.
  eval_to (42 <? 14) false. eval_to (42 <? 42) false.
  match goal with |- context [slice (?f ++ stale) 12 14] => set (f' := f);
    assert (Hl : len f' = 42) by reflexivity end.
  rewrite !(slice_prefix f' stale) by lia.
  eval_to (slice f' 12 14) (Done [8; 6]). run. eval_to (be16 [8; 6]) (Done 2054). run.
  eval_to (2054 =? 2054) true. eval_to (slice f' 20 22) (Done [0; 1]). run.
  eval_to (be16 [0; 1]) (Done 1). run. eval_to (negb (1 =? 1)) false.
  match goal with |- context [bool_decide (_ = ?ip)] => eval_to (slice f' 38 42) (Done ip) end. run.
  rewrite bool_decide_true by done. cbn [negb].
  match goal with |- context [arpFrame 2 _ _ ?a ?b] => idtac | _ => idtac end.
  match goal with |- _ = Done (Some (arpFrame 2 _ _ ?a ?b)) =>
    eval_to (slice f' 22 28) (Done a); run; eval_to (slice f' 28 32) (Done b) end.
  run. reflexivity.
Qed.

Lemma arpAnswer_reply target mac sha spa :
  length target = 4%nat -> length mac = 6%nat -> length sha = 6%nat -> length spa = 4%nat ->
  arpAnswer target (arpFrame 2 mac target sha spa) = Done (Some mac).
Proof.
  intros H1 H2 H3 H4. rewrite arpFrame_bytes by done.
  explode sha; explode spa; explode mac; explode target. unfold arpAnswer.
  match goal with |- context [slice ?f 12 14] => eval_to (slice f 12 14) (Done [8; 6]);
    eval_to (slice f 20 22) (Done [0; 2]); eval_to (len f <? 42) false end.
  run. eval_to (be16 [8; 6]) (Done 2054). run. eval_to (negb (2054 =? 2054)) false.
  eval_to (be16 [0; 2]) (Done 2). run. eval_to (negb (2 =? 2)) false.
  match goal with |- context [bool_decide (_ = ?ip)] =>
    match goal with |- context [slice ?f 28 32] => eval_to (slice f 28 32) (Done ip) end end.
  run. rewrite bool_decide_true by done. cbn [negb].
  match goal with |- _ = Done (Some ?m) =>
    match goal with |- context [slice ?f 6 12] => eval_to (slice f 6 12) (Done m) end end.
  run. reflexivity.
Qed.

Lemma echoAnswer_parts target d s p1 ck da ck2 rest :
  length target = 4%nat -> length d = 6%nat -> length s = 6%nat -> length p1 = 8%nat ->
  length ck = 2%nat -> length da = 4%nat -> length ck2 = 2%nat -> 4 <= len rest ->
  echoAnswer target (echoParts d s p1 ck target da 0 0 ck2 rest) = Done true.
Proof.
  intros H1 H2 H3 H4 H5 H6 H7 H8. unfold echoAnswer.
  assert (Hl : len (echoParts d s p1 ck target da 0 0 ck2 rest) = 38 + len rest).
  { unfold echoParts. unfold len. rewrite !length_app. cbn [length]. lia. }
  rewrite Hl. destruct (Z.ltb_spec (38 + len rest) 38); [lia|].
  explode d; explode s; explode p1; explode ck; explode target; explode da; explode ck2.
  rewrite (slice_eq _ 12 14), (slice_eq _ 26 30) by lia. run.
  match goal with |- context [be16 ?l] => eval_to (be16 l) (Done 2048) end. run.
  eval_to (negb (2048 =? 2048)) false.
  match goal with |- context [bool_decide (?l = ?ip)] => eval_to l ip end.
  rewrite bool_decide_true by done. cbn [negb].
  rewrite (idx_lookup _ 14 69) by done. run. rewrite (idx_lookup _ (14 + _) 0) by done. by run.
Qed.

(** The two checksummed parts of an echo frame. *)
Lemma echoParts_fields d s p1 ck sa da ty code ck2 rest :
  length d = 6%nat -> length s = 6%nat -> length p1 = 8%nat -> length ck = 2%nat ->
  length sa = 4%nat -> length da = 4%nat -> length ck2 = 2%nat ->
  let f := echoParts d s p1 ck sa da ty code ck2 rest in
  take 20 (drop 14 f) = ([0x45] ++ p1 ++ [1]) ++ ck ++ sa ++ da /\
  drop 34 f = [ty; code] ++ ck2 ++ rest /\ drop 38 f = rest /\ len f = 38 + len rest.
Proof.
  intros H1 H2 H3 H4 H5 H6 H7 f. unfold f, echoParts. clear f.
  explode d; explode s; explode p1; explode ck; explode sa; explode da; explode ck2.
  cbn [app]. rewrite !len_cons. split_and!; [done..|lia].
Qed.

(** What [checksum_fills] gives for them. *)
Lemma echoParts_verify p1 sa da ty code rest d s :
  length d = 6%nat -> length s = 6%nat -> length p1 = 8%nat -> length sa = 4%nat -> length da = 4%nat ->
  wf_bytes p1 -> wf_bytes sa -> wf_bytes da -> is_byte ty -> is_byte code -> wf_bytes rest ->
  len rest <= 65000 -> (exists x, x ∈ ty :: code :: rest /\ 0 < x) ->
  let f := echoParts d s p1 (put16 (Icmp.icmpChecksum ([0x45] ++ p1 ++ [1] ++ [0; 0] ++ sa ++ da))) sa da ty code
    (put16 (Icmp.icmpChecksum ([ty; code] ++ [0; 0] ++ rest))) rest in
  Icmp.icmpChecksum (take 20 (drop 14 f)) = 0 /\ Icmp.icmpChecksum (drop 34 f) = 0.
Proof.
  intros H1 H2 H3 H4 H5 W1 W2 W3 Wt Wc Wr Hl Hx f.
  destruct (echoParts_fields d s p1 (put16 (Icmp.icmpChecksum ([0x45] ++ p1 ++ [1] ++ [0; 0] ++ sa ++ da)))
    sa da ty code (put16 (Icmp.icmpChecksum ([ty; code] ++ [0; 0] ++ rest))) rest
    H1 H2 H3 eq_refl H4 H5 eq_refl) as (E1 & E2 & _ & _).
  fold f in E1, E2. rewrite E1, E2. clear E1 E2 f.
  assert (Wl : wf_bytes [0x45] /\ wf_bytes [1] /\ wf_bytes [ty; code]).
  { unfold wf_bytes. rewrite !Forall_cons. unfold is_byte in *. split_and!; try done; lia. }
  destruct Wl as (L1 & L2 & L3). split.
  - replace ([0x45] ++ p1 ++ [1] ++ [0; 0] ++ sa ++ da) with (([0x45] ++ p1 ++ [1]) ++ [0; 0] ++ sa ++ da)
      by (by rewrite <- !app_assoc).
    apply checksum_fills; [auto 10 with gosem|..].
    + unfold len. rewrite !length_app, H3. done.
    + unfold len. rewrite !length_app, H3, H4, H5. done.
    + exists 0x45. split; [|lia]. apply elem_of_app. left. by left.
  - apply checksum_fills; [auto with gosem|done| |done]. change (len [ty; code]) with 2. lia.
Qed.

(** C20: a ping is answered. Between two stand-in guests: the pinger's ARP request is
    answered by [serveNIC] with a reply the pinger takes the address from; its echo
    request, which verifies, is answered with a frame the pinger counts as the answer, both
    of whose checksums verify and whose payload, identifier and sequence number are those
    sent. Whatever an earlier frame left behind in the read buffer. *)
Theorem ping_answered macA macB ipA ipB seq stale :
  length macA = 6%nat -> length macB = 6%nat -> length ipA = 4%nat -> length ipB = 4%nat ->
  wf_bytes ipA -> wf_bytes ipB ->
  exists arp req rep,
    serveNIC macB ipB (arpFrame 1 macA ipA (replicate 6 255) ipB ++ stale) 42 = Done (Some arp) /\
    arpAnswer ipB arp = Done (Some macB) /\
    icmpEcho macA macB ipA ipB seq = Done req /\ len req = 98 /\
    serveNIC macB ipB (req ++ stale) 98 = Done (Some rep) /\
    echoAnswer ipB rep = Done true /\
    Icmp.icmpChecksum (take 20 (drop 14 rep)) = 0 /\ Icmp.icmpChecksum (drop 34 rep) = 0 /\
    drop 38 rep = drop 38 req /\ drop 38 req = pingTail seq.
Proof.
  intros HA HB Ha Hb Wa Wb. destruct (pingTail_ok seq) as [Wt Lt].
  eexists _, _, _. split; [by apply serveNIC_arp|]. split; [by apply arpAnswer_reply|].
  split; [by apply icmpEcho_bytes|].
  assert (Hw : wf_bytes [0; 0; 84; 0; 0; 0; 0; 64]) by (repeat constructor; unfold is_byte; lia).
  assert (Wo : wf_bytes [0; 0] /\ is_byte 0) by (split; [repeat constructor|]; unfold is_byte; lia).
  destruct Wo as [Wo W0].
  assert (Hpos : exists x, x ∈ 0 :: 0 :: pingTail seq /\ 0 < x)
    by (exists 1; split; [do 3 right; left|lia]).
  split; [etrans; [by apply echoParts_fields|lia]|].
  split; [apply serveNIC_echo_parts; try done; lia|].
  split; [apply echoAnswer_parts; try done; lia|].
  destruct (echoParts_verify [0; 0; 84; 0; 0; 0; 0; 64] ipB ipA 0 0 (pingTail seq) macA macB
    HA HB eq_refl Hb Ha Hw Wb Wa W0 W0 Wt ltac:(lia) Hpos) as [V1 V2].
  split; [exact V1|]. split; [exact V2|]. clear V1 V2.
  split; [|by apply echoParts_fields]. etrans; [by apply echoParts_fields|]. symmetry. by apply echoParts_fields.
Qed.

Theorem ping_answered_witness :
  exists rep, echoAnswer [10; 0; 2; 16] rep = Done true /\ drop 38 rep = pingTail 1.
Proof.
  destruct (ping_answered [2; 222; 173; 190; 239; 66] [2; 222; 173; 190; 239; 16] [10; 0; 2; 42] [10; 0; 2; 16] 1
    (zeros 9000) eq_refl eq_refl eq_refl eq_refl) as (arp & req & rep & _ & _ & _ & _ & _ & H1 & _ & _ & H2 & H3).
  1,2: repeat constructor; done.
  exists rep. split; [exact H1|]. rewrite H2. exact H3.
Defined.

(** An address the helper prints is an address it accepts, and the same. *)
Theorem mustMAC_macStr m : length m = 6%nat -> wf_bytes m -> mustMAC (macStr m) = Some m.
Proof.
  intros Hl Hw. unfold mustMAC, macStr. rewrite ParseMAC_macString by done. cbn [mbind option_bind].
  unfold len. by rewrite Hl.
Qed.

Theorem mustMAC_macStr_witness : mustMAC (macStr [2; 222; 173; 190; 239; 66]) = Some [2; 222; 173; 190; 239; 66].
Proof. apply mustMAC_macStr; [done|]. repeat constructor; done. Defined.

(** The pinger's reader passes on every frame that is not empty, in order, until a read
    fails, and a failed read ends the process. *)
Theorem readFrames_all reads pre e rest :
  reads = (Ok <$> pre) ++ Err e :: rest ->
  readFrames reads = (filter (fun f => 0 < len f) pre, true).
Proof.
  intros ->. induction pre as [|f pre IH]; [done|]. cbn [fmap list_fmap app readFrames]. rewrite IH.
  rewrite filter_cons. by destruct (Z.ltb_spec 0 (len f)); case_decide; try lia.
Qed.

Theorem readFrames_all_witness :
  readFrames [Ok [1]; Ok []; Ok [2; 3]; Err "EOF"%string; Ok [4]] = ([[1]; [2; 3]], true).
Proof. by apply (readFrames_all _ [[1]; []; [2; 3]] "EOF" [Ok [4]]). Defined.

(** ** Theorems: panics *)

Lemma len_copy_at {A} off (src dst : list A) : (off <= length dst)%nat -> len (copy_at off src dst) = len dst.
Proof. intros H. unfold len. by rewrite length_copy_at. Qed.

Lemma len_arpFrame op sha spa tha tpa : len (arpFrame op sha spa tha tpa) = 42.
Proof.
  assert (H : forall off src (b : bytes) n, (off <= n)%nat -> length b = n -> length (copy_at off src b) = n)
    by (intros off src b n ? <-; by apply length_copy_at).
  unfold len, arpFrame. change 42 with (Z.of_nat 42). f_equal. by repeat (apply H; [lia|]).
Qed.

(** Writes keep the length and the bytes. *)
Lemma put_ok off src b n :
  wf_bytes src -> Z.of_nat off <= n -> wf_bytes b /\ len b = n -> wf_bytes (copy_at off src b) /\ len (copy_at off src b) = n.
Proof. intros Hs Ho [Hw Hl]. split; [auto with gosem|]. rewrite len_copy_at; [done|]. unfold len in Hl. lia. Qed.

Lemma swapAddrs_ok buf n :
  wf_bytes buf -> len buf = 9254 -> 38 <= n <= 9254 ->
  returns (swapAddrs buf n) (fun r => wf_bytes r /\ len r = n).
Proof.
  intros Hwf Hl Hn. unfold swapAddrs.
  assert (Hs : forall lo k (s : bytes), s = take k (drop lo buf) -> wf_bytes s) by (intros ? ? ? ->; auto with gosem).
  do 5 (go_step; go_step; [lia..|]).
  set (r3 := copy_at 12 _ _).
  assert (Hr3 : wf_bytes r3 /\ len r3 = n).
  { unfold r3. do 4 (apply put_ok; [eauto|lia|]). split; [apply wf_zeros|]. unfold len. rewrite length_zeros. lia. }
  clearbody r3. destruct Hr3 as [W3 L3].
  go_step; go_step; [lia..|]. go_step; go_step; [lia..|].
  match goal with |- context [copy_at 26 ?s r3] =>
    destruct (put_ok 26 s r3 n ltac:(eauto) ltac:(lia) (conj W3 L3)) as [W4 L4] end.
  go_step; go_step; [lia..|]. go_step. apply put_ok; eauto with lia.
Qed.

Lemma icmpChecksum_ok b n :
  wf_bytes b -> len b = n -> 4 <= n ->
  returns (icmpChecksum b) (fun '(c, b') => wf_bytes b' /\ len b' = n).
Proof.
  intros Hwf Hl Hn. unfold icmpChecksum, ipChecksum. do 2 (go_step; go_step; [lia|]).
  assert (Hb : wf_bytes (copy_at 2 [0; 0] b) /\ len (copy_at 2 [0; 0] b) = n).
  { apply put_ok; [|lia|done]. repeat constructor; unfold is_byte; lia. }
  rewrite checksum_eq by apply Hb. go_step. go_step. go_step. exact Hb.
Qed.

Lemma finishReply_ok reply ihl n :
  wf_bytes reply -> len reply = n -> 38 <= n -> 0 <= ihl -> 14 + ihl + 8 <= n ->
  returns (finishReply reply ihl) (fun r => len r = n).
Proof.
  intros Hwf Hl Hn Hi Hhl. unfold finishReply.
  assert (W0 : wf_bytes [0] /\ wf_bytes [0; 0]) by (split; repeat constructor; unfold is_byte; lia).
  destruct W0 as [W0 W00].
  go_step; go_step; [lia|].
  set (r1 := copy_at _ [0] reply). assert (Hr1 : wf_bytes r1 /\ len r1 = n) by (apply put_ok; [done|lia|done]).
  clearbody r1. do 2 (go_step; go_step; [lia|]).
  set (r2 := copy_at 24 _ r1). assert (Hr2 : wf_bytes r2 /\ len r2 = n) by (apply put_ok; [done|lia|done]).
  clearbody r2. destruct Hr2 as [W2 L2]. go_step; go_step; [lia..|].
  unfold ipChecksum. rewrite checksum_eq by (subst; auto with gosem). go_step. go_step.
  set (r3 := copy_at 24 _ r2).
  assert (Hr3 : wf_bytes r3 /\ len r3 = n) by (apply put_ok; [apply wf_put16|lia|done]).
  clearbody r3. destruct Hr3 as [W3 L3]. go_step; go_step; [lia..|].
  match goal with |- context [idx ?p 0] => rename p into part end.
  assert (Wp : wf_bytes part) by (subst; auto with gosem).
  go_step; go_step; [lia|].
  set (p0 := copy_at 0 [0] part).
  assert (Hp0 : wf_bytes p0 /\ len p0 = n - (14 + ihl)) by (apply put_ok; [done|lia|split; [done|lia]]).
  clearbody p0. go_step. eapply returns_mono; [|apply (icmpChecksum_ok p0 _ (proj1 Hp0) (proj2 Hp0)); lia].
  intros [c p1] Hp1. go_step; go_step; [lia..|].
  assert (Hp2 : wf_bytes (copy_at 2 (put16 c) p1) /\ len (copy_at 2 (put16 c) p1) = n - (14 + ihl))
    by (apply put_ok; [apply wf_put16|lia|done]).
  destruct Hp2 as [Wp2 Lp2]. do 2 (go_step; go_step; [lia..|]). go_step. apply put_ok; [done|lia|done].
Qed.

(** [serveNIC] never panics. Whatever the guest side delivers into the 9254-byte
    buffer, of whatever length up to it, every index and slice of the turn is in range,
    those computed from the header length the frame claims included; an answer is an ARP
    frame of 42 bytes or as long as the request. *)
Theorem serveNIC_no_panic myMAC myIP buf n :
  wf_bytes buf -> len buf = 9254 -> 0 <= n <= 9254 ->
  exists r, serveNIC myMAC myIP buf n = Done r /\ (forall f, r = Some f -> len f = 42 \/ len f = n).
Proof.
  intros Hwf Hl Hn.
  assert (Hs : forall lo k (s : bytes), s = take k (drop lo buf) -> wf_bytes s) by (intros ? ? ? ->; auto with gosem).
  change (returns (serveNIC myMAC myIP buf n) (fun r => forall f, r = Some f -> len f = 42 \/ len f = n)).
  assert (Hnone : returns (Done None) (fun r => forall f : bytes, r = Some f -> len f = 42 \/ len f = n))
    by (apply returns_done; intros ? [=]).
  unfold serveNIC. go_step; [exact Hnone|bool_arith].
  go_step. go_step. go_step; [lia..|]. go_step; [eauto|lia|].
  go_step; [|go_step; [|exact Hnone]].
  - go_step; [exact Hnone|bool_arith].
    go_step. go_step. go_step; [lia..|]. go_step; [eauto|lia|]. go_step; [exact Hnone|].
    go_step. go_step; [lia..|]. go_step; [exact Hnone|]. do 2 (go_step; go_step; [lia..|]).
    go_step. intros f E. apply (inj Some) in E as <-. left.
    apply len_arpFrame.
  - go_step; [exact Hnone|bool_arith]. go_step; go_step; [lia|]. go_step; [exact Hnone|].
    go_step; go_step; [lia..|]. go_step; go_step; [lia|]. cbv zeta.
    match goal with |- context [Z.land ?x 15] => assert (0 <= Z.land x 15) by (apply Z.land_nonneg; lia) end.
    go_step; [exact Hnone|bool_arith]. go_step; go_step; [lia|]. go_step; [exact Hnone|].
    go_step. eapply returns_mono; [|apply swapAddrs_ok; try done; lia]. intros r [Wr Lr].
    go_step. eapply returns_mono; [|apply (finishReply_ok _ _ n); try done; lia]. intros r' Lr'.
    go_step. intros f E. apply (inj Some) in E as <-. by right.
Qed.

Theorem serveNIC_no_panic_witness :
  exists r, serveNIC (zeros 6) (zeros 4) (replicate 9254 79) 60 = Done r.
Proof.
  destruct (serveNIC_no_panic (zeros 6) (zeros 4) (replicate 9254 79) 60) as (r & H & _); [|done|lia|by exists r].
  apply Forall_replicate. unfold is_byte. lia.
Defined.

(** The pinger's test does not check the length against the header length: a 38-byte IPv4
    frame from the target whose first byte claims a 60-byte header makes it panic. *)
Definition shortEcho (src : bytes) : bytes :=
  zeros 12 ++ [8; 0; 0x4f] ++ zeros 11 ++ src ++ zeros 8.

Theorem echoAnswer_panics target :
  length target = 4%nat -> len (shortEcho target) = 38 /\ echoAnswer target (shortEcho target) = Panic.
Proof.
  intros H. explode target. split; [done|]. unfold echoAnswer.
  match goal with |- context [slice ?f 26 30] =>
    match f with shortEcho ?l => eval_to (slice f 26 30) (Done l) end;
    eval_to (slice f 12 14) (Done [8; 0]); eval_to (len f <? 38) false end.
  run. eval_to (be16 [8; 0]) (Done 2048). run. eval_to (negb (2048 =? 2048)) false.
  rewrite bool_decide_true by done. reflexivity.
Qed.

(** The loop over the sequence numbers. *)
Lemma awaitEcho_suffix target evs got evs' :
  awaitEcho target evs = Done (Some (got, evs')) ->
  exists pre e, evs = pre ++ e :: evs' /\ Forall (fun e => exists f, e = Frame f /\ echoAnswer target f = Done false) pre /\
    if got then exists f, e = Frame f /\ echoAnswer target f = Done true else e = Timeout.
Proof.
  induction evs as [|[f|] evs IH]; cbn [awaitEcho]; intros E; [done| |].
  - destruct (echoAnswer target f) as [b|] eqn:Ef; [|done]. cbn [mbind go_bind] in E. destruct b.
    + apply (f_equal (fun x => match x with Done (Some y) => y | _ => (true, []) end)) in E.
      injection E as <- <-. exists [], (Frame f). split_and!; eauto.
    + destruct (IH E) as (pre & e & -> & Hpre & He). exists (Frame f :: pre), e. split_and!; eauto.
  - injection E as <- <-. exists [], Timeout. by split_and!.
Qed.

Lemma pingLoop_counts target n : forall seq evs sent lost,
  pingLoop target n seq evs = Done (sent, lost, true) ->
  sent = u16 <$> seqZ seq (Z.of_nat n) /\ 0 <= lost <= Z.of_nat n.
Proof.
  induction n as [|n IH]; intros seq evs sent lost E; cbn [pingLoop] in E.
  { injection E as <- <-. done. }
  destruct (awaitEcho target evs) as [[[got evs']|]|]; cbn [mbind go_bind] in E; try done.
  destruct (pingLoop target n (seq + 1) evs') as [[[s l] fin]|] eqn:Ep; cbn [mbind go_bind] in E; [|done].
  apply (f_equal (fun x => match x with Done y => y | _ => ([], 0, false) end)) in E.
  injection E as E1 E2 ->. destruct (IH _ _ _ _ Ep) as [-> Hl]. split.
  - rewrite <- E1, (seqZ_cons seq (Z.of_nat (S n))) by lia. cbn [fmap list_fmap].
    by replace (Z.pred (Z.of_nat (S n))) with (Z.of_nat n) by lia.
  - destruct got; lia.
Qed.

(** The statistics line: as many requests as asked for, with the sequence numbers 1 to n
    (as 16-bit numbers), between none and all of them lost, and a percentage between 0 and
    100. *)
Theorem ping_statistics target n evs sent lost :
  pingLoop target n 1 evs = Done (sent, lost, true) ->
  sent = u16 <$> seqZ 1 (Z.of_nat n) /\ 0 <= lost <= Z.of_nat n /\ 0 <= lossPercent lost (Z.of_nat n) <= 100.
Proof.
  intros E. destruct (pingLoop_counts _ _ _ _ _ _ E) as [Hs Hl]. split_and!; try done; try lia.
  - unfold lossPercent. apply Z.quot_pos; [lia|]. by destruct (Z.ltb_spec 1 (Z.of_nat n)); lia.
  - unfold lossPercent. destruct (Z.ltb_spec 1 (Z.of_nat n)).
    + apply Z.quot_le_upper_bound; lia.
    + rewrite Z.quot_1_r. lia.
Qed.

(** The reply's identifier and sequence number are not looked at: an echo that answered an
    earlier request, already counted as lost, is the answer to the next. *)
Theorem late_reply_counts target late :
  echoAnswer target late = Done true ->
  pingLoop target 2 1 [Timeout; Frame late] = Done ([1; 2], 1, true).
Proof. intros E. cbn [pingLoop awaitEcho mbind go_bind]. rewrite E. reflexivity. Qed.
