(* ===== verification/Fabric.v ===== *)
(** * Fabric: a hub and its peers as one network

    The data path of a fleet in switch mode, from guest to guest: a peer's guest wire
    ([Wire.wireFrame]), its connection to the hub (any implementation of
    [Conns.FrameConn]), the hub's reader of that connection ([Wire.peerReader]), the
    switch ([VSwitch.Forward]), the port's queue and writer ([VSwitch.writerSend]),
    the connection back and the peer's [Wire.runPeer]. A run is a sequence of
    [event]s, each one step of one goroutine, the medium or a guest, in any order.

    Uplink and hub guest are sinks 0 and 1, the connections of peers are numbered from
    2; a connection's number is also its port's sink. *)
From S2P Require Import Prelude.
From S2P Require Import Elect.
From S2P Require Import VSwitch.
From S2P Require Import Wire.
From S2P Require Import Conns.
From S2P Require Link.
From S2P Require Dhcp.
From S2P Require Main.
From S2P Require FakeGuest.

Definition uplinkSink : nat := 0.
Definition guestSink : nat := 1.

Section Fabric.
Context `{FrameConnLaws W}.

(** ** State

    A peer instance and its connection. [reader] is the port the hub's reader of the
    connection forwards on, while it runs; [peer] the state of [runPeer], while it
    runs; [own] the peer's own switch, which has no ports. The fields from [m_port] on
    are history and no step reads them: the port and port object the hub gave it, the
    frames its guest wire sent, the frames the hub forwarded for it, the frames
    that were due to it (with the number of where they came from), whether one of
    those found the queue full, and the frames it read. *)
Record member := mkMember {
  up : W; down : W;
  reader : option Port;
  peer : option peerState;
  own : Switch;
  guestRx : list bytes;
  m_port : Port; obj : nat;
  sent : list bytes; fwd : list bytes;
  due : list (nat * bytes); shed : bool; rx : list bytes;
}.

Record fabric := mkFabric {
  sw : Switch;
  members : gmap nat member;
  uplinkRx : list bytes;
  hubGuestRx : list bytes;
}.

Definition withUp (w : W) (m : member) : member :=
  mkMember w (down m) (reader m) (peer m) (own m) (guestRx m) (m_port m) (obj m) (sent m) (fwd m)
    (due m) (shed m) (rx m).
Definition withDown (w : W) (m : member) : member :=
  mkMember (up m) w (reader m) (peer m) (own m) (guestRx m) (m_port m) (obj m) (sent m) (fwd m)
    (due m) (shed m) (rx m).
Definition withReader (r : option Port) (m : member) : member :=
  mkMember (up m) (down m) r (peer m) (own m) (guestRx m) (m_port m) (obj m) (sent m) (fwd m)
    (due m) (shed m) (rx m).
Definition withPeer (p : option peerState) (g : list bytes) (m : member) : member :=
  mkMember (up m) (down m) (reader m) p (own m) g (m_port m) (obj m) (sent m) (fwd m)
    (due m) (shed m) (rx m).
Definition withOwn (o : Switch) (m : member) : member :=
  mkMember (up m) (down m) (reader m) (peer m) o (guestRx m) (m_port m) (obj m) (sent m) (fwd m)
    (due m) (shed m) (rx m).
(** History. *)
Definition addSent (fs : list bytes) (m : member) : member :=
  mkMember (up m) (down m) (reader m) (peer m) (own m) (guestRx m) (m_port m) (obj m) (sent m ++ fs)
    (fwd m) (due m) (shed m) (rx m).
Definition addFwd (fs : list bytes) (m : member) : member :=
  mkMember (up m) (down m) (reader m) (peer m) (own m) (guestRx m) (m_port m) (obj m) (sent m)
    (fwd m ++ fs) (due m) (shed m) (rx m).
Definition addRx (f : bytes) (m : member) : member :=
  mkMember (up m) (down m) (reader m) (peer m) (own m) (guestRx m) (m_port m) (obj m) (sent m)
    (fwd m) (due m) (shed m) (rx m ++ [f]).
Definition addDue (x : nat * bytes) (full : bool) (m : member) : member :=
  mkMember (up m) (down m) (reader m) (peer m) (own m) (guestRx m) (m_port m) (obj m) (sent m)
    (fwd m) (due m ++ [x]) (shed m || full) (rx m).

Definition setSw (x : Switch) (s : fabric) : fabric :=
  mkFabric x (members s) (uplinkRx s) (hubGuestRx s).
Definition setMember (c : nat) (m : member) (s : fabric) : fabric :=
  mkFabric (sw s) (<[c := m]> (members s)) (uplinkRx s) (hubGuestRx s).

(** ** Steps *)

(** What a write to the uplink or to the hub's guest comes to: a tap's or a socket's may
    fail, and [uplinkSink]'s may panic. *)
Inductive sendResult := Sent | Failed | Panics.
Definition writes : Type := nat -> bytes -> sendResult.
Definition allSent : writes := fun _ _ => Sent.

Definition delivered (snk : nat) (f : bytes) (s : fabric) : fabric :=
  if bool_decide (snk = uplinkSink)
  then mkFabric (sw s) (members s) (uplinkRx s ++ [f]) (hubGuestRx s)
  else mkFabric (sw s) (members s) (uplinkRx s) (hubGuestRx s ++ [f]).

(** [SendFrame] of a sink; true when it fails. *)
Definition sinkSend (w : writes) (snk : nat) (f : bytes) (s : fabric) : go (fabric * bool) :=
  if bool_decide (snk <= guestSink)%nat then
    match w snk f with
    | Sent => Done (delivered snk f s, false)
    | Failed => Done (s, true)
    | Panics => Panic
    end
  else Done match members s !! snk with
            | Some m =>
                match SendOn f (down m) with
                | Ok w => (setMember snk (withDown w m) s, false)
                | Err _ => (s, true)
                end
            | None => (s, true)
            end.

(** The inline sends of a [Forward]; their errors are ignored. *)
Fixpoint inlineSends (w : writes) (evs : list send) (s : fabric) : go fabric :=
  match evs with
  | [] => Done s
  | e :: evs =>
      match heap (sw s) !! send_obj e with
      | Some o => r ← sinkSend w (sink o) (send_frame e) s; inlineSends w evs r.1
      | None => inlineSends w evs s
      end
  end.

(** History: the frame is due to the members whose port the bridge names. *)
Definition note (n1 n2 : Z) (port : Port) (src : nat) (f : bytes) (x : Switch) (m : member) : member :=
  if bool_decide (ports x !! m_port m = Some (obj m)) && (14 <=? len f) &&
     bridgeTarget n1 n2 port f (macs x) (m_port m)
  then addDue (src, f) (match heap x !! obj m with Some o => negb (hasRoom o) | None => true end) m
  else m.

Definition noteAll (n1 n2 : Z) (port : Port) (src : nat) (f : bytes) (s : fabric) : fabric :=
  mkFabric (sw s) (note n1 n2 port src f (sw s) <$> members s) (uplinkRx s) (hubGuestRx s).

(** What follows a [Forward] that returned [r]. *)
Definition forwarded (w : writes) (n1 n2 : Z) (port : Port) (src : nat) (f : bytes) (r : Switch * list send)
    (s : fabric) : go fabric :=
  inlineSends w r.2 (setSw r.1 (noteAll n1 n2 port src f s)).

Inductive event :=
| GuestFrame (c : nat) (n1 n2 : Z) (f : bytes)   (* a peer's guest wire reads [f] *)
| HubReads (c : nat) (n1 n2 : Z) (w : writes)    (* a turn of a hub reader *)
| HubGuest (n1 n2 : Z) (f : bytes) (w : writes)  (* the hub's guest wire reads [f] *)
| UplinkFrame (n1 n2 : Z) (f : bytes) (w : writes)  (* netstack, DHCP, a relay, a heartbeat *)
| Writer (id : nat) (w : writes)                 (* a port's writer takes a frame *)
| WriterDone (id : nat)                          (* or sees its port closed *)
| PeerReads (c : nat) (now : Z) (guest : option string)  (* a turn of runPeer *)
| Join (c : nat)                                 (* the hub accepts a connection *)
| Leave (c : nat) (reset : bool)                 (* a peer closes its end *)
| MoveUp (c k : nat) | MoveDown (c k : nat).     (* the medium *)

Definition guestFrameStep (c : nat) (n1 n2 : Z) (f : bytes) (s : fabric) (m : member) : go fabric :=
  let sending := SendOn f (up m) in
  let hub := match peer m, sending with
             | Some _, Ok _ => HubOk | Some _, Err e => HubErr e | None, _ => NoPeer
             end in
  r ← wireFrame hub n1 n2 f (own m);
  let m := withOwn r.1.1 m in
  Done (setMember c match r.2, sending with
                    | [ToHub g], Ok w => addSent [g] (withUp w m)
                    | _, _ => m
                    end s).

Definition hubReadsStep (c : nat) (n1 n2 : Z) (ws : writes) (s : fabric) (m : member) : go fabric :=
  match reader m, RecvOn Link.FrameMax (up m) with
  | Some port, Some r =>
      r ← r;
      let recv := '(f, _) ← r; Ok f in
      '(x, evs, fs, gone) ← peerReader port [mkTurn id n1 n2 recv] (sw s);
      let m := match r with Ok (_, w) => withUp w m | Err _ => m end in
      let m := match gone with
               | Some _ => withReader None (withDown (CloseOn (down m)) m)
               | None => m
               end in
      let s := setMember c (addFwd fs m) s in
      match fs with
      | f :: _ => forwarded ws n1 n2 port c f (x, evs) s
      | [] => Done (setSw x s)
      end
  | _, _ => Done s
  end.

Definition peerReadsStep (c : nat) (now : Z) (guest : option string) (s : fabric) (m : member)
  : go fabric :=
  match peer m, RecvOn Link.FrameMax (down m) with
  | Some st, Some r =>
      r ← r;
      let recv := '(f, _) ← r; Ok f in
      '(st, fs, reason) ← runPeer [HubRecv now recv guest] st;
      let m := match r with Ok (f, w) => addRx f (withDown w m) | Err _ => m end in
      let m := match reason with
               | Some _ => withUp (CloseOn (up m)) (withPeer None (guestRx m ++ fs) m)
               | None => withPeer (Some st) (guestRx m ++ fs) m
               end in
      Done (setMember c m s)
  | _, _ => Done s
  end.

Definition forwardStep (w : writes) (n1 n2 : Z) (port : Port) (src : nat) (f : bytes) (s : fabric) : go fabric :=
  r ← Forward n1 n2 port f (sw s); forwarded w n1 n2 port src f r s.

Definition writerStep (id : nat) (w : writes) (s : fabric) : go fabric :=
  match heap (sw s) !! id with
  | Some o =>
      match writer_running o, out o with
      | true, f :: _ =>
          '(s', fails) ← sinkSend w (sink o) f s;
          r ← writerSend id fails (sw s');
          Done match r with Some (x, _) => setSw x s' | None => s' end
      | _, _ => Done s
      end
  | None => Done s
  end.

Definition joinStep (c : nat) (s : fabric) : fabric :=
  if bool_decide (guestSink < c)%nat && bool_decide (members s !! c = None) then
    match AddPeer c (sw s) with
    | (x, Some p) =>
        setMember c (mkMember freshConn freshConn (Some p) (Some freshPeer) New [] p (newObj (sw s))
                       [] [] [] false []) (setSw x s)
    | (_, None) => s
    end
  else s.

Definition withMember (c : nat) (s : fabric) (k : member -> go fabric) : go fabric :=
  match members s !! c with Some m => k m | None => Done s end.

(** A step that its goroutine cannot take now (nobody there, nothing to read) leaves
    the state alone. *)
Definition fstep (e : event) (s : fabric) : go fabric :=
  match e with
  | GuestFrame c n1 n2 f => withMember c s (guestFrameStep c n1 n2 f s)
  | HubReads c n1 n2 w => withMember c s (hubReadsStep c n1 n2 w s)
  | HubGuest n1 n2 f w => forwardStep w n1 n2 Local guestSink f s
  | UplinkFrame n1 n2 f w => forwardStep w n1 n2 Uplink uplinkSink f s
  | Writer id w => writerStep id w s
  | WriterDone id => Done match writerDone id (sw s) with Some x => setSw x s | None => s end
  | PeerReads c now guest => withMember c s (peerReadsStep c now guest s)
  | Join c => Done (joinStep c s)
  | Leave c reset => withMember c s (fun m =>
      let m := withUp (CloseOn (up m)) (withPeer None (guestRx m) m) in
      Done (setMember c (if reset then withDown (CloseOn (down m)) m else m) s))
  | MoveUp c k => withMember c s (fun m => Done (setMember c (withUp (TransitOn k (up m)) m) s))
  | MoveDown c k => withMember c s (fun m => Done (setMember c (withDown (TransitOn k (down m)) m) s))
  end.

Fixpoint frun (evs : list event) (s : fabric) : go fabric :=
  match evs with [] => Done s | e :: evs => s ← fstep e s; frun evs s end.

(** The hub, with its uplink and its guest, before anybody joins. *)
Definition hub0 : fabric :=
  mkFabric (AddPort Local guestSink (AddPort Uplink uplinkSink New)) ∅ [] [].

(** The frames the outside puts in fit a frame buffer; no write to the uplink or to the
    hub's guest fails or panics. *)
Definition event_ok (e : event) : Prop :=
  match e with
  | GuestFrame _ _ _ f | HubGuest _ _ f _ | UplinkFrame _ _ f _ => len f <= Link.FrameMax
  | _ => True
  end /\
  match e with
  | HubReads _ _ _ w | HubGuest _ _ _ w | UplinkFrame _ _ _ w | Writer _ w => forall snk f, w snk f = Sent
  | _ => True
  end.

(** ** One turn of a loop *)

Lemma wireFrame_one hub n1 n2 f x :
  wf x -> len f <= Link.FrameMax ->
  returns (wireFrame hub n1 n2 f x) (fun '(x', _, rt) =>
    wf x' /\ rt = if len f <? 14 then [] else [match hub with HubOk => ToHub f | _ => ToSwitch f end]).
Proof.
  intros Hwf Hf. unfold wireFrame. destruct (len f <? 14); [by apply returns_done|].
  destruct hub; [|by apply returns_done|];
    apply returns_bind; (eapply returns_mono; [|by apply Forward_fits]); intros r Hr; by apply returns_done.
Qed.

Lemma peerReader_frame port n1 n2 f x :
  14 <= len f ->
  peerReader port [mkTurn id n1 n2 (Ok f)] x =
    (r ← Forward n1 n2 port f x; Done (r.1, r.2, [f], None)).
Proof.
  intros Hf. cbn [peerReader recv env now1 now2]. unfold id. destruct (Z.eqb_spec (len f) 0); [lia|].
  destruct (Z.ltb_spec (len f) 14); [lia|]. destruct (Forward n1 n2 port f x) as [[x' evs]|]; [|done].
  cbn. by rewrite app_nil_r.
Qed.

Lemma peerReader_error port n1 n2 e x :
  peerReader port [mkTurn id n1 n2 (Err e)] x = (x ← RemovePort port x; Done (x, [], [], Some e)).
Proof. done. Qed.

(** The frames a peer passes to its guest. *)
Definition forGuest (f : bytes) : bool := (14 <=? len f) && negb (isBeaconFrame f).
Definition guestFrames (fs : list bytes) : list bytes := filter (fun f => forGuest f = true) fs.

Lemma guestFrames_snoc fs f :
  guestFrames (fs ++ [f]) = guestFrames fs ++ (if forGuest f then [f] else []).
Proof.
  unfold guestFrames. rewrite filter_app. f_equal. destruct (forGuest f) eqn:E.
  - by rewrite filter_cons_True.
  - by rewrite filter_cons_False by (by rewrite E).
Qed.

Lemma runPeer_frame now f guest st :
  runPeer [HubRecv now (Ok f) guest] st =
    Done (see st (HubRecv now (Ok f) guest),
          match guest with Some _ => [] | None => if forGuest f then [f] else [] end,
          match guest with Some e => if forGuest f then Some (GuestFailed e) else None | None => None end).
Proof.
  cbn [runPeer]. rewrite (hubFrame_eq now f st guest). cbn [mbind go_bind].
  unfold guestFrame, forGuest. destruct ((14 <=? len f) && negb (isBeaconFrame f)), guest; done.
Qed.

(** ** The invariant *)

Lemma sublist_pairs {A B} (l : list B) (d : list (A * B)) :
  l `sublist_of` d.*2 -> exists d', l = d'.*2 /\ d' `sublist_of` d.
Proof.
  revert l. induction d as [|[a b] d IH]; intros l Hl; cbn in Hl.
  - apply sublist_nil_r in Hl as ->. by exists [].
  - inversion Hl as [|? l' ? Hl'|? l' ? Hl']; subst.
    + destruct (IH _ Hl') as (d' & -> & Hd'). exists ((a, b) :: d'). split; [done|by constructor].
    + destruct (IH _ Hl') as (d' & -> & Hd'). exists d'. split; [done|by constructor].
Qed.

(** The lease table of the heartbeats among the frames a peer read. *)
Definition gossiped (fs : list bytes) : gmap bytes bytes :=
  foldl cacheFrame ∅ (filter (fun f => isBeaconFrame f = true) fs).

Lemma gossiped_snoc fs f g st now :
  leases st = gossiped fs -> leases (see st (HubRecv now (Ok f) g)) = gossiped (fs ++ [f]).
Proof.
  intros E. unfold gossiped, see, beatOf. rewrite filter_app, foldl_app, filter_cons, filter_nil.
  destruct (isBeaconFrame f) eqn:Hb; [|by case_decide; [congruence|]].
  rewrite decide_True by done. cbn. by rewrite E.
Qed.

(** The port object of a member. *)
Definition heap_obj (h : gmap nat port) (c : nat) (m : member) (o : port) : Prop :=
  h !! obj m = Some o /\ sink o = c /\ writer_key o = m_port m.

(** The way back of a member: what was offered to its port ([offered]) is what it
    read, then what its connection holds, then what its queue holds, as long as its
    writer lives. *)
Definition downlink (h : gmap nat port) (c : nat) (m : member) : Prop :=
  exists closed q rest offered o,
    heap_obj h c m o /\ holds closed q (down m) /\ offered = rx m ++ q ++ rest /\
    (writer_running o = true -> rest = out o) /\ Forall fits (out o) /\
    offered `sublist_of` (due m).*2 /\ (shed m = false -> offered = (due m).*2).

(** The way in: what its guest wire sent is what the hub forwarded and what the
    connection holds. *)
Definition uplink (m : member) : Prop :=
  exists closed q, holds closed q (up m) /\ sent m = fwd m ++ q /\
    Forall (fun f => 14 <= len f <= Link.FrameMax) q.

Record linked (h : gmap nat port) (c : nat) (m : member) : Prop := {
  lk_own : wf (own m);
  lk_reader : forall p, reader m = Some p -> p = m_port m;
  lk_port : 0 <= m_port m;
  lk_up : uplink m;
  lk_down : downlink h c m;
  lk_guest : exists z, guestFrames (rx m) = guestRx m ++ z /\
    forall st, peer m = Some st -> z = [] /\ leases st = gossiped (rx m);
}.

(** What was due to a member came from somebody else, in the order it was forwarded. *)
Definition fromOthers (ms : gmap nat member) (c : nat) (m : member) : Prop :=
  (forall x, x ∈ due m -> x.1 <> c /\ ((x.1 <= guestSink)%nat \/ is_Some (ms !! x.1))) /\
  forall c' m', ms !! c' = Some m' -> (filter (fun x => x.1 = c') (due m)).*2 `sublist_of` fwd m'.

Record hubbed (x : Switch) (ms : gmap nat member) : Prop := {
  hb_wf : wf x;
  hb_uplink : is_Some (ports x !! Uplink);
  hb_local : is_Some (ports x !! Local);
  hb_neg : forall p id, ports x !! p = Some id -> p < 0 ->
    exists o, heap x !! id = Some o /\ (sink o <= guestSink)%nat;
  hb_sink : forall id o, heap x !! id = Some o ->
    ((sink o <= guestSink)%nat /\ writer_key o < 0) \/
    exists m, ms !! sink o = Some m /\ obj m = id;
  hb_dom : forall c m, ms !! c = Some m -> (guestSink < c)%nat;
}.

Record inv (s : fabric) : Prop := {
  in_hub : hubbed (sw s) (members s);
  in_link : forall c m, members s !! c = Some m -> linked (heap (sw s)) c m;
  in_due : forall c m, members s !! c = Some m -> fromOthers (members s) c m;
}.

(** *** Changes of one member *)

Lemma hubbed_member x ms c m m' :
  ms !! c = Some m -> obj m' = obj m -> hubbed x ms -> hubbed x (<[c := m']> ms).
Proof.
  intros Hm Ho [Hw Hu Hl Hn Hs Hd]. split; try done.
  - intros id o Hid. destruct (Hs id o Hid) as [?|(m1 & Hm1 & E)]; [by left|]. right.
    rewrite lookup_insert. case_decide; [|by eauto]. exists m'. split; [done|]. congruence.
  - intros c' m1. rewrite lookup_insert. case_decide; [intros _; subst; by eapply Hd|by apply Hd].
Qed.

Lemma inv_member c m m' s :
  inv s -> members s !! c = Some m -> linked (heap (sw s)) c m' ->
  obj m' = obj m -> due m' = due m -> fwd m `sublist_of` fwd m' ->
  inv (setMember c m' s).
Proof.
  intros [Hh Hl Hd] Hm Hl' Ho Hdue Hf. split; cbn.
  - by eapply hubbed_member.
  - intros c' m1. rewrite lookup_insert. case_decide; [by intros [= <-]; subst|by apply Hl].
  - intros c' m1. rewrite lookup_insert. intros H1.
    assert (Hm1 : exists m2, members s !! c' = Some m2 /\ due m1 = due m2).
    { case_decide; [|by eauto]. injection H1 as <-. subst c'. by eauto. }
    destruct Hm1 as (m2 & Hm2 & Hdm). destruct (Hd c' m2 Hm2) as [Ha Hb]. clear H1.
    unfold fromOthers. rewrite Hdm. split.
    + intros e He. destruct (Ha e He) as [? Hor]. split; [done|]. destruct Hor as [?|Hor]; [by left|right].
      rewrite lookup_insert. case_decide; [by eexists|done].
    + intros c2 m3. rewrite lookup_insert. case_decide; [|by apply Hb].
      intros [= <-]. subst c2. etrans; [by apply (Hb c m)|done].
Qed.

(** *** Changes of the switch *)

(** An object stays the same port's, and its queue holds no new frame that does not fit. *)
Definition keeps (o o' : port) : Prop :=
  sink o' = sink o /\ writer_key o' = writer_key o /\ (Forall fits (out o) -> Forall fits (out o')).

(** What the switch does to a member's object without sending for it. *)
Definition quieter (o o' : port) : Prop :=
  keeps o o' /\ ((guestSink < sink o)%nat -> writer_running o' = true ->
                 writer_running o = true /\ out o' = out o).

Lemma linked_quieter h h' c m :
  (guestSink < c)%nat ->
  (forall o, h !! obj m = Some o -> exists o', h' !! obj m = Some o' /\ quieter o o') ->
  linked h c m -> linked h' c m.
Proof.
  intros Hc Hh [? ? ? ? (cl & q & rest & off & o & (Ho & Hs & Hk) & Hq & E & Hr & Hf & Hsub & Hsh) ?].
  split; try done. destruct (Hh o Ho) as (o' & Ho' & (Es & Ek & Ef) & Er).
  exists cl, q, rest, off, o'. split_and!; try done; [split_and!; [done|congruence..]| |by apply Ef].
  rewrite Hs in Er. intros [Hrun ->]%Er; [by apply Hr|done].
Qed.

Lemma quieter_refl o : quieter o o.
Proof. done. Qed.

Lemma keeps_trans o1 o2 o3 : keeps o1 o2 -> keeps o2 o3 -> keeps o1 o3.
Proof. intros (E1 & K1 & F1) (E2 & K2 & F2). split_and!; [congruence|congruence|auto]. Qed.

Lemma quieter_trans o1 o2 o3 : quieter o1 o2 -> quieter o2 o3 -> quieter o1 o3.
Proof.
  intros [K1 R1] [K2 R2]. split; [by eapply keeps_trans|]. intros Hs Hr.
  destruct R2 as [Hr2 ->]; [by rewrite (proj1 K1)|done|]. by apply R1.
Qed.

Lemma opt2_Some_l {A B} (R : A -> B -> Prop) o y :
  option_Forall2 R (Some o) y -> exists o', y = Some o' /\ R o o'.
Proof. inversion 1; subst. by eauto. Qed.

Lemma opt2_Some_r {A B} (R : A -> B -> Prop) x o' :
  option_Forall2 R x (Some o') -> exists o, x = Some o /\ R o o'.
Proof. inversion 1; subst. by eauto. Qed.

Lemma opt2_None_l {A B} (R : A -> B -> Prop) y : option_Forall2 R None y -> y = None.
Proof. by inversion 1. Qed.

(** The ports below zero stay and the objects are related one to one. *)
Definition evolves (R : nat -> port -> port -> Prop) (x x' : Switch) : Prop :=
  (forall p, p < 0 -> ports x' !! p = ports x !! p) /\
  forall id, option_Forall2 (R id) (heap x !! id) (heap x' !! id).

Definition calmer : Switch -> Switch -> Prop := evolves (fun _ => quieter).

(** Everybody but [id] is quieter. *)
Definition calmerBut (id : nat) : Switch -> Switch -> Prop :=
  evolves (fun i => if decide (i = id) then keeps else quieter).

Lemma evolves_trans (R1 R2 R3 : nat -> port -> port -> Prop) x1 x2 x3 :
  (forall i o1 o2 o3, R1 i o1 o2 -> R2 i o2 o3 -> R3 i o1 o3) ->
  evolves R1 x1 x2 -> evolves R2 x2 x3 -> evolves R3 x1 x3.
Proof.
  intros HR [P1 H1] [P2 H2]. split; [intros p Hp; by rewrite P2, P1|]. intros id.
  specialize (H1 id). specialize (H2 id). destruct (heap x1 !! id) as [o|].
  - apply opt2_Some_l in H1 as (o' & E' & R'). rewrite E' in H2.
    apply opt2_Some_l in H2 as (o2 & -> & R2'). constructor. by eapply HR.
  - apply opt2_None_l in H1. rewrite H1 in H2. apply opt2_None_l in H2 as ->. constructor.
Qed.

Lemma evolves_hubbed R x x' ms :
  (forall i o o', R i o o' -> keeps o o') -> wf x' -> evolves R x x' -> hubbed x ms -> hubbed x' ms.
Proof.
  intros HR Hx [Hp Hh] [Hw Hu Hl Hn Hs Hd]. split; try done.
  - by rewrite Hp by done.
  - by rewrite Hp by done.
  - intros p id Hid Hlt. rewrite Hp in Hid by done. destruct (Hn p id Hid Hlt) as (o & Ho & Hsk).
    specialize (Hh id). rewrite Ho in Hh. apply opt2_Some_l in Hh as (o' & Ho' & (Es & _)%HR).
    exists o'. by rewrite Es.
  - intros id o' Ho'. specialize (Hh id). rewrite Ho' in Hh.
    apply opt2_Some_r in Hh as (o & Ho & (-> & -> & _)%HR). by eapply Hs.
Qed.

Lemma inv_calmer x s : inv s -> wf x -> calmer (sw s) x -> inv (setSw x s).
Proof.
  intros [Hh Hlk Hdu] Hx Hc. split; cbn; [|intros c m Hm|done].
  - eapply (evolves_hubbed (fun _ => quieter)); [|done..]. by intros ? ? ? [? _].
  - eapply linked_quieter; [by eapply hb_dom| |by apply Hlk]. intros o Ho.
    destruct Hc as [_ Hc]. specialize (Hc (obj m)). rewrite Ho in Hc. by apply opt2_Some_l in Hc.
Qed.

(** One member's object and the member change together. *)
Lemma inv_pop c m m' x s :
  inv s -> members s !! c = Some m -> wf x -> calmerBut (obj m) (sw s) x ->
  linked (heap x) c m' -> obj m' = obj m -> due m' = due m -> fwd m' = fwd m ->
  inv (setSw x (setMember c m' s)).
Proof.
  intros Hi Hm Hx Hc Hl' Ho Hd Hf. pose proof Hi as [Hh Hlk Hdu]. split; cbn.
  - eapply (evolves_hubbed (fun i => if decide (i = obj m) then keeps else quieter));
      [|done|exact Hc|by eapply hubbed_member]. intros i o o'. case_decide; [done|]. by intros [? _].
  - intros c' m1. rewrite lookup_insert. case_decide as E; [by intros [= <-]; subst|]. intros Hm1.
    eapply linked_quieter; [by eapply hb_dom| |by apply Hlk]. intros o Ho1.
    destruct Hc as [_ Hc]. specialize (Hc (obj m1)). rewrite Ho1 in Hc.
    destruct (decide (obj m1 = obj m)) as [Eo|]; [|by apply opt2_Some_l in Hc].
    destruct (lk_down _ _ _ (Hlk c m Hm)) as (? & ? & ? & ? & o1 & (Ho2 & Hs & _) & _).
    destruct (lk_down _ _ _ (Hlk c' m1 Hm1)) as (? & ? & ? & ? & o3 & (Ho4 & Hs' & _) & _).
    rewrite Eo in Ho4. congruence.
  - assert (Hd' : forall c' m1, members s !! c' = Some m1 ->
      fromOthers (members (setMember c m' s)) c' m1).
    { intros c' m1 Hm1. destruct (Hdu c' m1 Hm1) as [Ha Hb]. split.
      - intros e He. destruct (Ha e He) as [? Hor]. split; [done|]. destruct Hor as [?|Hor]; [by left|right].
        cbn. rewrite lookup_insert. case_decide; [by eexists|done].
      - intros c2 m3. cbn. rewrite lookup_insert. case_decide as E2; [|by apply Hb].
        intros [= <-]. subst c2. rewrite Hf. by apply (Hb c m). }
    intros c' m1. rewrite lookup_insert. case_decide as E; [|by apply Hd'].
    intros [= <-]. subst c'. specialize (Hd' c m Hm). unfold fromOthers in *. by rewrite Hd.
Qed.

Lemma calmer_alter x id g :
  (forall o, heap x !! id = Some o -> quieter o (g o)) ->
  calmer x (mkSwitch (macs x) (ports x) (alter g id (heap x)) (drops x) (peers x)).
Proof.
  intros Hg. split; [done|]. intros i. cbn. destruct (decide (i = id)) as [->|Hne].
  - rewrite lookup_alter_eq. destruct (heap x !! id) as [o|]; constructor. by apply Hg.
  - rewrite lookup_alter_ne by done. destruct (heap x !! i); by constructor.
Qed.

Lemma calmer_RemovePort p x x' : 0 <= p -> wf x -> RemovePort p x = Done x' -> calmer x x'.
Proof.
  intros Hp Hwf. unfold RemovePort, closeDone. destruct (ports x !! p) as [id|] eqn:Hid; go_simpl.
  - destruct (heap x !! id) as [o|] eqn:Ho; [|done]. destruct (done_closed o); [done|]. go_simpl.
    intros [= <-]. split; cbn.
    + intros q Hq. by rewrite lookup_delete_ne by lia.
    + intros i. destruct (decide (i = id)) as [->|Hne].
      * rewrite lookup_insert_eq, Ho. by constructor.
      * rewrite lookup_insert_ne by done. destruct (heap x !! i); by constructor.
  - intros [= <-]. split; [done|]. intros i. cbn. destruct (heap x !! i); by constructor.
Qed.

Lemma stopWriter_calmer id x : calmer x (stopWriter id x).
Proof. by apply calmer_alter. Qed.

(** *** A member's end of the wires *)

Lemma linked_up h c m w f q cl :
  linked h c m -> holds cl q w -> sent m ++ f = fwd m ++ q ->
  Forall (fun f => 14 <= len f <= Link.FrameMax) q ->
  linked h c (addSent f (withUp w m)).
Proof. intros [] Hq E Hf. split; try done. by exists cl, q. Qed.

Lemma linked_own h c m x : linked h c m -> wf x -> linked h c (withOwn x m).
Proof. by intros [] Hx. Qed.

(** The end of a peer: its wire is closed and nothing more reaches its guest. *)
Lemma linked_gone h c m g :
  linked h c m -> (exists z, guestFrames (rx m) = g ++ z) ->
  linked h c (withUp (CloseOn (up m)) (withPeer None g m)).
Proof.
  intros [? ? ? (cl & q & Hq & E & Hf) ? ?] [z Hz]. split; try done.
  - exists true, q. split_and!; [by eapply close_holds|done|done].
  - by exists z.
Qed.

Lemma downlink_down h c m w :
  (forall cl q, holds cl q (down m) -> exists cl', holds cl' q w) ->
  downlink h c m -> downlink h c (withDown w m).
Proof.
  intros Hw (cl & q & rest & off & o & Ho & Hq & H'). destruct (Hw cl q Hq) as [cl' Hq'].
  by exists cl', q, rest, off, o.
Qed.

Lemma linked_down h c m w :
  linked h c m -> (forall cl q, holds cl q (down m) -> exists cl', holds cl' q w) ->
  linked h c (withDown w m).
Proof. intros [] Hw. split; try done. by apply downlink_down. Qed.

Lemma linked_closeDown h c m : linked h c m -> linked h c (withDown (CloseOn (down m)) m).
Proof. intros Hl. apply linked_down; [done|]. intros cl q Hq. exists true. by eapply close_holds. Qed.

(** *** A forwarded frame *)

(** An object is registered at its writer's port or nowhere. *)
Lemma registered_dec x id o :
  wf x -> heap x !! id = Some o -> ports x !! writer_key o = Some id \/ ~ registered x id.
Proof.
  intros Hwf Ho. destruct (decide (ports x !! writer_key o = Some id)) as [|Hn]; [by left|right].
  intros [p Hp]. destruct (wf_port x Hwf p id Hp) as (o' & Ho' & <- & _). congruence.
Qed.

Lemma received_heap id x r f b o :
  received id x r f b -> heap x !! id = Some o ->
  heap r.1 !! id = Some o \/ heap r.1 !! id = Some (VSwitch.push f o).
Proof.
  intros (o1 & Ho1 & Hb) Ho. assert (o1 = o) as -> by congruence.
  destruct b; [destruct Hb as [[? _]|[? _]]|destruct Hb as [? _]]; auto.
Qed.

(** [Forward] keeps every object, with its sink and its writer. *)
Lemma outcome_heap n1 n2 port f x r id :
  wf x -> forwardOutcome n1 n2 port f x r ->
  option_Forall2 (fun o o' => sink o' = sink o /\ writer_key o' = writer_key o)
    (heap x !! id) (heap r.1 !! id).
Proof.
  intros Hwf ((_ & Hun & _) & _ & _ & _ & _ & Hrec).
  destruct (heap x !! id) as [o|] eqn:Ho.
  - destruct (registered_dec x id o Hwf Ho) as [Hp|Hn].
    + destruct (received_heap _ _ _ _ _ o (Hrec _ _ Hp) Ho) as [->| ->]; constructor; [done|].
      unfold VSwitch.push. by destruct (hasRoom o).
    + rewrite Hun, Ho by done. by constructor.
  - rewrite Hun, Ho; [constructor|]. intros [p Hp].
    destruct (wf_port x Hwf p id Hp) as (o & Ho' & _). congruence.
Qed.

Lemma joined_member x ms m :
  hubbed x ms -> ports x !! m_port m = Some (obj m) -> 0 <= m_port m -> joined x.
Proof. intros [] Hp Hge. split_and!; [done..|]. exists (m_port m). by rewrite Hp. Qed.

Lemma linked_note n1 n2 port src f x ms r c m :
  hubbed x ms -> forwardOutcome n1 n2 port f x r -> 14 <= len f <= Link.FrameMax ->
  linked (heap x) c m -> linked (heap r.1) c (note n1 n2 port src f x m).
Proof.
  intros Hx Hout Hf [Hown Hrd Hpt Hup Hdown Hg].
  assert (Hnote : downlink (heap r.1) c (note n1 n2 port src f x m)).
  2:{ unfold note in *. destruct (_ && _); by split. }
  destruct Hdown as (cl & q & rest & off & o & (Ho & Hs & Hk) & Hq & E & Hr & Hfit & Hsub & Hsh).
  pose proof Hout as ((Hw & Hun & _ & Hj) & _ & _ & _ & _ & Hrec).
  destruct (decide (ports x !! m_port m = Some (obj m))) as [Hp|Hp].
  2:{ unfold note. rewrite bool_decide_eq_false_2 by done. cbn [andb].
      exists cl, q, rest, off, o. split_and!; try done. split_and!; try done. rewrite Hun; [done|].
      destruct (registered_dec x _ o (hb_wf _ _ Hx) Ho) as [?|]; [|done]. congruence. }
  destruct (Hrec _ _ Hp) as (o1 & Ho1 & Hb). assert (o1 = o) as -> by congruence.
  unfold note. rewrite bool_decide_eq_true_2 by done. destruct (Z.leb_spec 14 (len f)); [|lia].
  cbn [andb]. destruct (bridgeTarget _ _ _ _ _ _).
  2:{ destruct Hb as [Hb _]. by exists cl, q, rest, off, o. }
  rewrite (Hj (joined_member x ms m Hx Hp Hpt)) in Hb. destruct Hb as [[_ Hb]|[Hb _]]; [done|].
  rewrite Ho. unfold addDue, downlink. cbn -[hasRoom]. unfold VSwitch.push in Hb. destruct (hasRoom o) eqn:Hroom.
  - exists cl, q, (rest ++ [f]), (off ++ [f]), (mkPort (sink o) (out o ++ [f]) (done_closed o) (writer_key o) (writer_running o)).
    rewrite fmap_app. split_and!; try done; cbn.
    + by rewrite E, <- !app_assoc.
    + intros Hrun. by rewrite Hr.
    + apply Forall_app. split; [done|]. constructor; [|done]. unfold fits. lia.
    + by apply sublist_app.
    + rewrite orb_false_r. intros Hn. by rewrite Hsh.
  - exists cl, q, rest, off, o. rewrite fmap_app. split_and!; try done.
    + by apply sublist_inserts_r.
    + by rewrite orb_true_r.
Qed.

Lemma hubbed_outcome n1 n2 port f x ms r :
  hubbed x ms -> forwardOutcome n1 n2 port f x r -> hubbed r.1 ms.
Proof.
  intros [Hw Hu Hl Hn Hs Hd] Hout. pose proof (fun id => outcome_heap n1 n2 port f x r id Hw Hout) as Hh.
  destruct Hout as ((Hw' & _) & Hp & _). split; rewrite ?Hp; try done.
  - intros p id Hid Hlt. destruct (Hn p id Hid Hlt) as (o & Ho & Hsk). specialize (Hh id).
    rewrite Ho in Hh. destruct (opt2_Some_l _ _ _ Hh) as (o' & Ho' & E & _). exists o'. by rewrite E.
  - intros id o' Ho'. specialize (Hh id). rewrite Ho' in Hh. destruct (opt2_Some_r _ _ _ Hh) as (o & Ho & -> & ->).
    by eapply Hs.
Qed.

Lemma note_fields n1 n2 port src f x m :
  obj (note n1 n2 port src f x m) = obj m /\ fwd (note n1 n2 port src f x m) = fwd m.
Proof. unfold note. by destruct (_ && _). Qed.

Lemma hubbed_note x ms n1 n2 port src f y :
  hubbed x ms -> hubbed x (note n1 n2 port src f y <$> ms).
Proof.
  intros [Hw Hu Hl Hn Hs Hd]. split; try done.
  - intros id o Ho. destruct (Hs id o Ho) as [?|(m & Hm & E)]; [by left|right].
    rewrite lookup_fmap, Hm. eexists. split; [done|]. by rewrite (proj1 (note_fields _ _ _ _ _ _ _)).
  - intros c m. rewrite lookup_fmap. destruct (ms !! c) eqn:Hc; [|done]. intros _. by eapply Hd.
Qed.

(** Where a frame enters the switch: from the outside, or from a member on its port. *)
Definition enters (ms : gmap nat member) (port : Port) (src : nat) (f : bytes) : Prop :=
  ((src <= guestSink)%nat \/ is_Some (ms !! src)) /\
  forall m0, ms !! src = Some m0 ->
    port = m_port m0 /\
    forall c m, ms !! c = Some m -> (filter (fun x => x.1 = src) (due m)).*2 ++ [f] `sublist_of` fwd m0.

Lemma fromOthers_note n1 n2 port src f x ms c m :
  enters ms port src f -> ms !! c = Some m -> fromOthers ms c m ->
  fromOthers (note n1 n2 port src f x <$> ms) c (note n1 n2 port src f x m).
Proof.
  intros [Hsrc Hin] Hm [Ha Hb]. unfold fromOthers. split.
  - assert (Hkeep : forall y : nat * bytes, y.1 <> c /\ ((y.1 <= guestSink)%nat \/ is_Some (ms !! y.1)) ->
      y.1 <> c /\ ((y.1 <= guestSink)%nat \/ is_Some ((note n1 n2 port src f x <$> ms) !! y.1))).
    { intros y [? Hy]. split; [done|]. by rewrite lookup_fmap, fmap_is_Some. }
    intros y Hy. apply Hkeep. unfold note in Hy. destruct (_ && _) eqn:E; [|by apply Ha].
    cbn in Hy. apply elem_of_app in Hy as [Hy|Hy]; [by apply Ha|]. apply list_elem_of_singleton in Hy as ->.
    split; [|done]. cbn. intros ->. destruct (Hin m Hm) as [-> _].
    apply andb_true_iff in E as [_ E]. unfold bridgeTarget in E. by rewrite Z.eqb_refl in E.
  - intros c' m' Hm'. rewrite lookup_fmap in Hm'. apply fmap_Some in Hm' as (m0 & Hm0 & ->).
    rewrite (proj2 (note_fields _ _ _ _ _ _ _)). unfold note. destruct (_ && _); [|by apply Hb].
    cbn. rewrite filter_app, fmap_app. destruct (decide (src = c')) as [->|Hne].
    + rewrite filter_cons_True by done. cbn. destruct (Hin m0 Hm0) as [_ Hsub]. by apply Hsub in Hm.
    + rewrite filter_cons_False by done. cbn. rewrite app_nil_r. by apply Hb.
Qed.

Lemma delivered_same snk f s : sw (delivered snk f s) = sw s /\ members (delivered snk f s) = members s.
Proof. unfold delivered. by case_bool_decide. Qed.

Lemma sinkSend_outside w snk f s :
  (forall snk f, w snk f = Sent) -> (snk <= guestSink)%nat -> sinkSend w snk f s = Done (delivered snk f s, false).
Proof. intros Hw Hs. unfold sinkSend. rewrite bool_decide_eq_true_2 by done. by rewrite Hw. Qed.

(** Inline sends of a hub nobody has joined reach the uplink and the guest only. *)
Lemma inlineSends_outside w evs : (forall snk f, w snk f = Sent) -> forall s,
  (forall e, e ∈ evs -> exists o, heap (sw s) !! send_obj e = Some o /\ (sink o <= guestSink)%nat) ->
  returns (inlineSends w evs s) (fun s' => sw s' = sw s /\ members s' = members s).
Proof.
  intros Hw. induction evs as [|e evs IH]; intros s He; cbn [inlineSends]; [by apply returns_done|].
  destruct (He e) as (o & Ho & Hsk); [by left|]. rewrite Ho, (sinkSend_outside w) by done. go_simpl. cbn [fst].
  destruct (delivered_same (sink o) (send_frame e) s) as [Es Em]. rewrite <- Es, <- Em. apply IH.
  intros e' He'. rewrite Es. apply He. by right.
Qed.

Lemma inv_ext s s' : sw s' = sw s -> members s' = members s -> inv s -> inv s'.
Proof. intros Es Em [? ? ?]. split; by rewrite ?Es, ?Em. Qed.

Lemma inv_forwarded w n1 n2 port src f r s :
  (forall snk f, w snk f = Sent) -> inv s -> 14 <= len f <= Link.FrameMax -> forwardOutcome n1 n2 port f (sw s) r ->
  enters (members s) port src f -> returns (forwarded w n1 n2 port src f r s) inv.
Proof.
  intros Hsent [Hh Hl Hd] Hf Hout Hin. unfold forwarded.
  set (s1 := setSw r.1 (noteAll n1 n2 port src f s)).
  assert (Hh1 : hubbed (sw s1) (members s1)) by (apply hubbed_note; by eapply hubbed_outcome).
  assert (Hi : inv s1).
  { split; [done| |].
    - intros c m'. cbn. rewrite lookup_fmap. intros (m & Hm & ->)%fmap_Some. by eapply linked_note; eauto.
    - intros c m'. cbn. rewrite lookup_fmap. intros (m & Hm & ->)%fmap_Some.
      apply fromOthers_note; by eauto. }
  assert (Hev : forall e, e ∈ r.2 -> exists o, heap (sw s1) !! send_obj e = Some o /\ (sink o <= guestSink)%nat).
  { intros e He. destruct Hout as ((_ & _ & Hreg & Hj) & Hp & _). destruct (Hreg e He) as [p Hpe].
    apply (hb_neg _ _ Hh1 p); [cbn; by rewrite Hp|]. destruct (Z.lt_ge_cases p 0) as [|Hge]; [done|].
    exfalso. rewrite Hj in He; [by apply elem_of_nil in He|]. split_and!; [apply Hh..|].
    exists p. by rewrite Hpe. }
  eapply returns_mono; [|by apply (inlineSends_outside w r.2 Hsent s1 Hev)].
  intros s' [Es Em]. by apply (inv_ext s1).
Qed.

Lemma forwardStep_inv w n1 n2 port src f s :
  (forall snk f, w snk f = Sent) -> inv s -> len f <= Link.FrameMax -> (src <= guestSink)%nat ->
  returns (forwardStep w n1 n2 port src f s) inv.
Proof.
  intros Hsent Hi Hf Hsrc. unfold forwardStep. pose proof (hb_wf _ _ (in_hub _ Hi)) as Hw.
  destruct (Z.lt_ge_cases (len f) 14) as [Hs|Hl].
  - rewrite Forward_short by done. unfold forwarded. cbn [mbind go_bind snd fst inlineSends]. apply returns_done.
    assert (E : note n1 n2 port src f (sw s) <$> members s = members s).
    { apply map_eq. intros c. rewrite lookup_fmap. destruct (members s !! c) as [m|]; [|done].
      cbn. unfold note. destruct (Z.leb_spec 14 (len f)); [lia|]. by rewrite andb_false_r. }
    by apply (inv_ext s).
  - apply returns_bind. eapply returns_mono; [|apply Forward_outcome; [done|]].
    + intros r Hr. apply inv_forwarded; try done. split; [by left|].
      intros m0 Hm0. pose proof (hb_dom _ _ (in_hub _ Hi) _ _ Hm0). lia.
    + unfold linkFrameMax, Link.FrameMax in *. lia.
Qed.

(** *** The other steps *)

Lemma guestFrameStep_inv c n1 n2 f s m :
  inv s -> members s !! c = Some m -> len f <= Link.FrameMax ->
  returns (guestFrameStep c n1 n2 f s m) inv.
Proof.
  intros Hi Hm Hf. pose proof (in_link _ Hi c m Hm) as Hl. unfold guestFrameStep.
  apply returns_bind. eapply returns_mono; [|by apply wireFrame_one; [apply Hl|]].
  intros [[x evs] rt] [Hx ->]. apply returns_done. cbn [fst snd].
  assert (Hsame : inv (setMember c (withOwn x m) s)) by (by apply (inv_member c m); [..|apply linked_own| | |]).
  destruct (Z.ltb_spec (len f) 14); [done|].
  destruct (peer m) as [st|]; [|done]. destruct (SendOn f (up m)) as [w|e] eqn:Es; [|done].
  apply (inv_member c m); try done. pose proof Hl as [? ? ? (cl & q & Hq & E & Hqf) ? ?].
  destruct cl; [by destruct (send_closed f q (up m) Hq) as [e Hse]; rewrite Hse in Es|].
  destruct (send_open f q (up m) Hq) as (w' & Hw & Hq'); [unfold fits; lia|].
  assert (w' = w) as -> by (rewrite Hw in Es; by injection Es).
  apply (linked_up _ c (withOwn x m) w [f] (q ++ [f]) false); [by apply linked_own|done| |].
  - cbn. by rewrite E, app_assoc.
  - apply Forall_app. split; [done|]. by constructor.
Qed.

Lemma hubReadsStep_inv c n1 n2 ws s m :
  (forall snk f, ws snk f = Sent) -> inv s -> members s !! c = Some m -> returns (hubReadsStep c n1 n2 ws s m) inv.
Proof.
  intros Hsent Hi Hm. pose proof (in_link _ Hi c m Hm) as Hl. unfold hubReadsStep.
  destruct (reader m) as [port|] eqn:Hrd; [|by apply returns_done].
  pose proof (lk_reader _ _ _ Hl port Hrd) as ->. pose proof (lk_port _ _ _ Hl) as Hpt.
  pose proof (hb_wf _ _ (in_hub _ Hi)) as Hw.
  destruct (lk_up _ _ _ Hl) as (cl & q & Hq & E & Hqf).
  destruct q as [|f q]; [destruct cl|].
  - rewrite recv_end by done. go_simpl. rewrite peerReader_error.
    apply returns_bind, returns_bind. destruct (RemovePort_wf (m_port m) (sw s) Hw) as (x & Ex & Hx).
    exists x. split; [done|]. go_simpl. apply returns_done, returns_done.
    set (m' := addFwd [] _). apply (inv_calmer x (setMember c m' s)); [|done|by eapply calmer_RemovePort].
    apply (inv_member c m); try done; [|by subst m'; cbn; rewrite app_nil_r].
    destruct (linked_closeDown _ c m Hl) as [? ? ? (cl & q' & Hq' & E' & Hqf') ? ?].
    split; try done. exists cl, q'. subst m'. cbn in *. by rewrite app_nil_r.
  - rewrite recv_blocks by done. by apply returns_done.
  - destruct (recv_next cl f q (up m) Link.FrameMax Hq) as [->|(w & -> & Hq')]; [done|by apply returns_done|].
    go_simpl. apply Forall_cons in Hqf as [Hf Hqf]. rewrite peerReader_frame by lia.
    apply returns_bind, returns_bind. eapply returns_mono; [|apply Forward_outcome; [done|]].
    2:{ unfold linkFrameMax, Link.FrameMax in *. lia. }
    intros r Hr. apply returns_done.
    set (m' := addFwd [f] (withUp w m)).
    assert (Hi' : inv (setMember c m' s)).
    { apply (inv_member c m); try done; [|by apply sublist_inserts_r].
      destruct Hl as [? ? ? ? ? ?]. split; try done. exists cl, q. split_and!; [done| |done].
      subst m'. cbn. by rewrite E, <- app_assoc. }
    destruct r as [x evs]. apply inv_forwarded; [done|done|done|done|].
    split; [right; cbn; by rewrite lookup_insert_eq|].
    intros m0. cbn. rewrite lookup_insert_eq. intros [= <-]. split; [done|].
    intros c' m1 Hm1. subst m'. cbn. apply sublist_app; [|done].
    rewrite lookup_insert in Hm1. case_decide as Hc.
    + injection Hm1 as <-. cbn. by apply (in_due _ Hi c m Hm).
    + by apply (in_due _ Hi c' m1 Hm1).
Qed.

(** A peer reads the next frame of its connection. *)
Lemma downlink_read h c m f q w cl rest off o :
  heap_obj h c m o -> holds cl q w -> off = rx m ++ (f :: q) ++ rest ->
  (writer_running o = true -> rest = out o) -> Forall fits (out o) ->
  off `sublist_of` (due m).*2 -> (shed m = false -> off = (due m).*2) ->
  downlink h c (addRx f (withDown w m)).
Proof.
  intros Ho Hq E Hr Hf Hs Hd. exists cl, q, rest, off, o. split_and!; try done.
  cbn. by rewrite E, <- !app_assoc.
Qed.

Lemma peerReadsStep_inv c now guest s m :
  inv s -> members s !! c = Some m -> returns (peerReadsStep c now guest s m) inv.
Proof.
  intros Hi Hm. pose proof (in_link _ Hi c m Hm) as Hl. unfold peerReadsStep.
  destruct (peer m) as [st|] eqn:Hp; [|by apply returns_done].
  pose proof Hl as [Hown Hrd Hpt Hup (cl & q & rest & off & o & Ho & Hq & E & Hr & Hfit & Hsub & Hsh) (z & Ez & Hz)].
  destruct (Hz st Hp) as [-> Hcache]. rewrite app_nil_r in Ez. clear Hz.
  destruct q as [|f q]; [destruct cl|].
  - rewrite recv_end by done. go_simpl. cbn [runPeer]. go_simpl. apply returns_done.
    apply (inv_member c m); try done. apply linked_gone; [done|]. exists [].
    by rewrite !app_nil_r.
  - rewrite recv_blocks by done. by apply returns_done.
  - destruct (recv_next cl f q (down m) Link.FrameMax Hq) as [->|(w & -> & Hq')]; [done|by apply returns_done|].
    go_simpl. rewrite runPeer_frame. go_simpl. apply returns_done. set (m' := addRx f (withDown w m)).
    assert (Hd' : downlink (heap (sw s)) c m') by by eapply downlink_read.
    assert (Hgone : forall g, (exists z', guestFrames (rx m ++ [f]) = g ++ z') ->
      linked (heap (sw s)) c (withUp (CloseOn (up m')) (withPeer None g m'))).
    { intros g Hg'. apply (linked_gone _ c (withPeer None g m')); [|done]. split; try done.
      destruct Hg' as [z' Hz']. by exists z'. }
    assert (Hstay : guestFrames (rx m ++ [f]) = guestRx m ++ (if forGuest f then [f] else []) ->
      linked (heap (sw s)) c (withPeer (Some (see st (HubRecv now (Ok f) guest)))
                                (guestRx m ++ (if forGuest f then [f] else [])) m')).
    { intros Eg. split; try done. exists []. split; [cbn; by rewrite app_nil_r|].
      intros st' [= <-]. split; [done|]. by apply gossiped_snoc. }
    rewrite guestFrames_snoc, Ez in Hgone, Hstay.
    destruct guest as [e|]; [destruct (forGuest f)|]; apply (inv_member c m); try done.
    + apply Hgone. exists [f]. cbn. by rewrite app_nil_r.
    + by apply Hstay.
    + by apply Hstay.
Qed.

Lemma writerSend_ok id o f fs x :
  heap x !! id = Some o -> writer_running o = true -> out o = f :: fs ->
  writerSend id false x = Done (Some (popOut id x, mkSend id f)).
Proof. intros Ho Hr Hf. unfold writerSend. by rewrite Ho, Hr, Hf. Qed.

Lemma popOut_keeps id x : calmerBut id x (popOut id x).
Proof.
  split; [done|]. intros i. cbn. case_decide as E; [subst i; rewrite lookup_alter_eq|rewrite lookup_alter_ne by done].
  - destruct (heap x !! id) as [o|]; constructor. split_and!; [done..|]. cbn.
    destruct (out o); [done|]. by intros [_ ?]%Forall_cons.
  - destruct (heap x !! i); by constructor.
Qed.

(** A failed send: the frame is lost, and so is the writer. *)
Lemma writerSend_fails id o f fs x :
  wf x -> heap x !! id = Some o -> writer_running o = true -> out o = f :: fs -> 0 <= writer_key o ->
  returns (writerSend id true x) (fun r => exists x', r = Some (x', mkSend id f) /\ wf x' /\ calmer x x').
Proof.
  intros Hw Ho Hr Hf Hk. unfold writerSend. rewrite Ho, Hr, Hf.
  destruct (RemovePort_wf (writer_key o) (popOut id x) (wf_popOut x id Hw)) as (x1 & E & Hx1).
  rewrite E. go_simpl. apply returns_done. eexists. split; [done|]. split; [by apply wf_stopWriter|].
  apply calmer_RemovePort in E; [|done|by apply wf_popOut].
  assert (Hbut : calmerBut id x x1).
  { eapply evolves_trans; [|apply popOut_keeps|exact E]. intros i o1 o2 o3. cbn. case_decide.
    - intros K1 [K2 _]. by eapply keeps_trans.
    - by apply quieter_trans. }
  destruct Hbut as [Hp Hh]. split; [done|]. intros i. specialize (Hh i). cbn in *. destruct (decide (i = id)) as [->|Hne].
  - rewrite lookup_alter_eq, Ho in *. apply opt2_Some_l in Hh as (o' & -> & Hq). constructor. by split.
  - by rewrite lookup_alter_ne.
Qed.

Lemma sinkSend_member w c f s m :
  (guestSink < c)%nat -> members s !! c = Some m ->
  sinkSend w c f s = Done match SendOn f (down m) with
                          | Ok w => (setMember c (withDown w m) s, false) | Err _ => (s, true) end.
Proof.
  intros Hs Hm. unfold sinkSend, guestSink in *. rewrite bool_decide_eq_false_2 by lia.
  by rewrite Hm.
Qed.

(** The writer of a member's port. *)
Lemma writer_member w s c m o f fs :
  inv s -> members s !! c = Some m -> heap_obj (heap (sw s)) c m o ->
  writer_running o = true -> out o = f :: fs ->
  returns (writerStep (obj m) w s) inv.
Proof.
  intros Hi Hm (Ho & Hs & Hk) Hr Hf. unfold writerStep. rewrite Ho, Hr, Hf, Hs.
  pose proof (in_hub _ Hi) as Hh. pose proof (hb_wf _ _ Hh) as Hw.
  rewrite (sinkSend_member w c f s m) by (done || by eapply hb_dom). cbn [mbind go_bind].
  pose proof (in_link _ Hi c m Hm) as [Hown Hrd Hpt Hup
    (cl & q & rest & off & o1 & (Ho1 & _) & Hq & E & Hrest & Hfit & Hsub & Hsh) Hg].
  assert (o1 = o) as -> by congruence. rewrite Hf in Hfit. apply Forall_cons in Hfit as [Hff Hfit].
  destruct cl.
  - destruct (send_closed f q (down m) Hq) as [e ->].
    apply returns_bind. eapply returns_mono; [|by eapply writerSend_fails; rewrite ?Hk].
    intros r (x & -> & Hx & Hc). apply returns_done. by apply inv_calmer.
  - destruct (send_open f q (down m) Hq Hff) as (w' & -> & Hq'). cbn [sw setMember].
    rewrite (writerSend_ok _ o f fs) by done. go_simpl. apply returns_done.
    apply (inv_pop c m); try done; [by apply wf_popOut|by apply popOut_keeps|].
    split; try done. exists false, (q ++ [f]), fs, off,
      (mkPort (sink o) (tail (out o)) (done_closed o) (writer_key o) (writer_running o)).
    split_and!; try done; cbn.
    + split_and!; [by rewrite lookup_alter_eq, Ho|done..].
    + by rewrite E, Hrest, Hf, <- !app_assoc by done.
    + by rewrite Hf.
    + by rewrite Hf.
Qed.

Lemma writerStep_inv id w s : (forall snk f, w snk f = Sent) -> inv s -> returns (writerStep id w s) inv.
Proof.
  intros Hsent Hi. pose proof (in_hub _ Hi) as Hh.
  destruct (heap (sw s) !! id) as [o|] eqn:Ho.
  2:{ unfold writerStep. rewrite Ho. by apply returns_done. }
  destruct (writer_running o) eqn:Hr; [destruct (out o) as [|f fs] eqn:Hf|].
  1,3: unfold writerStep; rewrite Ho, Hr, ?Hf; by apply returns_done.
  destruct (hb_sink _ _ Hh id o Ho) as [[Hs Hk]|(m & Hm & <-)].
  - unfold writerStep. rewrite Ho, Hr, Hf. rewrite (sinkSend_outside w) by done. go_simpl.
    destruct (delivered_same (sink o) f s) as [E2 E3]. set (s' := delivered (sink o) f s) in *.
    rewrite E2, (writerSend_ok id o f fs) by done. go_simpl. apply returns_done.
    apply (inv_ext (setSw (popOut id (sw s)) s)); [done|done|].
    apply inv_calmer; [done|apply wf_popOut, Hh|]. destruct (popOut_keeps id (sw s)) as [Hp Hb].
    split; [done|]. intros i. specialize (Hb i). destruct (decide (i = id)) as [->|]; [|done].
    rewrite Ho in *. apply opt2_Some_l in Hb as (o' & -> & Hq). constructor. split; [done|]. intros Hc. lia.
  - destruct (lk_down _ _ _ (in_link _ Hi _ _ Hm)) as (? & ? & ? & ? & o1 & Hobj & _).
    assert (o1 = o) as -> by (destruct Hobj; congruence). by eapply writer_member.
Qed.

(** *** Joining and leaving *)

Lemma joinStep_inv c s : inv s -> inv (joinStep c s).
Proof.
  intros Hi. unfold joinStep. case_bool_decide as Hc; [|done]. case_bool_decide as Hn; [|done]. cbn [andb].
  destruct (AddPeer c (sw s)) as [x [p|]] eqn:E; [|done].
  pose proof Hi as [[Hw Hu Hl Hng Hs Hd] Hlk Hdu].
  pose proof (wf_AddPeer c (sw s) Hw) as Hx. rewrite E in Hx. cbn in Hx. unfold AddPeer in E.
  destruct (lowestFree _ 0 (ports (sw s))) as [p'|] eqn:Hp; [|done].
  injection E as <- <-. apply lowestFree_Some in Hp as (Hr & Hfree & _).
  rewrite Z2Nat.id in Hr by done. pose proof (newObj_fresh (sw s)) as Hfresh.
  set (m' := mkMember _ _ _ _ _ _ _ _ _ _ _ _ _). split; cbn.
  - split; try done; cbn.
    + rewrite lookup_insert_ne; [done|]. unfold Uplink. lia.
    + rewrite lookup_insert_ne; [done|]. unfold Local. lia.
    + intros q id Hid Hlt. rewrite lookup_insert_ne in Hid by lia. destruct (Hng q id Hid Hlt) as (o & Ho & Hsk). exists o. split; [|done].
      rewrite lookup_insert_ne; [done|]. intros <-. congruence.
    + intros id o. rewrite lookup_insert. case_decide as Ei.
      * intros [= <-]. right. exists m'. cbn. by rewrite lookup_insert_eq.
      * intros Ho. destruct (Hs id o Ho) as [?|(m & Hm & Eo)]; [by left|right]. exists m.
        rewrite lookup_insert_ne; [done|]. intros Hne. congruence.
    + intros c' m1. rewrite lookup_insert. case_decide; [by intros _; subst|by apply Hd].
  - intros c' m1. rewrite lookup_insert. case_decide as Ec.
    + intros [= <-]. subst c'. subst m'. split; cbn [own reader m_port rx guestRx peer].
      * apply wf_New.
      * by intros ? [= <-].
      * lia.
      * exists false, []. split_and!; [apply holds_fresh|done|by apply Forall_nil].
      * exists false, [], [], [], (mkPort c [] false p' true).
        split_and!; [split_and!; [apply lookup_insert_eq|done|done]|apply holds_fresh|done|done|
                     by apply Forall_nil|apply sublist_nil_l|done].
      * exists []. split; [done|]. by intros ? [= <-].
    + intros Hm1. eapply linked_quieter; [by eapply Hd| |by apply Hlk]. intros o Ho. exists o.
      rewrite lookup_insert_ne; [done|]. intros Eo. congruence.
  - assert (Hold : forall c' m1, members s !! c' = Some m1 -> c' <> c).
    { intros c' m1 Hm1 ->. congruence. }
    intros c' m1. rewrite lookup_insert. case_decide as Ec.
    + intros [= <-]. subst c'. split; cbn; [by intros e He%elem_of_nil|]. intros c2 m2 _. apply sublist_nil_l.
    + intros Hm1. destruct (Hdu c' m1 Hm1) as [Ha Hb]. split.
      * intros e He. destruct (Ha e He) as [? Hor]. split; [done|]. destruct Hor as [?|Hor]; [by left|right].
        rewrite lookup_insert. case_decide; [by eexists|done].
      * intros c2 m2. rewrite lookup_insert. case_decide as E2; [|by apply Hb].
        intros [= <-]. subst c2. cbn. assert (En : filter (fun x => x.1 = c) (due m1) = []); [|by rewrite En].
        apply elem_of_nil_inv. intros y [Hy Hin]%list_elem_of_filter. subst c.
        destruct (Ha y Hin) as [_ [?|[? ?]]]; [|congruence]. lia.
Qed.

Lemma withMember_inv c s k :
  inv s -> (forall m, members s !! c = Some m -> returns (k m) inv) -> returns (withMember c s k) inv.
Proof.
  intros Hi Hk. unfold withMember. destruct (members s !! c) as [m|]; [by apply Hk|by apply returns_done].
Qed.

Lemma leave_inv c reset s m :
  inv s -> members s !! c = Some m ->
  let m' := withUp (CloseOn (up m)) (withPeer None (guestRx m) m) in
  inv (setMember c (if reset : bool then withDown (CloseOn (down m')) m' else m') s).
Proof.
  intros Hi Hm m'. pose proof (in_link _ Hi c m Hm) as Hl.
  assert (Hl' : linked (heap (sw s)) c m').
  { apply linked_gone; [done|]. destruct (lk_guest _ _ _ Hl) as (z & Ez & _). by exists z. }
  apply (inv_member c m); try done; destruct reset; try done. by apply linked_closeDown.
Qed.

Lemma fstep_inv e s : inv s -> event_ok e -> returns (fstep e s) inv.
Proof.
  intros Hi He. pose proof (in_link _ Hi) as Hlk.
  destruct He as [He Hsent].
  destruct e as [c n1 n2 f|c n1 n2 w|n1 n2 f w|n1 n2 f w|id w|id|c now guest|c|c reset|c k|c k]; cbn [fstep].
  - apply withMember_inv; [done|]. intros m Hm. by apply guestFrameStep_inv.
  - apply withMember_inv; [done|]. intros m Hm. by apply hubReadsStep_inv.
  - by apply forwardStep_inv.
  - apply forwardStep_inv; [done|done|done|unfold uplinkSink; lia].
  - by apply writerStep_inv.
  - apply returns_done. destruct (writerDone id (sw s)) as [x|] eqn:E; [|done].
    apply inv_calmer; [done|eapply writerDone_wf; [apply Hi|done]|].
    unfold writerDone in E. destruct (heap (sw s) !! id); [|done]. destruct (_ && _); [|done].
    injection E as <-. apply stopWriter_calmer.
  - apply withMember_inv; [done|]. intros m Hm. by apply peerReadsStep_inv.
  - by apply returns_done, joinStep_inv.
  - apply withMember_inv; [done|]. intros m Hm. by apply returns_done, leave_inv.
  - apply withMember_inv; [done|]. intros m Hm. apply returns_done, (inv_member c m); try done.
    destruct (Hlk c m Hm) as [? ? ? (cl & q & Hq & Hr) ? ?]. split; try done.
    exists cl, q. split; [by apply transit_holds|done].
  - apply withMember_inv; [done|]. intros m Hm. apply returns_done, (inv_member c m); try done.
    apply linked_down; [by apply Hlk|]. intros cl q Hq. exists cl. by apply transit_holds.
Qed.

Lemma frun_inv evs : forall s, inv s -> Forall event_ok evs -> returns (frun evs s) inv.
Proof.
  induction evs as [|e evs IH]; intros s Hi Hev; cbn [frun]; [by apply returns_done|].
  apply Forall_cons in Hev as [He Hev]. apply returns_bind.
  eapply returns_mono; [|by apply fstep_inv]. intros s' Hs'. by apply IH.
Qed.

Lemma inv_hub0 : inv hub0.
Proof.
  split; cbn [members hub0]; [|by intros c m Hm%lookup_empty_Some..].
  assert (Hw : wf (sw hub0)) by (apply wf_AddPort; [done|]; apply wf_AddPort; [done|apply wf_New]).
  split; [done|eexists; vm_compute; reflexivity|eexists; vm_compute; reflexivity| | |done].
  - intros p id. cbn. rewrite !lookup_insert. intros Hid _.
    repeat case_decide; simplify_eq; eexists; (split; [vm_compute; reflexivity|cbn; unfold uplinkSink, guestSink; lia]).
  - intros id o. cbn. rewrite !lookup_insert. intros Ho. left.
    repeat case_decide; simplify_eq; cbn; unfold uplinkSink, guestSink, Uplink, Local; lia.
Qed.

(** ** What the fabric does *)

(** Nothing is under way to a member: whatever its medium does there is nothing to
    read, its queue is empty, and its writer and its peer are alive. *)
Definition settledWith (h : gmap nat port) (m : member) : Prop :=
  (forall k, RecvOn Link.FrameMax (TransitOn k (down m)) = None) /\ is_Some (peer m) /\
  exists o, h !! obj m = Some o /\ out o = [] /\ writer_running o = true.

Lemma filter_sublist {A} (P : A -> Prop) `{!forall x, Decision (P x)} l k :
  l `sublist_of` k -> filter P l `sublist_of` filter P k.
Proof.
  induction 1 as [|x l k _ IH|x l k _ IH]; [done|..]; rewrite ?filter_cons; by case_decide; try constructor.
Qed.

Lemma sublist_whole {A} (l k : list A) : l `sublist_of` k -> length l = length k -> l = k.
Proof.
  induction 1 as [|x l k _ IH|x l k Hl IH]; cbn; intros Hlen; [done|f_equal; auto|].
  apply sublist_length in Hl. lia.
Qed.

Lemma guestFrames_pairs (d : list (nat * bytes)) :
  guestFrames d.*2 = (filter (fun x => forGuest x.2 = true) d).*2.
Proof.
  unfold guestFrames. induction d as [|x d IH]; [done|]. rewrite fmap_cons, !filter_cons.
  case_decide; [by rewrite fmap_cons, IH|done].
Qed.

(** Nothing under way and nothing shed: the member read all that was due. *)
Lemma linked_rx h c m :
  linked h c m -> shed m = false -> settledWith h m -> rx m = (due m).*2.
Proof.
  intros [_ _ _ _ (cl & q & rest & off & o & (Ho & _) & Hq & E & Hr & _ & Hsub & Hsh) _] Hn
    (Hk & Hp & o' & Ho' & Hout & Hrun).
  assert (o' = o) as -> by congruence. rewrite (Hr Hrun), Hout in E. destruct q as [|f q].
  - rewrite !app_nil_r in E. by rewrite <- E, (Hsh Hn).
  - destruct (transit_arrives cl f q (down m) Hq) as [k Hn']. by destruct (Hn' Link.FrameMax).
Qed.

(** What a member's guest heard, with its sources. *)
Lemma linked_heard h c m :
  linked h c m ->
  exists heard, guestRx m = heard.*2 /\ heard `sublist_of` filter (fun x => forGuest x.2 = true) (due m) /\
    (shed m = false -> settledWith h m -> heard = filter (fun x => forGuest x.2 = true) (due m)).
Proof.
  intros Hl. pose proof Hl as [_ _ _ _ (cl & q & rest & off & o & _ & _ & E & _ & _ & Hsub & _) (z & Ez & Hz)].
  assert (Hrx : rx m `sublist_of` (due m).*2).
  { etrans; [|exact Hsub]. rewrite E. by apply sublist_inserts_r. }
  apply sublist_pairs in Hrx as (d & Ed & Hd). rewrite Ed, guestFrames_pairs in Ez.
  set (g := filter (fun x => forGuest x.2 = true)) in *.
  exists (take (length (guestRx m)) (g d)). split_and!.
  - rewrite fmap_take, Ez. by rewrite take_app_length.
  - etrans; [apply sublist_take|]. by apply filter_sublist.
  - intros Hn Hset. pose proof (linked_rx h c m Hl Hn Hset) as Hrx. rewrite Ed in Hrx.
    destruct Hset as (_ & [st Hst] & _). destruct (Hz st Hst) as [-> _]. rewrite app_nil_r in Ez.
    assert (Hdd : d = due m).
    { apply sublist_whole; [done|]. apply (f_equal length) in Hrx. by rewrite !length_fmap in Hrx. }
    subst d. apply take_ge. apply (f_equal length) in Ez. rewrite length_fmap in Ez. lia.
Qed.

(** C1: the fleet is one learning bridge with FIFO links. For frames that fit a frame buffer
    (9234 bytes), and as long as no write to the uplink or to the hub's guest fails or
    panics: whatever the order in which
    guests send, goroutines run, frames travel, peers join, leave or break off, nothing
    panics, and what the guest of a peer has heard is a subsequence of the frames the
    abstract bridge named its port for, each of them unaltered, none a heartbeat, none
    its own, and every one sent by another guest or by the uplink; those of one sender
    come in the order it sent them, none twice. If no queue overflowed and
    nothing is under way, the guest has heard all of them. The connections are any
    that satisfy the contract. *)
Theorem fabric_delivers evs :
  Forall event_ok evs ->
  returns (frun evs hub0) (fun s => forall c m, members s !! c = Some m ->
    exists heard : list (nat * bytes),
      guestRx m = heard.*2 /\ heard `sublist_of` due m /\
      (forall x, x ∈ heard ->
         forGuest x.2 = true /\ x.1 <> c /\ ((x.1 <= guestSink)%nat \/ is_Some (members s !! x.1))) /\
      (forall c' m', members s !! c' = Some m' ->
         (filter (fun x => x.1 = c') heard).*2 `sublist_of` sent m') /\
      (shed m = false -> settledWith (heap (sw s)) m ->
         heard = filter (fun x => forGuest x.2 = true) (due m))).
Proof.
  intros Hev. eapply returns_mono; [|by apply frun_inv; [apply inv_hub0|]].
  intros s Hi c m Hm. destruct (linked_heard _ c m (in_link _ Hi c m Hm)) as (heard & Hg & Hsub & Hall).
  destruct (in_due _ Hi c m Hm) as [Ha Hb].
  assert (Hdue : heard `sublist_of` due m) by (etrans; [exact Hsub|apply sublist_filter]).
  exists heard. split_and!; try done.
  - intros x Hx. split; [|apply Ha; by eapply elem_of_sublist].
    apply (elem_of_sublist _ _ x Hx) in Hsub. by apply list_elem_of_filter in Hsub as [? _].
  - intros c' m' Hm'. etrans; [apply fmap_sublist, filter_sublist, Hdue|].
    etrans; [by apply (Hb c' m')|]. destruct (lk_up _ _ _ (in_link _ Hi c' m' Hm')) as (? & q & _ & -> & _).
    by apply sublist_inserts_r.
Qed.

(** ** Delivery *)














End Fabric.

(** ** Evaluations

    Two stand-in guests (helpers/fakeguest) on two peers: one pings the other through
    the hub. Their frames cross the fabric and nothing else makes the answer. *)
Definition macP : bytes := [2; 222; 173; 190; 239; 66].
Definition macQ : bytes := [2; 222; 173; 190; 239; 16].
Definition ipP : bytes := [10; 0; 2; 42].
Definition ipQ : bytes := [10; 0; 2; 16].

Definition arpReq : bytes := FakeGuest.arpFrame 1 macP ipP (replicate 6 255) ipQ.
Definition echoReq : bytes := VSwitch.run (FakeGuest.icmpEcho macP macQ ipP ipQ 1) [].
(** What guest Q writes for a frame it reads. *)
Definition answer (f : bytes) : bytes :=
  default [] (VSwitch.run (FakeGuest.serveNIC macQ ipQ (f ++ zeros 200) (len f)) None).

(** A frame of member [c]'s guest, all the way to the guest of member [d], whose port
    object is [id]; its first bytes arrive first. *)
Definition carry (c d id : nat) (f : bytes) : list event :=
  [GuestFrame c 0 0 f; MoveUp c 50; HubReads c 0 0 allSent; MoveUp c 1000; HubReads c 0 0 allSent; Writer id allSent;
   MoveDown d 1000; PeerReads d 0 None].

Definition demoEvents : list event :=
  [Join 2; Join 3] ++ carry 2 3 3 arpReq ++ carry 3 2 2 (answer arpReq) ++
  carry 2 3 3 echoReq ++ carry 3 2 2 (answer echoReq).

Lemma demoEvents_ok : Forall event_ok demoEvents.
Proof.
  unfold demoEvents, carry. cbn [app].
  repeat (apply Forall_cons_2; [first [exact I | by vm_compute]|]). apply Forall_nil_2.
Qed.

(** What the two guests heard in a state. *)
Definition heardBy {W} (c : nat) (s : @fabric W) : list bytes := default [] (guestRx <$> (members s !! c)).

(** Checks of a final state, as booleans. *)
Definition pinged {W} (s : @fabric W) : bool :=
  bool_decide (heardBy 3 s = [arpReq; echoReq]) &&
  bool_decide (heardBy 2 s = [answer arpReq; answer echoReq]) &&
  bool_decide (sent <$> (members s !! 2%nat) = Some [arpReq; echoReq]).

Definition finally {W} (check : @fabric W -> bool) (r : go (@fabric W)) : bool :=
  match r with Done s => check s | Panic => false end.

Lemma demo_pinged : finally pinged (frun (W := TcpWire) demoEvents hub0) = true.
Proof. vm_compute. reflexivity. Qed.

Theorem fabric_delivers_witness :
  exists s m heard, frun (W := TcpWire) demoEvents hub0 = Done s /\ members s !! 3%nat = Some m /\
    heardBy 3 s = [arpReq; echoReq] /\ heardBy 2 s = [answer arpReq; answer echoReq] /\
    FakeGuest.echoAnswer ipQ (answer echoReq) = Done true /\
    guestRx m = heard.*2 /\ (filter (fun x => x.1 = 2%nat) heard).*2 `sublist_of` [arpReq; echoReq].
Proof.
  destruct (fabric_delivers (W := TcpWire) demoEvents demoEvents_ok) as (s & E & Hs).
  pose proof demo_pinged as Hc. unfold finally in Hc. rewrite E in Hc.
  apply andb_true_iff in Hc as [[H3%bool_decide_eq_true_1 H2%bool_decide_eq_true_1]%andb_true_iff
    Hsent%bool_decide_eq_true_1].
  destruct (members s !! 3%nat) as [m|] eqn:Hm; [|by unfold heardBy in H3; rewrite Hm in H3].
  destruct (members s !! 2%nat) as [m2|] eqn:Hm2; [|done].
  destruct (Hs 3%nat m Hm) as (heard & Hg & _ & _ & Hsub & _).
  exists s, m, heard. split; [exact E|]. split; [exact Hm|]. split; [exact H3|]. split; [exact H2|].
  split; [by vm_compute|]. split; [exact Hg|].
  specialize (Hsub 2%nat m2 Hm2). apply (inj Some) in Hsent. by rewrite <- Hsent.
Defined.






Definition joinEvents : list event := [Join 2; Join 3].




(** ** A heartbeat no hub sent

    Whatever a guest puts in a frame of the heartbeat's form, the other peers take for
    their hub's state. *)
Definition forgedBeat : bytes := EncodeBeacon macP 99 [mkLease macQ [10; 0; 2; 99]].
Definition forgeEvents : list event := joinEvents ++ carry 2 3 3 forgedBeat.

Definition forged (s : @fabric SeqWire) : bool :=
  bool_decide (heardBy 3 s = []) &&
  match members s !! 3%nat ≫= peer with
  | Some st => sawBeacon st && bool_decide (leases st !! macQ = Some [10; 0; 2; 99])
  | None => false
  end.

Theorem guest_forges_heartbeat : finally forged (frun (W := SeqWire) forgeEvents hub0) = true.
Proof. vm_compute. reflexivity. Qed.

(** ** A failed write to the uplink

    Its writer removes the uplink's port; with one peer, a frame of the hub's guest that
    the switch floods has one target then, and is sent past the frames in that peer's queue. *)
Definition broadcast (i : Z) : bytes := FakeGuest.arpFrame 1 macP ipP (replicate 6 255) [10; 0; 2; i].
Definition uplinkGone : writes := fun snk _ => if bool_decide (snk = uplinkSink) then Failed else Sent.
Definition overtaken : list event :=
  [Join 2; HubGuest 0 0 (broadcast 1) allSent; Writer 0 uplinkGone; HubGuest 0 0 (broadcast 2) allSent;
   Writer 2 allSent; MoveDown 2 1000; PeerReads 2 0 None; PeerReads 2 0 None].

Definition outOfOrder (s : @fabric SeqWire) : bool := bool_decide (heardBy 2 s = [broadcast 2; broadcast 1]).

Theorem failed_uplink_reorders : finally outOfOrder (frun (W := SeqWire) overtaken hub0) = true.
Proof. vm_compute. reflexivity. Qed.
