(* ===== verification/Vdews.v ===== *)
(** * Vdews: helpers/vdews/main.go

    The WebSocket bridge between two switches: the token in the URL and its check, the
    two goroutines of [pump] with its tear-down as a step function, and the
    connect mode's loop of binding, accepting and watching the socket file over the
    world of UnixSeq.v. The WebSocket connection is a source and a sink of messages. *)
From S2P Require Import Prelude.
From S2P Require Import GoStd.
From S2P Require Import GoText.
From S2P Require UnixSeq.

(** ** net/url, as far as the token needs it *)

Definition upperHex (n : Z) : ascii := if n <? 10 then chr (48 + n) else chr (55 + n).

(** The characters [QueryEscape] leaves alone. *)
Definition unreserved (c : ascii) : bool :=
  let z := code c in
  isDigit c || ((65 <=? z) && (z <=? 90)) || ((97 <=? z) && (z <=? 122)) ||
  (z =? 45) || (z =? 95) || (z =? 46) || (z =? 126).

Fixpoint QueryEscape (s : string) : string :=
  match s with
  | EmptyString => ""
  | String c s =>
      if unreserved c then String c (QueryEscape s)
      else if code c =? 32 then String "+" (QueryEscape s)
      else String "%" (String (upperHex (code c / 16)) (String (upperHex (code c mod 16)) (QueryEscape s)))
  end.

Fixpoint QueryUnescape (s : string) : option string :=
  match s with
  | EmptyString => Some ""
  | String c rest =>
      if Ascii.eqb c "%" then
        match rest with
        | String a (String b rest) =>
            x ← hexVal a; y ← hexVal b; t ← QueryUnescape rest; Some (String (chr (x * 16 + y)) t)
        | _ => None
        end
      else if Ascii.eqb c "+" then t ← QueryUnescape rest; Some (String " " t)
      else t ← QueryUnescape rest; Some (String c t)
  end.

(** One [key=value] of a query; those [ParseQuery] skips are [None]. *)
Definition parsePair (p : string) : option (string * string) :=
  if containsByte ";" p then None
  else if String.eqb p "" then None
  else
    let '(k, v) := match Cut "=" p with Some kv => kv | None => (p, "") end in
    k ← QueryUnescape k; v ← QueryUnescape v; Some (k, v).

Definition ParseQuery (query : string) : list (string * string) := omap parsePair (Split "&" query).

(** [Values.Get]: the first value of a key, or the empty string. *)
Definition queryGet (k : string) (vs : list (string * string)) : string :=
  match filter (fun kv => kv.1 = k) vs with (_, v) :: _ => v | [] => "" end.

(** The query of a URL: in front of the fragment, behind the first question mark. *)
Definition rawQuery (u : string) : string :=
  let u := match Cut "#" u with Some (u, _) => u | None => u end in
  match Cut "?" u with Some (_, q) => q | None => "" end.

(** ** The token *)

(** The URL the connecting end dials. *)
Definition wsURL (url token : string) : string :=
  if String.eqb token "" then url
  else (url +:+ (if containsByte "?" url then "&" else "?") +:+ "token=" +:+ QueryEscape token)%string.

(** Whether the serving end lets a request in ([ConstantTimeCompare] is equality). *)
Definition admits (token requestURL : string) : bool :=
  String.eqb token "" || String.eqb (queryGet "token" (ParseQuery (rawQuery requestURL))) token.

(** ** Theorems: the token *)

(** What [QueryEscape] makes of a character. *)
Definition escapeChar (c : ascii) : string :=
  if unreserved c then String c ""
  else if code c =? 32 then "+"%string
  else String "%" (String (upperHex (code c / 16)) (String (upperHex (code c mod 16)) "")).

Lemma QueryEscape_cons c s : QueryEscape (String c s) = (escapeChar c +:+ QueryEscape s)%string.
Proof. cbn [QueryEscape]. unfold escapeChar. by destruct (unreserved c), (code c =? 32). Qed.

(** The separators of a URL. *)
Definition separators : list ascii := ["#"; "?"; "&"; ";"; "="]%char.

Definition escapes (c : ascii) : bool :=
  forallb (fun a => negb (containsByte a (escapeChar c))) separators &&
  bool_decide (QueryUnescape (escapeChar c) = Some (String c "")).

Lemma all_escape c : escapes c = true.
Proof. destruct c as [[] [] [] [] [] [] [] []]; vm_compute; reflexivity. Qed.

Lemma QueryEscape_free a s : a ∈ separators -> containsByte a (QueryEscape s) = false.
Proof.
  intros Ha. induction s as [|c s IH]; [done|]. rewrite QueryEscape_cons, containsByte_app, IH.
  pose proof (all_escape c) as [H _]%andb_true_iff. rewrite forallb_forall in H.
  specialize (H a (proj1 (list_elem_of_In _ _) Ha)). by apply negb_true_iff in H as ->.
Qed.

Lemma QueryUnescape_char c s :
  QueryUnescape (escapeChar c +:+ s) = String c <$> QueryUnescape s.
Proof. destruct c as [[] [] [] [] [] [] [] []]; reflexivity. Qed.

Lemma QueryUnescape_QueryEscape s : QueryUnescape (QueryEscape s) = Some s.
Proof. induction s as [|c s IH]; [done|]. by rewrite QueryEscape_cons, QueryUnescape_char, IH. Qed.

(** Cutting what was appended to a text that has the separator, or has not. *)
Lemma Cut_more sep s t a b : Cut sep s = Some (a, b) -> Cut sep (s +:+ t) = Some (a, (b +:+ t)%string).
Proof.
  revert a. induction s as [|c s IH]; intros a H; [done|]. change (String c s +:+ t)%string with (String c (s +:+ t)).
  cbn [Cut] in *. destruct (Ascii.eqb c sep); [by injection H as <- <-|].
  destruct (Cut sep s) as [[x y]|] eqn:E; [|done]. injection H as <- <-. by rewrite (IH x eq_refl).
Qed.

Lemma containsByte_Cut sep s : containsByte sep s = true -> exists a b, Cut sep s = Some (a, b).
Proof.
  induction s as [|c s IH]; intros H; [done|]. cbn [containsByte] in H. cbn [Cut].
  destruct (Ascii.eqb c sep); [by eexists _, _|]. destruct (IH H) as (a & b & ->). by eexists _, _.
Qed.

Lemma Split_nonempty sep s : Split sep s <> [].
Proof.
  destruct s as [|c s]; [done|]. cbn [Split]. destruct (Ascii.eqb c sep); [done|]. by destruct (Split sep s).
Qed.

Lemma Split_more sep s w :
  containsByte sep w = false -> Split sep (s +:+ String sep w) = Split sep s ++ [w].
Proof.
  intros Hw. induction s as [|c s IH].
  - change ("" +:+ ?x)%string with x. cbn [Split]. by rewrite Ascii.eqb_refl, Split_none.
  - change (String c s +:+ ?x)%string with (String c (s +:+ x)). cbn [Split]. rewrite IH.
    destruct (Ascii.eqb c sep); [done|]. pose proof (Split_nonempty sep s). by destruct (Split sep s).
Qed.

Definition tokenPair (token : string) : string := ("token=" +:+ QueryEscape token)%string.

Lemma tokenPair_free a token : a ∈ ["#"; "?"; "&"; ";"]%char -> containsByte a (tokenPair token) = false.
Proof.
  intros Ha. unfold tokenPair. rewrite containsByte_app.
  rewrite QueryEscape_free by (unfold separators; rewrite !elem_of_cons in *; tauto).
  rewrite orb_false_r. revert a Ha. apply Forall_forall. repeat constructor.
Qed.

Lemma parsePair_token token : parsePair (tokenPair token) = Some ("token"%string, token).
Proof.
  unfold parsePair. rewrite tokenPair_free by (do 3 right; left).
  assert (E : String.eqb (tokenPair token) "" = false) by done. rewrite E.
  unfold tokenPair. change ("token=" +:+ ?s)%string with ("token" +:+ String "=" s)%string.
  rewrite Cut_app by done. by rewrite QueryUnescape_QueryEscape.
Qed.

(** The query of the dialed URL: the configured URL's, and the token behind it. *)
Lemma ParseQuery_wsURL url token :
  token <> ""%string -> containsByte "#" url = false ->
  ParseQuery (rawQuery (wsURL url token)) = ParseQuery (rawQuery url) ++ [("token"%string, token)].
Proof.
  intros Ht Hh. unfold wsURL. destruct (String.eqb_spec token ""); [done|].
  change ("token=" +:+ QueryEscape token)%string with (tokenPair token).
  assert (Hfree : forall a, a ∈ ["#"; "?"; "&"; ";"]%char -> containsByte a (tokenPair token) = false)
    by (intros; by apply tokenPair_free).
  assert (Hsingle : ParseQuery (tokenPair token) = [("token"%string, token)]).
  { unfold ParseQuery. rewrite Split_none by (apply Hfree; do 2 right; left). cbn [omap list_omap].
    by rewrite parsePair_token. }
  unfold rawQuery. rewrite (Cut_none "#" url) by done.
  rewrite (Cut_none "#" (url +:+ _)).
  2:{ rewrite !containsByte_app, Hh, Hfree by left. by destruct (containsByte "?" url). }
  destruct (containsByte "?" url) eqn:Eq.
  - destruct (containsByte_Cut _ _ Eq) as (u & q & Ec). rewrite Ec, (Cut_more _ _ _ u q) by done.
    unfold ParseQuery. change ("&" +:+ tokenPair token)%string with (String "&" (tokenPair token)).
    rewrite Split_more by (apply Hfree; do 2 right; left). rewrite omap_app. f_equal.
    cbn [omap list_omap]. by rewrite parsePair_token.
  - change ("?" +:+ tokenPair token)%string with (String "?" (tokenPair token)).
    rewrite Cut_app by done. rewrite Hsingle, (Cut_none "?" url) by done. done.
Qed.

Lemma queryGet_app k vs ws :
  queryGet k (vs ++ ws) = if bool_decide (k ∈ vs.*1) then queryGet k vs else queryGet k ws.
Proof.
  unfold queryGet. rewrite filter_app. case_bool_decide as H.
  - apply list_elem_of_fmap in H as ([k' v] & -> & Hin).
    assert (Hf : (k', v) ∈ filter (fun kv : string * string => kv.1 = k') vs) by by apply list_elem_of_filter.
    cbn [fst]. by destruct (filter (fun kv : string * string => kv.1 = k') vs) as [|[]]; [apply elem_of_nil in Hf|].
  - assert (E : filter (fun kv : string * string => kv.1 = k) vs = []); [|by rewrite E].
    apply elem_of_nil_inv. intros kv [Hk Hkv]%list_elem_of_filter. apply H, list_elem_of_fmap. by exists kv.
Qed.

(** The dialed URL is let in exactly when the tokens are equal. *)
Lemma admits_wsURL url token expected :
  token <> ""%string -> expected <> ""%string ->
  containsByte "#" url = false -> "token"%string ∉ (ParseQuery (rawQuery url)).*1 ->
  admits expected (wsURL url token) = bool_decide (token = expected).
Proof.
  intros Ht He Hh Hno. unfold admits. rewrite (ParseQuery_wsURL url token Ht Hh), queryGet_app, bool_decide_false by done.
  destruct (String.eqb_spec expected ""); [done|].
  change (queryGet "token" [("token"%string, token)]) with token.
  destruct (String.eqb_spec token expected); [by rewrite bool_decide_true|by rewrite bool_decide_false].
Qed.

(** the token crosses the URL. Whatever characters the shared token has, a
    serving end with the token [expected] lets the request for the dialed URL in exactly
    when the two tokens are equal - for a configured URL that has no fragment and no token
    parameter of its own; other parameters of the URL arrive unchanged in front of it. *)
Theorem token_roundtrip url token expected :
  token <> ""%string -> expected <> ""%string ->
  containsByte "#" url = false -> "token"%string ∉ (ParseQuery (rawQuery url)).*1 ->
  admits expected (wsURL url token) = bool_decide (token = expected) /\
  ParseQuery (rawQuery (wsURL url token)) = ParseQuery (rawQuery url) ++ [("token"%string, token)].
Proof.
  intros Ht He Hh Hno. split; [by apply admits_wsURL|by apply ParseQuery_wsURL].
Qed.

Definition oddToken : string := "a&b=c d#é;%?+".
Theorem token_roundtrip_witness :
  admits oddToken (wsURL "wss://hub.example/vde?v=2" oddToken) = true.
Proof.
  refine (eq_trans (proj1 (token_roundtrip "wss://hub.example/vde?v=2" oddToken oddToken _ _ _ _)) _).
  - discriminate.
  - discriminate.
  - reflexivity.
  - vm_compute. intros H. inversion H as [|? ? ? H']; inversion H'.
  - by rewrite bool_decide_true.
Defined.

(** A token parameter of the configured URL itself is the one that counts; behind a
    fragment the token is never sent. *)
Theorem url_token_first : admits "S" (wsURL "wss://hub.example/vde?token=old" "S") = false.
Proof. reflexivity. Qed.
Theorem fragment_drops_token : admits "S" (wsURL "wss://hub.example/vde#x" "S") = false.
Proof. reflexivity. Qed.

(** A request without the token, or with none configured on the serving end. *)
Theorem admits_cases expected requestURL :
  "token"%string ∉ (ParseQuery (rawQuery requestURL)).*1 ->
  admits expected requestURL = String.eqb expected "".
Proof.
  intros Hno. unfold admits. assert (E : queryGet "token" (ParseQuery (rawQuery requestURL)) = ""%string).
  { rewrite <- (app_nil_r (ParseQuery (rawQuery requestURL))), queryGet_app. by rewrite bool_decide_false. }
  rewrite E. destruct (String.eqb_spec expected ""); [done|]. cbn [orb].
  by destruct (String.eqb_spec "" expected); [congruence|].
Qed.

(** ** pump *)

(** Where [pump] itself is: before the first error, between closing both ends and the second
    error, returned. *)
Inductive stage := WaitFirst | WaitSecond | Returned.
#[export] Instance stage_eq_dec : EqDecision stage.
Proof. solve_decision. Defined.

(** The two goroutines, the errors in the channel (of capacity two) and what was passed on. *)
Record pump := mkPump {
  upLive : bool; downLive : bool; errc : Z; main : stage;
  toWire : list bytes; toWS : list bytes }.

Definition newPump : pump := mkPump true true 0 WaitFirst [] [].

Definition closed (st : pump) : bool := bool_decide (main st <> WaitFirst).

(** What happens next: a goroutine's read returns and its write succeeds or not, or
    [pump] takes an error. *)
Inductive pumpEvent :=
| UpMsg (frame : bytes) (writeOk : bool)
| UpErr
| DownMsg (msg : bytes) (sendOk : bool)
| DownErr
| TakeErr.

Definition upFails (st : pump) : pump :=
  mkPump false (downLive st) (errc st + 1) (main st) (toWire st) (toWS st).
Definition downFails (st : pump) : pump :=
  mkPump (upLive st) false (errc st + 1) (main st) (toWire st) (toWS st).

(** [None]: the event cannot happen. A read of the wire is cut to the buffer, and an empty
    one is [io.EOF]; a write to an end that is closed fails. *)
Definition pumpStep (st : pump) (ev : pumpEvent) : option pump :=
  match ev with
  | UpMsg frame ok =>
      if negb (upLive st) then None
      else if len frame =? 0 then Some st
      else if ok && negb (closed st)
      then Some (mkPump true (downLive st) (errc st) (main st) (toWire st ++ [frame]) (toWS st))
      else Some (upFails st)
  | UpErr => if upLive st then Some (upFails st) else None
  | DownMsg msg ok =>
      if negb (downLive st) then None
      else
        let buf := take 9254 msg in
        if (0 <? len buf) && ok && negb (closed st)
        then Some (mkPump (upLive st) true (errc st) (main st) (toWire st) (toWS st ++ [buf]))
        else Some (downFails st)
  | DownErr => if downLive st then Some (downFails st) else None
  | TakeErr =>
      if errc st <=? 0 then None
      else
        match main st with
        | WaitFirst => Some (mkPump (upLive st) (downLive st) (errc st - 1) WaitSecond (toWire st) (toWS st))
        | WaitSecond => Some (mkPump (upLive st) (downLive st) (errc st - 1) Returned (toWire st) (toWS st))
        | Returned => None
        end
  end.

Fixpoint pumpRun (st : pump) (evs : list pumpEvent) : option pump :=
  match evs with
  | [] => Some st
  | ev :: evs => st ← pumpStep st ev; pumpRun st evs
  end.

(** ** Theorems: pump *)

(** The frames of each direction among the events. *)
Definition upFrame (ev : pumpEvent) : option bytes :=
  match ev with UpMsg (x :: f) _ => Some (x :: f) | _ => None end.
Definition downFrame (ev : pumpEvent) : option bytes :=
  match ev with DownMsg (x :: f) _ => Some (take 9254 (x :: f)) | _ => None end.

Definition dead (b : bool) : Z := if b then 0 else 1.
Definition taken (s : stage) : Z := match s with WaitFirst => 0 | WaitSecond => 1 | Returned => 2 end.

(** The invariant, [evs] being what happened so far. *)
Record pump_ok (evs : list pumpEvent) (st : pump) : Prop := {
  ok_errs : errc st = dead (upLive st) + dead (downLive st) - taken (main st);
  ok_nonneg : 0 <= errc st;
  ok_wire : toWire st `prefix_of` omap upFrame evs;
  ok_ws : toWS st `prefix_of` omap downFrame evs;
  ok_wire_all : upLive st = true -> main st = WaitFirst -> toWire st = omap upFrame evs;
  ok_ws_all : downLive st = true -> main st = WaitFirst -> toWS st = omap downFrame evs;
}.

Lemma pumpStep_ok evs st ev st' : pump_ok evs st -> pumpStep st ev = Some st' -> pump_ok (evs ++ [ev]) st'.
Proof.
  intros [E0 E1 E2 E3 E4 E5] H.
  assert (P : forall (f : pumpEvent -> option bytes) (l : list bytes), l `prefix_of` omap f evs -> l `prefix_of` omap f (evs ++ [ev]))
    by (intros f l Hl; rewrite omap_app; by apply prefix_app_r).
  assert (Q : forall (f : pumpEvent -> option bytes), omap f (evs ++ [ev]) = omap f evs ++ omap f [ev])
    by (intros; apply omap_app).
  destruct st as [ul dl e mn tw ts]; cbn [upLive downLive errc main toWire toWS] in *.
  destruct ev as [[|x f] ok| |[|x m] ok| |]; cbn [pumpStep upLive downLive errc main toWire toWS] in H.
  all: repeat match type of H with
    | (if ?c then _ else _) = _ => destruct c eqn:?; try discriminate H
    | match ?c with _ => _ end = _ => destruct c eqn:?; try discriminate H
    end; apply (inj Some) in H as <-; bool_arith.
  all: subst; unfold upFails, downFails; split; cbn [upLive downLive errc main toWire toWS dead taken] in *; try done; try lia; auto.
  all: try (rewrite Q; cbn [omap list_omap upFrame downFrame]; rewrite ?app_nil_r; auto).
  all: repeat match goal with H : closed _ = false |- _ =>
      unfold closed in H; apply bool_decide_eq_false, dec_stable in H; cbn [main] in H end.
  all: subst; rewrite ?E4, ?E5 by done; try done.
Qed.

Lemma pumpRun_ok evs : forall pre st st', pump_ok pre st -> pumpRun st evs = Some st' -> pump_ok (pre ++ evs) st'.
Proof.
  induction evs as [|ev evs IH]; intros pre st st' Hok H; cbn [pumpRun] in H.
  { injection H as <-. by rewrite app_nil_r. }
  destruct (pumpStep st ev) as [st1|] eqn:E; [|done]. cbn [mbind option_bind] in H.
  change (pre ++ ev :: evs) with (pre ++ [ev] ++ evs). rewrite app_assoc. eapply IH; [|exact H]. by eapply pumpStep_ok.
Qed.

Lemma newPump_ok : pump_ok [] newPump.
Proof. by split. Qed.

(** What is left to happen until [pump] returns: the reads fail once the ends are closed. *)
Definition tearDown (st : pump) : list pumpEvent :=
  match main st with
  | Returned => []
  | WaitFirst => (if upLive st then [UpErr] else []) ++ (if downLive st then [DownErr] else []) ++ [TakeErr; TakeErr]
  | WaitSecond => (if upLive st then [UpErr] else []) ++ (if downLive st then [DownErr] else []) ++ [TakeErr]
  end.

(** C28: what a bridge delivers, and its end. In every state the two goroutines reach in any
    interleaving, each direction has passed on a prefix, in order, of the non-empty
    frames it read (all of them while it lives and nothing has failed); at most two errors are
    in flight, so neither goroutine blocks on the channel; when [pump] returns both
    goroutines are gone and both ends closed; and [pump] does return as soon as the blocked
    reads fail. *)
Theorem pump_contract evs st :
  pumpRun newPump evs = Some st ->
  toWire st `prefix_of` omap upFrame evs /\ toWS st `prefix_of` omap downFrame evs /\
  (upLive st = true -> main st = WaitFirst -> toWire st = omap upFrame evs) /\
  (downLive st = true -> main st = WaitFirst -> toWS st = omap downFrame evs) /\
  0 <= errc st <= 2 /\
  (main st = Returned -> upLive st = false /\ downLive st = false /\ closed st = true) /\
  exists st', pumpRun st (tearDown st) = Some st' /\ main st' = Returned.
Proof.
  intros H. apply (pumpRun_ok _ [] _ _ newPump_ok) in H. cbn [app] in H.
  destruct H as [E0 E1 E2 E3 E4 E5]. destruct st as [ul dl e mn tw ts].
  cbn [upLive downLive errc main toWire toWS] in *. subst e. split_and!; try done.
  - by destruct ul, dl, mn.
  - intros ->. destruct ul, dl; cbn in E1; try lia. done.
  - destruct ul, dl, mn; cbn in E1; try lia; eexists; split; reflexivity.
Qed.

Theorem pump_contract_witness :
  exists st, pumpRun newPump [UpMsg [1; 2] true; DownMsg [3] true; DownMsg [] true; UpMsg [4] true; TakeErr; UpMsg [5] true; TakeErr] = Some st /\
    toWire st `prefix_of` [[1; 2]; [4]; [5]] /\ main st = Returned.
Proof.
  eexists. split; [reflexivity|]. split; [|reflexivity].
  exact (proj1 (pump_contract [UpMsg [1; 2] true; DownMsg [3] true; DownMsg [] true; UpMsg [4] true; TakeErr;
    UpMsg [5] true; TakeErr] _ eq_refl)).
Defined.

(** An empty frame from the wire ends the bridge; an empty message from the WebSocket does not. *)
Theorem pump_empty st ok :
  upLive st = true -> downLive st = true ->
  pumpStep st (UpMsg [] ok) = Some st /\ pumpStep st (DownMsg [] ok) = Some (downFails st).
Proof. intros H1 H2. cbn [pumpStep]. by rewrite H1, H2. Qed.

(** ** The connect mode *)

Import UnixSeq.

(** [serveWS]: the descriptor it pumps, if the switch answers. *)
Definition serveWS (fault1 fault2 : bool) (upstream : string) (w : world) : option nat * world :=
  match TryConnect fault1 fault2 upstream w with
  | (Ok fd, w) => (Some fd, w)
  | (Err _, w) => (None, w)
  end.

(** The handler of the serve mode: a request with the wrong token is answered with 403
    and goes no further; nor does one whose WebSocket handshake ([websocket.Handler]'s,
    which is the library's) fails. *)
Inductive served := Forbidden | NoHandshake | Upgraded (switch : option nat).
Definition serveHandler (token requestURL : string) (handshake fault1 fault2 : bool) (upstream : string) (w : world)
  : served * world :=
  if negb (String.eqb token "") &&
     negb (String.eqb (queryGet "token" (ParseQuery (rawQuery requestURL))) token)
  then (Forbidden, w)
  else if negb handshake then (NoHandshake, w)
  else let '(fd, w) := serveWS fault1 fault2 upstream w in (Upgraded fd, w).

(** What [acceptLoop] starts for each connection: a bridge, or nothing when the WebSocket cannot
    be dialed. It returns ([true]) at the first failed accept. *)
Inductive accepted := Bridged (fd : nat) | Dropped (fd : nat).
Fixpoint acceptLoop (accepts : list (option nat)) (dials : nat -> bool) : list accepted * bool :=
  match accepts with
  | [] => ([], false)
  | None :: _ => ([], true)
  | Some fd :: accepts =>
      let '(started, gone) := acceptLoop accepts dials in
      ((if dials fd then Bridged fd else Dropped fd) :: started, gone)
  end.

(** A turn of [watchListener]'s loop: either [acceptLoop] has returned ([done] is closed), or
    two seconds pass, in which the rest of the machine changes the world. *)
Inductive watchTurn := AcceptLoopGone | Later (f : world -> world).

(** [watchListener]: the world when it returns; [None] while it watches. *)
Fixpoint watchListener (ln : Listener) (turns : list watchTurn) (w : world) : option world :=
  match turns with
  | [] => None
  | AcceptLoopGone :: _ => Some w
  | Later f :: turns =>
      let w := f w in
      match files w !! l_path ln with
      | Some cur => if bool_decide (l_id ln = Some (node_id cur)) then watchListener ln turns w
                    else Some (Close false ln w)
      | None => Some (Close false ln w)
      end
  end.

(** How the loop of the connect mode goes: it is about to bind, listening and watching,
    or the process has exited. *)
Inductive connectState := Binding | Listening (ln : Listener) | Fatal (msg : string).

(** From the top of the loop to the watching; [env] and [fault] are those of
    [BindOrConnect]. *)
Definition bindTurn (env : nat -> world -> world) (fault : nat -> bool) (downstream : string) (w : world)
  : connectState * world :=
  match BindOrConnect env fault downstream 0x180 w with
  | (Err x, w) => (Fatal x, w)
  | (Ok (inr _), w) => (Fatal "someone is already listening", w)
  | (Ok (inl ln), w) => (Listening ln, w)
  end.

(** The loop: for each of its rounds what disturbs the binding, and the turns of the watch. *)
Definition round : Type := (nat -> world -> world) * (nat -> bool) * list watchTurn.
Fixpoint connectLoop (downstream : string) (rounds : list round) (w : world) : connectState * world :=
  match rounds with
  | [] => (Binding, w)
  | (env, fault, turns) :: rounds =>
      match bindTurn env fault downstream w with
      | (Listening ln, w) =>
          match watchListener ln turns w with
          | Some w => connectLoop downstream rounds w
          | None => (Listening ln, w)
          end
      | r => r
      end
  end.

Definition is_listening (c : connectState) : bool := match c with Listening _ => true | _ => false end.

(** A round nothing disturbs. *)
Definition calm (turns : list watchTurn) : round := (quiet, noFault, turns).

(** ** Theorems: the connect mode *)

Lemma serveWS_descriptors fault1 fault2 upstream w :
  let '(r, w') := serveWS fault1 fault2 upstream w in
  match r with
  | None => fds w' = fds w
  | Some fd => fds w !! fd = None /\ fds w' = <[fd := FdConn]> (fds w) /\ answers upstream w = true
  end.
Proof.
  unfold serveWS, TryConnect, sys_socket. destruct fault1; [done|]. unfold sys_connect.
  rewrite (answers_files upstream w) by done. destruct (negb fault2 && answers upstream w) eqn:E; cbn.
  - apply andb_true_iff in E as [_ E]. split; [apply fresh_fd|]. by rewrite insert_insert_eq.
  - by rewrite delete_insert_id by apply fresh_fd.
Qed.

(** A serving end whose switch is down keeps no descriptor; one whose switch answers holds one. *)
Theorem serveWS_fds fault1 fault2 upstream w :
  let '(r, w') := serveWS fault1 fault2 upstream w in
  match r with
  | None => fds w' = fds w
  | Some fd => fds w !! fd = None /\ fds w' = <[fd := FdConn]> (fds w) /\ answers upstream w = true
  end.
Proof. apply serveWS_descriptors. Qed.

(** No token, no wire. The serving end touches the switch socket for exactly the
    requests it admits and whose handshake succeeds: any other changes nothing, such a one holds a
    connection to the switch if that answers, and with a shared token the requests
    admitted are those whose first token value is it. *)
Theorem serveHandler_guards token requestURL handshake fault1 fault2 upstream w :
  let '(r, w') := serveHandler token requestURL handshake fault1 fault2 upstream w in
  (r = Forbidden <-> admits token requestURL = false) /\ (r = Forbidden \/ r = NoHandshake -> w' = w) /\
  (r = NoHandshake <-> admits token requestURL = true /\ handshake = false) /\
  (forall fd, r = Upgraded (Some fd) ->
     fds w !! fd = None /\ fds w' = <[fd := FdConn]> (fds w) /\ answers upstream w = true) /\
  (r = Upgraded None -> fds w' = fds w).
Proof.
  unfold serveHandler, admits. rewrite <- negb_orb. destruct (_ || _); cbn [negb].
  2:{ split_and!; [done|done| |done|done]. by split; [|intros [? _]]. }
  destruct handshake; cbn [negb]; [|split_and!; try done; by split; [|intros [_ ?]]].
  assert (Hf : let '(r, w') := serveWS fault1 fault2 upstream w in
    match r with
    | None => fds w' = fds w
    | Some fd => fds w !! fd = None /\ fds w' = <[fd := FdConn]> (fds w) /\ answers upstream w = true
    end) by apply serveWS_descriptors.
  destruct (serveWS fault1 fault2 upstream w) as [r w']. split_and!; [done|by intros [|]|by split; [|intros [_ ?]]| |].
  - by intros fd [= ->].
  - by intros [= ->].
Qed.

(** Every connection accepted before the first failure is bridged or closed, in order. *)
Theorem acceptLoop_all fds_ dials rest :
  acceptLoop ((Some <$> fds_) ++ None :: rest) dials =
    ((fun fd => if dials fd then Bridged fd else Dropped fd) <$> fds_, true).
Proof. induction fds_ as [|fd l IH]; [done|]. cbn [fmap list_fmap app acceptLoop]. cbn in IH. by rewrite IH. Qed.

Lemma bindTurn_listens path w ln w' :
  bindTurn quiet noFault path w = (Listening ln, w') ->
  BindOrConnect quiet noFault path 0x180 w = (Ok (inl ln), w') /\ answers path w' = true /\
  l_path ln = path /\ (exists n, files w' !! path = Some n /\ l_id ln = Some (node_id n)) /\
  fds w' !! l_fd ln = FdListen <$> l_id ln.
Proof.
  unfold bindTurn. intros H.
  destruct (BindOrConnect quiet noFault path 0x180 w) as [[[l|fd]|x] v] eqn:E; try done.
  injection H as -> ->. split; [done|].
  destruct (BindOrConnect_cases path 0x180 w) as [(Ha & E')|[(Ha & u & _ & _ & _ & Hu & E')|(Ha & E')]];
    rewrite E in E'; try done.
  injection E' as -> ->. unfold answers, boundWorld. cbn. rewrite !lookup_insert_eq. cbn.
  split; [rewrite bool_decide_true; [done|set_solver]|]. split; [done|].
  split; [by eexists|done].
Qed.

(** The socket file is gone, or a stale file of another listener's. *)
Definition replaced (path : string) (w v : world) : Prop :=
  fds v = fds w /\ listening v = listening w /\
  match files v !! path with
  | None => True
  | Some n => node_sock n = true /\ node_id n ∉ listening w
  end.

(** A turn in which nothing happens. *)
Definition idle (t : watchTurn) : Prop := exists f, t = Later f /\ forall v, f v = v.

Lemma watch_idle ln turns rest w n :
  Forall idle turns -> files w !! l_path ln = Some n -> l_id ln = Some (node_id n) ->
  watchListener ln (turns ++ rest) w = watchListener ln rest w.
Proof.
  intros Hi Hn Hid. induction Hi as [|t turns (f & -> & Hf) _ IH]; [done|].
  cbn [app watchListener]. rewrite Hf, Hn, bool_decide_true by done. exact IH.
Qed.

(** The listener's descriptor is fresh, so closing it restores the table. *)
Lemma bindTurn_fds path w ln w1 :
  bindTurn quiet noFault path w = (Listening ln, w1) ->
  exists id, l_id ln = Some id /\ fds w !! l_fd ln = None /\ fds w1 = <[l_fd ln := FdListen id]> (fds w) /\
    id ∈ listening w1 /\ id ∉ listening w.
Proof.
  intros H. destruct (bindTurn_listens _ _ _ _ H) as (Hb & _). clear H.
  destruct (BindOrConnect_cases path 0x180 w) as [(Ha & E')|[(Ha & u & Hf & Hl & _ & Hu & E')|(Ha & E')]];
    rewrite Hb in E'; try done.
  injection E' as -> ->. cbn [l_id l_fd boundWorld fds listening]. eexists. split; [done|]. rewrite <- Hf.
  split_and!; [apply fresh_fd|done|set_solver|].
  rewrite <- Hl. pose proof (is_fresh (usedIds u)) as Hn. unfold usedIds in Hn at 2. set_solver.
Qed.

(** One rebinding: the watch returns, having closed the listener, with the descriptor table the
    round began with and the path free to be bound again. *)
Lemma rebind_once path w ln w1 turns f :
  bindTurn quiet noFault path w = (Listening ln, w1) -> Forall idle turns -> replaced path w1 (f w1) ->
  exists w3, watchListener ln (turns ++ [Later f]) w1 = Some w3 /\ fds w3 = fds w /\
    exists ln' w2, bindTurn quiet noFault path w3 = (Listening ln', w2).
Proof.
  intros Hb Hi (Hf & Hl & Hfile). destruct (bindTurn_listens _ _ _ _ Hb) as (_ & _ & Hp & (n & Hn & Hid) & _).
  destruct (bindTurn_fds _ _ _ _ Hb) as (id & Hid' & Hfresh & Hfds & Hin & _).
  rewrite Hid in Hid'. injection Hid' as Eid.
  set (v := f w1) in *. set (w3 := mkWorld (fds w) (files v) (listening v ∖ {[id]})).
  assert (Hc : Close false ln v = w3).
  { unfold Close, sys_close. rewrite Hid, Hf, Hfds, lookup_insert_eq, delete_insert_id by done.
    cbn [files]. rewrite Hp. fold w3. destruct (files v !! path) as [m|]; [|done]. destruct Hfile as [_ Hm].
    destruct (Z.eqb_spec (node_id m) (node_id n)); [|done]. congruence. }
  exists w3. split_and!; [|done|].
  - rewrite (watch_idle _ _ _ _ n) by (by rewrite ?Hp). cbn [watchListener]. fold v. rewrite Hp, Hc.
    destruct (files v !! path) as [m|]; [|done]. rewrite Hid, bool_decide_false; [done|].
    intros [= E]. destruct Hfile as [_ Hm]. congruence.
  - assert (Ha : answers path w3 = false).
    { unfold answers. cbn [files w3]. destruct (files v !! path) as [m|]; [|done]. destruct Hfile as [_ Hm].
      apply andb_false_iff. right. apply bool_decide_false. cbn [listening w3]. rewrite Hl. set_solver. }
    unfold bindTurn. rewrite BindOrConnect_silent by done. unfold isSocket. cbn [files w3].
    destruct (files v !! path) as [m|] eqn:Em; [destruct Hfile as [-> _]|]; rewrite bindHub_free; try by eexists _, _.
    + apply lookup_delete_eq.
    + done.
Qed.

(** A disturbance that takes the file away, whatever the world is. *)
Definition takesAway (path : string) (f : world -> world) : Prop := forall v, replaced path v (f v).

Definition disturbed (r : list watchTurn * (world -> world)) : round := calm (r.1 ++ [Later r.2]).

(** C36: a bridge whose socket file is taken away comes back. However often the path stops
    naming the listener's own file by being unlinked, or replaced by a socket file nobody listens
    on, the next turn of the watch closes the listener and the loop, undisturbed, binds the path again:
    in the end whoever connects there is answered, and the process holds the one descriptor
    of its listener besides those it started with. *)
Theorem connect_rebinds path rs : forall w,
  is_listening (bindTurn quiet noFault path w).1 = true ->
  Forall (fun r => Forall idle r.1 /\ takesAway path r.2) rs ->
  exists ln w2 id, connectLoop path ((disturbed <$> rs) ++ [calm []]) w = (Listening ln, w2) /\
    answers path w2 = true /\ fds w2 = <[l_fd ln := FdListen id]> (fds w) /\ fds w !! l_fd ln = None.
Proof.
  induction rs as [|[turns f] rs IH]; intros w Hw Hr.
  - destruct (bindTurn quiet noFault path w) as [[|ln|] w1] eqn:Hb; try done.
    destruct (bindTurn_listens _ _ _ _ Hb) as (_ & Ha & _). destruct (bindTurn_fds _ _ _ _ Hb) as (id & _ & Hn & Hf & _).
    exists ln, w1, id. cbn [fmap list_fmap app connectLoop calm]. by rewrite Hb.
  - apply Forall_cons in Hr as [[Hi Ht] Hr].
    destruct (bindTurn quiet noFault path w) as [[|ln|] w1] eqn:Hb; try done.
    destruct (rebind_once path w ln w1 turns f Hb Hi (Ht w1)) as (w3 & Hwatch & Hfd & ln' & w2 & Hb').
    cbn [fmap list_fmap app connectLoop disturbed calm fst snd]. rewrite Hb, Hwatch, <- Hfd.
    apply IH; [by rewrite Hb'|done].
Qed.

Theorem connect_rebinds_witness :
  exists ln w2, connectLoop "/tmp/remote.sock"
      ((disturbed <$> [([Later (fun w => w)], sys_remove false "/tmp/remote.sock"); ([], sys_remove false "/tmp/remote.sock")])
       ++ [calm []]) emptyWorld = (Listening ln, w2) /\
    answers "/tmp/remote.sock" w2 = true.
Proof.
  assert (Ht : takesAway "/tmp/remote.sock" (sys_remove false "/tmp/remote.sock"))
    by (intros v; split; [reflexivity|split; [reflexivity|]]; cbn; by rewrite lookup_delete_eq).
  destruct (connect_rebinds "/tmp/remote.sock"
    [([Later (fun w => w)], sys_remove false "/tmp/remote.sock"); ([], sys_remove false "/tmp/remote.sock")] emptyWorld)
    as (ln & w2 & id & H1 & H2 & _).
  - reflexivity.
  - constructor; [|constructor; [|constructor]]; split; try exact Ht; repeat constructor. eexists. split; reflexivity.
  - exists ln, w2. split; [exact H1|exact H2].
Defined.

(** a path somebody else has taken ends the bridge. When the path has come to name
    the socket of a live listener, or a file that is not a socket, the watch closes the
    listener, but the loop finds the path taken and the process exits. *)
Theorem connect_path_taken path w ln w1 turns f n rest rounds :
  bindTurn quiet noFault path w = (Listening ln, w1) -> Forall idle turns -> fds (f w1) = fds w1 ->
  files (f w1) !! path = Some n -> l_id ln <> Some (node_id n) ->
  (node_sock n = true -> node_id n ∈ listening (f w1)) ->
  exists msg, (connectLoop path (calm (turns ++ [Later f]) :: calm rest :: rounds) w).1 = Fatal msg.
Proof.
  intros Hb Hi Hf Hn Hne Hlive. destruct (bindTurn_listens _ _ _ _ Hb) as (_ & _ & Hp & (n0 & Hn0 & Hid0) & _).
  destruct (bindTurn_fds _ _ _ _ Hb) as (id & Hid & _ & Hfds & _).
  cbn [connectLoop calm]. rewrite Hb, (watch_idle _ _ _ _ n0) by (by rewrite ?Hp). cbn [watchListener].
  rewrite Hp, Hn, bool_decide_false by done. set (w3 := Close false ln (f w1)).
  assert (H3 : files w3 = files (f w1) /\ (node_id n ∈ listening (f w1) -> node_id n ∈ listening w3)).
  { unfold w3, Close. rewrite Hid. unfold sys_close. rewrite Hf, Hfds, lookup_insert_eq. cbn [files]. rewrite Hp, Hn.
    destruct (Z.eqb_spec (node_id n) id) as [E|E]; [congruence|]. cbn. split; [done|]. set_solver. }
  destruct H3 as [H3 H4].
  assert (E : exists msg, (bindTurn quiet noFault path w3).1 = Fatal msg).
  { unfold bindTurn. destruct (node_sock n) eqn:Hs.
    - rewrite BindOrConnect_join; [by eexists|]. unfold answers. rewrite H3, Hn, Hs. by apply bool_decide_eq_true, H4, Hlive.
    - assert (Ha : answers path w3 = false) by (unfold answers; by rewrite H3, Hn, Hs).
      rewrite BindOrConnect_silent by done. unfold isSocket. rewrite H3, Hn, Hs.
      rewrite (bindHub_taken _ _ _ n); [by eexists|by rewrite H3|done]. }
  destruct E as [msg E]. exists msg. destruct (bindTurn quiet noFault path w3) as [st v]; cbn in E; by subst st.
Qed.

Theorem connect_path_taken_witness :
  exists msg, (connectLoop "/tmp/remote.sock"
    [calm ([] ++ [Later (fun w => mkWorld (fds w) (<["/tmp/remote.sock" := mkNode 7 true 0x180]> (files w)) ({[7]} ∪ listening w))]);
     calm []] emptyWorld).1 = Fatal msg.
Proof.
  assert (Hb : exists ln w1, bindTurn quiet noFault "/tmp/remote.sock" emptyWorld = (Listening ln, w1) /\ l_id ln = Some 0)
    by (eexists _, _; split; reflexivity).
  destruct Hb as (ln & w1 & Hb & Hid).
  apply (connect_path_taken "/tmp/remote.sock" emptyWorld ln w1 []
    (fun w => mkWorld (fds w) (<["/tmp/remote.sock" := mkNode 7 true 0x180]> (files w)) ({[7]} ∪ listening w))
    (mkNode 7 true 0x180) [] [] Hb (Forall_nil_2 _)).
  - reflexivity.
  - cbn. apply lookup_insert_eq.
  - rewrite Hid. discriminate.
  - intros _. cbn. set_solver.
Defined.

(** one failed accept ends the bridge. When [Accept] fails while the listener is
    fine, [watchListener] returns without closing it; the loop then finds its own
    listener answering, takes it for somebody else's, and the process exits. *)
Theorem accept_failure_fatal path w ln w1 turns rest rest' rounds :
  bindTurn quiet noFault path w = (Listening ln, w1) -> Forall idle turns ->
  (connectLoop path (calm (turns ++ AcceptLoopGone :: rest) :: calm rest' :: rounds) w).1 = Fatal "someone is already listening".
Proof.
  intros Hb Hi. destruct (bindTurn_listens _ _ _ _ Hb) as (_ & Ha & Hp & (n & Hn & Hid) & _).
  cbn [connectLoop calm]. rewrite Hb, (watch_idle _ _ _ _ n) by (by rewrite ?Hp). cbn [watchListener].
  assert (E : (bindTurn quiet noFault path w1).1 = Fatal "someone is already listening").
  { unfold bindTurn. by rewrite BindOrConnect_join. }
  destruct (bindTurn quiet noFault path w1) as [s v]; cbn in E; by subst s.
Qed.

Theorem accept_failure_fatal_witness :
  (connectLoop "/tmp/remote.sock" [calm [AcceptLoopGone]; calm []] emptyWorld).1 = Fatal "someone is already listening".
Proof.
  assert (Hb : exists ln w1, bindTurn quiet noFault "/tmp/remote.sock" emptyWorld = (Listening ln, w1)) by (eexists _, _; reflexivity).
  destruct Hb as (ln & w1 & Hb).
  exact (accept_failure_fatal "/tmp/remote.sock" emptyWorld ln w1 [] [] [] [] Hb (Forall_nil_2 _)).
Defined.
