(* ===== verification/VdewsMain.v ===== *)
(** * VdewsMain: helpers/vdews/main.go, from its command line

    The flags of vdews with package flag's parser for string flags, and [main]: the serve
    mode's handler over a sequence of requests and ends of bridges, the connect mode's URL and loop, and the
    refusal of any other mode, over the bridge of Vdews.v. *)
From S2P Require Import Prelude.
From S2P Require Import GoStd.
From S2P Require Import UnixSeq.
From S2P Require Import Vdews.
#[local] Open Scope string_scope.

(** ** The command line *)

Record flags := mkFlags {
  mode : string; listen : string; path : string; upstream : string;
  downstream : string; url : string; token : string }.

Definition defaultFlags : flags :=
  mkFlags "" ":5001" "/vde" "/tmp/vde.socket" "/tmp/vde-remote.sock" "" "".

(** [FlagSet.Set] of a string flag; [None]: no such flag. *)
Definition setFlag (name v : string) (fl : flags) : option flags :=
  let '(mkFlags m l p u d r t) := fl in
  if String.eqb name "mode" then Some (mkFlags v l p u d r t)
  else if String.eqb name "listen" then Some (mkFlags m v p u d r t)
  else if String.eqb name "path" then Some (mkFlags m l v u d r t)
  else if String.eqb name "upstream" then Some (mkFlags m l p v d r t)
  else if String.eqb name "downstream" then Some (mkFlags m l p u v r t)
  else if String.eqb name "url" then Some (mkFlags m l p u d v t)
  else if String.eqb name "token" then Some (mkFlags m l p u d r v)
  else None.

(** How [flag.Parse] ends: with the flags set, or the process exits (0 for a help
    request, 2 for an error). *)
Inductive parsed := Parsed (fl : flags) | Exits (code : Z).

(** The name of an argument that is a flag: behind one or two dashes. *)
Inductive argument := NotAFlag | Terminator | BadSyntax | Named (name : string).
Definition classify (s : string) : argument :=
  match s with
  | String "-" "-" => Terminator
  | String "-" (String c rest) =>
      let name := if Ascii.eqb c "-" then rest else String c rest in
      match name with
      | String a _ => if Ascii.eqb a "-" || Ascii.eqb a "=" then BadSyntax else Named name
      | EmptyString => BadSyntax
      end
  | _ => NotAFlag
  end.

Definition undefinedFlag (name : string) : parsed :=
  if String.eqb name "help" || String.eqb name "h" then Exits 0 else Exits 2.

(** [FlagSet.Parse]: an argument [-name=v], or [-name] and [v] behind it, up to the first
    that is no flag. *)
Fixpoint parseFlags (args : list string) (fl : flags) : parsed :=
  match args with
  | [] => Parsed fl
  | s :: args =>
      match classify s with
      | NotAFlag | Terminator => Parsed fl
      | BadSyntax => Exits 2
      | Named name =>
          match Cut "=" name with
          | Some (name, v) =>
              match setFlag name v fl with Some fl => parseFlags args fl | None => undefinedFlag name end
          | None =>
              match args with
              | v :: args =>
                  match setFlag name v fl with Some fl => parseFlags args fl | None => undefinedFlag name end
              | [] => match setFlag name "" fl with Some _ => Exits 2 | None => undefinedFlag name end
              end
          end
      end
  end.

(** ** main *)

(** A request the mux hands to the handler: its URL, whether the handshake succeeds, and what
    fails of its connection to the switch. *)
Record request := mkRequest { r_url : string; r_handshake : bool; r_fault1 : bool; r_fault2 : bool }.

(** What happens to the serve mode: a request, or the end of the [pump] of a wire, which closes
    it. *)
Inductive serveEvent := Request (r : request) | PumpEnds (fd : nat).
Inductive outcome := Answered (s : served) | Ended (fd : nat).

(** The wire of a request that was let in and reached the switch. *)
Definition wireOf (s : served) : option nat :=
  match s with Upgraded (Some fd) => Some fd | _ => None end.

(** The serve mode, its wires being [wires]. *)
Fixpoint serveMode (fl : flags) (evs : list serveEvent) (wires : list nat) (w : world)
  : list outcome * list nat * world :=
  match evs with
  | [] => ([], wires, w)
  | Request r :: evs =>
      let '(s, w) := serveHandler (token fl) (r_url r) (r_handshake r) (r_fault1 r) (r_fault2 r) (upstream fl) w in
      let '(out, wires, w) := serveMode fl evs (option_list (wireOf s) ++ wires)%list w in
      (Answered s :: out, wires, w)
  | PumpEnds fd :: evs =>
      let '(out, wires, w) :=
        if decide (fd ∈ wires)
        then serveMode fl evs (filter (.≠ fd) wires) (sys_close fd w)
        else serveMode fl evs wires w in
      (Ended fd :: out, wires, w)
  end.

(** What [main] comes to: serving until [ListenAndServe] fails, connecting with the URL every
    connection dials, or an exit. *)
Inductive mainState :=
| Serving (out : list outcome) (wires : list nat)
| Connecting (dial : string) (state : connectState)
| Exited (code : Z).

Definition main (args : list string) (evs : list serveEvent) (rounds : list round) (w : world)
  : mainState * world :=
  match parseFlags args defaultFlags with
  | Exits code => (Exited code, w)
  | Parsed fl =>
      if String.eqb (mode fl) "serve" then
        let '(out, wires, w) := serveMode fl evs [] w in (Serving out wires, w)
      else if String.eqb (mode fl) "connect" then
        let '(state, w) := connectLoop (downstream fl) rounds w in
        (Connecting (wsURL (url fl) (token fl)) state, w)
      else (Exited 1, w)
  end.

(** ** Theorems: the command line *)

Definition printFlags (fl : flags) : list string :=
  ["-mode"; mode fl; "-listen"; listen fl; "-path"; path fl; "-upstream"; upstream fl;
   "-downstream"; downstream fl; "-url"; url fl; "-token"; token fl].
Definition joinFlags (fl : flags) : list string :=
  ["--mode=" +:+ mode fl; "-listen=" +:+ listen fl; "-path=" +:+ path fl; "-upstream=" +:+ upstream fl;
   "-downstream=" +:+ downstream fl; "-url=" +:+ url fl; "-token=" +:+ token fl].

(** whatever the values - empty, with dashes, equals signs or spaces in them - the flags
    written out in either form, with further arguments behind a [--], are read back. *)
Theorem parseFlags_print fl rest :
  parseFlags (printFlags fl ++ "--" :: rest) defaultFlags = Parsed fl /\
  parseFlags (joinFlags fl ++ "--" :: rest) defaultFlags = Parsed fl.
Proof. by destruct fl. Qed.

(** ** Theorems: main *)

(** What an event is answered with. *)
Definition answeredWell (fl : flags) (e : serveEvent) (o : outcome) : Prop :=
  match e, o with
  | Request r, Answered s => (s = Forbidden <-> admits (token fl) (r_url r) = false) /\
      (s = NoHandshake <-> admits (token fl) (r_url r) = true /\ r_handshake r = false)
  | PumpEnds fd, Ended fd' => fd = fd'
  | _, _ => False
  end.

(** A request opened the wire, and its pump has not ended since. *)
Definition stillOpen (out : list outcome) (fd : nat) : Prop :=
  exists o1 o2, out = (o1 ++ Answered (Upgraded (Some fd)) :: o2)%list /\ Ended fd ∉ o2.

Lemma stillOpen_cons o out fd :
  stillOpen (o :: out) fd <-> stillOpen out fd \/ (o = Answered (Upgraded (Some fd)) /\ Ended fd ∉ out).
Proof.
  split.
  - intros ([|x o1] & o2 & E & Hn); injection E as -> ->; [by right|]. left. by exists o1, o2.
  - intros [(o1 & o2 & -> & Hn)|[-> Hn]]; [by exists (o :: o1), o2|by exists [], out].
Qed.

(** The wires at the end: those of the beginning and the opened ones, but the ended. *)
Record wires_ok (wires : list nat) (w : world) : Prop := {
  wi_nodup : NoDup wires;
  wi_conn : forall fd, fd ∈ wires -> fds w !! fd = Some FdConn;
}.

Lemma wires_open wires w w' fd :
  wires_ok wires w -> fds w !! fd = None -> fds w' = <[fd := FdConn]> (fds w) -> wires_ok (fd :: wires) w'.
Proof.
  intros [Hn Hc] Hf Hw. split.
  - constructor; [|done]. intros Hin%Hc. congruence.
  - intros x. rewrite Hw, lookup_insert. case_decide; [done|]. intros [->|Hin]%elem_of_cons; [done|by apply Hc].
Qed.

Lemma wires_close wires w fd : wires_ok wires w -> wires_ok (filter (.≠ fd) wires) (sys_close fd w).
Proof.
  intros [Hn Hc]. split; [by apply NoDup_filter|]. intros x [Hne Hin]%list_elem_of_filter. cbn.
  rewrite lookup_delete_ne by done. by apply Hc.
Qed.

Lemma serveMode_wires fl evs : forall wires w out wires' w',
  wires_ok wires w -> serveMode fl evs wires w = (out, wires', w') ->
  Forall2 (answeredWell fl) evs out /\ wires_ok wires' w' /\
  (forall fd, fd ∈ wires' <-> stillOpen out fd \/ (fd ∈ wires /\ Ended fd ∉ out)) /\
  (forall fd, fd ∉ wires' -> fds w' !! fd = if decide (fd ∈ wires) then None else fds w !! fd).
Proof.
  induction evs as [|e evs IH]; intros wires w out wires' w' Hok H; cbn [serveMode] in H.
  { injection H as <- <- <-. split_and!; [constructor|done| |intros fd Hn; by rewrite decide_False].
    intros fd. split; [intros Hin; right; split; [done|apply not_elem_of_nil]|].
    intros [(o1 & o2 & E & _)|[Hin _]]; [by destruct o1|done]. }
  destruct e as [r|x].
  - pose proof (serveHandler_guards (token fl) (r_url r) (r_handshake r) (r_fault1 r) (r_fault2 r) (upstream fl) w) as Hg.
    destruct (serveHandler _ _ _ _ _ _ w) as [s w1]. destruct Hg as (Hf & Hno & Hh & Hup & Hdown).
    destruct (serveMode fl evs _ w1) as [[o ws] w2] eqn:E. injection H as <- <- <-.
    destruct (wireOf s) as [x|] eqn:Es.
    + destruct s as [| |[x'|]]; try done. injection Es as ->. destruct (Hup x eq_refl) as (Hn & Hw & _).
      destruct (IH _ _ _ _ _ (wires_open _ _ _ _ Hok Hn Hw) E) as (H2 & H3 & H4 & H5).
      assert (Hx : x ∉ wires) by (intros Hin%(wi_conn _ _ Hok); congruence).
      split_and!; [by constructor|done| |].
      * intros fd. rewrite H4, stillOpen_cons. cbn [option_list app]. rewrite !elem_of_cons. naive_solver.
      * intros fd Hfd. rewrite (H5 fd Hfd). cbn [option_list app].
        destruct (decide (fd = x)) as [->|Hne]; [by rewrite decide_True, decide_False by (done || by left)|].
        rewrite Hw, lookup_insert_ne by done.
        destruct (decide (fd ∈ wires)); [by rewrite decide_True by by right|].
        rewrite decide_False; [done|]. by intros [?|?]%elem_of_cons.
    + assert (Hw : fds w1 = fds w) by (destruct s as [| |[x|]]; [by rewrite Hno by by left|by rewrite Hno by by right|done|by apply Hdown]).
      assert (Hok1 : wires_ok wires w1) by (destruct Hok as [K1 K2]; split; [done|by rewrite Hw]).
      destruct (IH _ _ _ _ _ Hok1 E) as (H2 & H3 & H4 & H5). rewrite Hw in H5.
      split_and!; [by constructor|done| |done].
      intros fd. rewrite H4, stillOpen_cons, elem_of_cons. destruct s as [| |[x|]]; naive_solver.
  - destruct (decide (x ∈ wires)) as [Hx|Hx].
    + destruct (serveMode fl evs _ _) as [[o ws] w2] eqn:E. injection H as <- <- <-.
      destruct (IH _ _ _ _ _ (wires_close _ _ x Hok) E) as (H2 & H3 & H4 & H5).
      split_and!; [by constructor|done| |].
      * intros fd. rewrite H4, stillOpen_cons, list_elem_of_filter, elem_of_cons. naive_solver.
      * intros fd Hfd. rewrite (H5 fd Hfd). cbn. destruct (decide (fd = x)) as [->|Hne].
        { rewrite lookup_delete_eq, (decide_True _ _ Hx). by destruct (decide _). }
        rewrite lookup_delete_ne by done. destruct (decide (fd ∈ wires)) as [Hin|Hin].
        -- rewrite decide_True; [done|]. by apply list_elem_of_filter.
        -- rewrite decide_False; [done|]. by intros [_ ?]%list_elem_of_filter.
    + destruct (serveMode fl evs _ _) as [[o ws] w2] eqn:E. injection H as <- <- <-.
      destruct (IH _ _ _ _ _ Hok E) as (H2 & H3 & H4 & H5). split_and!; [by constructor|done| |done].
      intros fd. rewrite H4, stillOpen_cons, elem_of_cons. naive_solver.
Qed.

(** C23: the two ends of a bridge, from their command lines, each with a token that is not
    empty. A connecting vdews, its URL without a fragment and without a token of its own,
    dials a URL; a serving one refuses the
    request for it exactly when the tokens differ, and otherwise, the handshake made, holds a
    connection to its switch if that answers. Whatever requests it gets, its descriptors
    are, besides those it started with, exactly one for each request it let through to the
    switch whose bridge has not ended. *)
Theorem vdews_ends_meet argsC argsS flC flS rounds wC evs w dial state wC' f1 f2 hs s out wires w' :
  parseFlags argsC defaultFlags = Parsed flC -> parseFlags argsS defaultFlags = Parsed flS ->
  mode flC = "connect" -> mode flS = "serve" -> token flC <> "" -> token flS <> "" ->
  containsByte "#" (url flC) = false -> "token" ∉ (ParseQuery (rawQuery (url flC))).*1 ->
  main argsC [] rounds wC = (Connecting dial state, wC') ->
  main argsS (Request (mkRequest dial hs f1 f2) :: evs) [] w = (Serving (Answered s :: out) wires, w') ->
  (s = Forbidden <-> token flC <> token flS) /\
  (s = NoHandshake <-> token flC = token flS /\ hs = false) /\
  (token flC = token flS -> hs = true -> answers (upstream flS) w = true -> f1 = false -> f2 = false ->
     exists fd, s = Upgraded (Some fd)) /\
  NoDup wires /\ (forall fd, fd ∈ wires <-> stillOpen (Answered s :: out) fd) /\
  forall fd, fds w' !! fd = if decide (fd ∈ wires) then Some FdConn else fds w !! fd.
Proof.
  intros HpC HpS HmC HmS HtC HtS Hh Hno HC HS. unfold main in HC, HS. rewrite HpC, HmC in HC. rewrite HpS, HmS in HS.
  cbn [String.eqb Ascii.eqb Bool.eqb] in HC, HS. destruct (connectLoop _ _ _) as [st v]. injection HC as <- <- <-.
  destruct (serveMode flS _ _ w) as [[o ws] v'] eqn:E. injection HS as -> -> ->.
  assert (Hok : wires_ok [] w) by (split; [constructor|by intros fd Hin%elem_of_nil]).
  destruct (serveMode_wires _ _ _ _ _ _ _ Hok E) as (H2 & [Hnd Hconn] & Hin & Hfds).
  apply Forall2_cons in H2 as [[Hs Hn] _]. cbn [r_url r_handshake] in Hs, Hn. rewrite admits_wsURL in Hs, Hn by done.
  assert (Hiff : s = Forbidden <-> token flC <> token flS) by (rewrite Hs; apply bool_decide_eq_false).
  split; [done|]. split; [by rewrite Hn, bool_decide_eq_true|]. split; [|split; [done|split]].
  - intros Ht -> Ha -> ->. cbn [serveMode r_url r_handshake r_fault1 r_fault2] in E.
    destruct (serveHandler _ _ _ _ _ _ w) as [s1 w1] eqn:E1. destruct (serveMode flS evs _ _) as [[o1 x1] y1].
    injection E as -> _ _ _.
    unfold serveHandler, serveWS, TryConnect, sys_socket, sys_connect in E1. cbn [negb andb] in E1.
    rewrite (answers_files (upstream flS) w), Ha in E1 by done.
    destruct (_ && _) in E1; injection E1 as <- _; [tauto|by eexists].
  - intros fd. rewrite Hin. split; [intros [?|[[]%elem_of_nil _]]; done|by left].
  - intros fd. destruct (decide (fd ∈ wires)) as [Hx|Hx]; [by apply Hconn|].
    rewrite (Hfds fd Hx). rewrite decide_False; [done|apply not_elem_of_nil].
Qed.

(** Two ends with the token of the example, a stranger's request behind, and the end of the
    bridge. *)
Definition argsC : list string := ["-mode"; "connect"; "-url=wss://hub.example/vde"; "-token"; "a b&c"].
Definition argsS : list string := ["--mode=serve"; "-token"; "a b&c"; "--"; "-listen"; "x"].
Definition laterEvents : list serveEvent := [Request (mkRequest "/vde" true false false); PumpEnds 0].

Theorem vdews_ends_meet_witness :
  exists s out wires w',
    main argsS (Request (mkRequest "wss://hub.example/vde?token=a+b%26c" true false false) :: laterEvents) [] emptyWorld =
      (Serving (Answered s :: out) wires, w') /\
    s <> Forbidden /\ NoDup wires.
Proof.
  eexists _, _, _, _. split; [reflexivity|].
  destruct (vdews_ends_meet argsC argsS _ _ [] emptyWorld laterEvents emptyWorld
    "wss://hub.example/vde?token=a+b%26c" _ _ false false true _ _ _ _ eq_refl eq_refl eq_refl eq_refl
    ltac:(discriminate) ltac:(discriminate) eq_refl ltac:(vm_compute; intros H; inversion H) eq_refl eq_refl)
    as (Hf & _ & _ & Hnd & _).
  split; [|exact Hnd]. intros H%Hf. by apply H.
Defined.

(** Without a mode, or with another one, nothing is bound and nobody is served. *)
Theorem main_needs_mode args fl evs rounds w :
  parseFlags args defaultFlags = Parsed fl -> mode fl <> "serve" -> mode fl <> "connect" ->
  main args evs rounds w = (Exited 1, w).
Proof.
  intros Hp H1 H2. unfold main. rewrite Hp.
  destruct (String.eqb_spec (mode fl) "serve"), (String.eqb_spec (mode fl) "connect"); done.
Qed.

Theorem main_needs_mode_witness : main ["-listen"; ":80"] [] [] emptyWorld = (Exited 1, emptyWorld).
Proof. by apply (main_needs_mode ["-listen"; ":80"] (mkFlags "" ":80" "/vde" "/tmp/vde.socket" "/tmp/vde-remote.sock" "" "")). Defined.
