(* ===== verification/Fleet.v ===== *)
(** * Fleet: the failover state machine of vdeplug-go/main.go

    [fleet.loop] and the ends of [runPeer] and [runInstance], for any number of
    instances on one machine. An instance is in a phase of the loop; the flock table
    is Elect.v's kernel, the descriptors, files and listeners UnixSeq.v's world, both
    shared. An [event] is one turn of one instance: one system call of its
    [BindOrConnect] or [Listener.Close], which may fail, or what it does up to its next
    blocking call; or a crash, or a system call of another program (an older binary) at
    the path of the socket. [step] is executable, and the runs of the system are the
    sequences of events it accepts. *)
From S2P Require Import Prelude.
From S2P Require Import Elect.
From S2P Require Import UnixSeq.

(** ** Backoff, in nanoseconds *)

Definition Millisecond : Z := 10 ^ 6.
Definition backoff0 : Z := 250 * Millisecond.
Definition nextBackoff (b : Z) : Z := if b <? 2000 * Millisecond then b * 2 else b.

(** The sleep before the next try; [r] is [rand.Intn(int(backoff/2))]. *)
Definition backoffSleep (b r : Z) : Z := b + (r + 1).

(** ** State *)

Inductive phase :=
| Discover (backoff : Z)               (* top of the loop *)
| Contend (backoff : Z)                (* nobody answered: about to take the seat *)
| Seated (seat : nat) (backoff : Z) (at_ : bindAt)          (* under the seat, in [BindOrConnect] *)
| Peer (conn : nat)                    (* in runPeer *)
| Hub (seat : nat) (ln : Listener)     (* in runInstance *)
| Closing (seat : nat) (ln : Listener) (at_ : closeAt)      (* in [ln.Close] *)
| Leaving (seat : nat) (back : option Z)      (* about to release the seat, and go round or end *)
| Exited.

(** [others]: the descriptors of other programs' sockets. *)
Record fleet := mkFleet {
  insts : gmap nat phase;
  kern : kernel;
  os : world;
  others : gset nat;
}.

(** [Connect true]: the call fails whoever listens; [BindStep true], [CloseStep true]: the
    next system call fails. *)
Inductive turn :=
| Connect (refused : bool)
| Lock (openErr : option string)
| BindStep (fault : bool)
| Lost                                 (* runPeer returned: EOF, silence, or a dead guest link *)
| Shutdown                             (* waitShutdown returned; ln.Close closes the descriptor *)
| CloseStep (fault : bool)
| Release
| Crash.

(** What other programs do at the path: create a socket there, listen on it, close
    it; remove what is there; create a file. *)
Inductive call := CBind | CListen (fd : nat) | CClose (fd : nat) | CRemove | CCreate.

Inductive event := Spawn (i : nat) | Does (i : nat) (t : turn) | Other (c : call).

Section Fleet.
Variable (sockPath : string) (mode : Z).

(** What the kernel does with the resources of a dead process (a connection the process
    itself lost track of stays in the table). *)
Definition holds (p : phase) : option nat :=
  match p with
  | Seated _ _ (B1 fd | B3 fd | B7 fd | B9 fd | B10 fd _ | B12 fd _ | B13 fd _) => Some fd
  | Peer c => Some c
  | Hub _ ln => Some (l_fd ln)
  | _ => None
  end.

Definition seatOf (p : phase) : option nat :=
  match p with
  | Seated seat _ _ | Hub seat _ | Closing seat _ _ | Leaving seat _ => Some seat
  | _ => None
  end.

Definition reap (p : phase) (k : kernel) (w : world) : kernel * world :=
  (match seatOf p with Some seat => closeOfd seat k | None => k end,
   match holds p with Some fd => sys_close fd w | None => w end).

(** The turns of the loop. *)
Definition move (t : turn) (p : phase) (k : kernel) (w : world) : option (phase * kernel * world) :=
  match t, p with
  | Connect refused, Discover b =>
      Some match TryConnect false refused sockPath w with
           | (Ok c, w) => (Peer c, k, w)
           | (Err _, w) => (Contend b, k, w)
           end
  | Lock openErr, Contend b =>
      Some match TryLock openErr sockPath k with
           | (Err _, k) => (Discover (nextBackoff b), k, w)
           | (Ok seat, k) => (Seated seat b B0, k, w)
           end
  | BindStep fault, Seated seat b at_ =>
      Some match bindStep fault sockPath mode at_ w with
           | (inl at_, w) => (Seated seat b at_, k, w)
           | (inr (Ok (inl ln)), w) => (Hub seat ln, k, w)
           | (inr (Ok (inr _)), w) => (Leaving seat (Some b), k, w)
           | (inr (Err _), w) => (Leaving seat None, k, w)
           end
  | Lost, Peer c => Some (Discover backoff0, k, ConnClose c w)
  | Shutdown, Hub seat ln => Some (Closing seat ln C1, k, sys_close (l_fd ln) w)
  | CloseStep fault, Closing seat ln at_ =>
      Some match closeStep fault ln at_ w with
           | (Some at_, w) => (Closing seat ln at_, k, w)
           | (None, w) => (Leaving seat None, k, w)
           end
  | Release, Leaving seat back =>
      Some (match back with Some b => Discover b | None => Exited end, release seat k, w)
  | Crash, p => let '(k, w) := reap p k w in Some (Exited, k, w)
  | _, _ => None
  end.

(** A system call of another program. *)
Definition otherCall (c : call) (w : world) (os : gset nat) : option (world * gset nat) :=
  match c with
  | CBind =>
      '(fd, w) ← sys_socket false w;
      '(_, w) ← sys_bind false fd sockPath w;
      Some (w, {[fd]} ∪ os)
  | CListen fd =>
      match fds w !! fd with
      | Some (FdBound id) => if decide (fd ∈ os) then w ← sys_listen false fd id w; Some (w, os) else None
      | _ => None
      end
  | CClose fd => if decide (fd ∈ os) then Some (sys_close fd w, os ∖ {[fd]}) else None
  | CRemove => Some (sys_remove false sockPath w, os)
  | CCreate =>
      match files w !! sockPath with
      | None => Some (mkWorld (fds w) (<[sockPath := mkNode (fresh (usedIds w)) false 0x1A4]> (files w))
                              (listening w), os)
      | Some _ => None
      end
  end.

Definition step (e : event) (s : fleet) : option fleet :=
  match e with
  | Spawn i =>
      match insts s !! i with
      | None => Some (mkFleet (<[i := Discover backoff0]> (insts s)) (kern s) (os s) (others s))
      | Some _ => None
      end
  | Does i t =>
      p ← insts s !! i;
      '(p, k, w) ← move t p (kern s) (os s);
      Some (mkFleet (<[i := p]> (insts s)) k w (others s))
  | Other c =>
      '(w, o) ← otherCall c (os s) (others s);
      Some (mkFleet (insts s) (kern s) w o)
  end.

Fixpoint run (es : list event) (s : fleet) : option fleet :=
  match es with [] => Some s | e :: es => s ← step e s; run es s end.

(** A machine before the first instance: any files, nothing listening. *)
Definition initial (fs : gmap string node) : fleet :=
  mkFleet ∅ (mkKernel ∅ ∅) (mkWorld ∅ fs ∅) ∅.

Definition reachable (s : fleet) : Prop := exists fs es, run es (initial fs) = Some s.

(** Runs in which no other program touches the path. *)
Definition ours (e : event) : Prop := match e with Other _ => False | _ => True end.
Definition reachableAlone (s : fleet) : Prop :=
  exists fs es, Forall ours es /\ run es (initial fs) = Some s.

(** ** Descriptors and listeners

    The listening identities are those of the table's listening descriptors, and every
    bound descriptor has its own. *)
Record wf_world (w : world) : Prop := {
  ww_listen : forall id, id ∈ listening w <-> exists fd, fds w !! fd = Some (FdListen id);
  ww_inj : forall fd fd' k k' id, fds w !! fd = Some k -> fds w !! fd' = Some k' ->
    fdId k = Some id -> fdId k' = Some id -> fd = fd';
}.

Lemma ww_used w fd k id : fds w !! fd = Some k -> fdId k = Some id -> id ∈ usedIds w.
Proof.
  intros Hfd Hid. unfold usedIds. apply elem_of_union_r, elem_of_map_img. exists fd.
  by rewrite lookup_omap, Hfd.
Qed.

(** A descriptor gets a kind without an identity, where it did not listen. *)
Lemma wf_set w fs fd k :
  wf_world w -> fdId k = None -> (forall id, fds w !! fd <> Some (FdListen id)) ->
  wf_world (mkWorld (<[fd := k]> (fds w)) fs (listening w)).
Proof.
  intros [Hl Hi] Hk Hn. split; cbn.
  - intros id. rewrite Hl. split; intros [f Hf]; exists f.
    + rewrite lookup_insert_ne; [done|]. intros <-. by destruct (Hn id).
    + rewrite lookup_insert in Hf. case_decide; [|done]. injection Hf as ->. done.
  - intros f f' x x' id. rewrite !lookup_insert. repeat case_decide; intros; simplify_eq; eauto.
Qed.

Lemma wf_bind w fs fd id :
  wf_world w -> fds w !! fd = Some FdSocket -> id ∉ usedIds w ->
  wf_world (mkWorld (<[fd := FdBound id]> (fds w)) fs (listening w)).
Proof.
  intros [Hl Hi] Hfd Hid. split; cbn.
  - intros x. rewrite Hl. split; intros [f Hf]; exists f.
    + rewrite lookup_insert_ne; [done|]. intros <-. congruence.
    + rewrite lookup_insert in Hf. by case_decide.
  - intros f f' x x' i. rewrite !lookup_insert.
    repeat case_decide; intros; simplify_eq/=; try done; try (by eauto); destruct Hid; eauto using ww_used.
Qed.

Lemma wf_listen w fs fd id :
  wf_world w -> fds w !! fd = Some (FdBound id) ->
  wf_world (mkWorld (<[fd := FdListen id]> (fds w)) fs ({[id]} ∪ listening w)).
Proof.
  intros [Hl Hi] Hfd. split; cbn.
  - intros x. rewrite elem_of_union, elem_of_singleton, Hl. split.
    + intros [->|[f Hf]]; [exists fd; apply lookup_insert_eq|]. exists f.
      rewrite lookup_insert_ne; [done|]. intros <-. congruence.
    + intros [f Hf]. rewrite lookup_insert in Hf. case_decide; [left; congruence|right; by exists f].
  - intros f f' x x' i. rewrite !lookup_insert.
    repeat case_decide; intros; simplify_eq/=; try done; try (by eauto); by eapply (Hi _ _ (FdBound i)); eauto.
Qed.

Lemma wf_close w fd : wf_world w -> wf_world (sys_close fd w).
Proof.
  intros [Hl Hi]. split; cbn.
  - intros x. split.
    + intros Hx. assert (Hin : x ∈ listening w) by (destruct (fds w !! fd) as [[| | |]|]; set_solver).
      apply Hl in Hin as [f Hf]. exists f. rewrite lookup_delete_ne; [done|]. intros <-.
      rewrite Hf in Hx. set_solver.
    + intros [f [Hne Hf]%lookup_delete_Some]. assert (x ∈ listening w) by (apply Hl; by exists f).
      destruct (fds w !! fd) as [[| | |y]|] eqn:Hy; try done. apply elem_of_difference. split; [done|].
      intros ->%elem_of_singleton. destruct Hne. by eapply (Hi _ _ (FdListen y) (FdListen y)).
  - intros f f' x x' i [_ Hf]%lookup_delete_Some [_ Hf']%lookup_delete_Some. by eapply Hi.
Qed.

Lemma wf_files w w' : fds w' = fds w -> listening w' = listening w -> wf_world w -> wf_world w'.
Proof. intros E1 E2 [H1 H2]. split; [by rewrite E1, E2|by rewrite E1]. Qed.

(** A process' descriptor goes from [o] to [o'] and the others' stay. *)
Record handled (o o' : option nat) (w w' : world) : Prop := {
  ha_keep : forall fd k, o <> Some fd -> fds w !! fd = Some k -> fds w' !! fd = Some k;
  ha_new : forall fd, o' = Some fd -> o = Some fd \/ fds w !! fd = None;
  ha_listen : forall fd id, fds w' !! fd = Some (FdListen id) ->
    o' = Some fd \/ (fds w !! fd = Some (FdListen id) /\ o <> Some fd);
}.

Lemma handled_same o w w' : fds w' = fds w -> handled o o w w'.
Proof.
  intros E. split; try rewrite E; [done|by left|]. intros fd id Hfd.
  destruct (decide (o = Some fd)); [by left|by right].
Qed.

Lemma handled_open fd k w w' :
  fds w !! fd = None -> fds w' = <[fd := k]> (fds w) -> handled None (Some fd) w w'.
Proof.
  intros Hn E. split; try rewrite E.
  - intros f x _ Hf. rewrite lookup_insert_ne; [done|congruence].
  - intros f [= <-]. by right.
  - intros f id. rewrite lookup_insert. case_decide; [intros _; left; congruence|by right].
Qed.

Lemma handled_set fd k w w' : fds w' = <[fd := k]> (fds w) -> handled (Some fd) (Some fd) w w'.
Proof.
  intros E. split; try rewrite E.
  - intros f x Hne Hf. rewrite lookup_insert_ne; [done|congruence].
  - by left.
  - intros f id. rewrite lookup_insert. case_decide; [intros _; left; congruence|]. right. split; congruence.
Qed.

Lemma handled_leak fd w w' : fds w' = <[fd := FdConn]> (fds w) -> handled (Some fd) None w w'.
Proof.
  intros E. split; try rewrite E; [|done|].
  - intros f x Hne Hf. rewrite lookup_insert_ne; [done|congruence].
  - intros f id. rewrite lookup_insert. case_decide; [done|]. right. split; congruence.
Qed.

Lemma handled_close fd w w' : fds w' = delete fd (fds w) -> handled (Some fd) None w w'.
Proof.
  intros E. split; try rewrite E; [|done|].
  - intros f x Hne Hf. rewrite lookup_delete_ne; [done|congruence].
  - intros f id [Hne Hf]%lookup_delete_Some. right. split; congruence.
Qed.

(** What a phase's descriptor is. *)
Definition kindOk (p : phase) (k : fdKind) : Prop :=
  match p with
  | Seated _ _ (B1 _ | B3 _ | B7 _ | B9 _) => k = FdSocket
  | Seated _ _ (B10 _ id) => k = FdBound id
  | Seated _ _ (B12 _ id | B13 _ id) => k = FdListen id
  | Peer _ => k = FdConn
  | Hub _ _ => exists id, k = FdListen id
  | _ => False
  end.

Definition fd_ok (p : phase) (w : world) : Prop :=
  forall fd, holds p = Some fd -> exists k, fds w !! fd = Some k /\ kindOk p k.

Lemma fd_ok_none p w : holds p = None -> fd_ok p w.
Proof. intros E fd. congruence. Qed.

Lemma fd_ok_at p w fd k : holds p = Some fd -> fds w !! fd = Some k -> kindOk p k -> fd_ok p w.
Proof. intros E Hf Hk fd'. rewrite E. intros [= <-]. by exists k. Qed.

(** A turn from [p] to [p'], as far as descriptors go. *)
Record moved (p p' : phase) (w w' : world) : Prop := {
  mv_wf : wf_world w';
  mv_fd : fd_ok p' w';
  mv_handled : handled (holds p) (holds p') w w';
}.

Lemma TryConnect_eq r w :
  TryConnect false r sockPath w =
    if negb r && answers sockPath w
    then (Ok (fresh (dom (fds w))), mkWorld (<[fresh (dom (fds w)) := FdConn]> (fds w)) (files w) (listening w))
    else (Err "connect"%string, w).
Proof.
  unfold TryConnect, sys_socket, sys_connect. rewrite (answers_files sockPath w) by done.
  destruct (negb r && _); cbn; [by rewrite insert_insert_eq|]. by rewrite close_socket_id by apply fresh_fd.
Qed.

(** The turn opens a descriptor. *)
Lemma moved_open p p' w fd k :
  wf_world w -> holds p = None -> holds p' = Some fd -> fds w !! fd = None -> fdId k = None -> kindOk p' k ->
  moved p p' w (mkWorld (<[fd := k]> (fds w)) (files w) (listening w)).
Proof.
  intros Hw Hp Hp' Hn Hk Hok. split.
  - apply wf_set; [done|done|congruence].
  - eapply fd_ok_at; [done|apply lookup_insert_eq|done].
  - rewrite Hp, Hp'. by eapply handled_open.
Qed.

(** It closes its descriptor. *)
Lemma moved_close p p' w fd :
  wf_world w -> holds p = Some fd -> holds p' = None -> moved p p' w (sys_close fd w).
Proof.
  intros Hw Hp Hp'. split; [by apply wf_close|by apply fd_ok_none|]. rewrite Hp, Hp'. by apply handled_close.
Qed.

(** It keeps it. *)
Lemma moved_same p p' w w' :
  wf_world w -> fds w' = fds w -> listening w' = listening w -> holds p = holds p' -> fd_ok p' w ->
  moved p p' w w'.
Proof.
  intros Hw Ef El Hh Hfd. split; [by eapply wf_files| |rewrite Hh; by apply handled_same].
  intros fd E. destruct (Hfd fd E) as (k & Hk & Hok). exists k. by rewrite Ef.
Qed.

(** A step of [BindOrConnect] that connects, or closes. *)
Lemma moved_join p p' q w fd f :
  wf_world w -> holds p = Some fd -> fds w !! fd = Some FdSocket -> holds p' = None -> holds q = None ->
  match sys_connect f fd sockPath w with
  | Some w' => moved p p' w w'
  | None => moved p q w (sys_close fd w)
  end.
Proof.
  intros Hw Hp Hfd Hp' Hq. unfold sys_connect. destruct (negb f && _); [|by apply moved_close].
  split; [apply wf_set; [done|done|congruence]|by apply fd_ok_none|]. rewrite Hp, Hp'. by apply handled_leak.
Qed.

Lemma moved_socket p p' q w f :
  wf_world w -> holds p = None -> (forall fd, holds (p' fd) = Some fd) -> (forall fd, kindOk (p' fd) FdSocket) ->
  holds q = None ->
  match sys_socket f w with
  | Some (fd, w') => moved p (p' fd) w w'
  | None => moved p q w w
  end.
Proof.
  intros Hw Hp Hp' Hk Hq. unfold sys_socket. destruct f.
  - apply moved_same; try done; [congruence|by apply fd_ok_none].
  - apply moved_open; try done. apply fresh_fd.
Qed.

Lemma remove_keeps f p w : fds (sys_remove f p w) = fds w /\ listening (sys_remove f p w) = listening w.
Proof. by destruct f. Qed.

Ltac sock at_ next :=
  match goal with Hw : wf_world ?w |- context [Leaving ?seat (Some ?b)] =>
    match goal with |- context [sys_socket ?f w] =>
      let H := fresh in
      pose proof (moved_socket (Seated seat b at_) (fun fd => Seated seat b (next fd)) (Leaving seat None) w f Hw
        eq_refl (fun _ => eq_refl) (fun _ => eq_refl) eq_refl) as H;
      unfold retry; destruct (sys_socket f w) as [[? ?]|]; intros [= <- <- <-]; exact H
    end end.

Lemma move_bind f seat b at_ k w p' k' w' :
  wf_world w -> fd_ok (Seated seat b at_) w ->
  move (BindStep f) (Seated seat b at_) k w = Some (p', k', w') -> moved (Seated seat b at_) p' w w'.
Proof.
  intros Hw Hfd. cbn [move].
  assert (Hkind : forall fd, holds (Seated seat b at_) = Some fd ->
    exists k, fds w !! fd = Some k /\ kindOk (Seated seat b at_) k) by done.
  destruct at_ as [|fd| |fd| | | |hub| |fd|hub id| |hub id|hub id]; cbn [bindStep retry joined].
  all: try (destruct (Hkind _ eq_refl) as (kd & Hkd & Hok); cbn in Hok).
  all: try subst kd.
  - sock B0 B1.
  - pose proof (moved_join (Seated seat b (B1 fd)) (Leaving seat (Some b)) (Seated seat b B2) w fd f Hw eq_refl Hkd eq_refl eq_refl) as H.
    destruct (sys_connect _ _ _ _); by intros [= <- <- <-].
  - sock B2 B3.
  - pose proof (moved_join (Seated seat b (B3 fd)) (Leaving seat (Some b)) (Seated seat b B4) w fd f Hw eq_refl Hkd eq_refl eq_refl) as H.
    destruct (sys_connect _ _ _ _); by intros [= <- <- <-].
  - intros [= <- <- <-]. destruct (negb f && _); apply moved_same; done.
  - intros [= <- <- <-]. apply moved_same; try done; apply remove_keeps.
  - sock B6 B7.
  - unfold sys_bind. destruct f; [|destruct (files w !! sockPath)]; intros [= <- <- <-];
      [by apply moved_close..|]. split.
    + apply wf_bind; [done|done|apply is_fresh].
    + eapply fd_ok_at; [done|apply lookup_insert_eq|done].
    + by eapply handled_set.
  - sock B8 B9.
  - pose proof (moved_join (Seated seat b (B9 fd)) (Leaving seat (Some b)) (Leaving seat None) w fd f Hw eq_refl Hkd eq_refl eq_refl) as H.
    destruct (sys_connect _ _ _ _); by intros [= <- <- <-].
  - unfold sys_listen. destruct f; intros [= <- <- <-]; [by apply moved_close|]. split.
    + by apply wf_listen.
    + eapply fd_ok_at; [done|apply lookup_insert_eq|done].
    + by eapply handled_set.
  - intros [= <- <- <-]. apply moved_same; try done; apply remove_keeps.
  - intros [= <- <- <-]. apply moved_same; [done|by destruct f|by destruct f|done|].
    by eapply (fd_ok_at _ _ hub).
  - intros [= <- <- <-]. apply moved_same; try done. eapply (fd_ok_at _ _ hub); [done|done|]. by exists id.
Qed.

Lemma closeStep_keeps f ln at_ w :
  fds (closeStep f ln at_ w).2 = fds w /\ listening (closeStep f ln at_ w).2 = listening w.
Proof. destruct at_; [done|]. apply remove_keeps. Qed.

Lemma move_moved t p k w p' k' w' :
  wf_world w -> fd_ok p w -> move t p k w = Some (p', k', w') -> moved p p' w w'.
Proof.
  intros Hw Hfd. destruct t as [r|oe|f| | |f| |], p as [b|b|seat b at_|c|seat ln|seat ln at_|seat back|]; try done.
  all: try (cbn [move reap seatOf holds]; injection 1 as <- <- <-).
  all: try (by apply moved_same); try (by apply moved_close).
  - cbn [move]. rewrite TryConnect_eq. destruct (negb r && _); intros [= <- <- <-]; [|by apply moved_same].
    apply moved_open; try done. apply fresh_fd.
  - cbn [move]. destruct (TryLock oe sockPath k) as [[seat|e] k1]; intros [= <- <- <-]; by apply moved_same.
  - by apply (move_bind f seat b at_ k).
  - destruct (closeStep_keeps f ln at_ w) as [E1 E2]. cbn [move].
    destruct (closeStep f ln at_ w) as [[x|] w1]; intros [= <- <- <-]; by apply moved_same.
  - by apply moved_same; destruct back.
  - destruct at_; first [by apply moved_same|by apply moved_close].
Qed.

(** ** The seat *)

(** A turn leaves the flock alone, takes it while it is free, or drops it. *)
Inductive seatMove (p p' : phase) (k : kernel) : kernel -> Prop :=
| SeatSame : seatOf p' = seatOf p -> seatMove p p' k k
| SeatTake fd k' : seatOf p = None -> seatOf p' = Some fd -> flocks k !! lockPathOf sockPath = None ->
    flocks k' !! lockPathOf sockPath = Some fd -> seatMove p p' k k'
| SeatDrop fd : seatOf p = Some fd -> seatOf p' = None -> seatMove p p' k (closeOfd fd k).

Lemma move_seat t p k w p' k' w' :
  wf_kernel k -> move t p k w = Some (p', k', w') -> wf_kernel k' /\ seatMove p p' k k'.
Proof.
  intros Hk. destruct t as [r|oe|f| | |f| |], p as [b|b|seat b at_|c|seat ln|seat ln at_|seat back|]; try done.
  all: try (cbn [move reap seatOf holds]; injection 1 as <- <- <-).
  all: try (split; [done|by apply SeatSame]).
  all: try (split; [by apply closeOfd_wf|by apply SeatDrop]).
  all: cbn [move].
  - destruct (TryConnect _ _ _ _) as [[c|] w1]; injection 1 as <- <- <-; (split; [done|by apply SeatSame]).
  - destruct oe as [e|]; [injection 1 as <- <- <-; split; [done|by apply SeatSame]|].
    destruct (flocks k !! lockPathOf sockPath) as [h|] eqn:Hf.
    + rewrite (TryLock_held _ h) by done. injection 1 as <- <- <-. split; [done|by apply SeatSame].
    + rewrite TryLock_free by done. injection 1 as <- <- <-. split.
      * eapply (TryLock_wf None sockPath k); [done|by apply TryLock_free].
      * eapply SeatTake; [done|done|done|]. apply lookup_insert_eq.
  - destruct (bindStep _ _ _ _ _) as [[at1|[[ln|fd]|]] w1]; injection 1 as <- <- <-;
      (split; [done|by apply SeatSame]).
  - destruct (closeStep _ _ _ _) as [[at1|] w1]; injection 1 as <- <- <-; (split; [done|by apply SeatSame]).
  - split; [by apply closeOfd_wf|]. by apply SeatDrop; [|destruct back].
Qed.

(** ** The invariant *)

Record inv (s : fleet) : Prop := {
  inv_kern : wf_kernel (kern s);
  inv_seat : forall i p fd, insts s !! i = Some p -> seatOf p = Some fd ->
    flocks (kern s) !! lockPathOf sockPath = Some fd;
  inv_seat_inj : forall i j p q fd, insts s !! i = Some p -> insts s !! j = Some q ->
    seatOf p = Some fd -> seatOf q = Some fd -> i = j;
  inv_held : forall fd, flocks (kern s) !! lockPathOf sockPath = Some fd ->
    exists i p, insts s !! i = Some p /\ seatOf p = Some fd;
  inv_world : wf_world (os s);
  inv_fd : forall i p, insts s !! i = Some p -> fd_ok p (os s);
  inv_fd_inj : forall i j p q fd, insts s !! i = Some p -> insts s !! j = Some q ->
    holds p = Some fd -> holds q = Some fd -> i = j;
  inv_others : forall fd, fd ∈ others s -> is_Some (fds (os s) !! fd) /\
    forall i p, insts s !! i = Some p -> holds p <> Some fd;
  inv_listen : forall fd id, fds (os s) !! fd = Some (FdListen id) ->
    fd ∈ others s \/ exists i p, insts s !! i = Some p /\ holds p = Some fd;
}.

Lemma seat_unique s i j p q fd fd' :
  inv s -> insts s !! i = Some p -> insts s !! j = Some q ->
  seatOf p = Some fd -> seatOf q = Some fd' -> i = j.
Proof.
  intros Hi Hp Hq Hsp Hsq. pose proof (inv_seat s Hi i p fd Hp Hsp) as E1.
  pose proof (inv_seat s Hi j q fd' Hq Hsq) as E2. rewrite E1 in E2. injection E2 as <-.
  by eapply (inv_seat_inj s Hi).
Qed.

Lemma insert_case (ps : gmap nat phase) i p j q :
  <[i := p]> ps !! j = Some q -> (j = i /\ q = p) \/ (j <> i /\ ps !! j = Some q).
Proof. rewrite lookup_insert. case_decide; [intros [= <-]; by left|by right]. Qed.

(** An instance that moves keeps the invariant: what it has to do with the seat and
    with descriptors is [seatMove] and [moved]. *)
Lemma inv_move s i p p' k w :
  inv s -> insts s !! i = Some p -> wf_kernel k -> seatMove p p' (kern s) k -> moved p p' (os s) w ->
  inv (mkFleet (<[i := p']> (insts s)) k w (others s)).
Proof.
  intros Hi Hp Hk Hs [Hw Hfd [Hkeep Hnew Hlis]].
  assert (Hseats : forall j q fd, j <> i -> insts s !! j = Some q -> seatOf q = Some fd ->
    flocks k !! lockPathOf sockPath = Some fd /\ seatOf p' <> Some fd).
  { intros j q fd Hne Hq Hsq. pose proof (inv_seat s Hi j q fd Hq Hsq) as Hf. inversion Hs; subst.
    - split; [done|]. intros E. destruct Hne. eapply (seat_unique s j i q p fd fd); try done. congruence.
    - congruence.
    - destruct Hne. by eapply (seat_unique s j i q p). }
  split; cbn; [done|..].
  - intros j q fd [[-> ->]|[Hne Hq]]%insert_case Hsq; [|by eapply Hseats].
    inversion Hs; subst; [|congruence..]. eapply (inv_seat s Hi i p); congruence.
  - intros j1 j2 q1 q2 fd [[-> ->]|[N1 H1]]%insert_case [[-> ->]|[N2 H2]]%insert_case S1 S2.
    + done.
    + by destruct (Hseats j2 q2 fd N2 H2 S2).
    + by destruct (Hseats j1 q1 fd N1 H1 S1).
    + by eapply (inv_seat_inj s Hi).
  - intros fd Hf. inversion Hs as [Es|x k' Es Es' Hfree Hf'|x Es Es']; subst.
    + destruct (inv_held s Hi fd Hf) as (j & q & Hq & Hsq). destruct (decide (j = i)) as [->|Hne].
      * exists i, p'. rewrite lookup_insert_eq. split; [done|]. congruence.
      * exists j, q. by rewrite lookup_insert_ne.
    + exists i, p'. rewrite lookup_insert_eq. split; [done|]. congruence.
    + rewrite closeOfd_lookup, (inv_seat s Hi i p x Hp Es) in Hf. cbn in Hf. by case_decide.
  - done.
  - intros j q [[-> ->]|[Hne Hq]]%insert_case; [done|]. intros fd Hh.
    destruct (inv_fd s Hi j q Hq fd Hh) as (kd & Hk1 & Hk2). exists kd. split; [|done].
    apply Hkeep; [|done]. intros E. destruct Hne. by eapply (inv_fd_inj s Hi).
  - intros j1 j2 q1 q2 fd [[-> ->]|[N1 H1]]%insert_case [[-> ->]|[N2 H2]]%insert_case S1 S2; [done| | |].
    + destruct (Hnew fd S1) as [S|Hn]; [by eapply (inv_fd_inj s Hi)|].
      destruct (inv_fd s Hi j2 q2 H2 fd S2) as (kd & Hk1 & _). congruence.
    + destruct (Hnew fd S2) as [S|Hn]; [by eapply (inv_fd_inj s Hi)|].
      destruct (inv_fd s Hi j1 q1 H1 fd S1) as (kd & Hk1 & _). congruence.
    + by eapply (inv_fd_inj s Hi).
  - intros fd Hfd'. destruct (inv_others s Hi fd Hfd') as [[kd Hk1] Hno].
    split; [exists kd; apply Hkeep; [by eapply Hno|done]|].
    intros j q [[-> ->]|[Hne Hq]]%insert_case; [|by eapply Hno]. intros E.
    destruct (Hnew fd E) as [S|Hn]; [by destruct (Hno i p Hp)|congruence].
  - intros fd id Hf. destruct (Hlis fd id Hf) as [E|[Hold Hne]].
    + right. exists i, p'. by rewrite lookup_insert_eq.
    + destruct (inv_listen s Hi fd id Hold) as [?|(j & q & Hq & E)]; [by left|]. right. exists j, q.
      rewrite lookup_insert_ne; [done|]. intros ->. congruence.
Qed.

(** A new process. *)
Lemma inv_spawn s i b :
  inv s -> insts s !! i = None -> inv (mkFleet (<[i := Discover b]> (insts s)) (kern s) (os s) (others s)).
Proof.
  intros Hi Hn. split; cbn; try apply Hi.
  - intros j q fd [[-> ->]|[Hne Hq]]%insert_case; [done|]. by apply (inv_seat s Hi j).
  - intros j1 j2 q1 q2 fd [[-> ->]|[N1 H1]]%insert_case [[-> ->]|[N2 H2]]%insert_case S1 S2; try done.
    by eapply (inv_seat_inj s Hi).
  - intros fd Hf. destruct (inv_held s Hi fd Hf) as (j & q & Hq & Hs). exists j, q.
    rewrite lookup_insert_ne; [done|congruence].
  - intros j q [[-> ->]|[Hne Hq]]%insert_case; [by apply fd_ok_none|]. by apply (inv_fd s Hi j).
  - intros j1 j2 q1 q2 fd [[-> ->]|[N1 H1]]%insert_case [[-> ->]|[N2 H2]]%insert_case S1 S2; try done.
    by eapply (inv_fd_inj s Hi).
  - intros fd Hf. destruct (inv_others s Hi fd Hf) as [Hs Hno]. split; [done|].
    intros j q [[-> ->]|[Hne Hq]]%insert_case; [done|]. by eapply Hno.
  - intros fd id Hf. destruct (inv_listen s Hi fd id Hf) as [?|(j & q & Hq & E)]; [by left|right].
    exists j, q. rewrite lookup_insert_ne; [done|congruence].
Qed.

(** Another program's call. *)
Record othersMoved (w : world) (o : gset nat) (w' : world) (o' : gset nat) : Prop := {
  om_wf : wf_world w';
  om_keep : forall fd k, fd ∉ o -> fds w !! fd = Some k -> fds w' !! fd = Some k;
  om_new : forall fd, fd ∈ o' -> is_Some (fds w' !! fd) /\ (fd ∈ o \/ fds w !! fd = None);
  om_listen : forall fd id, fds w' !! fd = Some (FdListen id) ->
    fd ∈ o' \/ (fd ∉ o /\ fds w !! fd = Some (FdListen id));
}.

Lemma othersMoved_same w o w' :
  wf_world w -> (forall fd, fd ∈ o -> is_Some (fds w !! fd)) -> fds w' = fds w -> listening w' = listening w ->
  othersMoved w o w' o.
Proof.
  intros Hw Ho E1 E2. split; rewrite ?E1; [by eapply wf_files|done| |].
  - intros fd Hfd. split; [by apply Ho|by left].
  - intros fd id Hfd. destruct (decide (fd ∈ o)); [by left|by right].
Qed.

Lemma otherCall_moved c w o w' o' :
  wf_world w -> (forall fd, fd ∈ o -> is_Some (fds w !! fd)) -> otherCall c w o = Some (w', o') ->
  othersMoved w o w' o'.
Proof.
  intros Hw Ho. destruct c as [|fd|fd| |]; cbn [otherCall].
  - set (fd := fresh (dom (fds w))). cbn. fold fd. pose proof (fresh_fd w) as Hn. fold fd in Hn.
    destruct (files w !! sockPath) eqn:Hf; [done|]. rewrite usedIds_socket by done.
    injection 1 as <- <-. rewrite insert_insert_eq. split; cbn.
    + pose proof (wf_set w (files w) fd FdSocket Hw eq_refl ltac:(congruence)) as Hw1.
      eapply (wf_bind _ (<[sockPath := mkNode (fresh (usedIds w)) true 0x1ED]> (files w)) fd (fresh (usedIds w))) in Hw1.
      * cbn in Hw1. by rewrite insert_insert_eq in Hw1.
      * apply lookup_insert_eq.
      * rewrite usedIds_socket by done. apply is_fresh.
    + intros f k Hf' Hk. rewrite lookup_insert_ne; [done|congruence].
    + intros f [->%elem_of_singleton|Hin]%elem_of_union.
      * rewrite lookup_insert_eq. split; [by eexists|by right].
      * split; [|by left]. rewrite lookup_insert. case_decide; [by eexists|by apply Ho].
    + intros f id. rewrite lookup_insert. case_decide; [done|]. intros Hl.
      destruct (decide (f ∈ o)); [left; set_solver|by right].
  - destruct (fds w !! fd) as [[| |id|id]|] eqn:Hfd; try done. destruct (decide (fd ∈ o)) as [Hin|]; [|done].
    cbn. injection 1 as <- <-. split; cbn.
    + by apply wf_listen.
    + intros f k Hf Hk. rewrite lookup_insert_ne; [done|congruence].
    + intros f Hf. split; [|by left]. rewrite lookup_insert. case_decide; [by eexists|by apply Ho].
    + intros f i. rewrite lookup_insert. case_decide; [subst; by left|]. intros Hl.
      destruct (decide (f ∈ o)); [by left|by right].
  - destruct (decide (fd ∈ o)) as [Hin|]; [|done]. injection 1 as <- <-. split.
    + by apply wf_close.
    + intros f k Hf Hk. cbn. rewrite lookup_delete_ne; [done|congruence].
    + intros f [Hf Hne]%elem_of_difference. cbn. rewrite lookup_delete_ne by set_solver.
      split; [by apply Ho|by left].
    + intros f i. cbn. intros [Hne Hl]%lookup_delete_Some. destruct (decide (f ∈ o)); [left; set_solver|by right].
  - injection 1 as <- <-. by apply othersMoved_same.
  - destruct (files w !! sockPath); [done|]. injection 1 as <- <-. by apply othersMoved_same.
Qed.

Lemma inv_otherCall s w o :
  inv s -> othersMoved (os s) (others s) w o -> inv (mkFleet (insts s) (kern s) w o).
Proof.
  intros Hi [Hw Hkeep Hnew Hlis]. split; cbn; try apply Hi; [done|..].
  - intros i p Hp fd Hh. destruct (inv_fd s Hi i p Hp fd Hh) as (k & Hk1 & Hk2). exists k. split; [|done].
    apply Hkeep; [|done]. intros Hin. by destruct (inv_others s Hi fd Hin) as [_ []%(fun H => H i p Hp)].
  - intros fd Hin. destruct (Hnew fd Hin) as [Hs Hor]. split; [done|]. intros i p Hp Hh.
    destruct Hor as [Hold|Hn]; [by apply (inv_others s Hi fd Hold) in Hp|].
    destruct (inv_fd s Hi i p Hp fd Hh) as (k & Hk1 & _). congruence.
  - intros fd id Hf. destruct (Hlis fd id Hf) as [?|[Hno Hold]]; [by left|].
    destruct (inv_listen s Hi fd id Hold) as [?|?]; [done|by right].
Qed.

Lemma step_inv e s s' : inv s -> step e s = Some s' -> inv s'.
Proof.
  intros Hi. destruct e as [i|i t|c]; cbn [step].
  - destruct (insts s !! i) eqn:Hn; [done|]. injection 1 as <-. by apply inv_spawn.
  - destruct (insts s !! i) as [p|] eqn:Hp; cbn; [|done].
    destruct (move t p (kern s) (os s)) as [[[p' k] w]|] eqn:Hm; cbn; [|done]. injection 1 as <-.
    destruct (move_seat _ _ _ _ _ _ _ (inv_kern s Hi) Hm) as [Hk Hs].
    eapply inv_move; [done|done|done|done|]. eapply move_moved; [apply Hi|by eapply (inv_fd s Hi)|done].
  - destruct (otherCall c (os s) (others s)) as [[w o]|] eqn:Hc; cbn; [|done]. injection 1 as <-.
    apply inv_otherCall; [done|]. eapply otherCall_moved; [apply Hi| |done]. intros fd Hin.
    by apply (inv_others s Hi).
Qed.

Lemma inv_initial fs : inv (initial fs).
Proof.
  split; cbn; try done; try set_solver.
  split; cbn; [|done]. intros id. split; [set_solver|]. by intros [fd Hf].
Qed.

Lemma run_inv es : forall s s', inv s -> run es s = Some s' -> inv s'.
Proof.
  induction es as [|e es IH]; intros s s' Hi; cbn [run]; [by intros [= <-]|].
  destruct (step e s) as [s1|] eqn:E; [|done]. cbn [mbind option_bind].
  apply IH. by eapply step_inv.
Qed.

Lemma reachable_inv s : reachable s -> inv s.
Proof. intros (fs & es & Hr). eapply run_inv; [apply inv_initial|exact Hr]. Qed.

(** Only its own turns change an instance's phase. *)
Definition actor (e : event) : option nat :=
  match e with Spawn i | Does i _ => Some i | Other _ => None end.

Lemma step_others e s s' j : step e s = Some s' -> actor e <> Some j -> insts s' !! j = insts s !! j.
Proof.
  destruct e as [i|i t|c]; cbn [step actor]; intros E Hne.
  - destruct (insts s !! i); [done|]. injection E as <-. cbn. rewrite lookup_insert_ne; congruence.
  - destruct (insts s !! i) as [p|]; cbn in E; [|done].
    destruct (move t p (kern s) (os s)) as [[[p' k] w]|]; cbn in E; [|done]. injection E as <-. cbn.
    rewrite lookup_insert_ne; congruence.
  - destruct (otherCall _ _ _) as [[w o]|]; cbn in E; [|done]. by injection E as <-.
Qed.

Lemma step_does i t s p p' k w :
  insts s !! i = Some p -> move t p (kern s) (os s) = Some (p', k, w) ->
  step (Does i t) s = Some (mkFleet (<[i := p']> (insts s)) k w (others s)).
Proof. intros Hp Hm. cbn. rewrite Hp. cbn. by rewrite Hm. Qed.

(** ** No other program at the path *)

(** The file at the path is the one of the process' socket, once it is bound. *)
Definition named (id : Z) (w : world) : Prop :=
  exists n, files w !! sockPath = Some n /\ node_id n = id /\ node_sock n = true.

Definition files_own (p : phase) (w : world) : Prop :=
  forall fd k id, holds p = Some fd -> fds w !! fd = Some k -> fdId k = Some id -> named id w.

Record alone (s : fleet) : Prop := {
  al_inv : inv s;
  al_others : others s = ∅;
  al_own : forall i p, insts s !! i = Some p -> files_own p (os s);
}.

Lemma kindOk_seat p k id : kindOk p k -> fdId k = Some id -> is_Some (seatOf p).
Proof. destruct p as [b|b|seat b at_|c|seat ln|seat ln at_|seat back|]; cbn; try done; by intros ->. Qed.

Lemma files_own_noId p w : fd_ok p w -> (forall k, kindOk p k -> fdId k = None) -> files_own p w.
Proof.
  intros Hok Hno fd k id Hh Hk Hid. destruct (Hok fd Hh) as (k' & Hk' & Hkind).
  assert (k' = k) as -> by congruence. rewrite (Hno k Hkind) in Hid. done.
Qed.

Lemma files_own_same p p' w w' :
  files_own p w -> holds p' = holds p -> (forall fd k id, holds p = Some fd -> fds w' !! fd = Some k ->
    fdId k = Some id -> exists k', fds w !! fd = Some k' /\ fdId k' = Some id) ->
  (forall id, named id w -> named id w') -> files_own p' w'.
Proof.
  intros Ho Hh Hf Hn fd k id E Hk Hid. rewrite Hh in E. destruct (Hf fd k id E Hk Hid) as (k' & Hk' & Hid').
  eapply Hn, Ho; eauto.
Qed.

(** Turns of an instance without the seat change no file. *)
Lemma move_files t p k w p' k' w' :
  move t p k w = Some (p', k', w') -> seatOf p = None -> files w' = files w.
Proof.
  destruct t as [r|oe|f| | |f| |], p as [b|b|seat b at_|c|seat ln|seat ln at_|seat back|]; try done.
  all: try (cbn [move reap seatOf holds]; injection 1 as <- <- <-; done).
  all: cbn [move].
  - rewrite TryConnect_eq. by destruct (negb r && _); injection 1 as <- <- <-.
  - destruct (TryLock _ _ _) as [[c|] w1]; by injection 1 as <- <- <-.
Qed.

Lemma move_own t p k w p' k' w' :
  wf_world w -> fd_ok p w -> files_own p w -> move t p k w = Some (p', k', w') -> files_own p' w'.
Proof.
  intros Hw Hfd Hown Hm. destruct (move_moved _ _ _ _ _ _ _ Hw Hfd Hm) as [_ Hfd' _].
  assert (Hno : (forall k, kindOk p' k -> fdId k = None) -> files_own p' w') by by apply files_own_noId.
  revert Hm Hfd' Hno.
  destruct t as [r|oe|f| | |f| |], p as [b|b|seat b at_|c|seat ln|seat ln at_|seat back|]; try done.
  all: cbn [move reap seatOf holds].
  all: try (injection 1 as <- <- <-; intros _ Hno; by apply Hno).
  - rewrite TryConnect_eq. destruct (negb r && _); injection 1 as <- <- <-; intros _ Hno; apply Hno; first [done|by intros ? ->].
  - destruct (TryLock _ _ _) as [[c|] w1]; injection 1 as <- <- <-; intros _ Hno; by apply Hno.
  - destruct at_ as [|fd| |fd| | | |hub| |fd|hub id| |hub id|hub id]; cbn [bindStep];
      unfold retry, joined.
    all: try (destruct (sys_socket f w) as [[fd1 w1]|]; injection 1 as <- <- <-; intros _ Hno; apply Hno; first [done|by intros ? ->]).
    all: try (destruct (sys_connect _ _ _ _); injection 1 as <- <- <-; intros _ Hno; by apply Hno).
    all: try (injection 1 as <- <- <-; intros _ Hno; apply Hno; by destruct (negb f && isSocket sockPath w)).
    + unfold sys_bind. destruct f; [|destruct (files w !! sockPath) eqn:Hf]; injection 1 as <- <- <-; intros _ Hno;
        try (by apply Hno).
      intros fd k1 id [= <-] Hk Hid. cbn in Hk. rewrite lookup_insert_eq in Hk. injection Hk as <-.
      injection Hid as <-. eexists. cbn. by rewrite lookup_insert_eq.
    + unfold sys_listen. destruct f; injection 1 as <- <- <-; intros _ Hno; [by apply Hno|].
      eapply files_own_same; [exact Hown|done| |done]. intros fd k1 i [= <-] Hk Hi. cbn in Hk.
      rewrite lookup_insert_eq in Hk. injection Hk as <-. exists (FdBound id). split; [|done].
      destruct (Hfd hub eq_refl) as (k2 & Hk2 & ->). done.
    + injection 1 as <- <- <-. intros _ _. eapply files_own_same; [exact Hown|done| |].
      * intros fd k1 i _ Hk Hi. exists k1. by destruct f.
      * intros i (n & Hn & H1 & H2). destruct f; [by exists n|]. eexists. cbn. rewrite lookup_alter_eq, Hn. done.
    + injection 1 as <- <- <-. intros _ _. eapply files_own_same; [exact Hown|done| |done]. eauto.
  - destruct (closeStep _ _ _ _) as [[x|] w1]; injection 1 as <- <- <-; intros _ Hno; by apply Hno.
  - injection 1 as <- <- <-; intros _ Hno. apply Hno. by destruct back.
Qed.

Lemma step_alone e s s' : alone s -> ours e -> step e s = Some s' -> alone s'.
Proof.
  intros [Hi Ho Hown] He E. split; [by eapply step_inv| |].
  - destruct e as [i|i t|c]; cbn in E; [| |done].
    + destruct (insts s !! i); [done|]. by injection E as <-.
    + destruct (insts s !! i) as [p|]; cbn in E; [|done].
      destruct (move _ _ _ _) as [[[p' k] w]|]; cbn in E; [|done]. by injection E as <-.
  - destruct e as [i|i t|c]; cbn in E; [| |done].
    + destruct (insts s !! i) eqn:Hn; [done|]. injection E as <-. cbn.
      intros j q [[-> ->]|[Hne Hq]]%insert_case; [done|]. by apply (Hown j).
    + destruct (insts s !! i) as [p|] eqn:Hp; cbn in E; [|done].
      destruct (move t p (kern s) (os s)) as [[[p' k] w]|] eqn:Hm; cbn in E; [|done]. injection E as <-. cbn.
      destruct (move_moved _ _ _ _ _ _ _ (inv_world s Hi) (inv_fd s Hi i p Hp) Hm) as [_ _ [Hkeep _ _]].
      intros j q [[-> ->]|[Hne Hq]]%insert_case.
      * eapply move_own; [apply Hi|by apply (inv_fd s Hi i)|by apply (Hown i)|done].
      * intros fd kd id Hh Hk Hid. destruct (inv_fd s Hi j q Hq fd Hh) as (kd' & Hk' & Hkind).
        assert (Hold : holds p <> Some fd) by (intros Hx; destruct Hne; by eapply (inv_fd_inj s Hi)).
        assert (kd' = kd) as -> by (pose proof (Hkeep fd kd' Hold Hk'); congruence).
        destruct (kindOk_seat q kd id Hkind Hid) as [sq Hsq].
        assert (Hsp : seatOf p = None).
        { destruct (seatOf p) as [sp|] eqn:Hsp; [|done]. destruct Hne. by eapply (seat_unique s j i). }
        destruct (Hown j q Hq fd kd id Hh Hk' Hid) as (n & Hn & H1 & H2). exists n.
        by rewrite (move_files _ _ _ _ _ _ _ Hm Hsp).
Qed.

Lemma reachableAlone_alone s : reachableAlone s -> alone s.
Proof.
  intros (fs & es & Hall & Hr). assert (H0 : alone (initial fs)) by by split; [apply inv_initial|done|].
  revert H0 Hall Hr. generalize (initial fs). induction es as [|e es IH]; intros s0 H0 Hall; cbn [run];
    [by intros [= <-]|].
  apply Forall_cons in Hall as [He Hall]. destruct (step e s0) as [s1|] eqn:E; [|done]. cbn [mbind option_bind].
  apply IH; [by eapply step_alone|done].
Qed.

Lemma reachableAlone_reachable s : reachableAlone s -> reachable s.
Proof. intros (fs & es & _ & Hr). by exists fs, es. Qed.

(** ** Safety and recovery *)

(** Who listens: another program, or an instance under the seat. *)
Lemma listener_owner s id :
  inv s -> id ∈ listening (os s) -> exists fd, fds (os s) !! fd = Some (FdListen id) /\
    (fd ∈ others s \/ exists i p, insts s !! i = Some p /\ holds p = Some fd /\ is_Some (seatOf p)).
Proof.
  intros Hi [fd Hfd]%(ww_listen _ (inv_world s Hi)). exists fd. split; [done|].
  destruct (inv_listen s Hi fd id Hfd) as [?|(i & p & Hp & Hh)]; [by left|right]. exists i, p.
  split_and!; [done|done|]. destruct (inv_fd s Hi i p Hp fd Hh) as (k & Hk & Hkind).
  eapply kindOk_seat; [exact Hkind|]. by assert (k = FdListen id) as -> by congruence.
Qed.

(** C5: no split brain. In every state any interleaving of turns, failing system calls,
    crashes and other programs can reach, at most one instance is under the hub seat
    (binding, hub, or closing), and it has the flock; a held seat always belongs to a
    running instance; every hub listens; and every listening socket at the path is that
    instance's or another program's. In the runs in which no other program touches the
    path, at most one socket listens, and the path leads to it: whoever connects reaches
    the one hub. *)
Theorem fleet_no_split_brain s :
  reachable s ->
  (forall i j p q fd fd', insts s !! i = Some p -> insts s !! j = Some q ->
     seatOf p = Some fd -> seatOf q = Some fd' -> i = j) /\
  (forall i p fd, insts s !! i = Some p -> seatOf p = Some fd ->
     flocks (kern s) !! lockPathOf sockPath = Some fd) /\
  (forall fd, flocks (kern s) !! lockPathOf sockPath = Some fd ->
     exists i p, insts s !! i = Some p /\ seatOf p = Some fd) /\
  (forall i fd ln, insts s !! i = Some (Hub fd ln) ->
     exists id, fds (os s) !! l_fd ln = Some (FdListen id) /\ id ∈ listening (os s)) /\
  (forall id, id ∈ listening (os s) -> exists fd, fds (os s) !! fd = Some (FdListen id) /\
     (fd ∈ others s \/ exists i p, insts s !! i = Some p /\ holds p = Some fd /\ is_Some (seatOf p))) /\
  (reachableAlone s -> forall id, id ∈ listening (os s) ->
     listening (os s) = {[id]} /\ named id (os s) /\ answers sockPath (os s) = true).
Proof.
  intros Hi%reachable_inv.
  pose proof (fun id => listener_owner s id Hi) as Hown.
  split_and!; [| |apply (inv_held s Hi)| |exact Hown|].
  - intros i j p q fd fd' Hp Hq Hsp Hsq. by eapply seat_unique.
  - apply (inv_seat s Hi).
  - intros i fd ln Hp. destruct (inv_fd s Hi i _ Hp (l_fd ln) eq_refl) as (k & Hk & id & ->).
    exists id. split; [done|]. apply (ww_listen _ (inv_world s Hi)). by eexists.
  - intros [_ Ho Hfiles]%reachableAlone_alone id Hid. destruct (Hown id Hid) as (fd & Hfd & [?|(i & p & Hp & Hh & sp & Hsp)]);
      [set_solver|].
    assert (Hn : named id (os s)) by by eapply Hfiles.
    split_and!; [|done|].
    + apply set_eq. intros id'. rewrite elem_of_singleton. split; [|by intros ->].
      intros Hid'. destruct (Hown id' Hid') as (fd' & Hfd' & [?|(j & q & Hq & Hh' & sq & Hsq)]); [set_solver|].
      assert (i = j) as <- by by eapply seat_unique. simplify_eq. done.
    + destruct Hn as (n & Hn & <- & Hs). unfold answers. rewrite Hn, Hs. by apply bool_decide_eq_true.
Qed.

(** Nobody answers and nobody is under the seat: an instance at the top of its loop
    takes it in two turns. *)
Lemma takes_seat s i b :
  inv s -> insts s !! i = Some (Discover b) -> answers sockPath (os s) = false ->
  (forall j p, insts s !! j = Some p -> seatOf p = None) ->
  exists s1 s2 seat,
    step (Does i (Connect false)) s = Some s1 /\ insts s1 !! i = Some (Contend b) /\
    step (Does i (Lock None)) s1 = Some s2 /\ insts s2 !! i = Some (Seated seat b B0) /\ os s2 = os s.
Proof.
  intros Hi Hp Ha Hseats.
  assert (E1 : step (Does i (Connect false)) s =
    Some (mkFleet (<[i := Contend b]> (insts s)) (kern s) (os s) (others s))).
  { apply (step_does _ _ _ _ _ _ _ Hp). cbn [move]. by rewrite TryConnect_eq, Ha. }
  eexists _, _, _. split; [exact E1|]. split; [apply lookup_insert_eq|]. split.
  - eapply step_does; [apply lookup_insert_eq|]. cbn [move kern]. rewrite TryLock_free; [done|].
    destruct (flocks (kern s) !! _) as [h|] eqn:E; [|done].
    destruct (inv_held s Hi h E) as (j & p & Hj & Hs). by rewrite (Hseats j p Hj) in Hs.
  - split; [apply lookup_insert_eq|done].
Qed.

(** What [BindOrConnect] comes to. *)
Definition outcome (seat : nat) (b : Z) (r : bound) : phase :=
  match r with
  | Ok (inl ln) => Hub seat ln
  | Ok (inr _) => Leaving seat (Some b)
  | Err _ => Leaving seat None
  end.

Lemma step_bind i s seat b at_ :
  insts s !! i = Some (Seated seat b at_) ->
  step (Does i (BindStep false)) s =
    let '(r, w) := bindStep false sockPath mode at_ (os s) in
    Some (mkFleet (<[i := match r with inl at_ => Seated seat b at_ | inr r => outcome seat b r end]> (insts s))
                  (kern s) w (others s)).
Proof.
  intros Hp. cbn. rewrite Hp. cbn.
  by destruct (bindStep _ _ _ _ _) as [[at1|[[ln|fd]|]] w1].
Qed.

Definition binds (i n : nat) : list event := replicate n (Does i (BindStep false)).

Lemma run_binds i n : forall s seat b at_ r w,
  insts s !! i = Some (Seated seat b at_) -> bindLoop n quiet noFault sockPath mode at_ (os s) = (inr r, w) ->
  exists m s', (m <= n)%nat /\ run (binds i m) s = Some s' /\ insts s' !! i = Some (outcome seat b r) /\ os s' = w.
Proof.
  induction n as [|n IH]; intros s seat b at_ r w Hp; cbn [bindLoop]; [done|]. unfold quiet at 1, noFault at 1.
  pose proof (step_bind i s seat b at_ Hp) as E. destruct (bindStep false sockPath mode at_ (os s)) as [[at1|r1] w1].
  - intros Hl. destruct (IH (mkFleet (<[i := Seated seat b at1]> (insts s)) (kern s) w1 (others s)) seat b at1 r w)
      as (m & s' & Hm & Hr & Hs); [apply lookup_insert_eq|done|].
    exists (S m), s'. split; [lia|]. split; [|done]. cbn [binds replicate run]. rewrite E. exact Hr.
  - intros [= -> ->]. eexists 1%nat, _. split; [lia|]. cbn [binds replicate run]. rewrite E. split; [done|].
    split; [apply lookup_insert_eq|done].
Qed.

(** Undisturbed, with a free path or a stale socket file: the hub. *)
Lemma bindLoop_hub w :
  answers sockPath w = false -> (forall n, files w !! sockPath = Some n -> node_sock n = true) ->
  exists ln w', bindLoop 11 quiet noFault sockPath mode B0 w = (inr (Ok (inl ln)), w') /\
    answers sockPath w' = true.
Proof.
  intros Ha Hsock. rewrite bindLoop_BindOrConnect. pose proof (BindOrConnect_outcome sockPath mode w) as H.
  destruct (BindOrConnect _ _ _ _ _) as [r w']. destruct H as (_ & Hout & _).
  assert (Hx : (exists l, r = Ok (inl l)) /\ answers sockPath w' = true).
  { destruct (files w !! sockPath) as [n|] eqn:Hn; [|done]. rewrite (Hsock n eq_refl) in Hout.
    unfold answers in Ha. rewrite Hn, (Hsock n eq_refl) in Ha. cbn in Ha. by rewrite Ha in Hout. }
  destruct Hx as [[ln ->] Hans]. by eexists _, _.
Qed.

(** With a file that is not a socket: an error. *)
Lemma bindLoop_file w n :
  files w !! sockPath = Some n -> node_sock n = false ->
  bindLoop 11 quiet noFault sockPath mode B0 w = (inr (Err "bind"%string), w).
Proof.
  intros Hn Hs. rewrite bindLoop_BindOrConnect, BindOrConnect_silent by by unfold answers; rewrite Hn, Hs.
  unfold isSocket. rewrite Hn, Hs. rewrite (bindHub_taken _ _ _ n); [done|done|]. unfold answers. by rewrite Hn, Hs.
Qed.

Lemma run_app es1 es2 s : run (es1 ++ es2) s = (s ← run es1 s; run es2 s).
Proof.
  revert s. induction es1 as [|e es1 IH]; intros s; cbn [run app]; [done|].
  destruct (step e s); cbn [mbind option_bind]; [apply IH|done].
Qed.

(** From the top of the loop to the end of [BindOrConnect]. *)
Lemma contends s i b r w :
  inv s -> insts s !! i = Some (Discover b) -> answers sockPath (os s) = false ->
  (forall j p, insts s !! j = Some p -> seatOf p = None) ->
  bindLoop 11 quiet noFault sockPath mode B0 (os s) = (inr r, w) ->
  exists n s' seat, (n <= 11)%nat /\
    run ([Does i (Connect false); Does i (Lock None)] ++ binds i n) s = Some s' /\
    insts s' !! i = Some (outcome seat b r) /\ os s' = w.
Proof.
  intros Hi Hp Ha Hs Hl. destruct (takes_seat s i b Hi Hp Ha Hs) as (s1 & s2 & seat & E1 & _ & E2 & H2 & Ho).
  rewrite <- Ho in Hl. destruct (run_binds i 11 s2 seat b B0 r w H2 Hl) as (m & s' & Hm & Hr & H').
  exists m, s', seat. split; [done|]. split; [|done]. rewrite run_app. cbn [run]. rewrite E1. cbn [mbind option_bind].
  rewrite E2. exact Hr.
Qed.

(** C32: the fleet recovers. In a reachable state, an instance at the top of its loop
    becomes a peer in one turn where somebody answers at the socket. Where nobody
    answers and nobody is under the seat, it becomes, undisturbed and in at most 13 turns
    of its own, the hub and answers, whatever stale socket file and dead locks earlier
    hubs left behind; unless the path is a file that is not a socket, which it leaves as it is
    and exits (the code's fatal error). *)
Theorem fleet_recovers s i b :
  reachable s -> insts s !! i = Some (Discover b) ->
  (answers sockPath (os s) = true ->
     exists s' c, step (Does i (Connect false)) s = Some s' /\ insts s' !! i = Some (Peer c)) /\
  (answers sockPath (os s) = false -> (forall j p, insts s !! j = Some p -> seatOf p = None) ->
     exists n s', (n <= 11)%nat /\
       run ([Does i (Connect false); Does i (Lock None)] ++ binds i n) s = Some s' /\
       match files (os s) !! sockPath with
       | Some (mkNode _ false _) =>
           files (os s') = files (os s) /\
           exists s'', step (Does i Release) s' = Some s'' /\ insts s'' !! i = Some Exited
       | _ => (exists fd ln, insts s' !! i = Some (Hub fd ln)) /\ answers sockPath (os s') = true
       end).
Proof.
  intros Hi%reachable_inv Hp. split.
  - intros Ha. assert (E : exists k w, move (Connect false) (Discover b) (kern s) (os s) =
      Some (Peer (fresh (dom (fds (os s)))), k, w)) by by (cbn [move]; rewrite TryConnect_eq, Ha; eexists _, _).
    destruct E as (k & w & E). eexists _, _. split; [by apply (step_does _ _ _ _ _ _ _ Hp E)|]. apply lookup_insert_eq.
  - intros Ha Hseats.
    assert (Hhub : (forall n, files (os s) !! sockPath = Some n -> node_sock n = true) -> exists n s',
      (n <= 11)%nat /\ run ([Does i (Connect false); Does i (Lock None)] ++ binds i n) s = Some s' /\
      (exists fd ln, insts s' !! i = Some (Hub fd ln)) /\ answers sockPath (os s') = true).
    { intros Hsock. destruct (bindLoop_hub (os s) Ha Hsock) as (ln & w & Hl & Hans).
      destruct (contends s i b _ w Hi Hp Ha Hseats Hl) as (n & s' & seat & Hn & Hr & H1 & <-).
      exists n, s'. split_and!; [done|done|by eexists _, _|done]. }
    destruct (files (os s) !! sockPath) as [[id [] m]|] eqn:Hn; [apply Hhub; by intros ? [= <-]| |by apply Hhub].
    destruct (contends s i b _ _ Hi Hp Ha Hseats (bindLoop_file (os s) _ Hn eq_refl))
      as (n & s' & seat & Hle & Hr & H1 & H2).
    exists n, s'. split_and!; [done|done|by rewrite H2|]. cbn in H1. eexists.
    split; [by eapply (step_does _ _ _ _ _ _ _ H1)|]. apply lookup_insert_eq.
Qed.

(** ** The retry delay *)

Definition backoffOf (p : phase) : option Z :=
  match p with Discover b | Contend b | Seated _ b _ | Leaving _ (Some b) => Some b | _ => None end.

Definition backoff_ok (b : Z) : Prop :=
  b = 250 * Millisecond \/ b = 500 * Millisecond \/ b = 1000 * Millisecond \/ b = 2000 * Millisecond.

Lemma nextBackoff_ok b : backoff_ok b -> backoff_ok (nextBackoff b).
Proof.
  unfold backoff_ok, nextBackoff, Millisecond. intros Hb.
  destruct (Z.ltb_spec b (2000 * 10 ^ 6)); lia.
Qed.

Definition phase_backoff (p : phase) : Prop := forall b, backoffOf p = Some b -> backoff_ok b.

Lemma move_backoff t p k w p' k' w' : phase_backoff p -> move t p k w = Some (p', k', w') -> phase_backoff p'.
Proof.
  intros Hb Hm. assert (H0 : backoff_ok backoff0) by by left.
  assert (Hkeep : backoffOf p' = None \/ backoffOf p' = backoffOf p \/
    backoffOf p' = Some backoff0 \/ backoffOf p' = nextBackoff <$> backoffOf p).
  { revert Hm. destruct t as [r|oe|f| | |f| |], p as [b|b|seat b at_|c|seat ln|seat ln at_|seat [b|]|]; try done;
      cbn [move reap seatOf holds]; try (injection 1 as <- <- <-; by auto).
    - destruct (TryConnect _ _ _ _) as [[c|] w1]; injection 1 as <- <- <-; by auto.
    - destruct (TryLock _ _ _) as [[c|] w1]; injection 1 as <- <- <-; by auto.
    - destruct (bindStep _ _ _ _ _) as [[at1|[[ln|fd]|]] w1]; injection 1 as <- <- <-; by auto.
    - destruct (closeStep _ _ _ _) as [[at1|] w1]; injection 1 as <- <- <-; by auto. }
  intros b E. destruct Hkeep as [H|[H|[H|H]]]; rewrite E in H; [done|by apply Hb|by injection H as ->|].
  destruct (backoffOf p) as [b'|] eqn:Eb; [|done]. injection H as ->. by apply nextBackoff_ok, Hb.
Qed.

Lemma step_backoffs e s s' :
  map_Forall (fun _ => phase_backoff) (insts s) -> step e s = Some s' ->
  map_Forall (fun _ => phase_backoff) (insts s').
Proof.
  intros Hs. destruct e as [i|i t|c]; cbn.
  - destruct (insts s !! i); [done|]. injection 1 as <-. apply map_Forall_insert_2; [|done].
    intros b [= <-]. by left.
  - destruct (insts s !! i) as [p|] eqn:Hp; cbn; [|done].
    destruct (move t p (kern s) (os s)) as [[[p' k] w]|] eqn:Hm; cbn; [|done]. injection 1 as <-.
    apply map_Forall_insert_2; [|done]. eapply move_backoff; [by apply (Hs i)|done].
  - destruct (otherCall _ _ _) as [[w o]|]; cbn; [|done]. by injection 1 as <-.
Qed.

Lemma run_backoffs es : forall s s', map_Forall (fun _ => phase_backoff) (insts s) -> run es s = Some s' ->
  map_Forall (fun _ => phase_backoff) (insts s').
Proof.
  induction es as [|e es IH]; intros s s' Hi; cbn [run]; [by intros [= <-]|].
  destruct (step e s) as [s1|] eqn:E; [|done]. cbn [mbind option_bind].
  apply IH. by eapply step_backoffs.
Qed.

(** the retry delay is bounded. However often an instance loses the fight for the
    seat, its backoff is 250, 500, 1000 or 2000 ms; so the bound of the random jitter
    is positive ([rand.Intn] does not panic) and every wait is longer than the backoff
    and at most three seconds. *)
Theorem backoff_bounded s i p b r :
  reachable s -> insts s !! i = Some p -> backoffOf p = Some b -> 0 <= r < b / 2 ->
  backoff_ok b /\ 0 < b / 2 /\ b < backoffSleep b r <= 3000 * Millisecond.
Proof.
  intros (fs & es & Hr) Hp Hb Hrand.
  assert (Hok : backoff_ok b).
  { eapply (run_backoffs es (initial fs) s); [apply map_Forall_empty|exact Hr|exact Hp|exact Hb]. }
  split; [done|]. unfold backoffSleep, backoff_ok, Millisecond in *.
  assert (b / 2 * 2 = b) by (destruct Hok as [-> | [-> | [-> | ->]]]; reflexivity). lia.
Qed.

(** a guest that is gone does not stop its peer process. The reader of the guest
    wire reports the loss on [rxErr] to "shut the instance down", but only the hub's
    [waitShutdown] listens there: while another instance is under the seat, an instance in
    any other phase of the loop (discovering, contending, peering) stays in those
    phases whatever it does and however its guest fares, and is never [Exited] unless
    it is killed. *)
Theorem peer_never_exits s s' i j q fd p t :
  reachable s -> insts s !! j = Some q -> seatOf q = Some fd ->
  insts s !! i = Some p -> p <> Exited -> seatOf p = None -> t <> Crash ->
  step (Does i t) s = Some s' ->
  exists p', insts s' !! i = Some p' /\ p' <> Exited /\ seatOf p' = None /\ insts s' !! j = Some q.
Proof.
  intros Hi%reachable_inv Hj Hq Hp Hne Hseat Ht. cbn. rewrite Hp. cbn.
  pose proof (inv_seat s Hi j q fd Hj Hq) as Hheld.
  destruct (move t p (kern s) (os s)) as [[[p' k] w]|] eqn:Hm; cbn; [|done]. injection 1 as <-. cbn.
  exists p'. rewrite lookup_insert_eq, lookup_insert_ne by congruence. split; [done|]. split; [|split; [|done]].
  - revert Hm. destruct t as [r|oe|f| | |f| |], p as [b|b|seat b at_|c|seat ln|seat ln at_|seat back|]; try done;
      cbn [move]; try (by injection 1 as <- <- <-).
    + destruct (TryConnect _ _ _ _) as [[c|] w1]; by injection 1 as <- <- <-.
    + destruct (TryLock _ _ _) as [[c|] w1]; by injection 1 as <- <- <-.
  - destruct (move_seat _ _ _ _ _ _ _ (inv_kern s Hi) Hm) as [_ Hs]. inversion Hs; congruence.
Qed.

End Fleet.

(** ** Evaluated runs *)

Definition demoSock : string := "/tmp/vde.socket".

(** Instance [i] takes the seat and the socket, with no file at the path or a stale one. *)
Definition promotes (i n : nat) : list event :=
  [Does i (Connect false); Does i (Lock None)] ++ binds i n.

(** Two instances start, one becomes the hub, the other its peer; the hub crashes
    and the peer takes over. *)
Definition demoRun : list event :=
  [Spawn 0; Spawn 1; Does 0 (Connect false); Does 1 (Connect false); Does 0 (Lock None); Does 1 (Lock None)]%nat ++
  binds 0 10 ++ [Does 1 (Connect false); Does 0 Crash; Does 1 Lost]%nat.

Definition demoFleet (es : list event) : fleet :=
  match run demoSock 0 es (initial ∅) with Some s => s | None => initial ∅ end.

Lemma demoFleet_reachable es s : run demoSock 0 es (initial ∅) = Some s -> reachable demoSock 0 s.
Proof. intros H. by exists ∅, es. Qed.

Definition isHubOf (fd : nat) (p : option phase) : bool :=
  match p with Some (Hub fd' _) => (fd' =? fd)%nat | _ => false end.

Lemma isHubOf_true fd p : isHubOf fd p = true -> exists ln, p = Some (Hub fd ln).
Proof. destruct p as [[]|]; cbn; try discriminate. intros ->%Nat.eqb_eq. by eexists. Qed.

Theorem fleet_no_split_brain_witness :
  exists s fd ln id, run demoSock 0 (demoRun ++ promotes 1 11) (initial ∅) = Some s /\
    insts s !! 1%nat = Some (Hub fd ln) /\ listening (os s) = {[id]} /\ answers demoSock (os s) = true.
Proof.
  assert (H : isHubOf 0 (s ← run demoSock 0 (demoRun ++ promotes 1 11) (initial ∅); insts s !! 1%nat) = true)
    by by vm_compute.
  destruct (run demoSock 0 (demoRun ++ promotes 1 11) (initial ∅)) as [s|] eqn:E; [|discriminate H].
  cbn in H. apply isHubOf_true in H as [ln Hp].
  assert (Hal : reachableAlone demoSock 0 s).
  { exists ∅, (demoRun ++ promotes 1 11). split; [|exact E]. by repeat constructor. }
  destruct (fleet_no_split_brain demoSock 0 s (demoFleet_reachable _ _ E)) as (_ & _ & _ & Hhub & _ & Halone).
  destruct (Hhub 1%nat _ _ Hp) as (id & _ & Hid). destruct (Halone Hal id Hid) as (Hl & _ & Hans).
  exists s, 0%nat, ln, id. split; [reflexivity|]. split; [exact Hp|]. split; [exact Hl|exact Hans].
Defined.

Theorem fleet_recovers_witness :
  exists n s fd ln,
    run demoSock 0 (promotes 1 n) (demoFleet demoRun) = Some s /\ insts s !! 1%nat = Some (Hub fd ln).
Proof.
  destruct (fleet_recovers demoSock 0 (demoFleet demoRun) 1%nat backoff0) as [_ H].
  - apply (demoFleet_reachable demoRun). vm_compute. reflexivity.
  - vm_compute. reflexivity.
  - destruct H as (n & s & _ & H1 & H2).
    + vm_compute. reflexivity.
    + intros j p. apply (map_Forall_lookup_1 (fun _ p => seatOf p = None)).
      refine (bool_decide_unpack _ _). vm_compute. exact I.
    + assert (E : match files (os (demoFleet demoRun)) !! demoSock with
                  | Some (mkNode _ false _) => false | _ => true end = true) by (vm_compute; reflexivity).
      revert E H2. generalize (files (os (demoFleet demoRun)) !! demoSock). intros o E H2.
      assert (Hh : exists fd ln, insts s !! 1%nat = Some (Hub fd ln)).
      { destruct o as [[id [] m]|]; [exact (proj1 H2)|discriminate E|exact (proj1 H2)]. }
      destruct Hh as (fd & ln & Hh). exists n, s, fd, ln. split; [exact H1|exact Hh].
Defined.

Definition deniedLock : list event := [Spawn 0; Does 0 (Connect false); Does 0 (Lock (Some "EACCES"%string))]%nat.

Theorem backoff_bounded_witness :
  insts (demoFleet deniedLock) !! 0%nat = Some (Discover (500 * Millisecond)) /\
  500 * Millisecond < backoffSleep (500 * Millisecond) 7 <= 3000 * Millisecond.
Proof.
  split; [vm_compute; reflexivity|].
  refine (proj2 (proj2 (backoff_bounded demoSock 0 (demoFleet deniedLock) 0%nat
    (Discover (500 * Millisecond)) (500 * Millisecond) 7 _ _ _ _))).
  - apply (demoFleet_reachable deniedLock). vm_compute. reflexivity.
  - vm_compute. reflexivity.
  - reflexivity.
  - split; [done|reflexivity].
Defined.

Definition hubAndPeer : list event := Spawn 0 :: Spawn 1 :: promotes 0 10 ++ [Does 1 (Connect false)]%nat.

Theorem peer_never_exits_witness :
  exists s' p' q, step demoSock 0 (Does 1 Lost) (demoFleet hubAndPeer) = Some s' /\
    insts (demoFleet hubAndPeer) !! 0%nat = Some q /\
    insts s' !! 1%nat = Some p' /\ p' <> Exited.
Proof.
  eexists _, _, _. split; [vm_compute; reflexivity|]. split; [vm_compute; reflexivity|].
  edestruct (peer_never_exits demoSock 0 (demoFleet hubAndPeer)) with (i := 1%nat) (j := 0%nat) (t := Lost)
    as (p' & H1 & H2 & _).
  - apply (demoFleet_reachable hubAndPeer). vm_compute. reflexivity.
  - vm_compute. reflexivity.
  - reflexivity.
  - vm_compute. reflexivity.
  - done.
  - reflexivity.
  - done.
  - vm_compute. reflexivity.
  - split; [vm_compute; reflexivity|done].
Defined.

Definition isPeerOf (c : nat) (p : phase) : bool :=
  match p with Peer c' => (c' =? c)%nat | _ => false end.

(** An older binary becomes a hub: it binds the path, and listens on [fd]. *)
Definition older (fd : nat) : list event := [Other CBind; Other (CListen fd)].

(** a wire leaks when an older hub appears. An instance that holds the seat and
    finds a hub of an older binary at the socket has connected to it by then; the
    loop releases the seat and goes round without closing that connection: in the
    state it reaches, an open connection belongs to no instance (and the loop's next
    turn opens another one). *)
Theorem bind_leaks_connection :
  exists s c,
    run demoSock 0 ([Spawn 0; Does 0 (Connect false)]%nat ++ older 0 ++
      [Does 0 (Lock None); Does 0 (BindStep false); Does 0 (BindStep false); Does 0 Release]%nat) (initial ∅) = Some s /\
    insts s !! 0%nat = Some (Discover backoff0) /\ flocks (kern s) !! lockPathOf demoSock = None /\
    fds (os s) !! c = Some FdConn /\ (forall i, insts s !! i <> Some (Peer c)) /\
    exists s' c', step demoSock 0 (Does 0 (Connect false)) s = Some s' /\
      insts s' !! 0%nat = Some (Peer c') /\ c' <> c /\ fds (os s') !! c = Some FdConn.
Proof.
  eexists _, 1%nat. split; [vm_compute; reflexivity|].
  split_and!; [vm_compute; reflexivity..| |].
  - intros i Hi.
    apply (map_Forall_lookup_1 (fun _ p => isPeerOf 1 p = false)) in Hi; [done|].
    refine (bool_decide_unpack _ _). vm_compute. exact I.
  - eexists _, _. split; [vm_compute; reflexivity|]. split; [vm_compute; reflexivity|].
    split; [done|]. vm_compute. reflexivity.
Qed.

(** the seat does not keep older binaries out. "We do not fight it", says the loop of a hub
    that appeared without taking the seat; but when an older binary binds after the second
    connect of [BindOrConnect] and before its stat, the socket file removed as stale is
    the live one: the older hub listens on, reached by nobody new, next to the new hub. *)
Theorem older_hub_unlinked :
  exists s fd ln id id',
    run demoSock 0 (Spawn 0 :: promotes 0 4 ++ older 0 ++ binds 0 7) (initial ∅) = Some s /\
    insts s !! 0%nat = Some (Hub fd ln) /\ id <> id' /\ listening (os s) = {[id; id']} /\
    fds (os s) !! 0%nat = Some (FdListen id) /\ 0%nat ∈ others s /\
    fds (os s) !! l_fd ln = Some (FdListen id') /\ l_id ln = Some id'.
Proof.
  eexists _, 0%nat, (mkListener 1 demoSock (Some 1)), 0, 1. split; [vm_compute; reflexivity|].
  split; [vm_compute; reflexivity|]. split; [done|].
  split; [apply (bool_decide_eq_true_1 _); vm_compute; reflexivity|].
  split; [vm_compute; reflexivity|]. split; [apply (bool_decide_eq_true_1 _); vm_compute; reflexivity|].
  split; vm_compute; reflexivity.
Qed.

