(* ===== verification/Succession.v ===== *)
(** * Succession: the leases of a fleet across its hubs

    What the hubs of one machine lease to the guests, one hub after the other: the
    state machine of Fleet.v with, in each process, the memory that carries a lease
    table from hub to hub - the pool of a hub ([Instance.hubPool], [GetOrAssign]), its
    heartbeats ([poolSnapshot], [EncodeBeacon]), the connection they travel on, and the
    cache [f.leases] a peer fills ([Wire.hubFrame]) and is promoted with.

    A run is a sequence of events in any order: turns of the loop, crashes and
    shutdowns (Fleet.v's events), a client that asks the hub, a heartbeat that
    reaches some of the peers, a peer that reads its connection. *)
From S2P Require Import Prelude.
From S2P Require Import GoStd.
From S2P Require Import GoText.
From S2P Require Import Elect.
From S2P Require Import UnixSeq.
From S2P Require Import Dhcp.
From S2P Require Config.
From S2P Require Main.
From S2P Require Wire.
From S2P Require Import Instance.
From S2P Require Fleet.
Import Fleet (phase, Discover, Contend, Seated, Peer, Hub, Closing, Leaving, Exited, insts).

(** ** State *)

(** A process. [vars] are [runPeer]'s variables, with [f.leases]; [mail] the heartbeats on
    its connection; [hub] the instance that accepted this connection; [pool] a hub's pool
    with the next sequence number. The numbers next to frames and cache are history: how
    many clients had an address when the heartbeat was sent. *)
Record proc := mkProc {
  vars : Wire.peerState; heard : nat;
  hub : option nat;
  mail : list (bytes * nat);
  pool : option (Pool * Z);
}.

(** [told], [grants] and [behind] are history: every answer given, the number of
    clients that got a new address, and whether an instance became the hub before it
    had read a heartbeat sent since the last of these. *)
Record site := mkSite {
  fl : Fleet.fleet;
  procs : gmap nat proc;
  told : list (bytes * bytes);
  grants : nat;
  behind : bool;
}.

Definition proc0 : proc := mkProc Wire.freshPeer 0 None [] None.
Definition site0 (fs : gmap string node) : site := mkSite (Fleet.initial fs) ∅ [] 0 false.

Definition setFleet (f : Fleet.fleet) (s : site) : site :=
  mkSite f (procs s) (told s) (grants s) (behind s).
Definition setProc (i : nat) (p : proc) (s : site) : site :=
  mkSite (fl s) (<[i := p]> (procs s)) (told s) (grants s) (behind s).

(** ** Steps *)

Section Site.
Variables (sockPath : string) (mode : Z) (c : Config.Config).

(** Whose listener a connect reaches. *)
Definition listensOn (f : Fleet.fleet) (id : Z) (p : phase) : bool :=
  match Fleet.holds p with
  | Some fd => match fds (Fleet.os f) !! fd with Some (FdListen id') => id' =? id | _ => false end
  | None => false
  end.
Definition theHub (f : Fleet.fleet) : option nat :=
  nd ← files (Fleet.os f) !! sockPath;
  fst <$> head (filter (fun e => listensOn f (node_id nd) e.2 = true) (map_to_list (insts f))).

(** [runPeer] starts: fresh variables, the cache stays. *)
Definition connected (h : option nat) (p : proc) : proc :=
  mkProc (Wire.mkPeer false 0 (Wire.leases (vars p))) (heard p) h [] None.
Definition disconnected (p : proc) : proc := mkProc (vars p) (heard p) None [] None.

(** [runInstance] takes the cache over and empties it, if it leases addresses. [walk] is the order in which Go
    walks the map at each offset. *)
Definition promote (i : nat) (walk : Z -> list (bytes * bytes) -> list (bytes * bytes)) (p : proc)
    (s : site) : go site :=
  let seed := Wire.leases (vars p) in
  q ← hubPool c seed (fun off => walk off (map_to_list seed));
  let p' := match q with
            | Some q => mkProc Wire.freshPeer 0 None [] (Some (q, 0))
            | None => disconnected p
            end in
  let s := setProc i p' s in
  Done (mkSite (fl s) (procs s) (told s) (grants s) (behind s || (heard p <? grants s)%nat)).

(** A turn of the fleet. What an instance serves ends with its process, which ends as soon
    as it releases the seat. *)
Definition turn (e : Fleet.event) (walk : Z -> list (bytes * bytes) -> list (bytes * bytes)) (s : site)
  : go site :=
  match Fleet.step sockPath mode e (fl s) with
  | None => Done s
  | Some f =>
      let s := setFleet f s in
      match e with
      | Fleet.Spawn i => Done (setProc i proc0 s)
      | Fleet.Does i t =>
          match insts f !! i, procs s !! i with
          | Some ph, Some p =>
              match t, ph with
              | _, Exited => Done (setProc i proc0 s)
              | Fleet.Connect _, Peer _ => Done (setProc i (connected (theHub f) p) s)
              | Fleet.BindStep _, Hub _ _ => promote i walk p s
              | Fleet.Lost, _ => Done (setProc i (disconnected p) s)
              | _, _ => Done s
              end
          | _, _ => Done s
          end
      | Fleet.Other _ => Done s
      end
  end.

(** A client asks hub [h] for its address. *)
Definition ask (h : nat) (mac : bytes) (s : site) : site :=
  match procs s !! h with
  | Some p =>
      match pool p with
      | Some (q, seq) =>
          let '(r, q') := GetOrAssign mac q in
          let s := setProc h (mkProc (vars p) (heard p) (hub p) (mail p) (Some (q', seq))) s in
          mkSite (fl s) (procs s)
            (told s ++ match r with Ok ip => [(mac, ip)] | Err _ => [] end)
            (grants s + (length (order q') - length (order q)))%nat (behind s)
      | None => s
      end
  | None => s
  end.

(** A turn of hub [h]'s [sendBeacons] that reaches the peers of [reach]; [walk] is the
    order of [poolSnapshot]'s walk. *)
Definition posted (h : nat) (reach : gset nat) (m : bytes * nat) (i : nat) (p : proc) : option proc :=
  Some (if bool_decide (hub p = Some h /\ i ∈ reach)
        then mkProc (vars p) (heard p) (hub p) (mail p ++ [m]) (pool p) else p).

Definition beat (h : nat) (walk : list (string * string) -> list (string * string)) (reach : gset nat)
    (s : site) : site :=
  match procs s !! h with
  | Some p =>
      match pool p with
      | Some (q, seq) =>
          let frame := EncodeBeacon Main.vdeMAC seq (Main.poolSnapshot (walk (map_to_list (Main.Leases q)))) in
          let s := setProc h (mkProc (vars p) (heard p) (hub p) (mail p) (Some (q, u32 (seq + 1)))) s in
          mkSite (fl s) (map_imap (posted h reach (frame, grants s)) (procs s)) (told s) (grants s) (behind s)
      | None => s
      end
  | None => s
  end.

(** Peer [i] reads a heartbeat. *)
Definition hear (i : nat) (now : Z) (s : site) : go site :=
  match procs s !! i with
  | Some p =>
      match mail p with
      | (frame, k) :: rest =>
          '(ps, _) ← Wire.hubFrame now frame (vars p);
          Done (setProc i (mkProc ps k (hub p) rest (pool p)) s)
      | [] => Done s
      end
  | None => Done s
  end.

Inductive event :=
| Turn (e : Fleet.event) (walk : Z -> list (bytes * bytes) -> list (bytes * bytes))
| Ask (h : nat) (mac : bytes)
| Beat (h : nat) (walk : list (string * string) -> list (string * string)) (reach : gset nat)
| Hear (i : nat) (now : Z).

Definition sstep (e : event) (s : site) : go site :=
  match e with
  | Turn e walk => turn e walk s
  | Ask h mac => Done (ask h mac s)
  | Beat h walk reach => Done (beat h walk reach s)
  | Hear i now => hear i now s
  end.

Fixpoint srun (evs : list event) (s : site) : go site :=
  match evs with [] => Done s | e :: evs => s ← sstep e s; srun evs s end.

End Site.

(** ** Pools and tables

    Under one configuration and at most [MaxLeases] clients, every pool and every
    table of the site is that of a list of clients, in the order they came. *)
Section Invariant.
Variables (sockPath : string) (mode : Z).
Context (c : Config.Config) (ip start : bytes) (n : Z) (Hc : v4Config c ip n start)
  (Hinside : outside ip n start = false).
Context (cs : list bytes) (Hcs : Forall (fun m => length m = 6%nat /\ wf_bytes m) cs)
  (Hmax : (length cs <= MaxLeases)%nat).

Definition pool0 : Pool := NewPool (v4Prefix ++ start) (hubPoolSize ip n start).

Record grew (l : list bytes) (p : Pool) : Prop := {
  gr_ok : pool_ok p;
  gr_fresh : freshPool p = pool0;
  gr_order : order p = l;
  gr_clients : l ⊆ cs;
}.

Definition tableOf (l : list bytes) (t : gmap bytes bytes) : Prop := exists p, grew l p /\ assigned p = t.

(** What a heartbeat with table [t] does to whoever reads it. *)
Definition carries (frame : bytes) (t : gmap bytes bytes) : Prop :=
  forall now ps, Wire.hubFrame now frame ps = Done (Wire.mkPeer true now t, None).

Lemma grew_pool0 : grew [] pool0.
Proof.
  split; [|done|done|set_solver]. apply pool_ok_NewPool. unfold hubPoolSize. lia.
Qed.

Lemma grew_det l p q : grew l p -> grew l q -> p = q.
Proof.
  intros [Hp Fp Op _] [Hq Fq Oq _]. rewrite <- Fq in Fp. unfold freshPool in Fp. injection Fp as Hb Hs.
  assert (Ha : assigned p = assigned q).
  { apply map_eq. intros k. apply option_eq. intros a.
    rewrite (ok_assigned p Hp), (ok_assigned q Hq), Op, Oq. unfold leaseAddr. by rewrite Hb. }
  destruct (ok_next p Hp) as [Np _], (ok_next q Hq) as [Nq _].
  destruct p, q. cbn in *. subst. done.
Qed.

Lemma grew_length l p : grew l p -> (length l <= MaxLeases)%nat.
Proof.
  intros [Hp _ Ho Hl]. etrans; [|exact Hmax]. apply submseteq_length, NoDup_submseteq; [|done].
  rewrite <- Ho. apply Hp.
Qed.

Lemma grew_bytes l p : grew l p -> Main.pool_bytes p.
Proof.
  intros [_ _ Ho Hl]. unfold Main.pool_bytes. rewrite Ho. apply Forall_forall. intros k Hk%Hl.
  rewrite Forall_forall in Hcs. by apply Hcs.
Qed.

Lemma client_key mac : mac ∈ cs -> array 6 mac = mac.
Proof.
  intros H. rewrite Forall_forall in Hcs. destruct (Hcs mac H) as [Hl _].
  unfold array. by rewrite take_app_eq.
Qed.

(** What an answer does to a pool. *)
Lemma GetOrAssign_grew l p mac :
  grew l p -> mac ∈ cs ->
  exists ext, grew (l ++ ext) (GetOrAssign mac p).2 /\
    (length (order (GetOrAssign mac p).2) - length (order p) = length ext)%nat /\
    assigned p ⊆ assigned (GetOrAssign mac p).2 /\
    forall a, (GetOrAssign mac p).1 = Ok a -> assigned (GetOrAssign mac p).2 !! mac = Some a.
Proof.
  intros [Hp Hf Ho Hl] Hmac. pose proof (GetOrAssign_ok mac p Hp) as Hq.
  pose proof (GetOrAssign_facts mac p Hp) as Hfacts. rewrite (client_key mac Hmac) in Hfacts.
  assert (Hext : exists ext, order (GetOrAssign mac p).2 = order p ++ ext /\ (ext = [] \/ ext = [mac])).
  { unfold GetOrAssign. rewrite (client_key mac Hmac). destruct (assigned p !! mac); cbn.
    - exists []. rewrite app_nil_r. by auto.
    - destruct (pool_size p <=? pool_next p); cbn; [exists []; rewrite app_nil_r; by auto|eexists; by auto]. }
  destruct Hext as (ext & He & Hx).
  destruct (GetOrAssign mac p) as [r q]. cbn [fst snd] in *. destruct Hfacts as (Hb & Hs & Hsub & _ & Hr).
  exists ext. split_and!; [|rewrite He, length_app; lia|done|].
  - split; [done| |by rewrite He, Ho|].
    + unfold freshPool in *. by rewrite Hb, Hs.
    + destruct Hx as [-> | ->]; [by rewrite app_nil_r|]. set_solver.
  - intros a ->. exact Hr.
Qed.

(** A heartbeat of a pool brings its table. *)
Lemma beat_carries l p seq snap :
  grew l p -> 0 <= seq < 2 ^ 32 -> snap ≡ₚ map_to_list (Main.Leases p) ->
  carries (EncodeBeacon Main.vdeMAC seq (Main.poolSnapshot snap)) (assigned p).
Proof.
  intros Hg Hseq Hsnap now ps.
  destruct (Main.beacon_carries_pool p seq snap) as (Hi & _ & ls & Hls & Hm); try done.
  - apply Hg.
  - by eapply grew_bytes.
  - rewrite (gr_order _ _ Hg). by eapply grew_length.
  - by eapply Wire.hubFrame_beacon.
Qed.

(** A promoted instance has the pool of the table it heard. *)
Lemma promote_pool l t ord :
  tableOf l t -> (forall off, ord off ≡ₚ map_to_list t) ->
  exists p, hubPool c t ord = Done (Some p) /\ grew l p.
Proof.
  intros (p & Hg & <-) Hord. exists p. split; [|done].
  apply (hubPool_seeded c ip n start); try done; apply Hg.
Qed.

(** ** The invariant

    [l] are the clients that hold an address, in order, as long as nobody was
    [behind]; [dated l k l'] says that [l'] is what it was when it had [k] elements. *)
Definition dated (b : bool) (l : list bytes) (k : nat) (l' : list bytes) : Prop :=
  b = false -> (k <= length l)%nat /\ l' = take k l.

(** The phases of an instance that has set up its uplink, to its end. *)
Definition serving (ph : phase) : bool :=
  match ph with Hub _ _ | Closing _ _ _ | Leaving _ None => true | _ => false end.

Lemma serving_seat ph : serving ph = true -> is_Some (Fleet.seatOf ph).
Proof. by destruct ph as [| | | | | |? []|]. Qed.

Record proc_ok (f : Fleet.fleet) (b : bool) (l : list bytes) (i : nat) (p : proc) : Prop := {
  po_cache : exists l', tableOf l' (Wire.leases (vars p)) /\ dated b l (heard p) l';
  po_mail : Forall (fun m => exists l' t, tableOf l' t /\ carries m.1 t /\ dated b l m.2 l') (mail p);
  po_pool : forall q seq, pool p = Some (q, seq) ->
    0 <= seq < 2 ^ 32 /\ (exists ph, insts f !! i = Some ph /\ serving ph = true) /\
    exists l', grew l' q /\ (b = false -> l' = l);
}.

Record inv (l : list bytes) (s : site) : Prop := {
  in_fleet : Fleet.inv sockPath (fl s);
  in_proc : forall i p, procs s !! i = Some p -> proc_ok (fl s) (behind s) l i p;
  in_now : behind s = false -> grants s = length l /\
    exists p, grew l p /\ forall k a, (k, a) ∈ told s -> assigned p !! k = Some a;
}.

Lemma dated_now b l : dated b l (length l) l.
Proof. intros _. by rewrite take_ge. Qed.

Lemma dated_0 b l : dated b l 0 [].
Proof. intros _. split; [lia|done]. Qed.

Lemma dated_grow b l ext k l' : dated b l k l' -> dated b (l ++ ext) k l'.
Proof.
  intros H Hb. destruct (H Hb) as [Hk ->]. rewrite length_app. split; [lia|]. by rewrite take_app_le.
Qed.

Lemma proc_ok_0 f b l i : proc_ok f b l i proc0.
Proof.
  split; [|constructor|done]. exists []. split; [|apply dated_0]. exists pool0. split; [apply grew_pool0|done].
Qed.

(** Being behind only weakens what is known. *)
Lemma proc_ok_behind f b l i p : proc_ok f false l i p -> proc_ok f b l i p.
Proof.
  intros [(l' & Ht & Hd) Hm Hp]. split.
  - exists l'. split; [done|]. intros _. by apply Hd.
  - apply (Forall_impl _ _ _ Hm). intros m (l2 & t & H1 & H2 & H3). exists l2, t. split_and!; [done..|].
    intros _. by apply H3.
  - intros q seq E. destruct (Hp q seq E) as (H1 & H2 & l2 & H3 & H4). split_and!; [lia|lia|done|].
    exists l2. split; [done|]. intros _. by apply H4.
Qed.

(** The clients may grow, where the pool is another's or this one's. *)
Lemma proc_ok_grow f b l ext i p :
  (pool p = None \/ b = true) -> proc_ok f b l i p -> proc_ok f b (l ++ ext) i p.
Proof.
  intros Hno [(l' & Ht & Hd) Hm Hp]. split.
  - exists l'. split; [done|]. by apply dated_grow.
  - apply (Forall_impl _ _ _ Hm). intros m (l2 & t & H1 & H2 & H3). exists l2, t. split_and!; [done..|].
    by apply dated_grow.
  - intros q seq E. destruct (Hp q seq E) as (H1 & H2 & l2 & H3 & _). split_and!; [lia|lia|done|].
    exists l2. split; [done|]. destruct Hno; congruence.
Qed.

(** A process that goes on serving. *)
Lemma proc_ok_fleet f f' b l i p :
  (forall ph, insts f !! i = Some ph -> serving ph = true ->
     exists ph', insts f' !! i = Some ph' /\ serving ph' = true) ->
  proc_ok f b l i p -> proc_ok f' b l i p.
Proof.
  intros Hf [H1 H2 H3]. split; [done|done|]. intros q seq E.
  destruct (H3 q seq E) as (? & (ph & Hp & Hs) & ?). split_and!; [lia|lia|by eauto|done].
Qed.

Lemma proc_ok_noPool f b l i vs k h :
  (exists l', tableOf l' (Wire.leases vs) /\ dated b l k l') -> proc_ok f b l i (mkProc vs k h [] None).
Proof. intros H. split; [done|constructor|done]. Qed.

Lemma inv_put l s i p :
  inv l s -> proc_ok (fl s) (behind s) l i p -> inv l (setProc i p s).
Proof.
  intros [H1 H2 H3] Hp. split; [done| |done]. intros j q. cbn.
  destruct (decide (i = j)) as [<-|Hne]; [rewrite lookup_insert_eq; by intros [= <-]|].
  rewrite lookup_insert_ne by done. apply H2.
Qed.

(** Others' turns and its own leave an instance serving, but for its end. *)
Lemma step_serving e f f' i ph :
  Fleet.step sockPath mode e f = Some f' -> insts f !! i = Some ph -> serving ph = true ->
  insts f' !! i <> Some Exited -> exists ph', insts f' !! i = Some ph' /\ serving ph' = true.
Proof.
  intros E Hi Hs Hex. destruct (decide (Fleet.actor e = Some i)) as [Ha|Hne].
  2:{ exists ph. by rewrite (Fleet.step_others sockPath mode e f f' i E Hne). }
  destruct e as [j|j t|c0]; cbn in Ha; [| |done]; injection Ha as ->; cbn in E; rewrite Hi in E; [done|].
  cbn in E. destruct (Fleet.move _ _ _ _ _ _) as [[[ph' k] w]|] eqn:Hm; cbn in E; [|done]. injection E as <-.
  cbn in Hex |- *. rewrite lookup_insert_eq in Hex |- *. exists ph'. split; [done|].
  destruct t as [r|oe|fl0| | |fl0| |], ph as [b|b|seat b at_|c0|seat ln|seat ln at_|seat [b|]|]; try done;
    cbn [Fleet.move Fleet.reap] in Hm; try (by injection Hm as <- <- <-).
  destruct (closeStep _ _ _ _) as [[x|] w1]; by injection Hm as <- <- <-.
Qed.

(** The state of the fleet moves on. *)
Lemma inv_setFleet l s e f :
  inv l s -> Fleet.step sockPath mode e (fl s) = Some f ->
  (forall i p, Fleet.actor e = Some i -> procs s !! i = Some p -> insts f !! i <> Some Exited) ->
  inv l (setFleet f s).
Proof.
  intros [H1 H2 H3] E Hi. split; [by eapply Fleet.step_inv| |done]. intros j q Hq.
  eapply proc_ok_fleet; [|by apply H2]. intros ph Hp Hs. cbn. eapply step_serving; [done..|].
  destruct (decide (Fleet.actor e = Some j)) as [Ha|Hne]; [by eapply Hi|].
  rewrite (Fleet.step_others sockPath mode e _ f j E Hne), Hp. by intros [= ->].
Qed.

Lemma inv_turn l s e f i p :
  inv l s -> Fleet.step sockPath mode e (fl s) = Some f -> Fleet.actor e = Some i ->
  proc_ok f (behind s) l i p -> inv l (setProc i p (setFleet f s)).
Proof.
  intros [H1 H2 H3] E Hi Hp. split; [by eapply Fleet.step_inv| |done]. intros j q. cbn.
  destruct (decide (i = j)) as [<-|Hne]; [rewrite lookup_insert_eq; by intros [= <-]|].
  rewrite lookup_insert_ne by done. intros Hq. eapply proc_ok_fleet; [|by apply H2].
  intros ph Hph Hs. exists ph. rewrite (Fleet.step_others sockPath mode e _ f j E); [done|congruence].
Qed.

Lemma promote_inv l s i walk p :
  inv l s -> procs s !! i = Some p -> (exists ph, insts (fl s) !! i = Some ph /\ serving ph = true) ->
  (forall off x, walk off x ≡ₚ x) -> returns (promote c i walk p s) (inv l).
Proof.
  intros Hi Hp Hh Hw. pose proof (in_proc l s Hi i p Hp) as [(l' & Ht & Hd) _ _]. unfold promote.
  destruct (promote_pool l' _ (fun off => walk off (map_to_list (Wire.leases (vars p)))) Ht) as (q & Eq & Hg).
  { intros off. apply Hw. }
  rewrite Eq. go_simpl. eexists. split; [done|].
  destruct Hi as [H1 H2 H3]. split; cbn; [done| |].
  - intros j r. destruct (decide (i = j)) as [<-|Hne].
    + rewrite lookup_insert_eq. intros [= <-]. split; cbn.
      * exists []. split; [|apply dated_0]. exists pool0. split; [apply grew_pool0|done].
      * constructor.
      * intros x seq [= <- <-]. split_and!; [lia|lia|done|]. exists l'. split; [done|].
        intros [Hb Hlt]%orb_false_iff. destruct (H3 Hb) as [Hgr _]. destruct (Hd Hb) as [Hk ->].
        apply Nat.ltb_ge in Hlt. apply take_ge. lia.
    + rewrite lookup_insert_ne by done. intros Hr. apply H2 in Hr. destruct (behind s); cbn; [done|].
      by apply proc_ok_behind.
  - intros [Hb _]%orb_false_iff. by apply H3.
Qed.

Lemma site_turn_inv l e walk s :
  inv l s -> (forall off x, walk off x ≡ₚ x) -> returns (turn sockPath mode c e walk s) (inv l).
Proof.
  intros Hi Hw. unfold turn. destruct (Fleet.step sockPath mode e (fl s)) as [f|] eqn:E;
    [|by apply returns_done].
  assert (Hkeep : forall i vs k h, Fleet.actor e = Some i ->
    (exists l', tableOf l' (Wire.leases vs) /\ dated (behind s) l k l') ->
    inv l (setProc i (mkProc vs k h [] None) (setFleet f s))).
  { intros i vs k h He Hc'. eapply inv_turn; [done|done|done|]. by apply proc_ok_noPool. }
  destruct e as [i|i t|c0].
  - apply returns_done. eapply inv_turn; [done|done|done|apply proc_ok_0].
  - cbn [procs setFleet]. destruct (insts f !! i) as [ph|] eqn:Hf, (procs s !! i) as [p|] eqn:Hp.
    2-4: by apply returns_done, (inv_setFleet l s _ f Hi E); intros j p' [= <-]; congruence.
    destruct (in_proc l s Hi i p Hp) as [Hcache _ _].
    assert (Hdec : ph = Exited \/ ph <> Exited) by (destruct ph; by auto). destruct Hdec as [->|Hne].
    { destruct t; apply returns_done; (eapply inv_turn; [done|done|done|apply proc_ok_0]). }
    assert (Hstay : inv l (setFleet f s)).
    { apply (inv_setFleet l s _ f Hi E). intros j p' [= <-] _. congruence. }
    destruct t as [r|oe|fl0| | |fl0| |], ph as [b|b|seat b at_|c0|seat ln|seat ln at_|seat back|]; try done;
      try (by apply returns_done); try (by apply returns_done, Hkeep).
    eapply promote_inv; [done|done|by eexists|done].
  - apply returns_done. by apply (inv_setFleet l s _ f Hi E).
Qed.

(** One hub at a time has a pool. *)
Lemma one_pool l s i j p q x y :
  inv l s -> procs s !! i = Some p -> procs s !! j = Some q -> pool p = Some x -> pool q = Some y -> i = j.
Proof.
  intros Hi Hp Hq Ex Ey. destruct x as [x1 x2], y as [y1 y2].
  destruct (po_pool _ _ _ _ _ (in_proc l s Hi i p Hp) _ _ Ex) as (_ & (ph & Hh & [fd Hs]%serving_seat) & _).
  destruct (po_pool _ _ _ _ _ (in_proc l s Hi j q Hq) _ _ Ey) as (_ & (ph' & Hh' & [fd' Hs']%serving_seat) & _).
  eapply (Fleet.seat_unique sockPath); [apply Hi|exact Hh|exact Hh'|done|done].
Qed.

Lemma ask_inv l h mac s : inv l s -> mac ∈ cs -> exists l', inv l' (ask h mac s).
Proof.
  intros Hi Hmac. unfold ask. destruct (procs s !! h) as [p|] eqn:Hp; [|by exists l].
  destruct (pool p) as [[q seq]|] eqn:Eq; [|by exists l].
  pose proof (in_proc l s Hi h p Hp) as [(lc & Ht & Hd) Hm Hpool].
  destruct (Hpool q seq Eq) as (Hseq & Hh & l2 & Hg & Hl2).
  destruct (GetOrAssign_grew l2 q mac Hg Hmac) as (ext & Hg' & Hlen & Hsub & Hans).
  destruct (GetOrAssign mac q) as [r q']. cbn [fst snd] in *.
  exists (if behind s then l else l ++ ext). destruct Hi as [H1 H2 H3]. split; cbn; [done| |].
  - intros j x. destruct (decide (h = j)) as [<-|Hne].
    + rewrite lookup_insert_eq. intros [= <-].
      assert (Hbase : proc_ok (fl s) (behind s) (if behind s then l else l ++ ext) h
                        (mkProc (vars p) (heard p) (hub p) (mail p) None)).
      { assert (Hno : proc_ok (fl s) (behind s) l h (mkProc (vars p) (heard p) (hub p) (mail p) None))
          by (split; [by exists lc|done|done]).
        destruct (behind s); [done|]. apply proc_ok_grow; [by left|done]. }
      destruct Hbase as [B1 B2 _]. split; [exact B1|exact B2|]. intros x1 x2 [= <- <-].
      split_and!; [lia|lia|done|]. exists (l2 ++ ext). split; [done|]. intros Hb. rewrite Hb. by rewrite Hl2.
    + rewrite lookup_insert_ne by done. intros Hx. specialize (H2 j x Hx) as Hok.
      destruct (behind s) eqn:Hb; [done|]. apply proc_ok_grow; [|done]. left.
      destruct (pool x) as [y|] eqn:Ex; [|done]. destruct Hne.
      eapply (one_pool l s); [split; [done|by rewrite Hb|by rewrite Hb]|done..].
  - intros Hb. rewrite Hb in *. destruct (H3 eq_refl) as (Hgr & q0 & Hg0 & Htold).
    rewrite (Hl2 eq_refl) in *. split; [rewrite length_app; lia|].
    exists q'. split; [done|]. rewrite (grew_det _ _ _ Hg0 Hg) in Htold. intros k a Hin.
    apply elem_of_app in Hin as [Hin|Hin]; [eapply lookup_weaken; [by apply Htold|done]|].
    destruct r as [b|]; [|by apply elem_of_nil in Hin].
    apply list_elem_of_singleton in Hin as [= -> ->]. by apply Hans.
Qed.

Lemma beat_inv l h walk reach s : inv l s -> (forall x, walk x ≡ₚ x) -> inv l (beat h walk reach s).
Proof.
  intros Hi Hw. unfold beat. destruct (procs s !! h) as [p|] eqn:Hp; [|done].
  destruct (pool p) as [[q seq]|] eqn:Eq; [|done].
  pose proof (in_proc l s Hi h p Hp) as [Hcache Hm Hpool].
  destruct (Hpool q seq Eq) as (Hseq & Hh & l2 & Hg & Hl2).
  set (frame := EncodeBeacon _ _ _).
  assert (Hcar : carries frame (assigned q)) by (apply (beat_carries l2); [done|done|apply Hw]).
  assert (Hi' : inv l (setProc h (mkProc (vars p) (heard p) (hub p) (mail p) (Some (q, u32 (seq + 1)))) s)).
  { apply inv_put; [done|]. split; [done|done|]. intros x1 x2 [= <- <-].
    split_and!; [apply Z.mod_pos_bound; lia..|done|by exists l2]. }
  destruct Hi' as [H1 H2 H3]. split; cbn [fl procs behind grants told]; [done| |done].
  intros i x Hx. rewrite map_lookup_imap in Hx. apply bind_Some in Hx as (y & Hy & Hx).
  specialize (H2 i y Hy). unfold posted in Hx. case_bool_decide; injection Hx as <-; [|done].
  destruct H2 as [P1 P2 P3]. split; cbn; [done| |done]. apply Forall_app. split; [done|].
  constructor; [|constructor]. exists l2, (assigned q). split; [by exists q|]. split; [done|].
  intros Hb. destruct (H3 Hb) as [Hgr _]. cbn in Hgr, Hb |- *. rewrite (Hl2 Hb), Hgr. by rewrite take_ge.
Qed.

Lemma hear_inv l i now s : inv l s -> returns (hear i now s) (inv l).
Proof.
  intros Hi. unfold hear. destruct (procs s !! i) as [p|] eqn:Hp; [|by apply returns_done].
  destruct (mail p) as [|[f k] rest] eqn:Em; [by apply returns_done|].
  pose proof (in_proc l s Hi i p Hp) as [_ Hm Hpool]. rewrite Em in Hm.
  apply Forall_cons in Hm as [(l' & t & Ht & Hcar & Hd) Hrest]. cbn in Hcar, Hd. rewrite Hcar. go_simpl.
  apply returns_done. apply inv_put; [done|]. split; [by exists l'|done|done].
Qed.

(** The events of a site: only the clients of [cs] ask. *)
Definition event_ok (e : event) : Prop :=
  match e with
  | Turn _ walk => forall off x, walk off x ≡ₚ x
  | Ask _ mac => mac ∈ cs
  | Beat _ walk _ => forall x, walk x ≡ₚ x
  | Hear _ _ => True
  end.

Lemma srun_inv evs : forall l s, inv l s -> Forall event_ok evs ->
  returns (srun sockPath mode c evs s) (fun s => exists l, inv l s).
Proof.
  induction evs as [|e evs IH]; intros l s Hi Hev; cbn [srun]; [apply returns_done; by exists l|].
  apply Forall_cons in Hev as [He Hev].
  assert (Hs : returns (sstep sockPath mode c e s) (fun s => exists l, inv l s)).
  { destruct e as [e walk|h mac|h walk reach|i now]; cbn [sstep event_ok] in *.
    - eapply returns_mono; [|by apply site_turn_inv]. by exists l.
    - apply returns_done. by eapply ask_inv.
    - apply returns_done. exists l. by apply beat_inv.
    - eapply returns_mono; [|by apply hear_inv]. by exists l. }
  apply returns_bind. eapply returns_mono; [|exact Hs]. intros s' [l' Hi']. by apply (IH l').
Qed.

Lemma inv_site0 fs : inv [] (site0 fs).
Proof.
  split; cbn; [apply Fleet.inv_initial|intros i p; by rewrite lookup_empty|].
  intros _. split; [done|]. exists pool0. split; [apply grew_pool0|]. intros k a Hin. by apply elem_of_nil in Hin.
Qed.

(** C3: leases survive their hubs. In a fleet configured with an IPv4 network and a first
    lease inside it, with at most 32 clients (what a heartbeat carries): whatever the order in which
    instances start, bind, join, close, die and take over, system calls fail, clients ask,
    heartbeats are sent, arrive or are lost, nothing panics; at most one instance leases
    addresses, it is under the seat, and its table gives no address twice. And
    as long as every instance that became the hub had read a heartbeat sent since the last
    client got a new address, the table holds every answer any hub ever gave: all along the
    succession each client is told one address, and no two clients the same. *)
Theorem leases_survive evs fs :
  Forall event_ok evs ->
  returns (srun sockPath mode c evs (site0 fs)) (fun s =>
    (forall i j p q x y, procs s !! i = Some p -> procs s !! j = Some q ->
       pool p = Some x -> pool q = Some y -> i = j) /\
    (forall i p q seq, procs s !! i = Some p -> pool p = Some (q, seq) ->
       (exists ph fd, insts (fl s) !! i = Some ph /\ Fleet.seatOf ph = Some fd) /\
       (forall k k' a, assigned q !! k = Some a -> assigned q !! k' = Some a -> k = k') /\
       (behind s = false -> forall k a, (k, a) ∈ told s -> assigned q !! k = Some a)) /\
    (behind s = false -> forall k a k' a', (k, a) ∈ told s -> (k', a') ∈ told s -> (k = k' <-> a = a'))).
Proof.
  intros Hev. eapply returns_mono; [|apply (srun_inv evs [] (site0 fs)), Hev; apply inv_site0].
  intros s [l Hi]. split_and!.
  - intros i j p q x y. by eapply one_pool.
  - intros i p q seq Hp Eq. destruct (po_pool _ _ _ _ _ (in_proc l s Hi i p Hp) q seq Eq) as (_ & Hh & l' & Hg & Hl).
    destruct Hh as (ph & Hph & [fd Hfd]%serving_seat).
    split_and!; [by eexists _, _| |].
    + intros k k' a Hk Hk'. eapply assigned_inj; [apply Hg|done|done].
    + intros Hb k a Hin. rewrite (Hl Hb) in Hg. destruct (in_now l s Hi Hb) as (_ & q0 & Hg0 & Ht).
      rewrite <- (grew_det _ _ _ Hg0 Hg). by apply Ht.
  - intros Hb k a k' a' Hin Hin'. destruct (in_now l s Hi Hb) as (_ & q & Hg & Ht).
    specialize (Ht _ _ Hin) as H1. specialize (Ht _ _ Hin') as H2. split; [intros ->; congruence|].
    intros ->. eapply assigned_inj; [apply Hg|done|done].
Qed.

(** The turns of one instance from the top of the loop to the uplink; [n] are the system
    calls of its [BindOrConnect]. *)
Definition succeed (i n : nat) (walk : Z -> list (bytes * bytes) -> list (bytes * bytes)) : list event :=
  [Turn (Fleet.Does i (Fleet.Connect false)) walk; Turn (Fleet.Does i (Fleet.Lock None)) walk] ++
  replicate n (Turn (Fleet.Does i (Fleet.BindStep false)) walk).

Lemma srun_app evs1 evs2 s :
  srun sockPath mode c (evs1 ++ evs2) s = (s ← srun sockPath mode c evs1 s; srun sockPath mode c evs2 s).
Proof.
  revert s. induction evs1 as [|e evs1 IH]; intros s; cbn [srun app]; [done|].
  destruct (sstep _ _ _ e s); [apply IH|done].
Qed.

(** The calls of an undisturbed [BindOrConnect] that binds. *)
Lemma srun_binds i walk m : forall s seat b at_ ln w p,
  insts (fl s) !! i = Some (Seated seat b at_) -> procs s !! i = Some p ->
  bindLoop m quiet noFault sockPath mode at_ (Fleet.os (fl s)) = (inr (Ok (inl ln)), w) ->
  exists ts f, (ts <= m)%nat /\ insts f !! i = Some (Hub seat ln) /\ Fleet.os f = w /\
    srun sockPath mode c (replicate ts (Turn (Fleet.Does i (Fleet.BindStep false)) walk)) s =
      promote c i walk p (setFleet f s).
Proof.
  induction m as [|m IH]; intros s seat b at_ ln w p Hi Hp; cbn [bindLoop]; [done|].
  unfold quiet at 1, noFault at 1. pose proof (Fleet.step_bind sockPath mode i (fl s) seat b at_ Hi) as E.
  destruct (bindStep false sockPath mode at_ (Fleet.os (fl s))) as [[at1|r1] w1].
  - set (f1 := Fleet.mkFleet (<[i := Seated seat b at1]> (insts (fl s))) (Fleet.kern (fl s)) w1 (Fleet.others (fl s))) in E.
    intros Hl. destruct (IH (setFleet f1 s) seat b at1 ln w p) as (ts & f & Hn & Hh & Hw & Hr);
      [apply lookup_insert_eq|done|done|].
    exists (S ts), f. split; [lia|]. split; [done|]. split; [done|]. cbn [replicate srun sstep]. unfold turn at 1.
    rewrite E. cbn [procs setFleet fl]. unfold f1 at 1. cbn [insts]. rewrite lookup_insert_eq, Hp. exact Hr.
  - intros [= -> ->].
    exists 1%nat, (Fleet.mkFleet (<[i := Hub seat ln]> (insts (fl s))) (Fleet.kern (fl s)) w (Fleet.others (fl s))).
    split; [lia|]. split; [apply lookup_insert_eq|]. split; [done|].
    cbn [replicate srun sstep]. unfold turn. rewrite E. cbn [procs setFleet fl insts Fleet.outcome].
    rewrite lookup_insert_eq, Hp. by destruct (promote _ _ _ _ _).
Qed.

Lemma srun_succeed s i b p walk :
  Fleet.inv sockPath (fl s) -> insts (fl s) !! i = Some (Discover b) -> procs s !! i = Some p ->
  answers sockPath (Fleet.os (fl s)) = false ->
  (forall j q, insts (fl s) !! j = Some q -> Fleet.seatOf q = None) ->
  (forall nd, files (Fleet.os (fl s)) !! sockPath = Some nd -> node_sock nd = true) ->
  exists ts f, (ts <= 11)%nat /\ (exists fd ln, insts f !! i = Some (Hub fd ln)) /\
    answers sockPath (Fleet.os f) = true /\
    srun sockPath mode c (succeed i ts walk) s = promote c i walk p (setFleet f s).
Proof.
  intros Hi Hd Hp Ha Hs Hf.
  destruct (Fleet.takes_seat sockPath mode (fl s) i b) as (f1 & f2 & seat & E1 & H1 & E2 & H2 & Ho); [done..|].
  assert (T1 : turn sockPath mode c (Fleet.Does i (Fleet.Connect false)) walk s = Done (setFleet f1 s)).
  { unfold turn. rewrite E1. cbn [procs setFleet]. by rewrite H1, Hp. }
  assert (T2 : turn sockPath mode c (Fleet.Does i (Fleet.Lock None)) walk (setFleet f1 s) = Done (setFleet f2 s)).
  { unfold turn. cbn [fl setFleet]. rewrite E2. cbn [procs setFleet]. by rewrite H2, Hp. }
  destruct (Fleet.bindLoop_hub sockPath mode (Fleet.os (fl s)) Ha Hf) as (ln & w & Hl & Hans).
  rewrite <- Ho in Hl.
  destruct (srun_binds i walk 11 (setFleet f2 s) seat b B0 ln w p H2 Hp Hl) as (ts & f & Hn & Hh & Hw & Hr).
  exists ts, f. split; [done|]. split; [by eexists _, _|]. split; [by rewrite Hw|].
  unfold succeed. rewrite srun_app. cbn [srun sstep]. rewrite T1. cbn [mbind go_bind]. rewrite T2.
  cbn [mbind go_bind]. exact Hr.
Qed.

(** C4: the next hub knows everybody. In a fleet configured with an IPv4 network and a first
    lease inside it, with at most 32 clients, and in every reachable state where no
    instance was promoted behind, nobody answers at the socket and nobody is under the
    seat, and the path is free or a socket file: an instance at the top of its loop that has read
    a heartbeat sent since the last client got a new address becomes, undisturbed, the hub in at most 13
    turns of its own, and answers every client a hub ever answered with the address it
    was told. *)
Theorem successor_serves evs fs i walk :
  Forall event_ok evs -> (forall off x, walk off x ≡ₚ x) ->
  returns (srun sockPath mode c evs (site0 fs)) (fun s => forall b p,
    insts (fl s) !! i = Some (Discover b) -> procs s !! i = Some p ->
    behind s = false -> (grants s <= heard p)%nat ->
    answers sockPath (Fleet.os (fl s)) = false ->
    (forall j q, insts (fl s) !! j = Some q -> Fleet.seatOf q = None) ->
    (forall nd, files (Fleet.os (fl s)) !! sockPath = Some nd -> node_sock nd = true) ->
    exists ts, (ts <= 11)%nat /\
    returns (srun sockPath mode c (succeed i ts walk) s) (fun s' => behind s' = false /\
      answers sockPath (Fleet.os (fl s')) = true /\
      exists p' q, procs s' !! i = Some p' /\ pool p' = Some (q, 0) /\
        forall k a, (k, a) ∈ told s -> (GetOrAssign k q).1 = Ok a)).
Proof.
  intros Hev Hw. eapply returns_mono; [|apply (srun_inv evs [] (site0 fs)), Hev; apply inv_site0].
  intros s [l Hi] b p Hd Hp Hb Hh Ha Hs Hf.
  destruct (srun_succeed s i b p walk (in_fleet l s Hi) Hd Hp Ha Hs Hf) as (ts & f & Hn & Hhub & Hans & E).
  exists ts. split; [done|]. rewrite E.
  destruct (in_proc l s Hi i p Hp) as [(l' & Ht & Hdate) _ _]. unfold promote.
  destruct (promote_pool l' _ (fun off => walk off (map_to_list (Wire.leases (vars p)))) Ht) as (q & -> & Hg).
  { intros off. apply Hw. }
  cbn [mbind go_bind]. apply returns_done. cbn. split.
  { rewrite Hb. cbn. by apply Nat.ltb_ge. }
  split; [done|]. eexists _, q. rewrite lookup_insert_eq. split; [done|]. split; [done|].
  destruct (in_now l s Hi Hb) as (Hgr & q0 & Hg0 & Htold). destruct (Hdate Hb) as [Hk ->].
  rewrite take_ge in Hg by lia. rewrite <- (grew_det _ _ _ Hg0 Hg). intros k a Hin. specialize (Htold k a Hin).
  assert (Hkey : array 6 k = k).
  { destruct (ok_assigned q0 (gr_ok _ _ Hg0) k a) as [Hx _]. destruct (Hx Htold) as (x & Hx' & _).
    apply list_elem_of_lookup_2 in Hx'. rewrite (gr_order _ _ Hg0) in Hx'.
    by apply client_key, (gr_clients _ _ Hg0). }
  unfold GetOrAssign. by rewrite Hkey, Htold.
Qed.





End Invariant.

(** ** Evaluated runs *)

Definition sock : string := "/tmp/vde.socket".
Definition walk1 : Z -> list (bytes * bytes) -> list (bytes * bytes) := fun off l => if off =? 1 then reverse l else l.
Definition loop (e : Fleet.event) : event := Turn e walk1.
Definition guest (i : Z) : bytes := Main.demoMac i.

(** Instance 0 becomes the hub, 1 joins it; guest 7 gets an address, and 1 hears of it. *)
Definition cold : list event :=
  loop (Fleet.Spawn 0) :: succeed 0 10 walk1 ++
  [loop (Fleet.Spawn 1); loop (Fleet.Does 1 (Fleet.Connect false)); Ask 0 (guest 7); Beat 0 reverse {[1%nat]}; Hear 1 5].

(** The hub dies and its peer takes over. *)
Definition takeover : list event :=
  [loop (Fleet.Does 0 Fleet.Crash); loop (Fleet.Does 1 Fleet.Lost)] ++ succeed 1 11 walk1.

Definition finally (check : site -> bool) (evs : list event) : bool :=
  match srun sock 0 Config.Defaults evs (site0 ∅) with Done s => check s | Panic => false end.

Lemma finally_true check evs :
  finally check evs = true ->
  exists s, srun sock 0 Config.Defaults evs (site0 ∅) = Done s /\ check s = true.
Proof. unfold finally. destruct (srun _ _ _ _ _) as [s|]; [|discriminate]. intros E. exists s. split; [reflexivity|exact E]. Qed.

Definition demoEvents : list event := cold ++ takeover ++ [Ask 1 (guest 7); Ask 1 (guest 9)].

Lemma walk1_perm off l : walk1 off l ≡ₚ l.
Proof. unfold walk1. destruct (off =? 1); [apply reverse_Permutation|done]. Qed.

Definition demoGuests : list bytes := guest <$> [7; 9; 4].




Lemma demoGuests_ok : Forall (fun m => length m = 6%nat /\ wf_bytes m) demoGuests.
Proof. repeat constructor; done. Qed.

Lemma succession_ok : Forall (event_ok demoGuests) demoEvents.
Proof.
  assert (H : forall e, event_ok demoGuests (loop e)) by exact (fun e => walk1_perm).
  unfold demoEvents, cold, takeover, succeed. cbn [app replicate]. repeat (apply Forall_cons_2; [first [apply H|cbn [event_ok]]|]);
    try apply Forall_nil_2; try exact I; try exact (fun l => reverse_Permutation l); unfold demoGuests; set_solver.
Qed.

(** Guest 7 asks both hubs, guest 9 the second one, which has 2 clients by then. *)
Definition inherited (s : site) : bool :=
  negb (behind s) && bool_decide ((guest 7, [10;0;2;15]) ∈ told s) && bool_decide ((guest 9, [10;0;2;16]) ∈ told s).

Lemma demo_inherited : finally inherited demoEvents = true.
Proof. vm_compute. reflexivity. Qed.

Theorem leases_survive_witness :
  exists s, srun sock 0 Config.Defaults demoEvents (site0 ∅) = Done s /\
    (forall a, (guest 7, a) ∈ told s <-> a = [10;0;2;15]).
Proof.
  destruct (finally_true _ _ demo_inherited) as (s & E & Hf).
  destruct (leases_survive sock 0 Config.Defaults [10;0;2;0] [10;0;2;15] 24 Defaults_v4 eq_refl
              demoGuests demoGuests_ok ltac:(vm_compute; lia) demoEvents ∅ succession_ok) as (s' & E' & _ & _ & H).
  assert (s' = s) as -> by congruence. exists s. split; [exact E|].
  unfold inherited in Hf. apply andb_prop in Hf as [[Hb H7]%andb_prop _].
  apply negb_true_iff in Hb. apply bool_decide_eq_true in H7. specialize (H Hb).
  intros a. split; [|intros ->; exact H7]. intros Ha. exact (proj1 (H _ _ _ _ Ha H7) eq_refl).
Defined.

(** ** The second before a hub dies

    Guest 9 asks after the heartbeat that instance 1 has read; guest 4 is the next. *)
Lemma cold_ok : Forall (event_ok demoGuests) cold.
Proof. pose proof succession_ok as H. unfold demoEvents in H. by apply Forall_app in H as [Hc _]. Qed.




(** The state before instance 1 takes over. *)
Definition orphaned : list event := cold ++ [loop (Fleet.Does 0 Fleet.Crash); loop (Fleet.Does 1 Fleet.Lost)].

Definition ready (s : site) : bool :=
  negb (behind s) && (grants s =? 1)%nat && negb (answers sock (Fleet.os (fl s))) &&
  match insts (fl s) !! 1%nat with Some (Discover b) => b =? Fleet.backoff0 | _ => false end &&
  bool_decide (map_Forall (fun _ q => Fleet.seatOf q = None) (insts (fl s))) &&
  bool_decide (map_Forall (fun _ nd => node_sock nd = true) (files (Fleet.os (fl s)))) &&
  bool_decide ((guest 7, [10;0;2;15]) ∈ told s) &&
  match procs s !! 1%nat with Some p => (heard p =? 1)%nat | None => false end.

Lemma demo_ready : finally ready orphaned = true.
Proof. vm_compute. reflexivity. Qed.

Lemma orphaned_ok : Forall (event_ok demoGuests) orphaned.
Proof.
  unfold orphaned. apply Forall_app_2; [exact cold_ok|].
  apply Forall_cons_2; [exact walk1_perm|]. apply Forall_cons_2; [exact walk1_perm|]. apply Forall_nil_2.
Qed.

Theorem successor_serves_witness :
  exists s ts s' p q, srun sock 0 Config.Defaults orphaned (site0 ∅) = Done s /\
    srun sock 0 Config.Defaults (succeed 1 ts walk1) s = Done s' /\ procs s' !! 1%nat = Some p /\
    pool p = Some (q, 0) /\ (GetOrAssign (guest 7) q).1 = Ok [10;0;2;15].
Proof.
  destruct (finally_true _ _ demo_ready) as (s & E & Hf). unfold ready in Hf.
  repeat (apply andb_prop in Hf as [Hf ?H]).
  destruct (procs s !! 1%nat) as [p|] eqn:Ep; [|discriminate H].
  destruct (insts (fl s) !! 1%nat) as [[b| | | | | | |]|] eqn:Ed; try discriminate H3.
  destruct (successor_serves sock 0 Config.Defaults [10;0;2;0] [10;0;2;15] 24 Defaults_v4 eq_refl
    demoGuests demoGuests_ok ltac:(vm_compute; lia) orphaned ∅ 1%nat walk1 orphaned_ok walk1_perm) as (s1 & E1 & Hs).
  assert (s1 = s) as -> by congruence.
  apply negb_true_iff in Hf, H4. apply Nat.eqb_eq in H, H5. apply bool_decide_eq_true in H0, H1, H2.
  destruct (Hs b p Ed Ep Hf ltac:(lia) H4 (fun j q Hq => H2 j q Hq) (fun nd Hn => H1 sock nd Hn))
    as (ts & _ & s' & E' & _ & _ & p' & q & Hp' & Hq & Hall).
  exists s, ts, s', p', q. split; [exact E|]. split; [exact E'|]. split; [exact Hp'|]. split; [exact Hq|].
  exact (Hall _ _ H0).
Defined.
