(* ===== verification/Program.v ===== *)
(** * Program: main and runInstance of vdeplug-go/main.go

    The whole life of an instance that owns its uplink - a hub, or one without a
    switch - from the command line to the exit, as the trace of what it does to the
    outside, composed of the parts the other files model: the arguments and the
    configuration, the uplink of Instance.v with the NAT, the tunnel and the tap, the
    forwarding rules, and the wait for the end. *)
From S2P Require Import Prelude.
From S2P Require Import GoStd.
From S2P Require Import GoText.
From S2P Require Import Dhcp.
From S2P Require Import Config.
From S2P Require Main.
From S2P Require Import VSwitch.
From S2P Require Import Wire.
From S2P Require Import Instance.
From S2P Require PortFwd.
From S2P Require Import Nat.
From S2P Require Wg.
From S2P Require Tunnel.
From S2P Require Tap.

(** ** main *)

(** What [main] starts with. *)
Record start := mkStart {
  s_descr : string; s_fd : Z; s_cfg : Config; s_mtu : Z; s_sock : string; s_switch : bool }.

(** [dirWritable]: the probe file is created and removed again. *)
Definition dirWritable (isDir : string -> option bool) (creates : string -> bool) (dir : string) : bool :=
  match isDir dir with
  | Some true => creates (FilepathJoin [dir; ".vde-probe"]%string)
  | _ => false
  end.

(** The answers of the system: the path of the executable, the files, the environment. *)
Record host := mkHost {
  Executable : result string;
  ReadConfig : string -> readResult;
  unmarshal : bytes -> Config -> result Config;
  Getenv : string -> string;
  isDir : string -> option bool;
  creates : string -> bool;
}.

(** [main] up to the choice between [runInstance] and the loop; [Err] is its [fatalf].
    [dirOf] is [filepath.Dir]. *)
Definition main (h : host) (dirOf : string -> string) (argv : list string) : result start :=
  let '(descr, fd, vnl) := Main.parseArgs argv in
  if fd <? 0 then Err "no seqpacket fd, nothing to do" else
  self ← Executable h;
  cfg ← Load (unmarshal h) (ReadConfig h (FilepathJoin [dirOf self; "config.yaml"]%string));
  let cfg := ApplyVNL (Main.vnlParams vnl) cfg in
  let sock := Main.resolveSwitchSocket (Getenv h) (dirWritable (isDir h) (creates h))
                (fun a b => FilepathJoin [a; b]) cfg (dirOf self) in
  Ok (mkStart descr fd cfg (Main.linkMTU (MTU cfg)) sock (SwitchEnabled cfg)).

(** ** The uplink *)

Section Run.
Context `{T : Tcpip}.

(** What an instance does, in order. *)
Inductive act :=
| OpenTap (name : string)
| CloseTap (d : Tap.Device)
| TapReader
| NewNAT
| CloseNAT
| TunnelCall (c : Tunnel.call)
| CloseTunnel (c : Tunnel.closing)
| NetstackPump
| SetSink
| AddPortOf (p : Port)
| StartWire
| AcceptPeers
| SendBeacons
| Forwarding (e : PortFwd.effect)
| DumpStats
| CloseListener
| ReleaseSeat
| Exit (code : Z).

(** What the outside answers. *)
Record outside := mkOutside {
  o_tap : Tap.kernel;
  o_fds : gset nat;
  o_addrErr : bytes -> option string;
  o_nicErr : option string;
  o_resolv : option string;
  o_tunnel : Tunnel.env;
  o_stat : string -> bool;
  o_wd : result string;
  o_readDir : string -> result (list (string * bool));
  o_file : string -> result string;
  o_listen : nat -> bool -> string -> result nat;
  o_seed : gmap bytes bytes;
  o_ord : Z -> list (bytes * bytes);
}.

(** What the set-up leaves behind. *)
Record uplink := mkUplinkState {
  u_nat : option NAT;
  u_pool : option Pool;
  u_dev : option Tap.Device;
  u_tunnel : bool;
}.

Definition natOptions (c : Config) : Options :=
  mkOptions (Config.Gateway c) (Config.Nameserver c) (Config.Network c) (Config.IPv6 c).

(** [Attach] returned a tunnel: its last step is the handshake watch. *)
Definition attached (cs : list Tunnel.call) : bool :=
  match last cs with Some Tunnel.WatchHandshake => true | _ => false end.

(** The [switch] on the uplink; an error is [fatalf]. *)
Definition setupUplink (o : outside) (c : Config) : go (list act * result uplink) :=
  match chooseUplink c with
  | Err e => Done ([], Err e)
  | Ok Isolated => Done ([], Ok (mkUplinkState None None None false))
  | Ok (Instance.Tap name) =>
      match (Tap.Open (o_tap o) name (o_fds o)).1 with
      | Err e => Done ([], Err e)
      | Ok d => Done ([OpenTap name; TapReader], Ok (mkUplinkState None None (Some d) false))
      end
  | Ok kind =>
      match Nat.New (o_addrErr o) (o_nicErr o) (o_resolv o) (natOptions c) with
      | Err e => Done ([], Err e)
      | Ok n =>
          pool ← hubPool c (o_seed o) (o_ord o);
          match kind with
          | Wireguard =>
              let path := Wg.ResolvePath (o_stat o) (o_wd o) (o_readDir o) (WireguardConfPath c) in
              let load p := Wg.Load (o_file o p) p in
              match Tunnel.startTunnel (o_tunnel o) (NIC n) path load (SwitchEnabled c) n with
              | Err e => Done ([NewNAT], Err e)
              | Ok (cs, n) =>
                  Done (NewNAT :: (TunnelCall <$> cs) ++ [NetstackPump],
                        Ok (mkUplinkState (Some n) pool None (attached cs)))
              end
          | _ => Done ([NewNAT; NetstackPump], Ok (mkUplinkState (Some n) pool None false))
          end
      end
  end.

(** [shutdownUplink]. *)
Definition shutdownUplink (u : uplink) : list act :=
  match u_dev u, u_nat u with
  | Some d, _ => [CloseTap d]
  | None, Some _ => (if u_tunnel u then CloseTunnel <$> Tunnel.Close else []) ++ [CloseNAT]
  | None, None => []
  end.

(** What [waitShutdown]'s [select] takes next. *)
Inductive wakeup := GuestGone | PumpGone | SIGUSR1 | SIGINT | SIGTERM.

Fixpoint waitShutdown (hasNAT : bool) (evs : list wakeup) : list act * bool :=
  match evs with
  | [] => ([], false)
  | SIGUSR1 :: evs => let '(tr, ended) := waitShutdown hasNAT evs in (DumpStats :: tr, ended)
  | _ :: _ => (if hasNAT then [CloseNAT] else [], true)
  end.

Definition startForwarding (o : outside) (c : Config) (u : uplink) : list act :=
  match u_nat u with
  | Some _ =>
      if PortFwd c
      then Forwarding <$> (PortFwd.Start (o_listen o) c (forwardFallback c (u_pool u))).1 else []
  | None => []
  end.

(** [runInstance]: [hub] says whether it has a listener and the seat, [wired] whether an
    earlier role has started the wire reader. The second component: whether the process has
    exited. *)
Definition runInstance (o : outside) (c : Config) (hub wired : bool) (evs : list wakeup)
  : go (list act * bool) :=
  '(tr, u) ← setupUplink o c;
  match u with
  | Err _ => Done (tr ++ [Exit 1], true)
  | Ok u =>
      let up := tr ++ [SetSink; AddPortOf Uplink; AddPortOf Local] ++ (if wired then [] else [StartWire]) ++
                (if hub then [AcceptPeers; SendBeacons] else []) ++ startForwarding o c u in
      let '(waited, ended) := waitShutdown (bool_decide (is_Some (u_nat u))) evs in
      if ended
      then Done (up ++ waited ++ shutdownUplink u ++ (if hub then [CloseListener; ReleaseSeat] else []) ++ [Exit 0], true)
      else Done (up ++ waited, false)
  end.

End Run.

(** ** The tap's reader *)

(** The goroutine that forwards the host's frames: its reads until one fails. *)
Fixpoint tapReader (turns : list turn) (sw : VSwitch.Switch)
  : go (VSwitch.Switch * list send * list bytes * bool) :=
  match turns with
  | [] => Done (sw, [], [], false)
  | t :: rest =>
      let sw := env t sw in
      match recv t with
      | Err _ => Done (sw, [], [], true)
      | Ok frame =>
          if 14 <=? len frame then
            r ← Forward (now1 t) (now2 t) Uplink frame sw;
            '(sw, evs, fs, gone) ← tapReader rest r.1;
            Done (sw, r.2 ++ evs, frame :: fs, gone)
          else tapReader rest sw
      end
  end.

(** ** Theorems: the life of an instance *)

Section Life.
Context `{T : Tcpip}.

(** The steps of the set-up. *)
Definition setupAct (a : act) : Prop :=
  match a with
  | OpenTap _ | TapReader | NewNAT | TunnelCall _ | NetstackPump => True
  | _ => False
  end.

(** What [setupUplink] opens is what it leaves behind. *)
Record setup_ok (tr : list act) (u : uplink) : Prop := {
  su_tap : forall name, OpenTap name ∈ tr -> exists d, u_dev u = Some d;
  su_nat : NewNAT ∈ tr <-> is_Some (u_nat u);
  su_one : is_Some (u_nat u) -> u_dev u = None;
  su_tunnel : TunnelCall Tunnel.WatchHandshake ∈ tr -> u_tunnel u = true;
}.

Lemma startTunnel_attached e nic path load sw n cs n' :
  Tunnel.startTunnel e nic path load sw n = Ok (cs, n') ->
  Tunnel.WatchHandshake ∈ cs -> attached cs = true.
Proof.
  unfold Tunnel.startTunnel. destruct path as [p|]; [|done]. cbn [mbind result_bind].
  destruct (load p) as [conf|]; [|done]. cbn [mbind result_bind].
  destruct (Tunnel.Attach e nic conf _) as [cs' err] eqn:E. pose proof (Tunnel.Attach_watch _ _ _ _ _ _ E) as Hw.
  destruct err; intros [= <- _] Hin; [done|]. unfold attached. by rewrite Hw.
Qed.

Lemma setupUplink_ok o c tr r :
  setupUplink o c = Done (tr, r) ->
  Forall setupAct tr /\ match r with Err _ => True | Ok u => setup_ok tr u end.
Proof.
  assert (Hnil : setup_ok [] (mkUplinkState None None None false)).
  { split; cbn; [intros ? H; by apply elem_of_nil in H| |done|intros H; by apply elem_of_nil in H].
    split; [intros H; by apply elem_of_nil in H|by intros [? ?]]. }
  assert (Hslirp : forall n pool, setup_ok [NewNAT; NetstackPump] (mkUplinkState (Some n) pool None false)).
  { intros n pool. split; cbn; [intros ? H| |done|intros H]; [|split; [by eexists|by left]|];
      rewrite !elem_of_cons in H; destruct H as [H|[H|H]]; try done; by apply elem_of_nil in H. }
  assert (Hslirp' : Forall setupAct [NewNAT; NetstackPump]) by (repeat constructor).
  unfold setupUplink. destruct (chooseUplink c) as [k|e]; [|by intros [= <- <-]; split].
  destruct k as [|name| |].
  - intros [= <- <-]. by split.
  - destruct ((Tap.Open (o_tap o) name (o_fds o)).1) as [d|e]; intros [= <- <-]; split; try done.
    + by repeat constructor.
    + split; cbn; [by eexists|split; [|by intros [? ?]]|by intros [? ?]|];
        rewrite !elem_of_cons; intros [H|[H|H]]; try done; by apply elem_of_nil in H.
  - destruct (Nat.New _ _ _ _) as [n|e]; [|by intros [= <- <-]; split].
    destruct (hubPool c (o_seed o) (o_ord o)) as [pool|]; [|done]. intros [= <- <-]. by split.
  - destruct (Nat.New _ _ _ _) as [n|e]; [|by intros [= <- <-]; split].
    destruct (hubPool c (o_seed o) (o_ord o)) as [pool|]; [|done]. cbn [mbind go_bind].
    destruct (Tunnel.startTunnel _ _ _ _ _ _) as [[cs n']|e] eqn:E.
    2:{ intros [= <- <-]. split; [by repeat constructor|done]. }
    intros H. apply (f_equal (fun x => match x with Done (a, b) => (a, b) | Panic => ([], Err ""%string) end)) in H.
    apply pair_eq in H as [<- <-]. split.
    + constructor; [done|]. apply Forall_app. split; [|by repeat constructor]. by apply Forall_fmap, Forall_true.
    + assert (Hcs : forall a, a ∈ NewNAT :: (TunnelCall <$> cs) ++ [NetstackPump] ->
        a = NewNAT \/ (exists x, a = TunnelCall x /\ x ∈ cs) \/ a = NetstackPump).
      { intros a. rewrite elem_of_cons, elem_of_app, list_elem_of_fmap, list_elem_of_singleton. naive_solver. }
      split; cbn.
      * intros nm [?|[(x & ? & _)|?]]%Hcs; done.
      * split; [by eexists|by left].
      * done.
      * intros [?|[(x & [= <-] & Hx)|?]]%Hcs; [done| |done]. by eapply startTunnel_attached.
Qed.

(** Which acts end the set-up phase, start the traffic, close. *)
Definition starts (a : act) : Prop := a = StartWire \/ a = AcceptPeers \/ a = SendBeacons.

(** Every [Q] of the trace comes after a [P]. *)
Definition after (P Q : act -> Prop) (tr : list act) : Prop :=
  forall t1 x t2, tr = t1 ++ x :: t2 -> Q x -> Exists P t1.

Lemma after_split (P Q : act -> Prop) p a q :
  P a -> Forall (fun x => ~ Q x) (p ++ [a]) -> after P Q (p ++ a :: q).
Proof.
  intros Ha Hn t1 x t2 E Hx. rewrite Forall_forall in Hn. apply Exists_exists.
  destruct (decide (length t1 <= length p)%nat) as [Hl|Hl].
  - exfalso. apply (Hn x); [|done]. apply (list_elem_of_lookup_2 _ (length t1)).
    assert (L : (p ++ a :: q) !! length t1 = Some x) by (rewrite E; by apply list_lookup_middle).
    change (a :: q) with ([a] ++ q) in L. rewrite app_assoc, lookup_app_l in L; [done|].
    rewrite length_app. cbn. lia.
  - exists a. split; [|done]. apply (list_elem_of_lookup_2 _ (length p)).
    assert (L : (t1 ++ x :: t2) !! length p = Some a) by (rewrite <- E; by apply list_lookup_middle).
    rewrite lookup_app_l in L by lia. done.
Qed.

(** The waiting adds only its own steps. *)
Lemma waitShutdown_acts hasNAT evs tr ended :
  waitShutdown hasNAT evs = (tr, ended) ->
  Forall (fun a => a = DumpStats \/ a = CloseNAT) tr /\
  (ended = true -> hasNAT = true -> CloseNAT ∈ tr) /\
  (ended = true <-> Exists (fun e => e <> SIGUSR1) evs).
Proof.
  revert tr. induction evs as [|e evs IH]; intros tr; cbn [waitShutdown].
  { intros [= <- <-]. split_and!; [constructor|done|]. by split; [|intros H%Exists_nil]. }
  destruct e.
  3:{ destruct (waitShutdown hasNAT evs) as [t b]. intros [= <- <-]. destruct (IH _ eq_refl) as (H1 & H2 & H3).
    split_and!; [constructor; auto|intros; right; auto|]. rewrite Exists_cons, H3. naive_solver. }
  all: intros [= <- <-]; split_and!; [destruct hasNAT; repeat constructor; by right|intros _ ->; by left|].
  all: rewrite Exists_cons; split; [by left|done].
Qed.

Lemma runInstance_cases o c hub wired evs tr ended :
  runInstance o c hub wired evs = Done (tr, ended) ->
  exists setup r, setupUplink o c = Done (setup, r) /\
    match r with
    | Err _ => tr = setup ++ [Exit 1] /\ ended = true
    | Ok u => exists waited,
        waitShutdown (bool_decide (is_Some (u_nat u))) evs = (waited, ended) /\
        tr = (setup ++ [SetSink]) ++ AddPortOf Uplink :: AddPortOf Local ::
             ((if wired then [] else [StartWire]) ++ (if hub then [AcceptPeers; SendBeacons] else [])) ++
             startForwarding o c u ++ waited ++
             (if ended then shutdownUplink u ++ (if hub then [CloseListener; ReleaseSeat] else []) ++ [Exit 0] else [])
    end.
Proof.
  unfold runInstance. destruct (setupUplink o c) as [[setup r]|]; [|done]. cbn [mbind go_bind].
  intros H. exists setup, r. split; [done|]. destruct r as [u|e]; [|by injection H as <- <-].
  destruct (waitShutdown _ evs) as [waited b]. exists waited.
  assert (E : (tr, ended) = (if b then ((setup ++ [SetSink; AddPortOf Uplink; AddPortOf Local] ++
      (if wired then [] else [StartWire]) ++ (if hub then [AcceptPeers; SendBeacons] else []) ++ startForwarding o c u) ++
      waited ++ shutdownUplink u ++ (if hub then [CloseListener; ReleaseSeat] else []) ++ [Exit 0], true)
    else ((setup ++ [SetSink; AddPortOf Uplink; AddPortOf Local] ++
      (if wired then [] else [StartWire]) ++ (if hub then [AcceptPeers; SendBeacons] else []) ++ startForwarding o c u) ++
      waited, false))) 
    by (destruct b; injection H as <- <-; reflexivity).
  destruct b; apply pair_eq in E as [-> ->]; (split; [done|]); app_norm; by rewrite ?app_nil_r.
Qed.

(** The phase an act belongs to. *)
Definition phaseOf (a : act) : Z :=
  match a with
  | OpenTap _ | TapReader | NewNAT | TunnelCall _ | NetstackPump => 0
  | SetSink | AddPortOf _ => 1
  | StartWire | AcceptPeers | SendBeacons => 2
  | Forwarding _ | DumpStats | CloseNAT | CloseTap _ | CloseTunnel _ => 3
  | CloseListener | ReleaseSeat => 4
  | Exit _ => 5
  end.

Definition from (lo : Z) (tr : list act) : Prop := Forall (fun a => lo <= phaseOf a) tr.
Definition upTo (hi : Z) (tr : list act) : Prop := Forall (fun a => phaseOf a <= hi) tr.

Lemma from_not lo tr a : from lo tr -> phaseOf a < lo -> a ∉ tr.
Proof. unfold from. rewrite Forall_forall. intros H Ha Hin. specialize (H a Hin). cbn in H. lia. Qed.
Lemma upTo_not hi tr a : upTo hi tr -> hi < phaseOf a -> a ∉ tr.
Proof. unfold upTo. rewrite Forall_forall. intros H Ha Hin. specialize (H a Hin). cbn in H. lia. Qed.

(** The parts of a run, by phase. *)
Lemma runInstance_phases o c (hub wired : bool) evs tr u setup waited :
  setupUplink o c = Done (setup, Ok u) ->
  waitShutdown (bool_decide (is_Some (u_nat u))) evs = (waited, true) ->
  let traffic : list act := (if wired then [] else [StartWire]) ++ (if hub then [AcceptPeers; SendBeacons] else []) in
  let rest := startForwarding o c u ++ waited ++ shutdownUplink u in
  tr = (setup ++ [SetSink]) ++ AddPortOf Uplink :: AddPortOf Local :: traffic ++ startForwarding o c u ++ waited ++
       shutdownUplink u ++ (if hub then [CloseListener; ReleaseSeat] else []) ++ [Exit 0] ->
  exists body, tr = (setup ++ body) ++ (if hub then [CloseListener; ReleaseSeat] else []) ++ [Exit 0] /\
    body = [SetSink; AddPortOf Uplink; AddPortOf Local] ++ traffic ++ rest /\
    upTo 0 setup /\ from 1 body /\ upTo 3 body /\ (forall a, a ∈ rest -> a ∈ body).
Proof.
  intros Hs Hw traffic rest ->. exists ([SetSink; AddPortOf Uplink; AddPortOf Local] ++ traffic ++ rest).
  assert (Hrest : Forall (fun a => phaseOf a = 3) rest).
  { apply Forall_app. split.
    - unfold startForwarding. destruct (u_nat u); [|constructor]. destruct (PortFwd c); [|constructor].
      by apply Forall_fmap, Forall_true.
    - apply Forall_app. split.
      + destruct (waitShutdown_acts _ _ _ _ Hw) as (H & _). apply (Forall_impl _ _ _ H). intros a [->| ->]; done.
      + unfold shutdownUplink. destruct (u_dev u), (u_nat u); try by repeat constructor.
        destruct (u_tunnel u); by repeat constructor. }
  assert (Htraffic : Forall (fun a => phaseOf a = 2) traffic) by (unfold traffic; destruct wired, hub; by repeat constructor).
  split; [by unfold rest; app_norm|]. split; [done|]. split.
  { destruct (setupUplink_ok _ _ _ _ Hs) as [H _]. apply (Forall_impl _ _ _ H). by intros []. }
  split; [|split].
  - apply Forall_app; split; [repeat constructor; cbn; lia|]. apply Forall_app; split.
    + apply (Forall_impl _ _ _ Htraffic). intros a E. lia.
    + apply (Forall_impl _ _ _ Hrest). intros a E. lia.
  - apply Forall_app; split; [repeat constructor; cbn; lia|]. apply Forall_app; split.
    + apply (Forall_impl _ _ _ Htraffic). intros a E. lia.
    + apply (Forall_impl _ _ _ Hrest). intros a E. lia.
  - intros a Ha. rewrite !elem_of_app. auto.
Qed.

(** The set-up's acts are in the set-up. *)
Lemma setup_has (hub : bool) setup body a :
  from 1 body -> phaseOf a = 0 ->
  a ∈ (setup ++ body) ++ (if hub then [CloseListener; ReleaseSeat] else []) ++ [Exit 0] -> a ∈ setup.
Proof.
  intros Hb Ha [[Hin|Hin]%elem_of_app|Hin]%elem_of_app; [done|by apply (from_not _ _ _ Hb) in Hin; [|lia]|].
  assert (Ht : from 1 ((if hub then [CloseListener; ReleaseSeat] else []) ++ [Exit 0]))
    by (destruct hub; repeat constructor; cbn; lia).
  by apply (from_not _ _ _ Ht) in Hin; [|lia].
Qed.

(** Both ports are in the switch before anything feeds it. *)
Lemma ports_first setup rest :
  upTo 0 setup ->
  after (eq (AddPortOf Uplink)) starts ((setup ++ [SetSink]) ++ AddPortOf Uplink :: AddPortOf Local :: rest) /\
  after (eq (AddPortOf Local)) starts ((setup ++ [SetSink]) ++ AddPortOf Uplink :: AddPortOf Local :: rest).
Proof.
  intros P0. assert (Hns : forall l, upTo 1 l -> Forall (fun x => ~ starts x) l).
  { intros l Hl. apply (Forall_impl _ _ _ Hl). intros a Ha [->|[->| ->]]; cbn in Ha; lia. }
  assert (P1 : forall l, upTo 1 l -> upTo 1 (setup ++ l)).
  { intros l Hl. apply Forall_app; split; [|done]. apply (Forall_impl _ _ _ P0). intros a. cbn. lia. }
  split.
  - apply after_split; [done|]. rewrite <- app_assoc. apply Hns, P1. by repeat constructor.
  - change (?p ++ ?x :: ?y :: ?q) with (p ++ [x] ++ y :: q). rewrite app_assoc.
    apply after_split; [done|]. rewrite <- !app_assoc. apply Hns, P1. by repeat constructor.
Qed.

(** What the set-up opened, the shutdown closes. *)
Lemma uplink_closed setup u :
  setup_ok setup u ->
  (forall name, OpenTap name ∈ setup -> exists d, CloseTap d ∈ shutdownUplink u) /\
  (NewNAT ∈ setup -> CloseNAT ∈ shutdownUplink u) /\
  (TunnelCall Tunnel.WatchHandshake ∈ setup -> NewNAT ∈ setup ->
     CloseTunnel Tunnel.DeviceClose ∈ shutdownUplink u).
Proof.
  intros [K1 K2 K3 K4].
  assert (Hnat : NewNAT ∈ setup ->
    shutdownUplink u = (if u_tunnel u then CloseTunnel <$> Tunnel.Close else []) ++ [CloseNAT]).
  { intros Hn%K2. unfold shutdownUplink. rewrite (K3 Hn). by destruct Hn as [n ->]. }
  split_and!.
  - intros name Hn. destruct (K1 _ Hn) as [d Hd]. exists d. unfold shutdownUplink. rewrite Hd. by left.
  - intros Hn. rewrite (Hnat Hn). apply elem_of_app. right. by left.
  - intros Ht Hn. rewrite (Hnat Hn), (K4 Ht). apply elem_of_app. left. right. by left.
Qed.

(** C12: the life of an instance. Whatever the configuration and the outside's answers,
    a process that ends does so once, as its last act: with status 1 when the uplink cannot be set
    up, having done nothing but the set-up steps; otherwise with status 0 - and then both ports
    were in the switch before the reader of the guest's wire, the accept loop and the
    heartbeats started (the tap's reader and the netstack's pump are part of the set-up and
    start earlier), the tap, the NAT and an attached tunnel that were opened have been
    closed, and a hub gave the seat back last, after its listener was closed, so that nobody
    takes the seat while the socket still answers. *)
Theorem instance_lifecycle o c hub wired evs tr :
  runInstance o c hub wired evs = Done (tr, true) ->
  exists before code, tr = before ++ [Exit code] /\ (forall k, Exit k ∉ before) /\
    ((code = 1 /\ Forall setupAct before) \/
     (code = 0 /\ after (eq (AddPortOf Uplink)) starts tr /\ after (eq (AddPortOf Local)) starts tr /\
      (forall name, OpenTap name ∈ tr -> exists d, CloseTap d ∈ tr) /\
      (NewNAT ∈ tr -> CloseNAT ∈ tr) /\
      (TunnelCall Tunnel.WatchHandshake ∈ tr -> NewNAT ∈ tr -> CloseTunnel Tunnel.DeviceClose ∈ tr) /\
      if hub
      then exists pre, before = pre ++ [CloseListener; ReleaseSeat] /\ CloseListener ∉ pre /\ ReleaseSeat ∉ pre
      else CloseListener ∉ before /\ ReleaseSeat ∉ before)).
Proof.
  intros H. apply runInstance_cases in H as (setup & r & Hs & H).
  pose proof (setupUplink_ok _ _ _ _ Hs) as [Hset Hok]. destruct r as [u|e].
  2:{ destruct H as [-> _]. exists setup, 1. split_and!; [done| |left; done].
      intros k Hin. rewrite Forall_forall in Hset. by apply Hset in Hin. }
  destruct H as (waited & Hw & E).
  destruct (runInstance_phases o c hub wired evs tr u setup waited Hs Hw E) as (body & E1 & Eb & P0 & P1 & P3 & Hrest).
  set (tail := if hub then [CloseListener; ReleaseSeat] else []) in *.
  assert (Hx : upTo 3 (setup ++ body)).
  { apply Forall_app; split; [|done]. apply (Forall_impl _ _ _ P0). intros a. cbn. lia. }
  assert (Hin : forall a, phaseOf a = 0 -> a ∈ tr -> a ∈ setup).
  { intros a Ha Hi. rewrite E1 in Hi. by apply (setup_has hub) in Hi. }
  assert (Hclose : forall a, a ∈ startForwarding o c u ++ waited ++ shutdownUplink u -> a ∈ tr).
  { intros a Ha. rewrite E1. apply elem_of_app. left. apply elem_of_app. right. by apply Hrest. }
  exists ((setup ++ body) ++ tail), 0. split; [by rewrite <- app_assoc|]. split.
  { intros k [Hi|Hi]%elem_of_app; [by apply (upTo_not _ _ _ Hx) in Hi|].
    unfold tail in Hi. destruct hub; rewrite ?elem_of_cons in Hi; [|by apply elem_of_nil in Hi].
    destruct Hi as [?|[?|Hi]]; [done..|by apply elem_of_nil in Hi]. }
  right. split; [done|].
  assert (Hdown : forall a, a ∈ shutdownUplink u -> a ∈ tr)
    by (intros a Ha; apply Hclose; rewrite !elem_of_app; auto).
  destruct (ports_first setup ((if wired then [] else [StartWire]) ++ (if hub then [AcceptPeers; SendBeacons] else [])
    ++ startForwarding o c u ++ waited ++ shutdownUplink u ++ tail ++ [Exit 0]) P0) as [F1 F2].
  replace (_ ++ AddPortOf Uplink :: _) with tr in F1, F2 by (rewrite E; by app_norm).
  destruct (uplink_closed setup u Hok) as (C1 & C2 & C3). split_and!; [exact F1|exact F2|..].
  - intros name Hn%Hin; [|done]. destruct (C1 _ Hn) as [d Hd]. eauto.
  - intros Hn%Hin; [|done]. auto.
  - intros Ht%Hin Hn%Hin; [|done..]. auto.
  - unfold tail. destruct hub.
    + exists (setup ++ body). split_and!; [done| |]; apply (upTo_not _ _ _ Hx); cbn; lia.
    + rewrite app_nil_r. split; apply (upTo_not _ _ _ Hx); cbn; lia.
Qed.

(** when it ends. A set-up that succeeds keeps running through any number of SIGUSR1,
    printing the statistics each time, and ends at the first other signal or dead
    link; one that fails ends at once. *)
Theorem instance_ends o c hub wired evs tr ended :
  runInstance o c hub wired evs = Done (tr, ended) ->
  (ended = true <-> (exists setup e, setupUplink o c = Done (setup, Err e)) \/ Exists (fun e => e <> SIGUSR1) evs) /\
  (ended = false -> forall k, Exit k ∉ tr).
Proof.
  intros H. apply runInstance_cases in H as (setup & r & Hs & H).
  pose proof (setupUplink_ok _ _ _ _ Hs) as [Hset Hok]. destruct r as [u|e].
  2:{ destruct H as [-> ->]. split; [|done]. split; [|done]. intros _. left. eauto. }
  destruct H as (waited & Hw & E). destruct (waitShutdown_acts _ _ _ _ Hw) as (Ha & _ & He). split.
  - rewrite He, Hs. split; [by right|]. intros [(? & ? & [=])|?]; done.
  - intros -> k Hin. rewrite E, app_nil_r in Hin. revert Hin. rewrite !elem_of_app, !elem_of_cons, !elem_of_app.
    rewrite Forall_forall in Hset. rewrite Forall_forall in Ha.
    intros [[Hi|Hi]|[?|[?|[[Hi|Hi]|[Hi|Hi]]]]]; try done.
    + by apply Hset in Hi.
    + destruct Hi as [?|Hi]; [done|by apply elem_of_nil in Hi].
    + destruct wired; rewrite ?elem_of_cons in Hi; [|destruct Hi as [?|Hi]; [done|]]; by apply elem_of_nil in Hi.
    + destruct hub; rewrite ?elem_of_cons in Hi; [destruct Hi as [?|[?|Hi]]; try done|]; by apply elem_of_nil in Hi.
    + unfold startForwarding in Hi. destruct (u_nat u); [|by apply elem_of_nil in Hi].
      destruct (PortFwd c); [|by apply elem_of_nil in Hi]. by apply list_elem_of_fmap in Hi as (? & ? & _).
    + by destruct (Ha _ Hi).
Qed.

(** The netstack is closed twice, the first time before the tunnel that is attached to it. *)
Theorem nat_closed_twice o c hub wired evs tr :
  runInstance o c hub wired evs = Done (tr, true) -> Exit 0 ∈ tr -> NewNAT ∈ tr ->
  exists t1 t2 t3, tr = t1 ++ CloseNAT :: t2 ++ CloseNAT :: t3 /\
    (forall k, CloseTunnel k ∉ t1 /\ CloseTunnel k ∉ t3).
Proof.
  intros H H0 Hn. apply runInstance_cases in H as (setup & r & Hs & H).
  pose proof (setupUplink_ok _ _ _ _ Hs) as [Hset Hok]. rewrite Forall_forall in Hset.
  destruct r as [u|e].
  2:{ destruct H as [-> _]. apply elem_of_app in H0 as [H0|H0]; [by apply Hset in H0|].
      by apply list_elem_of_singleton in H0. }
  destruct H as (waited & Hw & E). destruct Hok as [K1 K2 K3 K4].
  destruct (runInstance_phases o c hub wired evs tr u setup waited Hs Hw E) as (body & E1 & Eb & P0 & P1 & P3 & Hrest).
  assert (Hnat : NewNAT ∈ setup).
  { rewrite E1 in Hn. by apply (setup_has hub) in Hn. }
  apply K2 in Hnat as Hu. pose proof (K3 Hu) as Hd. destruct Hu as [n Hu].
  rewrite Hu in Hw. rewrite bool_decide_true in Hw by by eexists.
  destruct (waitShutdown_acts _ _ _ _ Hw) as (Ha & Hc & _). specialize (Hc eq_refl eq_refl).
  apply list_elem_of_split in Hc as (w1 & w2 & ->).
  set (tun := if u_tunnel u then CloseTunnel <$> Tunnel.Close else []).
  assert (Hsd : shutdownUplink u = tun ++ [CloseNAT]) by (unfold shutdownUplink; by rewrite Hd, Hu).
  set (tail := (if hub then [CloseListener; ReleaseSeat] else []) ++ [Exit 0]) in *.
  set (traffic := (if wired then [] else [StartWire]) ++ (if hub then [AcceptPeers; SendBeacons] else [])) in *.
  set (t1 := (setup ++ [SetSink]) ++ ([AddPortOf Uplink; AddPortOf Local] ++ traffic) ++ startForwarding o c u ++ w1).
  exists t1, (w2 ++ tun), tail. split.
  { rewrite E, Hsd. unfold t1. cbn iota. fold tail. app_norm. reflexivity. }
  assert (Hk : forall l, Forall (fun a => match a with CloseTunnel _ => False | _ => True end) l ->
    forall k, CloseTunnel k ∉ l) by (intros l Hl k Hin; rewrite Forall_forall in Hl; by apply Hl in Hin).
  assert (H1 : Forall (fun a => match a with CloseTunnel _ => False | _ => True end) t1).
  { apply Forall_app in Ha as [Ha _]. unfold t1. rewrite !Forall_app. split_and!; try by repeat constructor.
    - apply Forall_forall. intros a Hin. specialize (Hset a Hin). by destruct a.
    - unfold traffic. destruct wired, hub; by repeat constructor.
    - unfold startForwarding. rewrite Hu. destruct (PortFwd c); [|constructor]. by apply Forall_fmap, Forall_true.
    - apply (Forall_impl _ _ _ Ha). by intros a [->| ->]. }
  assert (H3 : Forall (fun a => match a with CloseTunnel _ => False | _ => True end) tail)
    by (unfold tail; destruct hub; by repeat constructor).
  intros k. split; [by apply Hk|by apply Hk].
Qed.

End Life.

(** ** Theorems: the tap's reader *)

(** The host's frames enter the switch in order: until its first failed read, whatever the
    other goroutines do, the reader does not panic and forwards exactly the frames with an
    Ethernet header, on the uplink's port. *)
Theorem tapReader_pumps turns sw :
  wf sw -> Forall turn_ok turns ->
  returns (tapReader turns sw) (fun '(sw', _, fs, gone) =>
    wf sw' /\ fs = filter (fun f => 14 <= len f) (untilErr recv turns).1.*2 /\
    gone = bool_decide (is_Some (untilErr recv turns).2)).
Proof.
  intros Hwf Ht. revert sw Hwf. induction Ht as [|t turns [Henv Hfit] Ht IH]; intros sw Hwf.
  { by apply returns_done. }
  specialize (Henv sw Hwf). cbn [tapReader untilErr]. destruct (recv t) as [f|e]; [|by apply returns_done].
  destruct (untilErr recv turns) as [l er]. cbn [fst snd fmap list_fmap] in *.
  destruct (Z.leb_spec 14 (len f)).
  - apply returns_bind. eapply returns_mono; [|by apply Forward_fits; auto]. intros r Hr.
    apply returns_bind. eapply returns_mono; [|by apply IH].
    intros [[[sw' evs] fs] gone] (Hw & -> & ->). apply returns_done.
    split_and!; try done. by rewrite filter_cons_True by lia.
  - eapply returns_mono; [|by apply IH]. intros [[[sw' evs] fs] gone] (Hw & -> & ->).
    split_and!; try done. by rewrite filter_cons_False by lia.
Qed.

(** ** Theorems: main *)

(** C26: from the command line to the configuration. On the command line UML execs, with
    vnl parameters that are settings, [main] starts with the descriptor and the name it was
    given and with the configuration of config.yaml (or the defaults) under the settings, in
    order; it runs without a switch exactly when that configuration says so; an explicit socket
    is taken as it is; and for a configured MTU below 2^32 the link's MTU is between 68 and
    9216: the configured one if it is in that range and 9216 if not. Without a descriptor, or
    with a configuration that cannot be read, it exits. *)
Theorem main_starts h dirOf name fd kvs self cfg :
  name <> ""%string -> 0 <= fd < 2 ^ 63 -> Forall wf_setting kvs ->
  Executable h = Ok self ->
  Load (unmarshal h) (ReadConfig h (FilepathJoin [dirOf self; "config.yaml"]%string)) = Ok cfg ->
  let argv := ["--descr"; name; "seqpacket://" +:+ Itoa fd; "slirp://" +:+ printVNL kvs]%string in
  let c := foldl applyKV cfg kvs in
  exists st, main h dirOf argv = Ok st /\ s_fd st = fd /\ s_descr st = name /\ s_cfg st = c /\
    s_switch st = SwitchEnabled c /\
    (MTU c < 2 ^ 32 -> 68 <= s_mtu st <= 9216 /\ (68 <= MTU c <= 9216 -> s_mtu st = MTU c) /\
       (MTU c < 68 \/ 9216 < MTU c -> s_mtu st = 9216)) /\
    (Socket c <> ""%string -> s_sock st = Socket c) /\
    (forall argv', (Main.parseArgs argv').1.2 < 0 -> ~ is_Ok (main h dirOf argv')) /\
    (forall h' self' e, Executable h' = Ok self' ->
       Load (unmarshal h') (ReadConfig h' (FilepathJoin [dirOf self'; "config.yaml"]%string)) = Err e ->
       ~ is_Ok (main h' dirOf argv)).
Proof.
  intros Hn Hfd Hk Hself Hload argv c.
  destruct (Main.parseArgs_exec name fd (printVNL kvs) Hn Hfd) as (E & _ & Ev).
  unfold main at 1. fold argv in E. rewrite E. destruct (Z.ltb_spec fd 0); [lia|].
  rewrite Hself. cbn [mbind result_bind]. rewrite Hload. cbn [mbind result_bind].
  rewrite Ev, ApplyVNL_settings by done. fold c. eexists. split; [reflexivity|]. cbn.
  split_and!; try done.
  - by apply Main.linkMTU_range.
  - intros Hs. unfold Main.resolveSwitchSocket. destruct (String.eqb_spec (Socket c) ""); [done|]. done.
  - intros argv' Hneg [st Hst]. unfold main in Hst. destruct (Main.parseArgs argv') as [[d f] v]. cbn in Hneg.
    destruct (Z.ltb_spec f 0); [done|lia].
  - intros h' self' e Hx Hl [st Hst]. unfold main in Hst. rewrite E in Hst.
    destruct (Z.ltb_spec fd 0); [lia|]. rewrite Hx in Hst. cbn [mbind result_bind] in Hst. by rewrite Hl in Hst.
Qed.

(** ** Evaluations *)

Definition demoHost : host :=
  mkHost (Ok "/opt/uml/vde_plug"%string) (fun _ => NotExist) (fun _ c => Ok c) (fun _ => ""%string)
    (fun d => Some (String.eqb d "/tmp")) (fun _ => true).

Theorem main_starts_witness :
  exists st, main demoHost (fun _ => "/opt/uml"%string)
      ["--descr"; "eth0"; "seqpacket://7"; "slirp://switch=0/mtu=1400"]%string = Ok st /\
    s_fd st = 7 /\ s_switch st = false /\ s_mtu st = 1400.
Proof.
  destruct (main_starts demoHost (fun _ => "/opt/uml"%string) "eth0" 7 [("switch", "0"); ("mtu", "1400")]%string
    "/opt/uml/vde_plug" Defaults) as (st & H1 & H2 & _ & _ & H5 & H6 & _).
  - discriminate.
  - lia.
  - repeat constructor.
  - reflexivity.
  - reflexivity.
  - exists st. split; [exact H1|]. split; [exact H2|]. split; [exact H5|].
    assert (E : MTU (foldl applyKV Defaults [("switch", "0"); ("mtu", "1400")]%string) = 1400) by (vm_compute; reflexivity).
    rewrite E in H6. apply H6; lia.
Defined.

Definition demoOutside : outside :=
  mkOutside (Tap.mkKernel true (fun _ r => Ok r)) {[0; 1; 2; 3]}%nat (fun _ => None) None (Some demoResolv)
    Tunnel.demoEnv (fun _ => true) (Ok "/home/uml"%string) (fun _ => Ok [("wg0.conf", false)]%string)
    (fun _ => Ok Wg.demoText) (fun i _ _ => Ok (100 + i)%nat) ∅ (fun _ => []).

Definition demoLife (c : Config) (hub : bool) : list act :=
  match runInstance demoOutside c hub false [SIGUSR1; SIGTERM] with Done (tr, _) => tr | Panic => [] end.

Lemma demoLife_ok c hub :
  match runInstance demoOutside c hub false [SIGUSR1; SIGTERM] with Done (_, e) => e | Panic => false end = true ->
  runInstance demoOutside c hub false [SIGUSR1; SIGTERM] = Done (demoLife c hub, true).
Proof. unfold demoLife. destruct (runInstance _ _ _ _ _) as [[tr e]|]; [|done]. by intros ->. Qed.

Definition exitsWell (tr : list act) : bool :=
  match last tr with Some (Exit k) => k =? 0 | _ => false end.

Theorem instance_lifecycle_witness :
  exists pre, demoLife (setUplink "wireguard" Defaults) true = (pre ++ [CloseListener; ReleaseSeat]) ++ [Exit 0].
Proof.
  assert (H := demoLife_ok (setUplink "wireguard" Defaults) true ltac:(vm_compute; reflexivity)).
  destruct (instance_lifecycle demoOutside (setUplink "wireguard" Defaults) true false [SIGUSR1; SIGTERM] _ H)
    as (before & code & E & _ & [[-> Hs]|(-> & _ & _ & _ & _ & _ & pre & Eb & _)]).
  - exfalso. assert (El : exitsWell (demoLife (setUplink "wireguard" Defaults) true) = true) by (vm_compute; reflexivity).
    unfold exitsWell in El. rewrite E, last_snoc in El. discriminate El.
  - exists pre. rewrite <- Eb. exact E.
Defined.

Theorem instance_ends_witness :
  exists tr, runInstance demoOutside (setUplink "none" Defaults) true false [SIGUSR1; SIGUSR1] = Done (tr, false) /\
    Exit 0 ∉ tr.
Proof.
  eexists. split; [reflexivity|].
  exact (proj2 (instance_ends demoOutside (setUplink "none" Defaults) true false [SIGUSR1; SIGUSR1] _ false eq_refl) eq_refl 0).
Defined.
