(* ===== verification/Machine.v ===== *)
(** * Machine: what the instances of one machine do

    The processes of one machine, each with the configuration it was started with. Those in
    switch mode on one socket run the state machine of Fleet.v; the one that becomes the hub
    runs [Program.runInstance], and a process with the switch off runs it on its own: the trace of
    its acts is carried out one act at a time, while the other
    processes, crashes and older binaries go on. What happens is kept in a
    log, and the log is what the theorem is about. *)
From S2P Require Import Prelude.
From S2P Require UnixSeq.
From S2P Require Config.
From S2P Require Import Nat.
From S2P Require Tap.
From S2P Require Import Program.
From S2P Require Fleet.
Import Fleet (insts, Hub).

Section Machine.
Context `{T : Tcpip}.
Variables (sockPath : string) (mode : Z).

(** ** State and steps *)

Inductive entry := Began (i : nat) | Did (i : nat) (a : act) | Died (i : nat).

(** [boot]: the configurations of the processes; [solo]: those with the switch off;
    [todo]: what is left of the acts of each [runInstance]. *)
Record machine := mkMachine {
  fl : Fleet.fleet;
  boot : gmap nat Config.Config;
  solo : gset nat;
  todo : gmap nat (list act);
  log : list entry;
}.

Definition machine0 (fs : gmap string UnixSeq.node) : machine := mkMachine (Fleet.initial fs) ∅ ∅ ∅ [].

Definition setFl (f : Fleet.fleet) (m : machine) : machine :=
  mkMachine f (boot m) (solo m) (todo m) (log m).
(** Process [i] logs [e]; [r] is left to do. *)
Definition goOn (i : nat) (r : option (list act)) (e : entry) (m : machine) : machine :=
  mkMachine (fl m) (boot m) (solo m) (partial_alter (fun _ => r) i (todo m)) (log m ++ [e]).

Inductive event :=
| Launch (i : nat) (st : start)                                (* what [main] came to *)
| Turn (e : Fleet.event)                                       (* a turn of the loop, or a crash *)
| Serve (i : nat) (o : outside) (evs : list wakeup)            (* [runInstance] *)
| Act (i : nat).                                               (* its next act *)

(** [main]'s last lines: [runInstance(nil, nil)] or [loop]. A process on another socket
    belongs to another fleet. *)
Definition launch (i : nat) (st : start) (m : machine) : machine :=
  match boot m !! i with
  | Some _ => m
  | None =>
      let m' f solo := mkMachine f (<[i := s_cfg st]> (boot m)) solo (todo m) (log m) in
      if s_switch st then
        if String.eqb (s_sock st) sockPath then
          match Fleet.step sockPath mode (Fleet.Spawn i) (fl m) with
          | Some f => m' f (solo m)
          | None => m
          end
        else m
      else match insts (fl m) !! i with None => m' (fl m) ({[i]} ∪ solo m) | Some _ => m end
  end.

(** The end of a process that does not clean up: a crash, [fatalf], a panic. *)
Definition die (i : nat) (m : machine) : machine :=
  if decide (i ∈ solo m) then goOn i None (Died i) m else
  match Fleet.step sockPath mode (Fleet.Does i Fleet.Crash) (fl m) with
  | Some f => goOn i None (Died i) (setFl f m)
  | None => m
  end.

(** [runInstance] begins: the hub's, once it has bound the socket, or the one of a process with
    the switch off; once per process. *)
Definition began (i : nat) (es : list entry) : bool :=
  existsb (fun e => match e with Began j => (j =? i)%nat | _ => false end) es.

Definition begins (i : nat) (m : machine) : option bool :=
  if decide (i ∈ solo m) then (if began i (log m) then None else Some false)
  else match todo m !! i, insts (fl m) !! i with
       | None, Some (Hub _ _) => Some true
       | _, _ => None
       end.

Definition serve (i : nat) (o : outside) (evs : list wakeup) (m : machine) : machine :=
  match begins i m, boot m !! i with
  | Some hub, Some c =>
      match runInstance o c hub hub evs with
      | Done (tr, _) => goOn i (Some tr) (Began i) m
      | Panic => die i m
      end
  | _, _ => m
  end.

(** The listener's and the seat's acts are the fleet's; the rest of [ln.Close] are turns of
    it. *)
Definition doAct (i : nat) (m : machine) : machine :=
  match todo m !! i with
  | Some (CloseListener :: rest) =>
      match Fleet.step sockPath mode (Fleet.Does i Fleet.Shutdown) (fl m) with
      | Some f => goOn i (Some rest) (Did i CloseListener) (setFl f m)
      | None => m
      end
  | Some (ReleaseSeat :: rest) =>
      match Fleet.step sockPath mode (Fleet.Does i Fleet.Release) (fl m) with
      | Some f => goOn i (Some rest) (Did i ReleaseSeat) (setFl f m)
      | None => m
      end
  | Some (Exit _ :: _) => die i m
  | Some (a :: rest) => goOn i (Some rest) (Did i a) m
  | _ => m
  end.

Definition mstep (e : event) (m : machine) : machine :=
  match e with
  | Launch i st => launch i st m
  | Turn (Fleet.Does i Fleet.Crash) => die i m
  | Turn (Fleet.Does i Fleet.Shutdown) | Turn (Fleet.Spawn i) => m
  | Turn e =>
      let released := match e with
                      | Fleet.Does i Fleet.Release => bool_decide (is_Some (todo m !! i))
                      | _ => false
                      end in
      if released then m else
      match Fleet.step sockPath mode e (fl m) with
      | Some f => setFl f m
      | None => m
      end
  | Serve i o evs => serve i o evs m
  | Act i => doAct i m
  end.

Definition mrun (evs : list event) (m : machine) : machine := foldl (fun m e => mstep e m) m evs.

(** ** Uplinks that are up *)

Definition opens (a : act) : bool := match a with NewNAT | OpenTap _ => true | _ => false end.
Definition shuts (a : act) : bool := match a with CloseNAT | CloseTap _ => true | _ => false end.

(** Whether the uplink of a trace's process is up at its end. *)
Definition isUp (tr : list act) : bool :=
  foldl (fun b a => if opens a then true else if shuts a then false else b) false tr.

(** The acts of [i] in its [runInstance], while the process lives. *)
Fixpoint actsOf (i : nat) (es : list entry) (acc : list act) : list act :=
  match es with
  | [] => acc
  | Did j a :: es => actsOf i es (if decide (i = j) then acc ++ [a] else acc)
  | Began j :: es | Died j :: es => actsOf i es (if decide (i = j) then [] else acc)
  end.

Definition up (i : nat) (es : list entry) : bool := isUp (actsOf i es []).

Lemma actsOf_app i es1 es2 acc : actsOf i (es1 ++ es2) acc = actsOf i es2 (actsOf i es1 acc).
Proof. revert acc. induction es1 as [|[j|j a|j] es1 IH]; intros acc; cbn [actsOf app]; [done|apply IH..]. Qed.

Lemma isUp_app tr1 tr2 :
  isUp (tr1 ++ tr2) = foldl (fun b a => if opens a then true else if shuts a then false else b) (isUp tr1) tr2.
Proof. apply foldl_app. Qed.

Lemma isUp_snoc tr a : isUp (tr ++ [a]) = if opens a then true else if shuts a then false else isUp tr.
Proof. by rewrite isUp_app. Qed.

(** Nothing opened, nothing up; a close at the end, nothing up. *)
Lemma isUp_none tr : Forall (fun a => opens a = false) tr -> isUp tr = false.
Proof.
  induction tr as [|a tr IH] using rev_ind; [done|]. intros [Ht Ha]%Forall_app.
  apply Forall_cons in Ha as [Ha _]. rewrite isUp_snoc, Ha, IH by done. by destruct (shuts a).
Qed.

Lemma isUp_neutral tr1 tr2 :
  Forall (fun a => opens a = false) tr2 -> isUp tr1 = false -> isUp (tr1 ++ tr2) = false.
Proof.
  induction tr2 as [|a tr2 IH] using rev_ind; [by rewrite app_nil_r|]. intros [Ht Ha]%Forall_app H1.
  apply Forall_cons in Ha as [Ha _]. rewrite app_assoc, isUp_snoc, Ha, IH by done. by destruct (shuts a).
Qed.

(** ** The traces of [runInstance], seen from their end *)

Lemma runInstance_trace o c (hub : bool) evs tr ended :
  runInstance o c hub hub evs = Done (tr, ended) ->
  exists body tail, tr = body ++ tail /\ upTo 3 body /\
    (tail = [] \/ tail = [Exit 1] \/
     (tail = (if hub then [CloseListener; ReleaseSeat] else []) ++ [Exit 0] /\ isUp body = false)).
Proof.
  intros (setup & r & Hs & Hr)%runInstance_cases. destruct (setupUplink_ok _ _ _ _ Hs) as [Hset Hu].
  assert (Hset3 : upTo 3 setup) by (apply (Forall_impl _ _ _ Hset); intros [] Ha; (done || (cbn; lia))).
  destruct r as [u|e]; [|destruct Hr as [-> _]; exists setup, [Exit 1]; by auto].
  destruct Hr as (waited & Hw & ->). destruct (waitShutdown_acts _ _ _ _ Hw) as (Hwa & _).
  set (mid := [SetSink; AddPortOf VSwitch.Uplink; AddPortOf VSwitch.Local] ++
              ((if hub then [] else [StartWire]) ++ (if hub then [AcceptPeers; SendBeacons] else [])) ++
              startForwarding o c u ++ waited).
  assert (Hmid : Forall (fun a => phaseOf a <= 3 /\ opens a = false) mid).
  { unfold mid. apply Forall_app. split; [by repeat constructor|]. apply Forall_app. split.
    { destruct hub; by repeat constructor. }
    apply Forall_app. split.
    - unfold startForwarding. destruct (u_nat u); [|constructor]. destruct (Config.PortFwd c); [|constructor].
      apply Forall_fmap, Forall_true. by split.
    - apply (Forall_impl _ _ _ Hwa). intros a [->| ->]; by split. }
  assert (Hmid3 : upTo 3 mid) by by apply (Forall_impl _ _ _ Hmid); intros a [? _].
  destruct ended.
  - exists (setup ++ mid ++ shutdownUplink u), ((if hub then [CloseListener; ReleaseSeat] else []) ++ [Exit 0]).
    split; [unfold mid; by app_norm|]. split.
    { apply Forall_app_2; [done|]. apply Forall_app_2; [done|]. unfold shutdownUplink.
      destruct (u_dev u), (u_nat u), (u_tunnel u); by repeat constructor. }
    right; right. split; [done|]. unfold shutdownUplink. destruct (u_dev u) as [d|] eqn:Ed.
    { by rewrite app_assoc, isUp_snoc. }
    destruct (u_nat u) as [nt|] eqn:En; [by rewrite !app_assoc, isUp_snoc|].
    rewrite app_nil_r. apply isUp_none, Forall_app. split; [|by apply (Forall_impl _ _ _ Hmid); intros a [_ ?]].
    apply Forall_forall. intros a Ha. destruct a; try done; exfalso.
    + destruct (su_tap _ _ Hu _ Ha) as [d Hd]. congruence.
    + apply (su_nat _ _ Hu) in Ha as [x Hx]. congruence.
  - exists (setup ++ mid), []. split; [unfold mid; by app_norm|]. split; [by apply Forall_app|by left].
Qed.

(** The next act of a hub that has not closed its listener. *)
Lemma next_act o c evs tr ended dn a rest :
  runInstance o c true true evs = Done (tr, ended) -> tr = dn ++ a :: rest -> CloseListener ∉ dn ->
  a <> ReleaseSeat /\ (a = CloseListener -> rest = [ReleaseSeat; Exit 0] /\ isUp dn = false).
Proof.
  intros (body & tail & -> & Hb & Ht)%runInstance_trace E Hn. cbn in Ht.
  assert (Hbody : forall x, x ∈ body -> phaseOf x <= 3) by by apply Forall_forall.
  destruct (app_eq_inv _ _ _ _ E) as [(k & -> & Ek)|(k & -> & Ek)].
  - destruct k as [|x k].
    + rewrite app_nil_r in *. cbn in Ek. destruct Ht as [-> |[-> |[-> Hup]]]; [done| |];
        injection Ek as -> ->; split; try done; by intros.
    + injection Ek as <- Ek. assert (Ha : phaseOf a <= 3) by (apply Hbody; set_solver).
      split; [|intros ->; cbn in Ha; lia]. intros ->. cbn in Ha. lia.
  - destruct k as [|x [|y [|z k]]]; destruct Ht as [-> |[-> |[-> Hup]]]; try done.
    + cbn in Ek. injection Ek as <- <-. by split.
    + cbn in Ek. injection Ek as <- <-. rewrite app_nil_r. by split.
    + cbn in Ek. injection Ek as <- <- <-. destruct Hn. set_solver.
    + cbn in Ek. injection Ek as <- <- <- <-. by split.
    + cbn in Ek. by destruct k.
Qed.

(** Without a switch there is nothing of the kind. *)
Lemma solo_acts o c evs tr ended :
  runInstance o c false false evs = Done (tr, ended) -> CloseListener ∉ tr /\ ReleaseSeat ∉ tr.
Proof.
  intros (body & tail & -> & Hb & Ht)%runInstance_trace. cbn in Ht. split.
  all: intros [Hin|Hin]%elem_of_app; [apply (upTo_not _ _ _ Hb) in Hin; [done|cbn; lia]|].
  all: destruct Ht as [->|[->|[-> _]]]; set_solver.
Qed.

(** ** The invariant *)

(** How far a hub is: it has not closed its listener, has yet to release the seat, or to end. *)
Definition stage (i : nat) (dn rest : list act) (f : Fleet.fleet) : Prop :=
  (CloseListener ∉ dn /\ exists fd ln, insts f !! i = Some (Hub fd ln)) \/
  (rest = [ReleaseSeat; Exit 0] /\ isUp dn = false /\
     exists ph fd, insts f !! i = Some ph /\ Fleet.seatOf ph = Some fd) \/
  (rest = [Exit 0] /\ isUp dn = false).

Record inv (m : machine) : Prop := {
  mi_fleet : Fleet.inv sockPath (fl m);
  mi_boot : forall i rest, todo m !! i = Some rest -> is_Some (boot m !! i);
  mi_known : forall i, i ∈ solo m \/ is_Some (insts (fl m) !! i) -> is_Some (boot m !! i);
  mi_solo : forall i rest, i ∈ solo m -> todo m !! i = Some rest -> CloseListener ∉ rest /\ ReleaseSeat ∉ rest;
  mi_todo : forall i rest, i ∉ solo m -> todo m !! i = Some rest ->
    stage i (actsOf i (log m) []) rest (fl m) /\
    exists o c evs ended, runInstance o c true true evs = Done (actsOf i (log m) [] ++ rest, ended);
  mi_down : forall i, i ∉ solo m -> todo m !! i = None -> up i (log m) = false;
  mi_release : forall i j l1 l2, j ∉ solo m -> log m = l1 ++ Did i ReleaseSeat :: l2 -> up j l1 = false;
}.

Lemma inv_machine0 fs : inv (machine0 fs).
Proof.
  split; cbn; [apply Fleet.inv_initial|done| |done..|].
  - intros i [Hi|[x Hx]]; [set_solver|]. by rewrite lookup_empty in Hx.
  - intros i j l1 l2 _ E. by destruct l1.
Qed.

(** An uplink that is up is that of a hub that serves. *)
Lemma up_hub m i : inv m -> i ∉ solo m -> up i (log m) = true -> exists fd ln, insts (fl m) !! i = Some (Hub fd ln).
Proof.
  intros Hi Hs Hup. destruct (todo m !! i) as [rest|] eqn:Ht; [|by rewrite (mi_down m Hi i Hs Ht) in Hup].
  destruct (mi_todo m Hi i rest Hs Ht) as [[[_ Hh]|[(_ & Hd & _)|[_ Hd]]] _]; [done|..]; unfold up in Hup; congruence.
Qed.

(** Whoever is under the seat is the only one with an uplink. *)
Lemma up_seat m i j ph fd :
  inv m -> insts (fl m) !! i = Some ph -> Fleet.seatOf ph = Some fd -> up i (log m) = false ->
  j ∉ solo m -> up j (log m) = false.
Proof.
  intros Hi Hp Hs Hd Hj. destruct (up j (log m)) eqn:Hup; [|done].
  destruct (up_hub m j Hi Hj Hup) as (fd' & ln & Hh).
  assert (j = i) as -> by (eapply (Fleet.seat_unique sockPath _ j i _ _ fd' fd (mi_fleet m Hi) Hh Hp); done).
  congruence.
Qed.

(** Entries of others leave a process as it is. *)
Definition about (e : entry) : nat := match e with Began i | Did i _ | Died i => i end.

Lemma actsOf_other i e es : about e <> i -> actsOf i (es ++ [e]) [] = actsOf i es [].
Proof.
  intros He. rewrite actsOf_app. destruct e as [j|j a|j]; cbn in He |- *; by rewrite decide_False.
Qed.

Lemma actsOf_did i a es : actsOf i (es ++ [Did i a]) [] = actsOf i es [] ++ [a].
Proof. rewrite actsOf_app. cbn. by rewrite decide_True. Qed.

(** The fleet moves by a turn of [i]'s: the others stay. *)
Definition movesOnly (i : nat) (f f' : Fleet.fleet) : Prop :=
  Fleet.inv sockPath f' /\ forall j, j <> i -> insts f' !! j = insts f !! j.

Lemma step_moves i t f f' :
  Fleet.inv sockPath f -> Fleet.step sockPath mode (Fleet.Does i t) f = Some f' -> movesOnly i f f'.
Proof.
  intros Hi E. split; [by eapply Fleet.step_inv|]. intros j Hne.
  apply (Fleet.step_others sockPath mode _ _ _ j E). cbn. congruence.
Qed.

(** Process [i] moves on. *)
Lemma inv_goOn m f i r e :
  inv m -> movesOnly i (fl m) f -> about e = i -> is_Some (boot m !! i) ->
  (forall rest, r = Some rest -> i ∈ solo m -> CloseListener ∉ rest /\ ReleaseSeat ∉ rest) ->
  (forall rest, r = Some rest -> i ∉ solo m -> stage i (actsOf i (log m ++ [e]) []) rest f /\
     exists o c evs ended, runInstance o c true true evs = Done (actsOf i (log m ++ [e]) [] ++ rest, ended)) ->
  (r = None -> up i (log m ++ [e]) = false) ->
  (e = Did i ReleaseSeat -> forall j, j ∉ solo m -> up j (log m) = false) ->
  inv (goOn i r e (setFl f m)).
Proof.
  intros Hi [Hf Hk] He Hboot Hsolo Hr Hd Hrel.
  assert (Hoth : forall j, j <> i -> actsOf j (log m ++ [e]) [] = actsOf j (log m) []).
  { intros j Hne. apply actsOf_other. congruence. }
  split; cbn [fl todo log solo boot goOn setFl].
  - done.
  - intros j rest. destruct (decide (j = i)) as [->|Hne]; [done|]. rewrite lookup_partial_alter_ne by done.
    apply (mi_boot m Hi).
  - intros j Hj. destruct (decide (j = i)) as [->|Hne]; [done|]. apply (mi_known m Hi). by rewrite <- Hk.
  - intros j rest Hj. destruct (decide (j = i)) as [->|Hne]; [rewrite lookup_partial_alter_eq; by intros ->; apply Hsolo|].
    rewrite lookup_partial_alter_ne by done. by apply (mi_solo m Hi).
  - intros j rest Hj. destruct (decide (j = i)) as [->|Hne]; [rewrite lookup_partial_alter_eq; by intros ->; apply Hr|].
    rewrite lookup_partial_alter_ne by done. intros Ht. rewrite Hoth by done.
    destruct (mi_todo m Hi j rest Hj Ht) as [Hst Hrun]. split; [|done]. unfold stage. by rewrite Hk.
  - intros j Hj. destruct (decide (j = i)) as [->|Hne]; [rewrite lookup_partial_alter_eq; by apply Hd|].
    rewrite lookup_partial_alter_ne by done. unfold up. rewrite Hoth by done. by apply (mi_down m Hi).
  - intros k j l1 l2 Hj E. destruct (app_eq_inv _ _ _ _ E) as [(x & El & Ek)|(x & -> & Ek)].
    + destruct x as [|y x].
      * rewrite app_nil_r in El. subst l1. cbn in Ek. injection Ek as <- _. cbn in He. subst k. by apply Hrel.
      * injection Ek as <- Ek. by eapply (mi_release m Hi).
    + destruct x as [|y [|]]; cbn in Ek; try done. injection Ek as -> _. cbn in He. subst k.
      rewrite app_nil_r. by apply Hrel.
Qed.

Lemma movesOnly_refl i f : Fleet.inv sockPath f -> movesOnly i f f.
Proof. by split. Qed.

Lemma setFl_same m : setFl (fl m) m = m.
Proof. by destruct m. Qed.

Lemma die_inv i m : inv m -> inv (die i m).
Proof.
  intros Hi. unfold die.
  assert (Hup : up i (log m ++ [Died i]) = false) by (unfold up; rewrite actsOf_app; cbn; by rewrite decide_True).
  destruct (decide (i ∈ solo m)) as [Hs|Hs].
  - rewrite <- (setFl_same m). apply inv_goOn; try done; [apply movesOnly_refl, Hi|].
    apply (mi_known m Hi). by left.
  - destruct (Fleet.step sockPath mode (Fleet.Does i Fleet.Crash) (fl m)) as [f|] eqn:E; [|done].
    apply inv_goOn; try done; [eapply step_moves; [apply Hi|exact E]|].
    apply (mi_known m Hi). right. cbn in E. destruct (insts (fl m) !! i); [by eexists|done].
Qed.

Lemma launch_inv i st m : inv m -> inv (launch i st m).
Proof.
  intros Hi. unfold launch. destruct (boot m !! i) eqn:Hb; [done|].
  assert (Hnt : todo m !! i = None).
  { destruct (todo m !! i) as [rest|] eqn:Ht; [|done]. destruct (mi_boot m Hi i rest Ht). congruence. }
  assert (Hni : insts (fl m) !! i = None).
  { destruct (insts (fl m) !! i) eqn:E; [|done]. destruct (mi_known m Hi i) as [x Hx]; [right; by eexists|congruence]. }
  assert (Hboot : forall j c', is_Some (boot m !! j) -> is_Some (<[i := c']> (boot m) !! j)).
  { intros j c' [x Hx]. destruct (decide (i = j)) as [<-|]; [congruence|]. rewrite lookup_insert_ne by done. by eexists. }
  destruct (s_switch st).
  - destruct (String.eqb (s_sock st) sockPath); [|done]. cbn [Fleet.step]. rewrite Hni.
    assert (Hsp : Fleet.inv sockPath (Fleet.mkFleet (<[i:=Fleet.Discover Fleet.backoff0]> (insts (fl m)))
      (Fleet.kern (fl m)) (Fleet.os (fl m)) (Fleet.others (fl m)))) by (apply Fleet.inv_spawn; [apply Hi|done]).
    destruct Hi as [H1 H2 HK H3 H4 H5 H6]. split; cbn; [done| | |done| |done|done].
    + intros j rest Hj. by eapply Hboot, H2.
    + intros j Hj. destruct (decide (i = j)) as [<-|Hne]; [rewrite lookup_insert_eq; by eexists|].
      rewrite lookup_insert_ne in Hj by done. rewrite lookup_insert_ne by done. by apply HK.
    + intros j rest Hj Ht. destruct (H4 j rest Hj Ht) as [Hst Hrun]. split; [|done].
      assert (i <> j) by congruence. unfold stage in *. cbn. by rewrite lookup_insert_ne.
  - rewrite Hni. destruct Hi as [H1 H2 HK H3 H4 H5 H6]. split; cbn; [done|..].
    + intros j rest Hj. by eapply Hboot, H2.
    + intros j Hj. destruct (decide (i = j)) as [<-|Hne]; [rewrite lookup_insert_eq; by eexists|].
      rewrite lookup_insert_ne by done. apply HK. set_solver.
    + intros j rest [->%elem_of_singleton|Hj]%elem_of_union Ht; [congruence|by apply (H3 j)].
    + intros j rest Hj. apply H4. set_solver.
    + intros j Hj. apply H5. set_solver.
    + intros k j l1 l2 Hj. apply H6. set_solver.
Qed.

Lemma serve_inv i o evs m : inv m -> inv (serve i o evs m).
Proof.
  intros Hi. unfold serve. destruct (begins i m) as [hub|] eqn:Hb; [|done].
  destruct (boot m !! i) as [c|] eqn:Hc; [|done].
  destruct (runInstance o c hub hub evs) as [[tr ended]|] eqn:Er; [|by apply die_inv].
  assert (Ha : actsOf i (log m ++ [Began i]) [] = []) by (rewrite actsOf_app; cbn; by rewrite decide_True).
  unfold begins in Hb.
  rewrite <- (setFl_same m). apply inv_goOn; try done; [apply movesOnly_refl, Hi|..].
  - intros rest [= <-] Hs. rewrite decide_True in Hb by done. destruct (began i (log m)); [done|].
    injection Hb as <-. by eapply solo_acts.
  - intros rest [= <-] Hs. rewrite decide_False in Hb by done. rewrite Ha.
    destruct (todo m !! i); [done|]. destruct (insts (fl m) !! i) as [[| | | |fd ln| | |]|] eqn:Hh; try done.
    injection Hb as <-. split; [|by eauto]. left. split; [set_solver|]. by eauto.
Qed.

Lemma doAct_inv i m : inv m -> inv (doAct i m).
Proof.
  intros Hi. unfold doAct. destruct (todo m !! i) as [[|a rest]|] eqn:Ht; [done| |done].
  pose proof (mi_boot m Hi i _ Ht) as Hboot.
  assert (Hgo : forall f, movesOnly i (fl m) f -> (a = CloseListener \/ a = ReleaseSeat -> i ∈ solo m -> False) ->
    (i ∉ solo m -> stage i (actsOf i (log m) [] ++ [a]) rest f) ->
    (a = ReleaseSeat -> forall j, j ∉ solo m -> up j (log m) = false) ->
    inv (goOn i (Some rest) (Did i a) (setFl f m))).
  { intros f Hm Hno Hst Hrel. apply inv_goOn; try done.
    - intros r [= <-] Hs. destruct (mi_solo m Hi i _ Hs Ht). set_solver.
    - intros r [= <-] Hs. rewrite actsOf_did. split; [by apply Hst|].
      destruct (mi_todo m Hi i _ Hs Ht) as (_ & o & c & evs & ended & Hrun). rewrite <- app_assoc. by eauto 10.
    - intros [= ->] j Hj. by apply Hrel. }
  assert (Hno : a = CloseListener \/ a = ReleaseSeat -> i ∈ solo m -> False).
  { intros Ha Hs. destruct (mi_solo m Hi i _ Hs Ht) as [N1 N2]. destruct Ha as [->| ->]; set_solver. }
  assert (Hplain : a <> CloseListener -> a <> ReleaseSeat -> (forall k, a <> Exit k) ->
    inv (goOn i (Some rest) (Did i a) m)).
  { intros N1 N2 N3. rewrite <- (setFl_same m). apply Hgo; [apply movesOnly_refl, Hi|done| |done].
    intros Hs. destruct (mi_todo m Hi i _ Hs Ht) as [[[Hcl Hh]|[([= -> _] & _)|([= -> _] & _)]] _];
      [|done|by destruct (N3 0)]. left. split; [set_solver|done]. }
  destruct a; try (by apply Hplain); [| |by apply die_inv].
  - destruct (Fleet.step sockPath mode (Fleet.Does i Fleet.Shutdown) (fl m)) as [f|] eqn:E; [|done].
    pose proof (step_moves _ _ _ _ (mi_fleet m Hi) E) as Hm. apply Hgo; [done|by intros; eapply Hno|..|done].
    intros Hs. destruct (mi_todo m Hi i _ Hs Ht) as [Hst (o & c & evs & ended & Hrun)].
    destruct Hst as [[Hcl (fd & ln & Hh)]|[([=] & _)|([=] & _)]].
    destruct (next_act o c evs _ ended _ _ rest Hrun eq_refl Hcl) as [_ Hclose].
    destruct (Hclose eq_refl) as [-> Hup]. right; left. split; [done|]. split; [by rewrite isUp_snoc|].
    cbn in E. rewrite Hh in E. cbn in E. injection E as <-. eexists _, fd. cbn. by rewrite lookup_insert_eq.
  - destruct (Fleet.step sockPath mode (Fleet.Does i Fleet.Release) (fl m)) as [f|] eqn:E; [|done].
    pose proof (step_moves _ _ _ _ (mi_fleet m Hi) E) as Hm.
    assert (Hst : i ∉ solo m -> rest = [Exit 0] /\ up i (log m) = false /\
      exists ph fd, insts (fl m) !! i = Some ph /\ Fleet.seatOf ph = Some fd).
    { intros Hs. destruct (mi_todo m Hi i _ Hs Ht) as [Hst (o & c & evs & ended & Hrun)].
      destruct Hst as [[Hcl _]|[([= ->] & Hd & Hph)|([=] & _)]]; [|done].
      by destruct (next_act o c evs _ ended _ _ rest Hrun eq_refl Hcl) as [[] _]. }
    assert (Hns : i ∉ solo m) by (intros Hs; eapply Hno; auto).
    destruct (Hst Hns) as (-> & Hd & ph & fd & Hph & Hseat). apply Hgo; [done|by intros; eapply Hno; auto|..].
    + intros _. right; right. split; [done|]. by rewrite isUp_snoc.
    + intros _ j Hj. by eapply (up_seat m i).
Qed.

(** A turn of the fleet that ends no process leaves every hub where it is. *)
Lemma turn_inv e m : inv m -> inv (mstep (Turn e) m).
Proof.
  intros Hi.
  assert (Hgo : forall f, Fleet.step sockPath mode e (fl m) = Some f ->
    (forall i, e <> Fleet.Spawn i) ->
    (forall i t rest, e = Fleet.Does i t -> todo m !! i = Some rest ->
       t <> Fleet.Crash /\ t <> Fleet.Shutdown /\ t <> Fleet.Release) -> inv (setFl f m)).
  { intros f E Hsp He. destruct Hi as [H1 H2 HK H3 H4 H5 H6]. split; cbn; [by eapply Fleet.step_inv|done| |done| |done|done].
    - intros j [Hj|Hj]; apply HK; [by left|]. right. destruct (decide (Fleet.actor e = Some j)) as [Ha|Hne].
      + destruct e as [i|i t|c]; cbn in Ha, E; [by destruct (Hsp i)| |done]. injection Ha as ->.
        destruct (insts (fl m) !! j); [by eexists|done].
      + by rewrite <- (Fleet.step_others sockPath mode e _ f j E Hne).
    - intros i rest Hs Ht. destruct (H4 i rest Hs Ht) as [Hst Hrun]. split; [|done].
      destruct (decide (Fleet.actor e = Some i)) as [Ha|Hne].
      2:{ unfold stage. by rewrite (Fleet.step_others sockPath mode e _ f i E Hne). }
      destruct e as [j|j t|c]; cbn in Ha; [by destruct (Hsp j)| |done]. injection Ha as ->.
      destruct (He i t rest eq_refl Ht) as (N1 & N2 & N3). cbn in E.
      destruct (insts (fl m) !! i) as [ph|] eqn:Hp; cbn in E; [|done].
      destruct (Fleet.move sockPath mode t ph (Fleet.kern (fl m)) (Fleet.os (fl m))) as [[[ph' k] w]|] eqn:Hm; cbn in E; [|done].
      injection E as <-. destruct Hst as [[_ (fd & ln & Hh)]|[(E1 & E2 & ph1 & fd & Hh & Hseat)|Hst]].
      + exfalso. rewrite Hp in Hh. injection Hh as ->. by destruct t.
      + right; left. split; [done|]. split; [done|]. exists ph', fd. cbn. rewrite lookup_insert_eq. split; [done|].
        rewrite Hp in Hh. injection Hh as ->.
        destruct (Fleet.move_seat sockPath mode _ _ _ _ _ _ _ (Fleet.inv_kern _ _ H1) Hm) as [_ Hsm].
        inversion Hsm; [congruence|congruence|]. exfalso.
        revert Hm. destruct t as [r0|oe|fa| | |fa| |], ph1; try done; cbn [Fleet.move].
        * destruct (UnixSeq.bindStep _ _ _ _ _) as [[?|[[]|]] ?]; intros [= <- <- <-]; cbn in *; congruence.
        * destruct (UnixSeq.closeStep _ _ _ _) as [[?|] ?]; intros [= <- <- <-]; cbn in *; congruence.
      + by right; right. }
  destruct e as [i|i t|c]; cbn [mstep]; [done| |].
  - destruct t as [r|oe|fa| | |fa| |]; try done; try (by apply die_inv).
    all: try (destruct (Fleet.step _ _ _ _) as [f|] eqn:E; [|done]; apply (Hgo f eq_refl); [done|]; by intros ? ? ? [= <- <-]).
    case_bool_decide as Hn; [done|].
    destruct (Fleet.step _ _ _ _) as [f|] eqn:E; [|done]. apply (Hgo f eq_refl); [done|].
    intros j t rest [= <- <-] Ht. destruct Hn. by eexists.
  - destruct (Fleet.step _ _ _ _) as [f|] eqn:E; [|done]. by apply (Hgo f eq_refl).
Qed.

Lemma mrun_inv evs : forall m, inv m -> inv (mrun evs m).
Proof.
  induction evs as [|e evs IH]; intros m Hi; [done|]. apply IH. destruct e as [i st|e|i o evs'|i].
  - by apply launch_inv.
  - by apply turn_inv.
  - by apply serve_inv.
  - by apply doAct_inv.
Qed.

(** C6: one uplink at a time. Whatever the processes of a machine do, in any order, each with any
    configuration, with failing system calls, older binaries and crashes: among those in
    switch mode on one socket, at most one uplink (NAT or tap, and the DHCP service
    with it) is up, and its process is the hub that holds the seat; and when a hub gives its
    seat back no uplink of theirs is up, so the next one starts its own after the last
    has closed or its process has died. (A process with the switch off has an uplink of its
    own.) *)
Theorem one_uplink evs fs :
  let m := mrun evs (machine0 fs) in
  (forall i j, i ∉ solo m -> j ∉ solo m -> up i (log m) = true -> up j (log m) = true -> i = j) /\
  (forall i, i ∉ solo m -> up i (log m) = true -> exists fd ln, insts (fl m) !! i = Some (Hub fd ln) /\
     Elect.flocks (Fleet.kern (fl m)) !! Elect.lockPathOf sockPath = Some fd) /\
  (forall i j l1 l2, j ∉ solo m -> log m = l1 ++ Did i ReleaseSeat :: l2 -> up j l1 = false).
Proof.
  intros m. pose proof (mrun_inv evs _ (inv_machine0 fs)) as Hi. fold m in Hi. split_and!.
  - intros i j Hsi Hsj (fd & ln & Hh)%(up_hub m i Hi Hsi) (fd' & ln' & Hh')%(up_hub m j Hi Hsj).
    by eapply (Fleet.seat_unique sockPath _ i j _ _ fd fd' (mi_fleet m Hi) Hh Hh').
  - intros i Hs (fd & ln & Hh)%(up_hub m i Hi Hs). exists fd, ln. split; [done|].
    by eapply (Fleet.inv_seat sockPath _ (mi_fleet m Hi) i).
  - apply (mi_release m Hi).
Qed.

End Machine.

(** ** An evaluated handover

    Processes 0 and 1 are in switch mode: 0 is the hub and is told to end; 1, its
    peer, takes over. Process 2 has the switch off and an uplink of its own all the while. *)
Definition sock : string := "/tmp/vde.socket".
Definition demoStart (switch : bool) : start :=
  mkStart "eth0" 3 (Config.setUplink "slirp" Config.Defaults) 1500 sock switch.
Definition started : list event :=
  [Launch 0 (demoStart true); Launch 1 (demoStart true); Launch 2 (demoStart false)]%nat.
Definition turns (es : list Fleet.event) : list event := Turn <$> es.
Definition serveEv (i : nat) : event := Serve i demoOutside [SIGTERM].
Definition firstHub : list event :=
  started ++ serveEv 2 :: replicate 6 (Act 2) ++ turns (Fleet.promotes 0 10) ++ serveEv 0 ::
  turns [Fleet.Does 1 (Fleet.Connect false)]%nat ++ replicate 7 (Act 0).
Definition secondHub : list event :=
  firstHub ++ replicate 5 (Act 0) ++ turns (replicate 2 (Fleet.Does 0 (Fleet.CloseStep false)))%nat ++ replicate 2 (Act 0) ++
  turns (Fleet.Does 1 Fleet.Lost :: Fleet.promotes 1 10)%nat ++ serveEv 1 :: replicate 7 (Act 1).

Definition ups (evs : list event) : list bool :=
  let l := log (mrun sock 0 evs (machine0 ∅)) in [up 0 l; up 1 l; up 2 l].

Lemma demo_handover : ups firstHub = [true; false; true] /\ ups secondHub = [false; true; true].
Proof. split; vm_compute; reflexivity. Qed.
